(** * DineFlow backend: the order lifecycle handlers of [server.js]

    A shallow embedding of the four order routes of [src/server.js]

      - [POST /api/orders]                          ([create_order])
      - [PUT  /api/orders/:id/status]               ([update_order_status])
      - [POST /api/orders/:id/cancel]               ([cancel_order])
      - [POST /api/orders/:id/items/:itemId/cancel] ([cancel_order_item])

    over a model of the MySQL store they talk to (the tables of
    [src/database.sql] and [src/update-schema-features.js]) and of the
    JavaScript numbers the totals are computed with.

    Conventions.
      - A JavaScript [Number] is an IEEE-754 binary64 value: [spec_float] with
        [prec = 53] and [emax = 1024]; [+] and [*] are [SFadd] and [SFmul].
      - A handler is a computation in a small state-and-exception monad over a
        [world]: the committed tables, the open transaction of the connection,
        the AUTO_INCREMENT counters, the storage faults still to come and the
        socket events emitted so far.
      - Request fields are present at the type the route reads them at; the
        optional ones are the fields the handler itself tests for absence
        ([table_number], [items], [customer_id]) and the one the specification
        makes optional ([cancelled_by]).
      - One request runs at a time; timestamps are not modelled. *)

From Stdlib Require Import ZArith NArith List Bool String QArith Qround Qabs Lia Lqa.
From Stdlib Require Import SpecFloat.
From Stdlib Require Import Ascii Permutation Sorted DecimalString.
Import ListNotations.
Open Scope string_scope.
Open Scope list_scope.
Open Scope Z_scope.

(** ** JavaScript numbers *)

Module JsNumber.

Definition number := spec_float.

Definition prec : Z := 53.
Definition emax : Z := 1024.

(** [a + b] and [a * b] on Numbers. *)
Definition add : number -> number -> number := SFadd prec emax.
Definition mul : number -> number -> number := SFmul prec emax.

(** A decimal literal as it arrives in the JSON body: [dec_mant / 10 ^ dec_scale]. *)
Record decimal := { dec_mant : Z; dec_scale : N }.

Definition pow10 (k : N) : positive := Z.to_pos (10 ^ Z.of_N k).

(** The binary64 value nearest to [p / q] (ties to even). *)
Definition round_ratio (s : bool) (p q : positive) : number :=
  let '(m, e, l) := SFdiv_core_binary prec emax (Zpos p) 0 (Zpos q) 0 in
  binary_round_aux prec emax s m e l.

(** [parseFloat(v)] for a numeric [v].  The body is JSON: a decimal literal
    reaches the route as the Number nearest to it, and [parseFloat] of a Number,
    or of a string holding the literal, is that Number. *)
Definition parseFloat (d : decimal) : number :=
  match dec_mant d with
  | Z0 => S754_zero false
  | Zpos p => round_ratio false p (pow10 (dec_scale d))
  | Zneg p => round_ratio true p (pow10 (dec_scale d))
  end.

(** An integer of the body read as a Number (the operand of [* item.quantity]). *)
Definition of_Z (z : Z) : number := parseFloat {| dec_mant := z; dec_scale := 0 |}.

(** The text [x.toFixed(2)] returns, by shape. *)
Inductive fixed :=
| FxNaN                                   (* "NaN" *)
| FxInfinity (neg : bool)                 (* "Infinity", "-Infinity" *)
| FxExponent (x : number)                 (* |x| >= 1e21: exponent notation *)
| FxDecimal (neg : bool) (hundredths : Z) (* sign, then n as d...d.dd *).

(** [m * 2^e >= 10^21]. *)
Definition ge_1e21 (m : positive) (e : Z) : bool :=
  match e with
  | Zneg k => 10 ^ 21 * 2 ^ Zpos k <=? Zpos m
  | _ => 10 ^ 21 <=? Zpos m * 2 ^ e
  end.

(** The integer [n] for which [n / 100 - m * 2^e] is closest to zero, the
    larger one when there are two. *)
Definition nearest_hundredth (m : positive) (e : Z) : Z :=
  match e with
  | Zneg k => (200 * Zpos m + 2 ^ Zpos k) / 2 ^ (Zpos k + 1)
  | _ => 100 * Zpos m * 2 ^ e
  end.

(** [Number.prototype.toFixed] at [fractionDigits = 2]. *)
Definition toFixed2 (x : number) : fixed :=
  match x with
  | S754_nan => FxNaN
  | S754_infinity s => FxInfinity s
  | S754_zero _ => FxDecimal false 0
  | S754_finite s m e =>
      if ge_1e21 m e then FxExponent x else FxDecimal s (nearest_hundredth m e)
  end.

(** The rational [m * 2^e]. *)
Definition magnitude (m : positive) (e : Z) : Q :=
  match e with
  | Zneg k => Zpos m # (2 ^ k)
  | _ => inject_Z (Zpos m * 2 ^ e)
  end.

(** The real number a finite Number stands for. *)
Definition exact (x : number) : Q :=
  match x with
  | S754_finite s m e => if s then Qopp (magnitude m e) else magnitude m e
  | _ => 0%Q
  end.

(** The real number a decimal literal stands for. *)
Definition decimal_value (d : decimal) : Q := dec_mant d # pow10 (dec_scale d).

(** Rounding to hundredths, a half going up. *)
Definition half_up_hundredths (q : Q) : Z := Qfloor (100 * q + (1 # 2)).

(** The same on the magnitude, the sign put back: a half goes away from zero. *)
Definition round_hundredths (q : Q) : Z :=
  if Qle_bool 0 q then half_up_hundredths q else - half_up_hundredths (- q).

Definition is_finite (x : number) : bool :=
  match x with
  | S754_zero _ | S754_finite _ _ _ => true
  | _ => false
  end.

(** *** Whole numbers

    Every integer below [2^53] in magnitude is a Number.  [canon s n] is the
    one that holds [n] with sign [s], its mantissa normalised to 53 bits. *)

(** A mantissa on its way through [shr] with no bit shifted out of it yet. *)
Definition exact_record (m : Z) : shr_record := {| shr_m := m; shr_r := false; shr_s := false |}.

(** The 53-bit mantissa of a positive integer below [2^53], and the Number
    that integer is. *)
Definition lift53 (n : positive) : positive := Z.to_pos (Zpos n * 2 ^ (53 - Zpos (Pos.size n))).
Definition canon (s : bool) (n : positive) : number :=
  S754_finite s (lift53 n) (Zpos (Pos.size n) - 53).

(** The Number that holds a non-negative integer below [2^53]. *)
Definition whole (n : Z) : number :=
  match n with
  | Zpos p => canon false p
  | _ => S754_zero false
  end.

End JsNumber.

Import JsNumber.

(** ** The MySQL store

    Rows carry the columns the order routes read or write.  Money columns are
    [DECIMAL(10,2)]: a row holds the number of hundredths. *)

Record table_row := {
  rt_id : Z;
  rt_table_number : Z;
  rt_table_name : string;
  rt_is_active : bool
}.

Record menu_item_row := {
  mi_id : Z;
  mi_name : string
}.

Record order_row := {
  o_id : Z;
  o_table_id : Z;
  o_table_number : Z;
  o_customer_id : option Z;
  o_total_amount_inr : Z;
  o_total_amount_usd : Z;
  o_currency : string;
  o_payment_method : string;
  o_order_status : string;
  o_payment_status : string
}.

(** [order_items] keeps the parameters the insert was bound to; [item_status]
    takes its column default. *)
Record order_item_row := {
  oi_id : Z;
  oi_order_id : Z;
  oi_menu_item_id : Z;
  oi_item_name : string;
  oi_quantity : Z;
  oi_price_inr : decimal;
  oi_price_usd : decimal;
  oi_item_status : string
}.

Record cancellation_row := {
  oc_id : Z;
  oc_order_id : Z;
  oc_item_id : option Z;
  oc_reason : string;
  oc_cancelled_by : string
}.

Record store := {
  restaurant_tables : list table_row;
  menu_items : list menu_item_row;
  orders : list order_row;
  order_items : list order_item_row;
  order_cancellations : list cancellation_row
}.

(** AUTO_INCREMENT counters.  InnoDB does not give a value back when the
    transaction that drew it rolls back, so they live outside the tables. *)
Record counters := {
  next_order_id : Z;
  next_order_item_id : Z;
  next_cancellation_id : Z
}.

Module Sql.

(** What a bound text becomes in a [DECIMAL(10,2)] column under the strict SQL
    mode: a value of at most ten digits, or an error. *)
Definition decimal_10_2 (t : fixed) : option Z :=
  match t with
  | FxDecimal neg n =>
      if n <=? 9999999999 then Some (if neg then - n else n) else None
  | _ => None
  end.

(** Whether a row with this primary key exists (the foreign-key checks). *)
Definition has_table (s : store) (id : Z) : bool :=
  existsb (fun r => rt_id r =? id) (restaurant_tables s).

Definition has_menu_item (s : store) (id : Z) : bool :=
  existsb (fun r => mi_id r =? id) (menu_items s).

Definition has_order (s : store) (id : Z) : bool :=
  existsb (fun r => o_id r =? id) (orders s).

(** [SELECT id FROM restaurant_tables WHERE table_number = ?] *)
Definition select_table_ids (n : Z) (s : store) : list Z :=
  map rt_id (filter (fun r => rt_table_number r =? n) (restaurant_tables s)).

(** [SELECT * FROM orders WHERE id = ?] *)
Definition select_order (id : Z) (s : store) : list order_row :=
  filter (fun r => o_id r =? id) (orders s).

(** [SELECT * FROM order_items WHERE order_id = ?] *)
Definition select_order_items (id : Z) (s : store) : list order_item_row :=
  filter (fun r => oi_order_id r =? id) (order_items s).

(** [INSERT INTO orders (table_id, table_number, customer_id, total_amount_inr,
    total_amount_usd, currency, payment_method, order_status, payment_status)
    VALUES (?, ?, ?, ?, ?, ?, ?, ?, ?)]; the result is [insertId].  The totals
    are bound as the texts [toFixed(2)] returned; [table_id] is a foreign key
    into [restaurant_tables]. *)
Definition insert_order (table_id table_number : Z) (customer_id : option Z)
    (total_inr total_usd : fixed) (currency payment_method order_status payment_status : string)
    (s : store) (c : counters) : option (Z * store * counters) :=
  match decimal_10_2 total_inr, decimal_10_2 total_usd with
  | Some amount_inr, Some amount_usd =>
      if has_table s table_id then
        let id := next_order_id c in
        let row := {| o_id := id; o_table_id := table_id; o_table_number := table_number;
                      o_customer_id := customer_id;
                      o_total_amount_inr := amount_inr; o_total_amount_usd := amount_usd;
                      o_currency := currency; o_payment_method := payment_method;
                      o_order_status := order_status; o_payment_status := payment_status |} in
        Some (id,
              {| restaurant_tables := restaurant_tables s; menu_items := menu_items s;
                 orders := orders s ++ [row];
                 order_items := order_items s;
                 order_cancellations := order_cancellations s |},
              {| next_order_id := id + 1;
                 next_order_item_id := next_order_item_id c;
                 next_cancellation_id := next_cancellation_id c |})
      else None
  | _, _ => None
  end.

(** [INSERT INTO order_items (order_id, menu_item_id, item_name, quantity,
    price_inr, price_usd) VALUES (?, ?, ?, ?, ?, ?)]; [order_id] is a foreign
    key into [orders] and [menu_item_id] one into [menu_items]. *)
Definition insert_order_item (order_id menu_item_id : Z) (item_name : string)
    (quantity : Z) (price_inr price_usd : decimal)
    (s : store) (c : counters) : option (unit * store * counters) :=
  if has_order s order_id && has_menu_item s menu_item_id then
    let row := {| oi_id := next_order_item_id c; oi_order_id := order_id;
                  oi_menu_item_id := menu_item_id; oi_item_name := item_name;
                  oi_quantity := quantity;
                  oi_price_inr := price_inr; oi_price_usd := price_usd;
                  oi_item_status := "active" |} in
    Some (tt,
          {| restaurant_tables := restaurant_tables s; menu_items := menu_items s;
             orders := orders s;
             order_items := order_items s ++ [row];
             order_cancellations := order_cancellations s |},
          {| next_order_id := next_order_id c;
             next_order_item_id := next_order_item_id c + 1;
             next_cancellation_id := next_cancellation_id c |})
  else None.

Definition set_order_status (st : string) (r : order_row) : order_row :=
  {| o_id := o_id r; o_table_id := o_table_id r; o_table_number := o_table_number r;
     o_customer_id := o_customer_id r;
     o_total_amount_inr := o_total_amount_inr r; o_total_amount_usd := o_total_amount_usd r;
     o_currency := o_currency r; o_payment_method := o_payment_method r;
     o_order_status := st; o_payment_status := o_payment_status r |}.

Definition set_item_status (st : string) (r : order_item_row) : order_item_row :=
  {| oi_id := oi_id r; oi_order_id := oi_order_id r; oi_menu_item_id := oi_menu_item_id r;
     oi_item_name := oi_item_name r; oi_quantity := oi_quantity r;
     oi_price_inr := oi_price_inr r; oi_price_usd := oi_price_usd r;
     oi_item_status := st |}.

(** [UPDATE orders SET order_status = ? WHERE id = ?]; the result is
    [affectedRows].  The pool is created without [flags], so the driver connects
    with its default FOUND_ROWS flag and [affectedRows] counts the rows the
    [WHERE] matched, changed or not. *)
Definition update_order_status_where_id (st : string) (id : Z)
    (s : store) (c : counters) : option (Z * store * counters) :=
  Some (Z.of_nat (List.length (filter (fun r => o_id r =? id) (orders s))),
        {| restaurant_tables := restaurant_tables s; menu_items := menu_items s;
           orders := map (fun r => if o_id r =? id then set_order_status st r else r) (orders s);
           order_items := order_items s;
           order_cancellations := order_cancellations s |},
        c).

(** [UPDATE order_items SET item_status = "cancelled" WHERE id = ? AND order_id = ?] *)
Definition update_item_status_where (st : string) (item_id order_id : Z)
    (s : store) (c : counters) : option (Z * store * counters) :=
  let hit r := (oi_id r =? item_id) && (oi_order_id r =? order_id) in
  Some (Z.of_nat (List.length (filter hit (order_items s))),
        {| restaurant_tables := restaurant_tables s; menu_items := menu_items s;
           orders := orders s;
           order_items := map (fun r => if hit r then set_item_status st r else r) (order_items s);
           order_cancellations := order_cancellations s |},
        c).

(** The characters of a text.  A text is the UTF-8 bytes the JSON body has,
    and the columns are [utf8mb4], the default of the server: a byte
    [10xxxxxx] continues a character. *)
Definition continues (c : ascii) : bool :=
  match c with
  | Ascii _ _ _ _ _ _ b6 b7 => b7 && negb b6
  end.

Fixpoint characters (s : string) : nat :=
  match s with
  | EmptyString => 0
  | String c s' => ((if continues c then 0 else 1) + characters s')%nat
  end.

(** What a [VARCHAR(n)] column takes under the strict SQL mode: at most [n]
    characters; and a [TEXT] column: at most 65535 bytes. *)
Definition varchar (n : nat) (s : string) : bool := (characters s <=? n)%nat.
Definition text (s : string) : bool := Z.of_nat (String.length s) <=? 65535.

(** [INSERT INTO order_cancellations (order_id, item_id, reason, cancelled_by)
    VALUES (?, ?, ?, ?)]; [order_id] is a foreign key into [orders], [reason]
    is [TEXT NOT NULL] and [cancelled_by] is [VARCHAR(50)]; its default never
    applies, the statement names the column. *)
Definition insert_cancellation (order_id : Z) (item_id : option Z) (reason cancelled_by : string)
    (s : store) (c : counters) : option (unit * store * counters) :=
  if has_order s order_id && text reason && varchar 50 cancelled_by then
    let row := {| oc_id := next_cancellation_id c; oc_order_id := order_id;
                  oc_item_id := item_id; oc_reason := reason;
                  oc_cancelled_by := cancelled_by |} in
    Some (tt,
          {| restaurant_tables := restaurant_tables s; menu_items := menu_items s;
             orders := orders s;
             order_items := order_items s;
             order_cancellations := order_cancellations s ++ [row] |},
          {| next_order_id := next_order_id c;
             next_order_item_id := next_order_item_id c;
             next_cancellation_id := next_cancellation_id c + 1 |})
  else None.

(** A read never changes the store. *)
Definition query {A : Type} (q : store -> A) (s : store) (c : counters)
  : option (A * store * counters) :=
  Some (q s, s, c).

End Sql.

(** ** Requests, responses and socket events *)

(** One entry of [req.body.items]. *)
Record order_item := {
  it_id : Z;
  it_name : string;
  it_quantity : Z;
  it_price_inr : decimal;
  it_price_usd : decimal
}.

(** [req.body] of [POST /api/orders].  [None] is an absent (or [null]) field. *)
Record order_request := {
  table_number : option Z;
  items : option (list order_item);
  currency : string;
  payment_method : string;
  customer_id : option Z
}.

(** [{ ...orderRows[0], items: itemsRows }], and a bare order row. *)
Inductive payload :=
| OrderWithItems (order : option order_row) (items : list order_item_row)
| Order (order : option order_row).

Inductive response :=
| Success (data : payload)                (* res.json({ success: true, data }) *)
| SuccessMessage (message : string)       (* res.json({ success: true, message }) *)
| Failure (status : Z) (message : string) (* res.status(status).json({ success: false, message }) *).

Inductive event :=
| new_order (data : payload)              (* io.emit('new-order', orderData) *)
| order_status_updated (order : option order_row).

(** The error kinds of the specification, read off the status code. *)
Inductive error_kind := InvalidInput | NotFound | StorageFailure.

Definition kind_of (r : response) : option error_kind :=
  match r with
  | Failure 400 _ => Some InvalidInput
  | Failure 404 _ => Some NotFound
  | Failure 500 _ => Some StorageFailure
  | _ => None
  end.

Definition succeeded (r : response) : bool :=
  match r with
  | Success _ | SuccessMessage _ => true
  | Failure _ _ => false
  end.

(** ** The handler monad *)

Record world := {
  committed : store;          (* what every connection sees *)
  pending : option store;     (* the open transaction of this connection *)
  auto_inc : counters;
  faults : list bool;         (* one flag per statement still to be sent *)
  emitted : list event        (* most recent last *)
}.

Inductive result (A : Type) :=
| Returned (a : A)
| Thrown.
Arguments Returned {A} a.
Arguments Thrown {A}.

(** A computation that may throw, and one that cannot (a [catch] or [finally]
    block, a whole handler). *)
Definition M (A : Type) := world -> result A * world.
Definition total (A : Type) := world -> A * world.

Definition ret {A : Type} (a : A) : M A := fun w => (Returned a, w).

Definition bind {A B : Type} (m : M A) (k : A -> M B) : M B :=
  fun w => match m w with
           | (Returned a, w') => k a w'
           | (Thrown, w') => (Thrown, w')
           end.

Declare Scope handler_scope.
Delimit Scope handler_scope with handler.
Notation "x <- m ;; k" := (bind m (fun x => k))
  (at level 61, m at next level, right associativity) : handler_scope.
Notation "m ;; k" := (bind m (fun _ => k))
  (at level 61, right associativity) : handler_scope.
Open Scope handler_scope.

Definition lift {A : Type} (t : total A) : M A :=
  fun w => let (a, w') := t w in (Returned a, w').

(** [try { body } catch (error) { handler }] *)
Definition try_catch {A : Type} (body : M A) (handler : total A) : total A :=
  fun w => match body w with
           | (Returned a, w') => (a, w')
           | (Thrown, w') => handler w'
           end.

(** [... finally { cleanup }] *)
Definition finally_ {A : Type} (body : total A) (cleanup : total unit) : total A :=
  fun w => let (a, w') := body w in (a, snd (cleanup w')).

Definition set_faults (fl : list bool) (w : world) : world :=
  {| committed := committed w; pending := pending w; auto_inc := auto_inc w;
     faults := fl; emitted := emitted w |}.

(** Whether the storage layer fails the statement about to be sent (connection
    loss, timeout, a lock that cannot be taken). *)
Definition next_fault (w : world) : bool * world :=
  match faults w with
  | [] => (false, w)
  | b :: fl => (b, set_faults fl w)
  end.

(** The tables a statement of this connection runs against. *)
Definition view (w : world) : store :=
  match pending w with
  | Some s => s
  | None => committed w
  end.

Definition write_back (s : store) (c : counters) (w : world) : world :=
  match pending w with
  | Some _ => {| committed := committed w; pending := Some s; auto_inc := c;
                 faults := faults w; emitted := emitted w |}
  | None => {| committed := s; pending := None; auto_inc := c;
               faults := faults w; emitted := emitted w |}
  end.

(** [await connection.execute(sql, params)] and [await pool.execute(sql, params)]:
    inside a transaction the statement works on the pending tables, otherwise it
    commits on its own.  It throws when the storage layer fails it or when the
    statement breaks a constraint, and then changes nothing. *)
Definition execute {A : Type}
    (stmt : store -> counters -> option (A * store * counters)) : M A :=
  fun w =>
    let (failed, w1) := next_fault w in
    if failed then (Thrown, w1)
    else match stmt (view w1) (auto_inc w1) with
         | Some (a, s, c) => (Returned a, write_back s c w1)
         | None => (Thrown, w1)
         end.

(** [await connection.beginTransaction()] *)
Definition beginTransaction : M unit :=
  fun w =>
    let (failed, w1) := next_fault w in
    if failed then (Thrown, w1)
    else (Returned tt,
          {| committed := committed w1; pending := Some (view w1); auto_inc := auto_inc w1;
             faults := faults w1; emitted := emitted w1 |}).

(** [await connection.commit()] *)
Definition commit : M unit :=
  fun w =>
    let (failed, w1) := next_fault w in
    if failed then (Thrown, w1)
    else (Returned tt,
          {| committed := view w1; pending := None; auto_inc := auto_inc w1;
             faults := faults w1; emitted := emitted w1 |}).

(** [await connection.rollback()]: the pending tables are dropped.  A connection
    that is lost drops them as well, so for the tables this step has no failure
    of its own; a rollback that throws inside the [catch] block would leave the
    request unanswered, and the model answers as the [catch] block does. *)
Definition rollback : total unit :=
  fun w => (tt, {| committed := committed w; pending := None; auto_inc := auto_inc w;
                   faults := faults w; emitted := emitted w |}).

(** [connection.release()] *)
Definition release : total unit := fun w => (tt, w).

(** [io.emit(name, data)] *)
Definition emit (e : event) : M unit :=
  fun w => (Returned tt,
            {| committed := committed w; pending := pending w; auto_inc := auto_inc w;
               faults := faults w; emitted := emitted w ++ [e] |}).

(** [for (const x of xs) { await body(x) }] *)
Fixpoint for_of {A : Type} (xs : list A) (body : A -> M unit) : M unit :=
  match xs with
  | [] => ret tt
  | x :: xs' => body x ;; for_of xs' body
  end.

(** ** The routes *)

Definition zero : number := S754_zero false.

(** [total_inr] after the loop [for (const item of items) total_inr +=
    parseFloat(item.price_inr) * item.quantity], and likewise [total_usd]. *)
Definition total_inr (its : list order_item) : number :=
  fold_left (fun acc item => add acc (mul (parseFloat (it_price_inr item)) (of_Z (it_quantity item))))
            its zero.

Definition total_usd (its : list order_item) : number :=
  fold_left (fun acc item => add acc (mul (parseFloat (it_price_usd item)) (of_Z (it_quantity item))))
            its zero.

(** [customer_id || null] *)
Definition or_null (v : option Z) : option Z :=
  match v with
  | Some 0 => None
  | _ => v
  end.

Definition invalid_input : M response :=
  lift rollback ;;
  ret (Failure 400 "Table number and items are required").

(** [app.post('/api/orders', ...)], after [pool.getConnection()]. *)
Definition create_order (body : order_request) : total response :=
  finally_
    (try_catch
       (beginTransaction ;;
        (* if (!table_number || !items || items.length === 0) *)
        match table_number body, items body with
        | None, _ | Some 0, _ | _, None | _, Some [] => invalid_input
        | Some table_number, Some items =>
            tableRows <- execute (Sql.query (Sql.select_table_ids table_number)) ;;
            match tableRows with
            | [] =>
                lift rollback ;;
                ret (Failure 404 "Table not found")
            | table_id :: _ =>
                order_id <- execute (Sql.insert_order table_id table_number
                                       (or_null (customer_id body))
                                       (toFixed2 (total_inr items)) (toFixed2 (total_usd items))
                                       (currency body) (payment_method body)
                                       "pending"
                                       (if String.eqb (payment_method body) "cash"
                                        then "pending" else "paid")) ;;
                for_of items (fun item =>
                  execute (Sql.insert_order_item order_id (it_id item) (it_name item)
                             (it_quantity item) (it_price_inr item) (it_price_usd item))) ;;
                itemsRows <- execute (Sql.query (Sql.select_order_items order_id)) ;;
                commit ;;
                orderRows <- execute (Sql.query (Sql.select_order order_id)) ;;
                let orderData := OrderWithItems (hd_error orderRows) itemsRows in
                emit (new_order orderData) ;;
                ret (Success orderData)
            end
        end)
       (fun w => let (_, w') := rollback w in
                 (Failure 500 "Failed to create order", w')))
    release.

(** [app.put('/api/orders/:id/status', ...)] *)
Definition update_order_status (id : Z) (order_status : string) : total response :=
  try_catch
    (affectedRows <- execute (Sql.update_order_status_where_id order_status id) ;;
     if affectedRows =? 0 then ret (Failure 404 "Order not found")
     else
       updatedOrder <- execute (Sql.query (Sql.select_order id)) ;;
       emit (order_status_updated (hd_error updatedOrder)) ;;
       ret (Success (Order (hd_error updatedOrder))))
    (fun w => (Failure 500 "Failed to update order status", w)).

(** A field of the body bound to a statement as it is.  [None] is an absent
    field: the value is [undefined], which the driver refuses, so that
    [execute] throws before it sends anything. *)
Definition bound {A : Type} (v : option A) : M A :=
  fun w => match v with
           | Some a => (Returned a, w)
           | None => (Thrown, w)
           end.

(** [app.post('/api/orders/:id/cancel', ...)]; [cancelled_by] is
    [req.body.cancelled_by], which a request may leave out. *)
Definition cancel_order (id : Z) (reason : string) (cancelled_by : option string)
  : total response :=
  try_catch
    (execute (Sql.update_order_status_where_id "cancelled" id) ;;
     cancelled_by <- bound cancelled_by ;;
     execute (Sql.insert_cancellation id None reason cancelled_by) ;;
     ret (SuccessMessage "Order cancelled successfully"))
    (fun w => (Failure 500 "Failed to cancel order", w)).

(** [app.post('/api/orders/:id/items/:itemId/cancel', ...)] *)
Definition cancel_order_item (id itemId : Z) (reason : string) (cancelled_by : option string)
  : total response :=
  try_catch
    (execute (Sql.update_item_status_where "cancelled" itemId id) ;;
     cancelled_by <- bound cancelled_by ;;
     execute (Sql.insert_cancellation id (Some itemId) reason cancelled_by) ;;
     ret (SuccessMessage "Item cancelled successfully"))
    (fun w => (Failure 500 "Failed to cancel item", w)).

(** ** Running a handler against a database *)

Record database := {
  db_tables : store;
  db_counters : counters
}.

(** A request served on a fresh connection: what the caller receives, the
    database afterwards and the events emitted on the way. *)
Definition serve (h : total response) (d : database) (fl : list bool)
  : response * database * list event :=
  let (r, w) := h {| committed := db_tables d; pending := None;
                     auto_inc := db_counters d; faults := fl; emitted := [] |} in
  (r, {| db_tables := committed w; db_counters := auto_inc w |}, emitted w).

(** ** Vocabulary of the statements *)

(** The row [INSERT INTO order_items] writes for [item] under a given id. *)
Definition item_row (order_id row_id : Z) (item : order_item) : order_item_row :=
  {| oi_id := row_id; oi_order_id := order_id; oi_menu_item_id := it_id item;
     oi_item_name := it_name item; oi_quantity := it_quantity item;
     oi_price_inr := it_price_inr item; oi_price_usd := it_price_usd item;
     oi_item_status := "active" |}.

(** The rows of a whole item list, in submission order, ids drawn in sequence. *)
Fixpoint item_rows (order_id first_id : Z) (its : list order_item) : list order_item_row :=
  match its with
  | [] => []
  | item :: rest => item_row order_id first_id item :: item_rows order_id (first_id + 1) rest
  end.

Definition add_order (s : store) (o : order_row) : store :=
  {| restaurant_tables := restaurant_tables s; menu_items := menu_items s;
     orders := orders s ++ [o];
     order_items := order_items s;
     order_cancellations := order_cancellations s |}.

Definition add_items (s : store) (rows : list order_item_row) : store :=
  {| restaurant_tables := restaurant_tables s; menu_items := menu_items s;
     orders := orders s;
     order_items := order_items s ++ rows;
     order_cancellations := order_cancellations s |}.

(** The store with one more order and its item rows. *)
Definition added (s : store) (o : order_row) (rows : list order_item_row) : store :=
  add_items (add_order s o) rows.

(** The item loop of [create_order]. *)
Definition insert_items (order_id : Z) (its : list order_item) : M unit :=
  for_of its (fun item =>
    execute (Sql.insert_order_item order_id (it_id item) (it_name item)
               (it_quantity item) (it_price_inr item) (it_price_usd item))).

Definition payment_status_for (method : string) : string :=
  if String.eqb method "cash" then "pending" else "paid".

(** The row [INSERT INTO orders] writes for a request. *)
Definition order_row_for (body : order_request) (id table_id number amount_inr amount_usd : Z)
  : order_row :=
  {| o_id := id; o_table_id := table_id; o_table_number := number;
     o_customer_id := or_null (customer_id body);
     o_total_amount_inr := amount_inr; o_total_amount_usd := amount_usd;
     o_currency := currency body; o_payment_method := payment_method body;
     o_order_status := "pending";
     o_payment_status := payment_status_for (payment_method body) |}.

Definition submitted (body : order_request) : list order_item :=
  match items body with
  | Some its => its
  | None => []
  end.

(** Position, among the statements of one [create_order], of the read of the
    order row that follows the commit: after [beginTransaction], the table
    lookup, the order insert, one insert per item, the read of the item rows
    and the commit. *)
Definition read_back (body : order_request) : nat := 5 + List.length (submitted body).

(** The guard [!table_number || !items || items.length === 0], negated. *)
Definition usable (body : order_request) : bool :=
  match table_number body, items body with
  | Some number, Some (_ :: _) => negb (number =? 0)
  | _, _ => false
  end.

(** The table ids the lookup finds for the request. *)
Definition resolved (body : order_request) (d : database) : list Z :=
  match table_number body with
  | Some number => Sql.select_table_ids number (db_tables d)
  | None => []
  end.

(** Every way one [create_order] can end: the response, the database it leaves
    and the events it emitted. *)
Inductive create_outcome (body : order_request) (d : database) (fl : list bool)
  : response -> database -> list event -> Prop :=
| Invalid_request :
    nth 0 fl false = false ->
    usable body = false ->
    create_outcome body d fl (Failure 400 "Table number and items are required") d []
| Table_not_found :
    nth 0 fl false = false -> nth 1 fl false = false ->
    usable body = true ->
    resolved body d = [] ->
    create_outcome body d fl (Failure 404 "Table not found") d []
| Rolled_back c :
    nth 0 fl false = true \/
    (usable body = true /\ (nth 1 fl false = true \/ resolved body d <> [])) ->
    next_order_id (db_counters d) <= next_order_id c ->
    create_outcome body d fl (Failure 500 "Failed to create order")
      {| db_tables := db_tables d; db_counters := c |} []
| Orphaned c o its :
    usable body = true -> resolved body d <> [] ->
    items body = Some its ->
    o_id o = next_order_id (db_counters d) ->
    next_order_id c = next_order_id (db_counters d) + 1 ->
    (forall k, (k < read_back body)%nat -> nth k fl false = false) ->
    nth (read_back body) fl false = true ->
    create_outcome body d fl (Failure 500 "Failed to create order")
      {| db_tables := added (db_tables d) o
                        (item_rows (o_id o) (next_order_item_id (db_counters d)) its);
         db_counters := c |} []
| Created c number its table_id others amount_inr amount_usd :
    table_number body = Some number -> number <> 0 ->
    items body = Some its -> its <> [] ->
    Sql.select_table_ids number (db_tables d) = table_id :: others ->
    Sql.decimal_10_2 (toFixed2 (total_inr its)) = Some amount_inr ->
    Sql.decimal_10_2 (toFixed2 (total_usd its)) = Some amount_usd ->
    next_order_id c = next_order_id (db_counters d) + 1 ->
    let id := next_order_id (db_counters d) in
    let o := order_row_for body id table_id number amount_inr amount_usd in
    let s := added (db_tables d) o (item_rows id (next_order_item_id (db_counters d)) its) in
    let data := OrderWithItems (hd_error (Sql.select_order id s)) (Sql.select_order_items id s) in
    create_outcome body d fl (Success data) {| db_tables := s; db_counters := c |} [new_order data].

Definition mk_world c p a fl ev : world :=
  {| committed := c; pending := p; auto_inc := a; faults := fl; emitted := ev |}.

(** What [serve] makes of the way the [try] block of [create_order] ended. *)
Definition settled (body : order_request) (d : database) (fl : list bool)
    (rw : result response * world) : Prop :=
  let (r, w) := rw in
  create_outcome body d fl
    (match r with Returned a => a | Thrown => Failure 500 "Failed to create order" end)
    {| db_tables := committed w; db_counters := auto_inc w |} (emitted w).

(** The storage layer fails none of the first [n] statements. *)
Definition quiet_until (n : nat) (fl : list bool) : bool :=
  negb (existsb (fun b => b) (firstn n fl)).

(** The store takes the rows of the request: both totals fit their
    [DECIMAL(10,2)] column and every item names a dish of the menu
    ([order_items.menu_item_id] is a foreign key). *)
Definition accepted (body : order_request) (d : database) : bool :=
  match Sql.decimal_10_2 (toFixed2 (total_inr (submitted body))),
        Sql.decimal_10_2 (toFixed2 (total_usd (submitted body))) with
  | Some _, Some _ =>
      forallb (fun item => Sql.has_menu_item (db_tables d) (it_id item)) (submitted body)
  | _, _ => false
  end.

(** Nothing stops one [create_order] before its commit has gone through: the
    request passes the guard, its table is found, the store takes its rows and
    the storage layer fails none of the statements that come before
    [read_back], the commit being the last of them. *)
Definition commits (body : order_request) (d : database) (fl : list bool) : bool :=
  usable body
  && match resolved body d with [] => false | _ :: _ => true end
  && accepted body d
  && quiet_until (read_back body) fl.

(** The transaction a handler leaves open on the connection it was served on,
    if any, once it has answered. *)
Definition left_open {A : Type} (h : total A) (d : database) (fl : list bool) : option store :=
  pending (snd (h (mk_world (db_tables d) None (db_counters d) fl []))).

(** What the [try] block of [create_order] has done when it ends: where it
    returns, it has left no transaction open; and where something stopped it
    before the commit, it has committed nothing and has not returned a
    success. *)
Definition wound_up (body : order_request) (d : database) (fl : list bool)
    (rw : result response * world) : Prop :=
  let (r, w) := rw in
  match r with Returned _ => pending w = None | Thrown => True end /\
  (commits body d fl = false ->
   committed w = db_tables d /\
   match r with Returned a => succeeded a = false | Thrown => True end).

(** Ids already in use lie below the AUTO_INCREMENT counter: [orders.id] is a
    primary key and [order_items.order_id] a foreign key into it. *)
Definition well_formed (d : database) : bool :=
  forallb (fun o => o_id o <? next_order_id (db_counters d)) (orders (db_tables d))
  && forallb (fun r => oi_order_id r <? next_order_id (db_counters d)) (order_items (db_tables d)).

(** The storage layer fails none of the statements. *)
Definition no_fault (fl : list bool) : bool := negb (existsb (fun b => b) fl).

(** The requests the four routes serve. *)
Inductive route : total response -> Prop :=
| route_create_order body : route (create_order body)
| route_update_order_status id st : route (update_order_status id st)
| route_cancel_order id reason cancelled_by : route (cancel_order id reason cancelled_by)
| route_cancel_order_item id itemId reason cancelled_by :
    route (cancel_order_item id itemId reason cancelled_by).

(** The ids [well_formed] looks at. *)
Definition id_shape (s : store) : list Z * list Z :=
  (map o_id (orders s), map oi_order_id (order_items s)).

(** The databases the routes can make of a database [d0]. *)
Inductive reachable (d0 : database) : database -> Prop :=
| reach_start : reachable d0 d0
| reach_serve h fl d :
    reachable d0 d -> route h -> reachable d0 (snd (fst (serve h d fl))).

(** The sum of [price_inr * quantity] over the items, as real arithmetic on the
    submitted decimals has it; likewise for USD. *)
Definition exact_total_inr (its : list order_item) : Q :=
  fold_right (fun item acc => decimal_value (it_price_inr item) * inject_Z (it_quantity item) + acc)%Q
             0%Q its.

Definition exact_total_usd (its : list order_item) : Q :=
  fold_right (fun item acc => decimal_value (it_price_usd item) * inject_Z (it_quantity item) + acc)%Q
             0%Q its.

(** An item priced in whole units and ordered a whole number of times, both
    non-negative and below [2^53]. *)
Definition whole_line (price : order_item -> decimal) (item : order_item) : bool :=
  (dec_scale (price item) =? 0)%N &&
  (0 <=? dec_mant (price item)) && (dec_mant (price item) <? 2 ^ 53) &&
  (0 <=? it_quantity item) && (it_quantity item <? 2 ^ 53).

(** The sum of price times quantity over such items, in whole units. *)
Definition whole_total (price : order_item -> decimal) (its : list order_item) : Z :=
  fold_right (fun item acc => dec_mant (price item) * it_quantity item + acc) 0 its.

(** The tables after [UPDATE orders SET order_status = st WHERE id = id]. *)
Definition with_order_status (st : string) (id : Z) (s : store) : store :=
  {| restaurant_tables := restaurant_tables s; menu_items := menu_items s;
     orders := map (fun r => if o_id r =? id then Sql.set_order_status st r else r) (orders s);
     order_items := order_items s;
     order_cancellations := order_cancellations s |}.

(** The tables after [UPDATE order_items SET item_status = st WHERE id = item_id
    AND order_id = order_id]. *)
Definition with_item_status (st : string) (item_id order_id : Z) (s : store) : store :=
  {| restaurant_tables := restaurant_tables s; menu_items := menu_items s;
     orders := orders s;
     order_items := map (fun r => if (oi_id r =? item_id) && (oi_order_id r =? order_id)
                                  then Sql.set_item_status st r else r) (order_items s);
     order_cancellations := order_cancellations s |}.

(** The tables with one more cancellation record. *)
Definition with_cancellation (row : cancellation_row) (s : store) : store :=
  {| restaurant_tables := restaurant_tables s; menu_items := menu_items s;
     orders := orders s;
     order_items := order_items s;
     order_cancellations := order_cancellations s ++ [row] |}.

Definition bump_cancellation (c : counters) : counters :=
  {| next_order_id := next_order_id c;
     next_order_item_id := next_order_item_id c;
     next_cancellation_id := next_cancellation_id c + 1 |}.

(** The record [cancel_order] and [cancel_order_item] append. *)
Definition cancellation_for (c : counters) (order_id : Z) (item_id : option Z)
    (reason cancelled_by : string) : cancellation_row :=
  {| oc_id := next_cancellation_id c; oc_order_id := order_id; oc_item_id := item_id;
     oc_reason := reason; oc_cancelled_by := cancelled_by |}.

(** The database one accepted [cancel_order] leaves. *)
Definition cancelled (id : Z) (reason cancelled_by : string) (d : database) : database :=
  {| db_tables := with_cancellation (cancellation_for (db_counters d) id None reason cancelled_by)
                    (with_order_status "cancelled" id (db_tables d));
     db_counters := bump_cancellation (db_counters d) |}.

(** ** A small restaurant

    The seed data of [database.sql] cut down to two tables, one of them taken
    out of service, and two dishes. *)

Definition demo : database :=
  {| db_tables :=
       {| restaurant_tables :=
            [ {| rt_id := 3; rt_table_number := 3; rt_table_name := "Table 3";
                 rt_is_active := true |};
              {| rt_id := 7; rt_table_number := 7; rt_table_name := "Table 7";
                 rt_is_active := false |} ];
          menu_items := [ {| mi_id := 1; mi_name := "Margherita Pizza" |};
                          {| mi_id := 8; mi_name := "Coffee" |} ];
          orders := []; order_items := []; order_cancellations := [] |};
     db_counters := {| next_order_id := 1; next_order_item_id := 1;
                       next_cancellation_id := 1 |} |}.

Definition rupees (n : Z) : decimal := {| dec_mant := n; dec_scale := 0 |}.
Definition cents (n : Z) : decimal := {| dec_mant := n; dec_scale := 2 |}.
Definition thousandths (n : Z) : decimal := {| dec_mant := n; dec_scale := 3 |}.

Definition pizza (quantity : Z) : order_item :=
  {| it_id := 1; it_name := "Margherita Pizza"; it_quantity := quantity;
     it_price_inr := rupees 299; it_price_usd := cents 399 |}.

Definition coffee (price_inr : decimal) : order_item :=
  {| it_id := 8; it_name := "Coffee"; it_quantity := 1;
     it_price_inr := price_inr; it_price_usd := cents 109 |}.

Definition request (number : Z) (its : list order_item) : order_request :=
  {| table_number := Some number; items := Some its; currency := "INR";
     payment_method := "cash"; customer_id := None |}.

(** Two pizzas at table 3, paid in cash. *)
Definition pizza_request : order_request := request 3 [pizza 2].

(** A pizza and a dish the menu does not have, at table 3. *)
Definition unknown_dish : order_item :=
  {| it_id := 999; it_name := "Soup of the day"; it_quantity := 1;
     it_price_inr := rupees 120; it_price_usd := cents 159 |}.

Definition soup_request : order_request := request 3 [pizza 1; unknown_dish].

(** What serving it to [demo] gives, and the database after it. *)
Definition pizza_served : response * database * list event :=
  Eval vm_compute in serve (create_order pizza_request) demo [].

Definition after_pizza : database := snd (fst pizza_served).

(** A second order, a coffee at table 3, placed after the pizzas. *)
Definition coffee_request : order_request := request 3 [coffee (rupees 79)].

Definition two_orders : database :=
  Eval vm_compute in snd (fst (serve (create_order coffee_request) after_pizza [])).

(** The storage layer failing the statement at position [k] and no other. *)
Definition fault_at (k : nat) : list bool := repeat false k ++ [true].

(** A text of 62 characters, more than [cancelled_by] takes. *)
Definition long_name : string :=
  "the customer at table 3 by the window, second seat on the left".

(** The three parts of what [serve] returns. *)
Definition response_of (x : response * database * list event) : response := fst (fst x).
Definition database_of (x : response * database * list event) : database := snd (fst x).
Definition events_of (x : response * database * list event) : list event := snd x.

(** * Further routes

    The routes below share the store and the handler monad of the order
    routes. *)

(** ** [GET /api/orders] *)

(** How the server compares two texts in a [WHERE] clause is the business of
    the column's collation: the default ones ignore case and accents,
    [utf8mb4_bin] is equality.  The routes only need it to be an equivalence. *)
Class Collation := {
  same : string -> string -> bool;
  same_refl : forall a, same a a = true;
  same_sym : forall a b, same a b = same b a;
  same_trans : forall a b c, same a b = true -> same b c = true -> same a c = true
}.

(** The binary collation. *)
Definition binary_collation : Collation :=
  {| same := String.eqb;
     same_refl := String.eqb_refl;
     same_sym := String.eqb_sym;
     same_trans := fun a b c Hab Hbc =>
       eq_trans (f_equal (String.eqb a) (eq_sym (proj1 (String.eqb_eq b c) Hbc))) Hab |}.

(** [req.query] of [GET /api/orders].  A query parameter is a text and [None]
    an absent one; a parameter the statement compares with an integer or a
    time column is given as the number it denotes, so that [?table_number=0],
    a non-empty text, is [Some 0]. *)
Record orders_query := {
  q_status : option string;
  q_start_date : option Z;
  q_end_date : option Z;
  q_table_number : option Z;
  q_customer_id : option Z
}.

(** What a route that lists rows sends. *)
Inductive listing (A : Type) :=
| Listed (data : list A)                     (* res.json({ success: true, data }) *)
| NotListed (status : Z) (message : string)  (* res.status(status).json({ success: false, message }) *).
Arguments Listed {A} data.
Arguments NotListed {A} status message.

(** A text parameter as [if (v)] sees it: the empty text is no parameter. *)
Definition given (v : option string) : option string :=
  match v with
  | Some "" => None
  | _ => v
  end.

(** [if (v) { conditions.push(...); params.push(v) }] *)
Definition condition {A : Type} (v : option A) (holds : A -> bool) : bool :=
  match v with
  | Some a => holds a
  | None => true
  end.

(** [await Promise.all(xs.map(async (x) => body(x)))].  The statements of the
    bodies leave together; the model sends them in the order of the list, and
    the first that fails fails the whole. *)
Fixpoint promise_all {A B : Type} (xs : list A) (body : A -> M B) : M (list B) :=
  match xs with
  | [] => ret []
  | x :: xs' => y <- body x ;; ys <- promise_all xs' body ;; ret (y :: ys)
  end.

Section Listing.

Context {collation : Collation}.

(** The [created_at] column of [orders], by primary key (the rows of the model
    do not carry it), in seconds.  It is set when the row is inserted and no
    statement of the routes changes it. *)
Variable created_at : Z -> Z.

(** The conditions the route joins with [AND].  [customer_id = ?] holds of no
    row whose [customer_id] is [NULL]. *)
Definition matches (q : orders_query) (r : order_row) : bool :=
  condition (given (q_status q)) (fun status => same (o_order_status r) status) &&
  condition (q_table_number q) (fun number => o_table_number r =? number) &&
  condition (q_customer_id q)
    (fun customer => match o_customer_id r with
                     | Some c => c =? customer
                     | None => false
                     end) &&
  condition (q_start_date q) (fun start_date => start_date <=? created_at (o_id r)) &&
  condition (q_end_date q) (fun end_date => created_at (o_id r) <=? end_date).

(** [ORDER BY created_at DESC].  The server may return rows of the same second
    in any order; the model keeps them in the order of the table. *)
Fixpoint newest_first_insert (r : order_row) (l : list order_row) : list order_row :=
  match l with
  | [] => [r]
  | x :: l' =>
      if created_at (o_id x) <? created_at (o_id r) then r :: l
      else x :: newest_first_insert r l'
  end.

Definition newest_first (l : list order_row) : list order_row :=
  fold_right newest_first_insert [] l.

Definition newer_or_same (a b : order_row) : Prop :=
  created_at (o_id b) <= created_at (o_id a).

(** [SELECT * FROM orders WHERE ... ORDER BY created_at DESC] *)
Definition select_orders (q : orders_query) (s : store) : list order_row :=
  newest_first (filter (matches q) (orders s)).

(** [app.get('/api/orders', ...)] *)
Definition get_orders (q : orders_query) : total (listing payload) :=
  try_catch
    (orders <- execute (Sql.query (select_orders q)) ;;
     processedOrders <- promise_all orders (fun order =>
       items <- execute (Sql.query (Sql.select_order_items (o_id order))) ;;
       ret (OrderWithItems (Some order) items)) ;;
     ret (Listed processedOrders))
    (fun w => (NotListed 500 "Failed to fetch orders", w)).

End Listing.

(** A request served on a fresh connection, whatever the route answers with. *)
Definition run {A : Type} (h : total A) (d : database) (fl : list bool)
  : A * database * list event :=
  let (a, w) := h {| committed := db_tables d; pending := None;
                     auto_inc := db_counters d; faults := fl; emitted := [] |} in
  (a, {| db_tables := committed w; db_counters := auto_inc w |}, emitted w).

(** Whether the storage layer fails one of the next [n] statements. *)
Definition faulted_within (n : nat) (fl : list bool) : bool :=
  existsb (fun b => b) (firstn n fl).

(** No condition at all, one on the table number only, one on the status only. *)
Definition every_order : orders_query :=
  {| q_status := None; q_start_date := None; q_end_date := None;
     q_table_number := None; q_customer_id := None |}.

Definition at_table (number : Z) : orders_query :=
  {| q_status := None; q_start_date := None; q_end_date := None;
     q_table_number := Some number; q_customer_id := None |}.

Definition with_status (status : string) : orders_query :=
  {| q_status := Some status; q_start_date := None; q_end_date := None;
     q_table_number := None; q_customer_id := None |}.

(** An order as the listing shows it: the row and the item rows of its id. *)
Definition listed (s : store) (o : order_row) : payload :=
  OrderWithItems (Some o) (Sql.select_order_items (o_id o) s).

(** ** [DELETE /api/tables/:id] *)

(** [DELETE FROM restaurant_tables WHERE id = ?]; the result is [affectedRows].
    [orders.table_id] is a foreign key into the table with no [ON DELETE]
    clause, so the server refuses to delete a row an order references. *)
Definition delete_table_where_id (id : Z) (s : store) (c : counters)
  : option (Z * store * counters) :=
  let hit r := rt_id r =? id in
  if existsb hit (restaurant_tables s) && existsb (fun o => o_table_id o =? id) (orders s)
  then None
  else Some (Z.of_nat (List.length (filter hit (restaurant_tables s))),
             {| restaurant_tables := filter (fun r => negb (hit r)) (restaurant_tables s);
                menu_items := menu_items s;
                orders := orders s;
                order_items := order_items s;
                order_cancellations := order_cancellations s |},
             c).

(** [app.delete('/api/tables/:id', ...)] *)
Definition delete_table (id : Z) : total response :=
  try_catch
    (affectedRows <- execute (delete_table_where_id id) ;;
     if affectedRows =? 0 then ret (Failure 404 "Table not found")
     else ret (SuccessMessage "Table deleted successfully"))
    (fun w => (Failure 500 "Failed to delete table", w)).

(** The tables without the rows of a given id. *)
Definition without_table (id : Z) (s : store) : store :=
  {| restaurant_tables := filter (fun r => negb (rt_id r =? id)) (restaurant_tables s);
     menu_items := menu_items s;
     orders := orders s;
     order_items := order_items s;
     order_cancellations := order_cancellations s |}.

(** The foreign keys of the schema: every order sits at a table that is there,
    every item row belongs to an order and names a dish that are there, every
    cancellation is of an order that is there. *)
Definition references_hold (s : store) : bool :=
  forallb (fun o => Sql.has_table s (o_table_id o)) (orders s) &&
  forallb (fun r => Sql.has_order s (oi_order_id r) && Sql.has_menu_item s (oi_menu_item_id r))
          (order_items s) &&
  forallb (fun r => Sql.has_order s (oc_order_id r)) (order_cancellations s).

Definition references (s : store) : Prop := references_hold s = true.

(** A property of the tables that holds of what is committed and of what the
    open transaction has pending. *)
Definition kept (P : store -> Prop) (w : world) : Prop :=
  P (committed w) /\ match pending w with Some s => P s | None => True end.

(** The routes that answer with a [response]: the four order routes and the
    deletion of a table. *)
Inductive writing_route : total response -> Prop :=
| writes_order h : route h -> writing_route h
| writes_delete_table id : writing_route (delete_table id).

(** A computation under which a property of the tables goes on holding. *)
Definition keeps {X : Type} (P : store -> Prop) (m : world -> X * world) : Prop :=
  forall w, kept P w -> kept P (snd (m w)).

(** A statement under which it does. *)
Definition statement_keeps {A : Type} (P : store -> Prop)
    (stmt : store -> counters -> option (A * store * counters)) : Prop :=
  forall s c a s' c', stmt s c = Some (a, s', c') -> P s -> P s'.

(** The databases these routes can make of a database [d0]. *)
Inductive reached (d0 : database) : database -> Prop :=
| reached_start : reached d0 d0
| reached_serve h fl d :
    reached d0 d -> writing_route h -> reached d0 (database_of (serve h d fl)).

(** ** JavaScript texts

    A text is the [string] of its UTF-8 bytes.  The operations below look for
    ASCII characters only, which no byte of a longer UTF-8 sequence is, so they
    cut a text where JavaScript cuts it. *)

(** [s.split(sep)] for a one-character separator: the pieces between its
    occurrences, of which there is always one. *)
Fixpoint split (sep : ascii) (s : string) : list string :=
  match s with
  | EmptyString => [EmptyString]
  | String c s' =>
      if Ascii.eqb c sep then EmptyString :: split sep s'
      else match split sep s' with
           | piece :: pieces => String c piece :: pieces
           | [] => [String c EmptyString]
           end
  end.

(** [s.includes(sub)] *)
Fixpoint includes (s sub : string) : bool :=
  String.prefix sub s ||
  match s with
  | EmptyString => false
  | String _ s' => includes s' sub
  end.

(** [pieces.join(sep)] for a one-character separator. *)
Fixpoint join (sep : ascii) (pieces : list string) : string :=
  match pieces with
  | [] => EmptyString
  | [piece] => piece
  | piece :: rest => piece ++ String sep (join sep rest)
  end.

(** A text in which a character does not occur. *)
Fixpoint free_of (c : ascii) (s : string) : bool :=
  match s with
  | EmptyString => true
  | String c' s' => negb (Ascii.eqb c' c) && free_of c s'
  end.

(** ** [authenticateToken] *)

(** What a middleware does with a request: it hands it on, or answers it. *)
Inductive verdict :=
| Next                                       (* next() *)
| Answered (status : Z) (message : string)   (* res.status(status).json({ success: false, message }) *).

(** [authenticateToken], on [req.headers['authorization']].  In
    [authHeader && authHeader.split(' ')[1]] a header that is absent or empty
    is itself the token. *)
Definition authenticateToken (authorization : option string) : verdict :=
  let token :=
    match authorization with
    | None => None
    | Some EmptyString => Some EmptyString
    | Some authHeader => nth_error (split " " authHeader) 1
    end in
  match token with
  | None | Some EmptyString => Answered 401 "Authentication required"
  | Some token =>
      if String.eqb token "dummy-token" then Next
      else Answered 403 "Invalid token"
  end.

(** ** [extractSubdomain] and [getSubdomainUrl] *)

Definition rootDomains : list string :=
  ["localhost"; "vercel.app"; "onrender.com"; "127.0.0.1"].

Definition ignoredSubdomains : list string := ["www"; "api"; "admin"].

(** [extractSubdomain(hostname)] of [lib/subdomain-middleware.js]; [None] is
    [null], and an absent hostname. *)
Definition extractSubdomain (hostname : option string) : option string :=
  match hostname with
  | None | Some EmptyString => None
  | Some hostname =>
      let host := hd EmptyString (split ":" hostname) in
      let parts := split "." host in
      if (List.length parts <=? 2)%nat
         || existsb (fun root => includes host root && (List.length parts =? 3)%nat) rootDomains
      then None
      else
        let subdomain := hd EmptyString parts in
        if existsb (String.eqb subdomain) ignoredSubdomains then None
        else Some subdomain
  end.

(** [getSubdomainUrl(slug, baseDomain)]; the default [baseDomain] is
    ['vercel.app']. *)
Definition getSubdomainUrl (slug : string) (baseDomain : option string) : string :=
  "https://" ++ slug ++ "." ++
  match baseDomain with
  | Some baseDomain => baseDomain
  | None => "vercel.app"
  end.

(** A label of a host name: a text without dots or colons. *)
Definition label (s : string) : bool := free_of "." s && free_of ":" s.

(** ** [generateSlug]

    On a text of ASCII characters, where [toLowerCase], [trim] and the classes
    [\s] and [\w] are the ones below. *)

Definition code (c : ascii) : nat := nat_of_ascii c.

Definition ascii_text (s : string) : bool :=
  forallb (fun c => (code c <? 128)%nat) (list_ascii_of_string s).

(** [\s], and what [trim] removes: tab, line feed, vertical tab, form feed,
    carriage return, space. *)
Definition is_space (c : ascii) : bool :=
  ((9 <=? code c) && (code c <=? 13) || (code c =? 32))%nat.

Definition is_upper (c : ascii) : bool := ((65 <=? code c) && (code c <=? 90))%nat.
Definition is_lower (c : ascii) : bool := ((97 <=? code c) && (code c <=? 122))%nat.
Definition is_digit (c : ascii) : bool := ((48 <=? code c) && (code c <=? 57))%nat.

(** [\w] *)
Definition is_word (c : ascii) : bool :=
  is_upper c || is_lower c || is_digit c || (code c =? 95)%nat.

Definition is_dash (c : ascii) : bool := (code c =? 45)%nat.

Definition to_lower (c : ascii) : ascii :=
  if is_upper c then ascii_of_nat (code c + 32) else c.

Fixpoint drop_while (f : ascii -> bool) (l : list ascii) : list ascii :=
  match l with
  | [] => []
  | c :: l' => if f c then drop_while f l' else l
  end.

Definition drop_while_end (f : ascii -> bool) (l : list ascii) : list ascii :=
  rev (drop_while f (rev l)).

(** [.replace(/C+/g, by)] for a class [C] of characters: every maximal run of
    characters of the class becomes [by].  [in_run] tells that the character
    before was of the class. *)
Fixpoint replace_runs (C : ascii -> bool) (by_ : list ascii) (in_run : bool) (l : list ascii)
  : list ascii :=
  match l with
  | [] => []
  | c :: l' =>
      if C c then (if in_run then [] else by_) ++ replace_runs C by_ true l'
      else c :: replace_runs C by_ false l'
  end.

(** [.replace(/\-\-+/g, '-')]: a run of two dashes or more becomes one dash,
    and a single dash stays, so every run of dashes becomes one dash. *)
Definition collapse_dashes (l : list ascii) : list ascii :=
  replace_runs is_dash ["-"%char] false l.

(** The steps of [generateSlug], on the characters of the text. *)
Definition slug_of (text : list ascii) : list ascii :=
  let lowered := map to_lower text in                                     (* .toLowerCase() *)
  let trimmed := drop_while_end is_space (drop_while is_space lowered) in (* .trim() *)
  let dashed := replace_runs is_space ["-"%char] false trimmed in         (* .replace(/\s+/g, '-') *)
  let cleaned :=                                                          (* .replace(/[^\w\-]+/g, '') *)
    replace_runs (fun c => negb (is_word c || is_dash c)) [] false dashed in
  let single := collapse_dashes cleaned in                                (* .replace(/\-\-+/g, '-') *)
  let headed := drop_while is_dash single in                              (* .replace(/^-+/, '') *)
  drop_while_end is_dash headed.                                          (* .replace(/-+$/, '') *)

(** [generateSlug(text)] *)
Definition generateSlug (text : string) : string :=
  string_of_list_ascii (slug_of (list_ascii_of_string text)).

(** The characters of a slug: small letters, digits, underscore and dash. *)
Definition slug_char (c : ascii) : bool :=
  is_lower c || is_digit c || (code c =? 95)%nat || is_dash c.

Fixpoint no_double_dash (l : list ascii) : bool :=
  match l with
  | c1 :: ((c2 :: _) as l') => negb (is_dash c1 && is_dash c2) && no_double_dash l'
  | _ => true
  end.

Definition starts_with_dash (l : list ascii) : bool :=
  match l with
  | c :: _ => is_dash c
  | [] => false
  end.

(** The texts [generateSlug] makes: slug characters only, no dash at either
    end, no two dashes in a row. *)
Definition shape_of (l : list ascii) : bool :=
  forallb slug_char l && no_double_dash l &&
  negb (starts_with_dash l) && negb (starts_with_dash (rev l)).

Definition slug_shape (s : string) : bool := shape_of (list_ascii_of_string s).

(** * The catalogue routes

    Tables, table groups, dishes, categories and ingredients.  These routes
    read and write more tables and more columns than the order routes, over
    the same kind of connection: statements that the storage layer may fail
    one by one, with or without a transaction around them. *)

(** [s.trim()] on the UTF-8 bytes of a text: the white space and the line
    terminators of ECMAScript, by code point U+0009 to U+000D, U+0020, U+00A0,
    U+1680, U+2000 to U+200A, U+2028, U+2029, U+202F, U+205F, U+3000 and
    U+FEFF. *)
Definition white_space : list (list ascii) :=
  map (map ascii_of_nat)
    [ [9]; [10]; [11]; [12]; [13]; [32]; [194; 160]; [225; 154; 128];
      [226; 128; 128]; [226; 128; 129]; [226; 128; 130]; [226; 128; 131];
      [226; 128; 132]; [226; 128; 133]; [226; 128; 134]; [226; 128; 135];
      [226; 128; 136]; [226; 128; 137]; [226; 128; 138];
      [226; 128; 168]; [226; 128; 169]; [226; 128; 175]; [226; 129; 159];
      [227; 128; 128]; [239; 187; 191] ]%nat.

(** [l] without its prefix [w], if it has it. *)
Fixpoint without_prefix (w l : list ascii) : option (list ascii) :=
  match w, l with
  | [], _ => Some l
  | a :: w', b :: l' => if Ascii.eqb a b then without_prefix w' l' else None
  | _ :: _, [] => None
  end.

(** [l] without one of the given prefixes, the first that fits. *)
Fixpoint strip (ws : list (list ascii)) (l : list ascii) : option (list ascii) :=
  match ws with
  | [] => None
  | w :: ws' =>
      match without_prefix w l with
      | Some l' => Some l'
      | None => strip ws' l
      end
  end.

Fixpoint strip_all (fuel : nat) (ws : list (list ascii)) (l : list ascii) : list ascii :=
  match fuel with
  | O => l
  | S fuel' =>
      match strip ws l with
      | Some l' => strip_all fuel' ws l'
      | None => l
      end
  end.

Definition trim (s : string) : string :=
  let l := list_ascii_of_string s in
  let started := strip_all (List.length l) white_space l in
  string_of_list_ascii
    (rev (strip_all (List.length started) (map (@rev ascii) white_space) (rev started))).

(** [`${n}`] for an integer whose decimal form is what JavaScript prints,
    that is below 10^21 in absolute value. *)
Definition show (n : Z) : string := NilZero.string_of_int (Z.to_int n).

(** Whether a [VARCHAR(n)] column takes a text: its length, in characters of
    the column's character set, is at most [n].  Under the strict SQL mode a
    longer text is an error. *)
Class Charset := {
  fits : nat -> string -> bool
}.

(** One byte per character. *)
Definition single_byte : Charset := {| fits n s := (String.length s <=? n)%nat |}.

(** ** Connections *)

Module Pool.

Section Pool.

(** The tables and the AUTO_INCREMENT counters. *)
Variables T C : Type.

Record session := {
  durable : T;                 (* what every connection sees *)
  uncommitted : option T;      (* the open transaction of this connection *)
  sequences : C;
  schedule : list bool         (* one flag per statement still to be sent *)
}.

Definition M (A : Type) := session -> result A * session.
Definition total (A : Type) := session -> A * session.

Definition ret {A : Type} (a : A) : M A := fun w => (Returned a, w).

Definition bind {A B : Type} (m : M A) (k : A -> M B) : M B :=
  fun w => match m w with
           | (Returned a, w') => k a w'
           | (Thrown, w') => (Thrown, w')
           end.

Definition lift {A : Type} (t : total A) : M A :=
  fun w => let (a, w') := t w in (Returned a, w').

(** [try { body } catch (error) { handler }] *)
Definition try_catch {A : Type} (body : M A) (handler : total A) : total A :=
  fun w => match body w with
           | (Returned a, w') => (a, w')
           | (Thrown, w') => handler w'
           end.

(** [try { body } catch (innerError) { handler }] inside a [try] block: the
    handler may throw in its turn. *)
Definition try_else {A : Type} (body handler : M A) : M A :=
  fun w => match body w with
           | (Returned a, w') => (Returned a, w')
           | (Thrown, w') => handler w'
           end.

(** [... finally { cleanup }] *)
Definition finally_ {A : Type} (body : total A) (cleanup : total unit) : total A :=
  fun w => let (a, w') := body w in (a, snd (cleanup w')).

Definition next_fault (w : session) : bool * session :=
  match schedule w with
  | [] => (false, w)
  | b :: fl => (b, {| durable := durable w; uncommitted := uncommitted w;
                      sequences := sequences w; schedule := fl |})
  end.

Definition view (w : session) : T :=
  match uncommitted w with
  | Some s => s
  | None => durable w
  end.

Definition write_back (s : T) (c : C) (w : session) : session :=
  match uncommitted w with
  | Some _ => {| durable := durable w; uncommitted := Some s; sequences := c;
                 schedule := schedule w |}
  | None => {| durable := s; uncommitted := None; sequences := c; schedule := schedule w |}
  end.

(** [await connection.execute(sql, params)] and [await pool.execute(sql, params)] *)
Definition execute {A : Type} (stmt : T -> C -> option (A * T * C)) : M A :=
  fun w =>
    let (failed, w1) := next_fault w in
    if failed then (Thrown, w1)
    else match stmt (view w1) (sequences w1) with
         | Some (a, s, c) => (Returned a, write_back s c w1)
         | None => (Thrown, w1)
         end.

(** [await connection.beginTransaction()] *)
Definition beginTransaction : M unit :=
  fun w =>
    let (failed, w1) := next_fault w in
    if failed then (Thrown, w1)
    else (Returned tt,
          {| durable := durable w1; uncommitted := Some (view w1); sequences := sequences w1;
             schedule := schedule w1 |}).

(** [await connection.commit()] *)
Definition commit : M unit :=
  fun w =>
    let (failed, w1) := next_fault w in
    if failed then (Thrown, w1)
    else (Returned tt,
          {| durable := view w1; uncommitted := None; sequences := sequences w1;
             schedule := schedule w1 |}).

(** [await connection.rollback()] *)
Definition rollback : total unit :=
  fun w => (tt, {| durable := durable w; uncommitted := None; sequences := sequences w;
                   schedule := schedule w |}).

(** [connection.release()] *)
Definition release : total unit := fun w => (tt, w).

(** A read. *)
Definition query {A : Type} (q : T -> A) (s : T) (c : C) : option (A * T * C) :=
  Some (q s, s, c).

(** A request served on a fresh connection: the answer and what the tables and
    the counters are afterwards. *)
Definition run {A : Type} (h : total A) (s : T) (c : C) (fl : list bool) : A * T * C :=
  let (a, w) := h {| durable := s; uncommitted := None; sequences := c; schedule := fl |} in
  (a, durable w, sequences w).

End Pool.

Arguments Build_session {T C} _ _ _ _.
Arguments durable {T C} _.
Arguments uncommitted {T C} _.
Arguments sequences {T C} _.
Arguments schedule {T C} _.
Arguments ret {T C A} _ _.
Arguments bind {T C A B} _ _ _.
Arguments lift {T C A} _ _.
Arguments try_catch {T C A} _ _ _.
Arguments try_else {T C A} _ _ _.
Arguments finally_ {T C A} _ _ _.
Arguments next_fault {T C} _.
Arguments view {T C} _.
Arguments write_back {T C} _ _ _.
Arguments execute {T C A} _ _.
Arguments beginTransaction {T C} _.
Arguments commit {T C} _.
Arguments rollback {T C} _.
Arguments release {T C} _.
Arguments query {T C A} _ _ _.
Arguments run {T C A} _ _ _ _.

End Pool.

Declare Scope pool_scope.
Delimit Scope pool_scope with pool.
Notation "x <- m ;; k" := (Pool.bind m (fun x => k))
  (at level 61, m at next level, right associativity) : pool_scope.
Notation "m ;; k" := (Pool.bind m (fun _ => k))
  (at level 61, right associativity) : pool_scope.

(** What a catalogue route sends. *)
Inductive reply (A : Type) :=
| Done (message : option string) (data : option A)
    (* res.json({ success: true, message, data }), what is [undefined] left out *)
| Refused (status : Z) (message : string)
    (* res.status(status).json({ success: false, message }) *).
Arguments Done {A} message data.
Arguments Refused {A} status message.

(** [decodeURIComponent(s)] on the UTF-8 bytes of a text; [None] is a
    [URIError].  An escape [%XX] below 0x80 stands for that character; one from
    0x80 on opens a sequence of two to four escapes that has to be the UTF-8
    encoding of a code point, and stands for it. *)
Definition hex_digit (c : ascii) : option nat :=
  let n := nat_of_ascii c in
  if ((48 <=? n) && (n <=? 57))%nat then Some (n - 48)%nat
  else if ((65 <=? n) && (n <=? 70))%nat then Some (n - 55)%nat
  else if ((97 <=? n) && (n <=? 102))%nat then Some (n - 87)%nat
  else None.

(** The octet an escape at the head of the text stands for, and the rest. *)
Definition escape (l : list ascii) : option (nat * list ascii) :=
  match l with
  | "%"%char :: h1 :: h2 :: rest =>
      match hex_digit h1, hex_digit h2 with
      | Some a, Some b => Some ((16 * a + b)%nat, rest)
      | _, _ => None
      end
  | _ => None
  end.

(** [n] more escapes. *)
Fixpoint escapes (n : nat) (l : list ascii) : option (list nat * list ascii) :=
  match n with
  | O => Some ([], l)
  | S n' =>
      match escape l with
      | Some (b, rest) =>
          match escapes n' rest with
          | Some (bs, rest') => Some (b :: bs, rest')
          | None => None
          end
      | None => None
      end
  end.

Definition between (lo hi n : nat) : bool := ((lo <=? n) && (n <=? hi))%nat.

(** The well-formed UTF-8 sequences of two, three and four octets. *)
Definition valid_utf8 (octets : list nat) : bool :=
  match octets with
  | [b1; b2] => between 194 223 b1 && between 128 191 b2
  | [b1; b2; b3] =>
      (if (b1 =? 224)%nat then between 160 191 b2
       else if (b1 =? 237)%nat then between 128 159 b2
       else between 225 239 b1 && between 128 191 b2)
      && between 128 191 b3
  | [b1; b2; b3; b4] =>
      (if (b1 =? 240)%nat then between 144 191 b2
       else if (b1 =? 244)%nat then between 128 143 b2
       else between 241 243 b1 && between 128 191 b2)
      && between 128 191 b3 && between 128 191 b4
  | _ => false
  end.

(** The number of octets a first octet from 0x80 on announces: its leading
    one bits. *)
Definition announced (b : nat) : nat :=
  if (b <? 192)%nat then 1
  else if (b <? 224)%nat then 2
  else if (b <? 240)%nat then 3
  else if (b <? 248)%nat then 4
  else 5.

Fixpoint decode (fuel : nat) (l : list ascii) : option (list ascii) :=
  match fuel with
  | O => match l with [] => Some [] | _ => None end
  | S fuel' =>
      match l with
      | [] => Some []
      | "%"%char :: _ =>
          match escape l with
          | None => None
          | Some (b, rest) =>
              if (b <? 128)%nat then option_map (cons (ascii_of_nat b)) (decode fuel' rest)
              else
                let n := announced b in
                if (n =? 1)%nat || (4 <? n)%nat then None
                else match escapes (n - 1) rest with
                     | None => None
                     | Some (bs, rest') =>
                         if valid_utf8 (b :: bs)
                         then option_map (app (map ascii_of_nat (b :: bs))) (decode fuel' rest')
                         else None
                     end
          end
      | c :: rest => option_map (cons c) (decode fuel' rest)
      end
  end.

Definition decodeURIComponent (s : string) : option string :=
  option_map string_of_list_ascii
    (decode (String.length s) (list_ascii_of_string s)).

Module Catalogue.

(** ** Rows *)

Record group_row := { tg_id : Z; tg_name : string }.

Record table_record := {
  tr_id : Z;
  tr_table_number : Z;
  tr_table_name : string;
  tr_group_id : option Z;
  tr_qr_code_data : option string;
  tr_is_active : bool
}.

(** A row of [SELECT rt.*, ... as group_name]. *)
Record table_view := { tv_table : table_record; tv_group_name : string }.

Record dish_row := {
  dish_id : Z;
  dish_name : string;
  dish_description : option string;
  dish_price_inr : Z;          (* hundredths *)
  dish_price_usd : Z;
  dish_category : option string;
  dish_image_url : option string;
  dish_is_available : bool;
  dish_nutritional_info : option string;
  dish_vitamins : option string
}.

Record recipe_row := {
  rec_id : Z; rec_menu_item_id : Z; rec_ingredient_id : Z; rec_quantity : Z
}.

Record ingredient_row := {
  ing_id : Z; ing_name : string; ing_unit : string;
  ing_current_stock : Z; ing_min_stock_level : Z; ing_cost_per_unit : Z
}.

Record waste_row := {
  waste_id : Z; waste_ingredient_id : Z; waste_quantity : Z; waste_reason : option string
}.

(** The tables of [database.sql] the catalogue routes touch; [orders] and
    [order_items] have the rows of the order routes. *)
Record tables := {
  table_groups : list group_row;
  restaurant_tables : list table_record;
  menu_items : list dish_row;
  orders : list order_row;
  order_items : list order_item_row;
  recipe_items : list recipe_row;
  ingredients : list ingredient_row;
  waste_log : list waste_row
}.

Record counters := {
  next_group_id : Z;
  next_table_id : Z;
  next_menu_item_id : Z
}.

Definition with_table_groups (rows : list group_row) (s : tables) : tables :=
  {| table_groups := rows; restaurant_tables := restaurant_tables s;
     menu_items := menu_items s; orders := orders s; order_items := order_items s;
     recipe_items := recipe_items s; ingredients := ingredients s; waste_log := waste_log s |}.

Definition with_restaurant_tables (rows : list table_record) (s : tables) : tables :=
  {| table_groups := table_groups s; restaurant_tables := rows;
     menu_items := menu_items s; orders := orders s; order_items := order_items s;
     recipe_items := recipe_items s; ingredients := ingredients s; waste_log := waste_log s |}.

Definition with_menu_items (rows : list dish_row) (s : tables) : tables :=
  {| table_groups := table_groups s; restaurant_tables := restaurant_tables s;
     menu_items := rows; orders := orders s; order_items := order_items s;
     recipe_items := recipe_items s; ingredients := ingredients s; waste_log := waste_log s |}.

Definition with_recipe_items (rows : list recipe_row) (s : tables) : tables :=
  {| table_groups := table_groups s; restaurant_tables := restaurant_tables s;
     menu_items := menu_items s; orders := orders s; order_items := order_items s;
     recipe_items := rows; ingredients := ingredients s; waste_log := waste_log s |}.

Definition with_ingredients (rows : list ingredient_row) (s : tables) : tables :=
  {| table_groups := table_groups s; restaurant_tables := restaurant_tables s;
     menu_items := menu_items s; orders := orders s; order_items := order_items s;
     recipe_items := recipe_items s; ingredients := rows; waste_log := waste_log s |}.

Definition with_waste_log (rows : list waste_row) (s : tables) : tables :=
  {| table_groups := table_groups s; restaurant_tables := restaurant_tables s;
     menu_items := menu_items s; orders := orders s; order_items := order_items s;
     recipe_items := recipe_items s; ingredients := ingredients s; waste_log := rows |}.

(** The group a [POST] adds. *)
Definition new_group (c : counters) (name : string) : group_row :=
  {| tg_id := next_group_id c; tg_name := name |}.

Definition CM (A : Type) := Pool.M tables counters A.
Definition route (A : Type) := Pool.total tables counters (reply A).

(** [affectedRows] of a statement that hit the rows [f] holds of. *)
Definition affected {A : Type} (f : A -> bool) (rows : list A) : Z :=
  Z.of_nat (List.length (filter f rows)).

(** [if (!name || name.trim() === '')], negated: the trimmed name. *)
Definition required_name (name : option string) : option string :=
  match name with
  | None | Some EmptyString => None
  | Some name => if String.eqb (trim name) "" then None else Some (trim name)
  end.

Section Routes.

Context {collation : Collation} {charset : Charset}.

Open Scope pool_scope.

(** ** Table groups *)

(** [SELECT id FROM table_groups WHERE name = ?] *)
Definition select_group_ids_named (name : string) (s : tables) : list Z :=
  map tg_id (filter (fun g => same (tg_name g) name) (table_groups s)).

(** [INSERT INTO table_groups (name) VALUES (?)]; [name] is [VARCHAR(255)
    UNIQUE NOT NULL]; the result is [insertId]. *)
Definition insert_group (name : string) (s : tables) (c : counters)
  : option (Z * tables * counters) :=
  if fits 255 name && negb (existsb (fun g => same (tg_name g) name) (table_groups s))
  then let id := next_group_id c in
       Some (id,
             with_table_groups (table_groups s ++ [{| tg_id := id; tg_name := name |}]) s,
             {| next_group_id := id + 1; next_table_id := next_table_id c;
                next_menu_item_id := next_menu_item_id c |})
  else None.

(** [SELECT * FROM table_groups WHERE id = ?] *)
Definition select_group (id : Z) (s : tables) : list group_row :=
  filter (fun g => tg_id g =? id) (table_groups s).

(** [UPDATE table_groups SET name = ? WHERE id = ?]; the result is
    [affectedRows], the rows the [WHERE] matched.  A row that is matched has to
    take the name and to be the only one of that name afterwards. *)
Definition update_group_name (name : string) (id : Z) (s : tables) (c : counters)
  : option (Z * tables * counters) :=
  let hit g := tg_id g =? id in
  if existsb hit (table_groups s)
     && (negb (fits 255 name)
         || (1 <? affected hit (table_groups s))
         || existsb (fun g => negb (hit g) && same (tg_name g) name) (table_groups s))
  then None
  else Some (affected hit (table_groups s),
             with_table_groups
               (map (fun g => if hit g then {| tg_id := tg_id g; tg_name := name |} else g)
                    (table_groups s)) s,
             c).

(** [SELECT COUNT( * ) as count FROM restaurant_tables WHERE group_id = ?] *)
Definition count_tables_in_group (id : Z) (s : tables) : Z :=
  affected (fun t => match tr_group_id t with Some g => g =? id | None => false end)
           (restaurant_tables s).

(** [DELETE FROM table_groups WHERE id = ?]; no foreign key points at the
    table. *)
Definition delete_group (id : Z) (s : tables) (c : counters)
  : option (Z * tables * counters) :=
  Some (affected (fun g => tg_id g =? id) (table_groups s),
        with_table_groups (filter (fun g => negb (tg_id g =? id)) (table_groups s)) s,
        c).

(** [app.post('/api/table-groups', ...)] *)
Definition post_table_group (name : option string) : route group_row :=
  Pool.try_catch
    (match required_name name with
     | None => Pool.ret (Refused 400 "Group name is required")
     | Some trimmedName =>
         existing <- Pool.execute (Pool.query (select_group_ids_named trimmedName)) ;;
         if (0 <? List.length existing)%nat then Pool.ret (Refused 400 "Group already exists")
         else
           insertId <- Pool.execute (insert_group trimmedName) ;;
           newGroup <- Pool.execute (Pool.query (select_group insertId)) ;;
           Pool.ret (Done None (hd_error newGroup))
     end)
    (fun w => (Refused 500 "Failed to create table group", w)).

(** [app.put('/api/table-groups/:id', ...)] *)
Definition put_table_group (id : Z) (name : option string) : route group_row :=
  Pool.try_catch
    (match required_name name with
     | None => Pool.ret (Refused 400 "Group name is required")
     | Some trimmedName =>
         affectedRows <- Pool.execute (update_group_name trimmedName id) ;;
         if affectedRows =? 0 then Pool.ret (Refused 404 "Group not found")
         else
           updatedGroup <- Pool.execute (Pool.query (select_group id)) ;;
           Pool.ret (Done None (hd_error updatedGroup))
     end)
    (fun w => (Refused 500 "Failed to update table group", w)).

(** [app.delete('/api/table-groups/:id', ...)] *)
Definition delete_table_group (id : Z) : route group_row :=
  Pool.try_catch
    (count <- Pool.execute (Pool.query (count_tables_in_group id)) ;;
     if 0 <? count
     then Pool.ret (Refused 400 ("Cannot delete group used by " ++ show count ++ " tables"))
     else
       affectedRows <- Pool.execute (delete_group id) ;;
       if affectedRows =? 0 then Pool.ret (Refused 404 "Group not found")
       else Pool.ret (Done (Some "Group deleted successfully") None))
    (fun w => (Refused 500 "Failed to delete table group", w)).

(** ** Tables *)

(** [ORDER BY table_number]; rows of one number stay in the order of the
    table. *)
Fixpoint by_number_insert (t : table_record) (l : list table_record) : list table_record :=
  match l with
  | [] => [t]
  | x :: l' =>
      if tr_table_number t <? tr_table_number x then t :: l
      else x :: by_number_insert t l'
  end.

Definition by_number (l : list table_record) : list table_record :=
  fold_right by_number_insert [] l.

(** [rt LEFT JOIN table_groups tg ON rt.group_id = tg.id], with
    [COALESCE(tg.name, "Non AC") as group_name]: a table without a group, or
    with one that is not there, comes out once, as Non AC. *)
Definition joined (s : tables) (t : table_record) : list table_view :=
  match
    match tr_group_id t with
    | Some g => filter (fun r => tg_id r =? g) (table_groups s)
    | None => []
    end
  with
  | [] => [{| tv_table := t; tv_group_name := "Non AC" |}]
  | groups => map (fun g => {| tv_table := t; tv_group_name := tg_name g |}) groups
  end.

(** [SELECT *, 'Non AC' as group_name] *)
Definition plain (t : table_record) : table_view :=
  {| tv_table := t; tv_group_name := "Non AC" |}.

(** [SELECT rt.*, COALESCE(tg.name, "Non AC") as group_name FROM
    restaurant_tables rt LEFT JOIN table_groups tg ON rt.group_id = tg.id WHERE
    rt.is_active = true ORDER BY rt.table_number] *)
Definition select_active_tables (s : tables) : list table_view :=
  flat_map (joined s) (by_number (filter tr_is_active (restaurant_tables s))).

(** [SELECT *, 'Non AC' as group_name FROM restaurant_tables ORDER BY
    table_number] *)
Definition select_all_tables (s : tables) : list table_view :=
  map plain (by_number (restaurant_tables s)).

(** [... WHERE rt.table_number = ?], joined and plain. *)
Definition select_table_numbered (number : Z) (s : tables) : list table_view :=
  flat_map (joined s) (filter (fun t => tr_table_number t =? number) (restaurant_tables s)).

Definition select_table_numbered_plain (number : Z) (s : tables) : list table_view :=
  map plain (filter (fun t => tr_table_number t =? number) (restaurant_tables s)).

(** [... WHERE rt.id = ?], joined and plain. *)
Definition select_table (id : Z) (s : tables) : list table_view :=
  flat_map (joined s) (filter (fun t => tr_id t =? id) (restaurant_tables s)).

Definition select_table_plain (id : Z) (s : tables) : list table_view :=
  map plain (filter (fun t => tr_id t =? id) (restaurant_tables s)).

(** [SELECT id FROM restaurant_tables WHERE table_number = ?] *)
Definition select_table_ids_numbered (number : Z) (s : tables) : list Z :=
  map tr_id (filter (fun t => tr_table_number t =? number) (restaurant_tables s)).

(** [SELECT COLUMN_NAME FROM INFORMATION_SCHEMA.COLUMNS WHERE TABLE_NAME =
    'restaurant_tables' AND COLUMN_NAME = 'group_id' AND TABLE_SCHEMA =
    DATABASE()]: the schema of [database.sql] has the column. *)
Definition select_group_id_column (s : tables) : list string := ["group_id"].

(** What an [INT] column takes. *)
Definition in_int (n : Z) : bool := (-2147483648 <=? n) && (n <=? 2147483647).

(** [INSERT INTO restaurant_tables (table_number, table_name, qr_code_data,
    group_id) VALUES (?, ?, ?, ?)]; [table_number] is [INTEGER UNIQUE],
    [table_name] [VARCHAR(100)], [group_id] [INT NULL] with no foreign key,
    [qr_code_data] [TEXT], and [is_active] takes its default; the result is
    [insertId]. *)
Definition insert_table (number : Z) (name qr_code_data : string) (group_id : option Z)
    (s : tables) (c : counters) : option (Z * tables * counters) :=
  if in_int number
     && match group_id with Some g => in_int g | None => true end
     && fits 100 name
     && negb (existsb (fun t => tr_table_number t =? number) (restaurant_tables s))
  then let id := next_table_id c in
       Some (id,
             with_restaurant_tables
               (restaurant_tables s ++
                [{| tr_id := id; tr_table_number := number; tr_table_name := name;
                    tr_group_id := group_id; tr_qr_code_data := Some qr_code_data;
                    tr_is_active := true |}]) s,
             {| next_group_id := next_group_id c; next_table_id := id + 1;
                next_menu_item_id := next_menu_item_id c |})
  else None.

(** The answer of the two lookups of one table. *)
Definition first_or_404 (rows : list table_view) : reply table_view :=
  match rows with
  | [] => Refused 404 "Table not found"
  | row :: _ => Done None (Some row)
  end.

(** [app.get('/api/tables', ...)] *)
Definition get_tables : route (list table_view) :=
  Pool.try_catch
    (Pool.try_else
       (rows <- Pool.execute (Pool.query select_active_tables) ;;
        Pool.ret (Done None (Some rows)))
       (rows <- Pool.execute (Pool.query select_all_tables) ;;
        Pool.ret (Done None (Some rows))))
    (fun w => (Refused 500 "Failed to fetch tables", w)).

(** [app.get('/api/tables/:tableNumber', ...)] *)
Definition get_table (tableNumber : Z) : route table_view :=
  Pool.try_catch
    (Pool.try_else
       (rows <- Pool.execute (Pool.query (select_table_numbered tableNumber)) ;;
        Pool.ret (first_or_404 rows))
       (rows <- Pool.execute (Pool.query (select_table_numbered_plain tableNumber)) ;;
        Pool.ret (first_or_404 rows)))
    (fun w => (Refused 500 "Failed to fetch table", w)).

(** [req.body] of [POST /api/tables]; the two numbers are integers. *)
Record table_request := {
  table_number : option Z;
  table_name : option string;
  group_id : option Z
}.

(** [group_id || null], and what [!table_number] looks at: 0 is falsy. *)
Definition or_null (v : option Z) : option Z :=
  match v with
  | Some 0 => None
  | _ => v
  end.

(** [table_name || `Table ${table_number}`] *)
Definition name_or_default (name : option string) (number : Z) : string :=
  match name with
  | None | Some EmptyString => "Table " ++ show number
  | Some name => name
  end.

(** [app.post('/api/tables', ...)], after [pool.getConnection()]. *)
Definition post_table (body : table_request) : route table_view :=
  Pool.finally_
    (Pool.try_catch
       (Pool.beginTransaction ;;
        match or_null (table_number body) with
        | None =>
            Pool.lift Pool.rollback ;;
            Pool.ret (Refused 400 "Table number is required.")
        | Some number =>
            existingTable <- Pool.execute (Pool.query (select_table_ids_numbered number)) ;;
            if (0 <? List.length existingTable)%nat then
              Pool.lift Pool.rollback ;;
              Pool.ret (Refused 400 ("Table number " ++ show number
                                     ++ " already exists. Please choose a different number."))
            else
              let qr_code_data := ("table-" ++ show number)%string in
              columnCheck <- Pool.execute (Pool.query select_group_id_column) ;;
              let with_group := (0 <? List.length columnCheck)%nat in
              insertId <- Pool.execute
                            (insert_table number (name_or_default (table_name body) number)
                               qr_code_data
                               (if with_group then or_null (group_id body) else None)) ;;
              Pool.commit ;;
              newTable <- Pool.execute
                            (Pool.query (if with_group then select_table insertId
                                         else select_table_plain insertId)) ;;
              Pool.ret (Done None (hd_error newTable))
        end)
       (fun w => let (_, w') := Pool.rollback w in
                 (Refused 500 "Failed to create table", w')))
    Pool.release.

(** ** Dishes and categories *)

Definition placeholder : string := "[Category Placeholder]".

(** [SELECT * FROM menu_items WHERE id = ?] *)
Definition select_dish (id : Z) (s : tables) : list dish_row :=
  filter (fun d => dish_id d =? id) (menu_items s).

(** [SELECT COUNT( * ) as count FROM order_items WHERE menu_item_id = ?] *)
Definition count_order_items_of (id : Z) (s : tables) : Z :=
  affected (fun r => oi_menu_item_id r =? id) (order_items s).

(** Whether an item row or a recipe row references a dish: [menu_item_id] is a
    foreign key into [menu_items] in both tables, with no [ON DELETE] clause. *)
Definition dish_referenced (s : tables) (id : Z) : bool :=
  existsb (fun r => oi_menu_item_id r =? id) (order_items s)
  || existsb (fun r => rec_menu_item_id r =? id) (recipe_items s).

(** [DELETE FROM menu_items WHERE ...]: the server refuses to delete a row
    that is referenced. *)
Definition delete_dishes (doomed : dish_row -> bool) (s : tables) (c : counters)
  : option (Z * tables * counters) :=
  if existsb (fun d => doomed d && dish_referenced s (dish_id d)) (menu_items s) then None
  else Some (affected doomed (menu_items s),
             with_menu_items (filter (fun d => negb (doomed d)) (menu_items s)) s,
             c).

(** [app.get('/api/menu/:id', ...)] *)
Definition get_menu_item (id : Z) : route dish_row :=
  Pool.try_catch
    (rows <- Pool.execute (Pool.query (select_dish id)) ;;
     match rows with
     | [] => Pool.ret (Refused 404 "Menu item not found")
     | row :: _ => Pool.ret (Done None (Some row))
     end)
    (fun w => (Refused 500 "Failed to fetch menu item", w)).

(** [app.delete('/api/menu/:id', ...)] *)
Definition delete_menu_item (id : Z) : route dish_row :=
  Pool.try_catch
    (count <- Pool.execute (Pool.query (count_order_items_of id)) ;;
     if 0 <? count
     then Pool.ret (Refused 400 "Cannot delete menu item that has been used in orders")
     else
       affectedRows <- Pool.execute (delete_dishes (fun d => dish_id d =? id)) ;;
       if affectedRows =? 0 then Pool.ret (Refused 404 "Menu item not found")
       else Pool.ret (Done (Some "Menu item deleted successfully") None))
    (fun w => (Refused 500 "Failed to delete menu item", w)).

(** [category = ?]; the column may be [NULL], which equals nothing. *)
Definition in_category (name : string) (d : dish_row) : bool :=
  match dish_category d with
  | Some category => same category name
  | None => false
  end.

(** [SELECT category FROM menu_items WHERE category = ? LIMIT 1] *)
Definition select_category (name : string) (s : tables) : list (option string) :=
  firstn 1 (map dish_category (filter (in_category name) (menu_items s))).

(** The row [POST /api/categories] inserts. *)
Definition placeholder_row (id : Z) (category : string) : dish_row :=
  {| dish_id := id; dish_name := placeholder;
     dish_description := Some ("Placeholder for " ++ category ++ " category")%string;
     dish_price_inr := 0; dish_price_usd := 0;
     dish_category := Some category; dish_image_url := None;
     dish_is_available := false;
     dish_nutritional_info := None; dish_vitamins := None |}.

(** [INSERT INTO menu_items (name, description, price_inr, price_usd, category,
    is_available) VALUES (?, ?, ?, ?, ?, ?)] with the placeholder's values;
    [category] is [VARCHAR(100)]. *)
Definition insert_placeholder (category : string) (s : tables) (c : counters)
  : option (unit * tables * counters) :=
  if fits 100 category
  then let id := next_menu_item_id c in
       Some (tt,
             with_menu_items (menu_items s ++ [placeholder_row id category]) s,
             {| next_group_id := next_group_id c; next_table_id := next_table_id c;
                next_menu_item_id := id + 1 |})
  else None.

(** [SELECT COUNT( * ) as count FROM menu_items WHERE category = ? AND name !=
    "[Category Placeholder]"] *)
Definition count_dishes_in_category (name : string) (s : tables) : Z :=
  affected (fun d => in_category name d && negb (same (dish_name d) placeholder))
           (menu_items s).

(** [app.post('/api/categories', ...)]; the data sent is [{ name }]. *)
Definition post_category (name : option string) : route string :=
  Pool.try_catch
    (match required_name name with
     | None => Pool.ret (Refused 400 "Category name is required")
     | Some trimmedName =>
         existingCategory <- Pool.execute (Pool.query (select_category trimmedName)) ;;
         if (0 <? List.length existingCategory)%nat
         then Pool.ret (Refused 400 "Category already exists")
         else
           Pool.execute (insert_placeholder trimmedName) ;;
           Pool.ret (Done (Some "Category created successfully") (Some trimmedName))
     end)
    (fun w => (Refused 500 "Failed to create category", w)).

(** [decodeURIComponent(req.params.name)], which may throw. *)
Definition decoded (name : string) : CM string :=
  fun w => match decodeURIComponent name with
           | Some categoryName => (Returned categoryName, w)
           | None => (Thrown, w)
           end.

(** [app.delete('/api/categories/:name', ...)] *)
Definition delete_category (name : string) : route string :=
  Pool.try_catch
    (categoryName <- decoded name ;;
     count <- Pool.execute (Pool.query (count_dishes_in_category categoryName)) ;;
     if 0 <? count
     then Pool.ret (Refused 400 ("Cannot delete category. " ++ show count
                                 ++ " item(s) are using this category."))
     else
       Pool.execute (delete_dishes (fun d => in_category categoryName d
                                             && same (dish_name d) placeholder)) ;;
       Pool.ret (Done (Some "Category deleted successfully") None))
    (fun w => (Refused 500 "Failed to delete category", w)).

(** ** Ingredients *)

(** [DELETE FROM recipe_items WHERE ingredient_id = ?] *)
Definition delete_recipe_items_of (id : Z) (s : tables) (c : counters)
  : option (unit * tables * counters) :=
  Some (tt,
        with_recipe_items (filter (fun r => negb (rec_ingredient_id r =? id)) (recipe_items s)) s,
        c).

(** [DELETE FROM waste_log WHERE ingredient_id = ?] *)
Definition delete_waste_of (id : Z) (s : tables) (c : counters)
  : option (unit * tables * counters) :=
  Some (tt,
        with_waste_log (filter (fun r => negb (waste_ingredient_id r =? id)) (waste_log s)) s,
        c).

(** [DELETE FROM ingredients WHERE id = ?]; [recipe_items.ingredient_id] and
    [waste_log.ingredient_id] are foreign keys into the table. *)
Definition delete_ingredient_row (id : Z) (s : tables) (c : counters)
  : option (unit * tables * counters) :=
  if existsb (fun i => ing_id i =? id) (ingredients s)
     && (existsb (fun r => rec_ingredient_id r =? id) (recipe_items s)
         || existsb (fun r => waste_ingredient_id r =? id) (waste_log s))
  then None
  else Some (tt,
             with_ingredients (filter (fun i => negb (ing_id i =? id)) (ingredients s)) s,
             c).

(** [app.delete('/api/ingredients/:id', ...)], after [pool.getConnection()]. *)
Definition delete_ingredient (id : Z) : route ingredient_row :=
  Pool.finally_
    (Pool.try_catch
       (Pool.beginTransaction ;;
        Pool.execute (delete_recipe_items_of id) ;;
        Pool.execute (delete_waste_of id) ;;
        Pool.execute (delete_ingredient_row id) ;;
        Pool.commit ;;
        Pool.ret (Done (Some "Ingredient deleted successfully") None))
       (fun w => let (_, w') := Pool.rollback w in
                 (Refused 500 "Failed to delete ingredient", w')))
    Pool.release.

Close Scope pool_scope.

End Routes.

End Catalogue.

(** ** What the catalogue routes keep *)

Module CatalogueShape.

Import Catalogue.

Section Shape.

Context {collation : Collation}.

(** No two groups of the same name ([name] is [UNIQUE]). *)
Fixpoint distinct_names (l : list group_row) : bool :=
  match l with
  | [] => true
  | g :: l' => negb (existsb (fun h => same (tg_name h) (tg_name g)) l') && distinct_names l'
  end.

(** No two tables of the same number ([table_number] is [UNIQUE]). *)
Fixpoint distinct_numbers (l : list table_record) : bool :=
  match l with
  | [] => true
  | t :: l' =>
      negb (existsb (fun u => tr_table_number u =? tr_table_number t) l') && distinct_numbers l'
  end.

(** The group name a table is listed with: the name of a group of its
    [group_id], and Non AC when it has none or no group has that id. *)
Definition listed_as (groups : list group_row) (v : table_view) : Prop :=
  (exists g, In g groups /\ tr_group_id (tv_table v) = Some (tg_id g)
             /\ tv_group_name v = tg_name g) \/
  ((forall g, In g groups -> tr_group_id (tv_table v) <> Some (tg_id g))
   /\ tv_group_name v = "Non AC").

(** [ORDER BY table_number] *)
Definition by_table_number (a b : table_record) : Prop :=
  tr_table_number a <= tr_table_number b.

Definition has_dish (s : tables) (id : Z) : bool :=
  existsb (fun d => dish_id d =? id) (menu_items s).

Definition has_ingredient (s : tables) (id : Z) : bool :=
  existsb (fun i => ing_id i =? id) (ingredients s).

(** The foreign keys into [menu_items] and [ingredients]. *)
Definition references_hold (s : tables) : bool :=
  forallb (fun r => has_dish s (oi_menu_item_id r)) (order_items s) &&
  forallb (fun r => has_dish s (rec_menu_item_id r) && has_ingredient s (rec_ingredient_id r))
          (recipe_items s) &&
  forallb (fun r => has_ingredient s (waste_ingredient_id r)) (waste_log s).

(** The constraints of the schema on the tables of the catalogue. *)
Definition sound (s : tables) : Prop :=
  distinct_names (table_groups s) = true /\
  distinct_numbers (restaurant_tables s) = true /\
  references_hold s = true.

(** Ids in use lie below the AUTO_INCREMENT counters. *)
Definition fresh (s : tables) (c : counters) : bool :=
  forallb (fun g => tg_id g <? next_group_id c) (table_groups s) &&
  forallb (fun t => tr_id t <? next_table_id c) (restaurant_tables s) &&
  forallb (fun d => dish_id d <? next_menu_item_id c) (menu_items s).

(** The catalogue routes that write. *)
Inductive writing {charset : Charset} : forall {A : Type}, route A -> Prop :=
| writes_post_table_group name : writing (post_table_group name)
| writes_put_table_group id name : writing (put_table_group id name)
| writes_delete_table_group id : writing (delete_table_group id)
| writes_post_table body : writing (post_table body)
| writes_delete_menu_item id : writing (delete_menu_item id)
| writes_post_category name : writing (post_category name)
| writes_delete_category name : writing (delete_category name)
| writes_delete_ingredient id : writing (delete_ingredient id).

(** The tables these routes can make of given ones. *)
Inductive reached {charset : Charset} (s0 : tables) : tables -> Prop :=
| reached_start : reached s0 s0
| reached_run (A : Type) (h : route A) s c fl :
    reached s0 s -> writing h -> reached s0 (snd (fst (Pool.run h s c fl))).

End Shape.

End CatalogueShape.

(** A property of the tables that holds of what is durable and of what the
    open transaction has not yet committed. *)
Definition pool_kept {T C : Type} (P : T -> Prop) (w : Pool.session T C) : Prop :=
  P (Pool.durable w) /\ match Pool.uncommitted w with Some s => P s | None => True end.

Definition pool_keeps {T C X : Type} (P : T -> Prop) (m : Pool.session T C -> X * Pool.session T C)
  : Prop :=
  forall w, pool_kept P w -> pool_kept P (snd (m w)).

Definition pool_statement_keeps {T C A : Type} (P : T -> Prop)
    (stmt : T -> C -> option (A * T * C)) : Prop :=
  forall s c a s' c', stmt s c = Some (a, s', c') -> P s -> P s'.

(** ** A small catalogue

    Two groups; three tables, of which table 7 is out of service and table 1
    in no group; the pizza, ordered and with a recipe; a coffee, ordered; a
    lassi nothing names; a lemonade with a recipe; and an empty category. *)
Definition dish (id : Z) (name : string) (inr usd : Z) (category : string)
  : Catalogue.dish_row :=
  {| Catalogue.dish_id := id; Catalogue.dish_name := name;
     Catalogue.dish_description := None;
     Catalogue.dish_price_inr := inr; Catalogue.dish_price_usd := usd;
     Catalogue.dish_category := Some category; Catalogue.dish_image_url := None;
     Catalogue.dish_is_available := true;
     Catalogue.dish_nutritional_info := None; Catalogue.dish_vitamins := None |}.

Definition bistro : Catalogue.tables :=
  {| Catalogue.table_groups :=
       [ {| Catalogue.tg_id := 1; Catalogue.tg_name := "Non AC" |};
         {| Catalogue.tg_id := 2; Catalogue.tg_name := "Terrace" |} ];
     Catalogue.restaurant_tables :=
       [ {| Catalogue.tr_id := 3; Catalogue.tr_table_number := 3;
            Catalogue.tr_table_name := "Table 3"; Catalogue.tr_group_id := Some 2;
            Catalogue.tr_qr_code_data := Some "table-3"; Catalogue.tr_is_active := true |};
         {| Catalogue.tr_id := 7; Catalogue.tr_table_number := 7;
            Catalogue.tr_table_name := "Table 7"; Catalogue.tr_group_id := Some 1;
            Catalogue.tr_qr_code_data := Some "table-7"; Catalogue.tr_is_active := false |};
         {| Catalogue.tr_id := 9; Catalogue.tr_table_number := 1;
            Catalogue.tr_table_name := "Table 1"; Catalogue.tr_group_id := None;
            Catalogue.tr_qr_code_data := Some "table-1"; Catalogue.tr_is_active := true |} ];
     Catalogue.menu_items :=
       [ dish 1 "Margherita Pizza" 29900 399 "Main Course";
         dish 7 "Mango Lassi" 8900 119 "Beverage";
         dish 8 "Coffee" 7900 109 "Beverage";
         dish 9 "Lemonade" 5900 79 "Beverage";
         Catalogue.placeholder_row 10 "Specials" ];
     Catalogue.orders := orders (db_tables two_orders);
     Catalogue.order_items := order_items (db_tables two_orders);
     Catalogue.recipe_items :=
       [ {| Catalogue.rec_id := 1; Catalogue.rec_menu_item_id := 1;
            Catalogue.rec_ingredient_id := 6; Catalogue.rec_quantity := 15 |};
         {| Catalogue.rec_id := 2; Catalogue.rec_menu_item_id := 9;
            Catalogue.rec_ingredient_id := 6; Catalogue.rec_quantity := 5 |} ];
     Catalogue.ingredients :=
       [ {| Catalogue.ing_id := 6; Catalogue.ing_name := "Cheese"; Catalogue.ing_unit := "kg";
            Catalogue.ing_current_stock := 1000; Catalogue.ing_min_stock_level := 200;
            Catalogue.ing_cost_per_unit := 1200 |} ];
     Catalogue.waste_log :=
       [ {| Catalogue.waste_id := 1; Catalogue.waste_ingredient_id := 6;
            Catalogue.waste_quantity := 50; Catalogue.waste_reason := Some "expired" |} ] |}.

Definition bistro_counters : Catalogue.counters :=
  {| Catalogue.next_group_id := 3; Catalogue.next_table_id := 10;
     Catalogue.next_menu_item_id := 11 |}.


(** * Proofs *)

(** ** Lists *)

Lemma nth_0_skipn {A} k (l : list A) d : nth 0 (skipn k l) d = nth k l d.
Proof.
  revert l; induction k; intros [|x l]; simpl; auto.
Qed.

Lemma tl_skipn {A} k (l : list A) : tl (skipn k l) = skipn (S k) l.
Proof.
  revert l; induction k; intros [|x l]; simpl; auto.
Qed.

Lemma skipn_S_tl {A} n (l : list A) : skipn n (tl l) = skipn (S n) l.
Proof. destruct l; simpl; auto. destruct n; reflexivity. Qed.

Lemma nth_tl_S {A} k (l : list A) d : nth k (tl l) d = nth (S k) l d.
Proof. destruct l; simpl; auto. destruct k; reflexivity. Qed.

Lemma nth_after_skipn {A} n k (l : list A) d : nth k (skipn n l) d = nth (n + k) l d.
Proof.
  revert l; induction n as [|n IH]; intros [|x l]; simpl; auto.
  destruct k; reflexivity.
Qed.

Lemma filter_nothing {A} (f : A -> bool) l : forallb (fun x => negb (f x)) l = true -> filter f l = [].
Proof.
  induction l as [|x l IH]; cbn; auto.
  destruct (f x); cbn; [discriminate|]. exact IH.
Qed.

Lemma filter_everything {A} (f : A -> bool) l : forallb f l = true -> filter f l = l.
Proof.
  induction l as [|x l IH]; cbn; auto.
  destruct (f x); cbn; [|discriminate]. intros H. now rewrite IH.
Qed.

Lemma forallb_weaken {A} (f g : A -> bool) l :
  (forall x, f x = true -> g x = true) -> forallb f l = true -> forallb g l = true.
Proof.
  intros H. induction l as [|x l IH]; cbn; auto.
  intros Hf. apply andb_true_iff in Hf. destruct Hf as [Hx Hl].
  now rewrite (H _ Hx), IH.
Qed.

Lemma length_filter_zero {A} (f : A -> bool) l :
  (Z.of_nat (List.length (filter f l)) =? 0) = negb (existsb f l).
Proof.
  induction l as [|x l IH]; cbn; auto.
  destruct (f x); cbn; auto.
Qed.

Lemma map_untouched {A} (f : A -> bool) (g : A -> A) l :
  existsb f l = false -> map (fun r => if f r then g r else r) l = l.
Proof.
  induction l as [|x l IH]; cbn; auto.
  destruct (f x); cbn; [discriminate|]. intros H. now rewrite IH.
Qed.

Lemma filter_map_touched {A} (f : A -> bool) (g : A -> A) l :
  (forall x, f (g x) = f x) ->
  filter f (map (fun r => if f r then g r else r) l) = map g (filter f l).
Proof.
  intros Hg. induction l as [|x l IH]; cbn; auto.
  destruct (f x) eqn:Hx.
  - rewrite Hg, Hx. cbn. now rewrite IH.
  - rewrite Hx. exact IH.
Qed.

Lemma existsb_hd_filter {A} (f : A -> bool) l :
  existsb f l = true -> exists x, hd_error (filter f l) = Some x /\ In x l /\ f x = true.
Proof.
  induction l as [|x l IH]; cbn; [discriminate|].
  destruct (f x) eqn:Hx; cbn.
  - intros _. exists x. auto.
  - intros H. destruct (IH H) as (y & Hy & Hin & Hf). exists y. auto.
Qed.

Lemma no_fault_nth fl k : no_fault fl = true -> nth k fl false = false.
Proof.
  unfold no_fault. revert k. induction fl as [|b fl IH]; intros [|k]; cbn; auto.
  - destruct b; cbn; auto.
  - destruct b; cbn; [discriminate|]. apply IH.
Qed.

Lemma served_eta (x : response * database * list event) :
  x = (response_of x, database_of x, events_of x).
Proof. now destruct x as [[r d] evs]. Qed.

(** ** Numbers *)

Lemma magnitude_pos m e : (0 < magnitude m e)%Q.
Proof.
  unfold magnitude. destruct e as [|k|k]; unfold Qlt; cbn [Qnum Qden inject_Z]; try lia.
Qed.

Lemma half_integer_floor n : (n * 2 + 1 * 1) / 2 = n.
Proof.
  replace (n * 2 + 1 * 1) with (1 + n * 2) by lia.
  rewrite Z.div_add by lia. reflexivity.
Qed.

Lemma nearest_hundredth_half_up m e :
  nearest_hundredth m e = half_up_hundredths (magnitude m e).
Proof.
  unfold nearest_hundredth, half_up_hundredths, magnitude, Qfloor.
  destruct e as [|k|k].
  - cbn [Qplus Qmult inject_Z Qnum Qden Pos.mul]. rewrite half_integer_floor. lia.
  - cbn [Qplus Qmult inject_Z Qnum Qden Pos.mul]. rewrite half_integer_floor. lia.
  - cbn [Qplus Qmult inject_Z Qnum Qden Pos.mul].
    rewrite Pos2Z.inj_mul, Pos2Z.inj_pow.
    rewrite Z.pow_add_r by lia. rewrite Z.pow_1_r.
    f_equal; lia.
Qed.

(** Half-up rounding is rounding to the nearest: [half_up_hundredths q] is an
    integer [n] for which [n / 100 - q] is as close to zero as possible, and the
    larger one when there are two (distances are scaled by 100 here). *)
Lemma half_up_hundredths_nearest (q : Q) (k : Z) :
  (Qabs (inject_Z (half_up_hundredths q) - 100 * q) <= Qabs (inject_Z k - 100 * q))%Q /\
  ((Qabs (inject_Z (half_up_hundredths q) - 100 * q) == Qabs (inject_Z k - 100 * q))%Q ->
   k <= half_up_hundredths q).
Proof.
  unfold half_up_hundredths.
  set (y := (100 * q)%Q). set (n := Qfloor (y + (1 # 2))).
  pose proof (Qfloor_le (y + (1 # 2))) as Hlo. fold n in Hlo.
  pose proof (Qlt_floor (y + (1 # 2))) as Hhi. fold n in Hhi.
  rewrite inject_Z_plus in Hhi. change (inject_Z 1) with 1%Q in Hhi.
  destruct (Z_lt_le_dec n k) as [Hk|Hk].
  - assert (Hk' : (inject_Z n + 1 <= inject_Z k)%Q).
    { change 1%Q with (inject_Z 1). rewrite <- inject_Z_plus. rewrite <- Zle_Qle. lia. }
    split.
    + apply Qabs_case; intros; apply Qabs_case; intros; lra.
    + revert Hlo Hhi Hk'. generalize (inject_Z n) (inject_Z k). intros a b Hlo Hhi Hk'.
      apply Qabs_case; intros H1; apply Qabs_case; intros H2 H3; exfalso; lra.
  - split; [|intros _; exact Hk].
    apply Zle_lt_or_eq in Hk. destruct Hk as [Hk| ->]; [|apply Qle_refl].
    assert (Hk' : (inject_Z k + 1 <= inject_Z n)%Q).
    { change 1%Q with (inject_Z 1). rewrite <- inject_Z_plus. rewrite <- Zle_Qle. lia. }
    apply Qabs_case; intros; apply Qabs_case; intros; lra.
Qed.

(** [x.toFixed(2)] is a decimal text only for a finite [x] below [1e21]; its
    digits are then the hundredths nearest to the real number [x] stands for,
    a half going away from zero. *)
Lemma toFixed2_decimal x neg n :
  toFixed2 x = FxDecimal neg n ->
  is_finite x = true /\ (if neg then - n else n) = round_hundredths (exact x).
Proof.
  destruct x as [s|s| |s m e]; cbn [toFixed2]; try discriminate.
  - intros [= <- <-]. split; reflexivity.
  - destruct (ge_1e21 m e); [discriminate|]. intros [= <- <-]. split; [reflexivity|].
    cbn [exact]. fold (magnitude m e).
    pose proof (magnitude_pos m e) as Hpos.
    unfold round_hundredths. destruct s.
    + destruct (Qle_bool 0 (- magnitude m e)) eqn:Hle.
      * apply Qle_bool_iff in Hle.
        exfalso. apply (Qlt_irrefl 0).
        apply Qlt_le_trans with (magnitude m e); [exact Hpos|].
        apply Qopp_le_compat in Hle. rewrite Qopp_opp in Hle. exact Hle.
      * f_equal. rewrite nearest_hundredth_half_up. unfold half_up_hundredths.
        apply Qfloor_comp. rewrite Qopp_opp. reflexivity.
    + assert (Hle : Qle_bool 0 (magnitude m e) = true).
      { apply Qle_bool_iff. now apply Qlt_le_weak. }
      rewrite Hle. apply nearest_hundredth_half_up.
Qed.

Lemma Qfloor_unique (y : Q) (n : Z) :
  (inject_Z n <= y)%Q -> (y < inject_Z n + 1)%Q -> Qfloor y = n.
Proof.
  intros Hlo Hhi.
  pose proof (Qfloor_le y) as H1. pose proof (Qlt_floor y) as H2.
  rewrite inject_Z_plus in H2. change (inject_Z 1) with 1%Q in H2.
  assert (Ha : (inject_Z (Qfloor y) < inject_Z n + 1)%Q) by lra.
  assert (Hb : (inject_Z n < inject_Z (Qfloor y) + 1)%Q) by lra.
  change 1%Q with (inject_Z 1) in Ha, Hb. rewrite <- inject_Z_plus in Ha, Hb.
  rewrite <- Zlt_Qlt in Ha, Hb. lia.
Qed.

Lemma hundredths_as_product (n : Z) : (n # 100 == inject_Z n * (1 # 100))%Q.
Proof. unfold Qeq. cbn. lia. Qed.

(** A value within half a hundredth of [n / 100] rounds to [n]. *)
Lemma round_hundredths_near (x : Q) (n : Z) :
  (Qabs (x - (n # 100)) < 1 # 200)%Q -> round_hundredths x = n.
Proof.
  intros H. apply Qabs_Qlt_condition in H. destruct H as [Hlo Hhi].
  rewrite hundredths_as_product in Hlo, Hhi.
  unfold round_hundredths, half_up_hundredths.
  destruct (Qle_bool 0 x) eqn:Hx.
  - apply Qfloor_unique; lra.
  - assert (Hneg : Qfloor (100 * - x + (1 # 2)) = - n).
    { apply Qfloor_unique; rewrite inject_Z_opp.
      + lra.
      + assert (Hx' : ~ (0 <= x)%Q) by (rewrite <- Qle_bool_iff; congruence).
        lra. }
    rewrite Hneg. lia.
Qed.

(** The same for a sum binary64 has kept within half a hundredth of a real sum
    that is a whole number of hundredths. *)
Lemma round_hundredths_drift (x sum : Q) (n : Z) :
  (sum == n # 100)%Q -> (Qabs (x - sum) < 1 # 200)%Q -> round_hundredths x = n.
Proof.
  intros Hsum Hdrift. apply round_hundredths_near. now rewrite <- Hsum.
Qed.

Lemma decimal_10_2_stored t z :
  Sql.decimal_10_2 t = Some z ->
  exists neg n, t = FxDecimal neg n /\ z = (if neg then - n else n).
Proof.
  destruct t as [| | |neg n]; cbn; try discriminate.
  destruct (n <=? 9999999999); [|discriminate]. intros [= <-]. now exists neg, n.
Qed.

(** [toFixed] as ECMA-262 words it: the sign apart, the digits are an integer
    [n] for which [n / 100 - x] is as close to zero as possible, the larger such
    [n] when there are two. *)
Lemma toFixed2_closest x neg n :
  toFixed2 x = FxDecimal neg n ->
  forall k : Z,
    (Qabs (inject_Z n - 100 * Qabs (exact x)) <= Qabs (inject_Z k - 100 * Qabs (exact x)))%Q /\
    ((Qabs (inject_Z n - 100 * Qabs (exact x)) == Qabs (inject_Z k - 100 * Qabs (exact x)))%Q ->
     k <= n).
Proof.
  intros H k.
  assert (Hn : n = half_up_hundredths (Qabs (exact x))).
  { destruct x as [s|s| |s m e]; cbn [toFixed2] in H; try discriminate.
    - injection H as _ <-. reflexivity.
    - destruct (ge_1e21 m e); [discriminate|]. injection H as _ <-.
      rewrite nearest_hundredth_half_up. unfold half_up_hundredths.
      apply Qfloor_comp. cbn [exact].
      pose proof (magnitude_pos m e) as Hpos.
      destruct s; [rewrite Qabs_opp|]; rewrite Qabs_pos by (now apply Qlt_le_weak);
        reflexivity. }
  rewrite Hn. apply half_up_hundredths_nearest.
Qed.

(** *** Binary64 on integers below [2^53]

    Sums and products of such integers are exact as long as they stay below
    [2^53], so the totals of an order priced in whole units are exact. *)

Lemma iter_pos_as_iter {A} (f : A -> A) p x : iter_pos f p x = Pos.iter f x p.
Proof.
  revert x. induction p as [p IH|p IH|]; intros x; cbn [iter_pos Pos.iter].
  - rewrite !IH. now rewrite <- !Pos.iter_swap.
  - now rewrite !IH.
  - reflexivity.
Qed.

Lemma shr_1_even m : shr_1 (exact_record (Zpos m~0)) = exact_record (Zpos m).
Proof. reflexivity. Qed.

(** Shifting out zeros loses nothing. *)
Lemma shr_zeros k m :
  iter_pos shr_1 k (exact_record (Zpos m * 2 ^ Zpos k)) = exact_record (Zpos m).
Proof.
  rewrite iter_pos_as_iter. revert m.
  induction k as [|k IH] using Pos.peano_ind; intros m.
  - cbn [Pos.iter]. replace (Zpos m * 2 ^ 1) with (Zpos m~0) by lia. reflexivity.
  - rewrite Pos.iter_succ.
    replace (Zpos m * 2 ^ Zpos (Pos.succ k)) with (Zpos m~0 * 2 ^ Zpos k).
    + now rewrite IH.
    + rewrite Pos2Z.inj_succ, Z.pow_succ_r by lia. lia.
Qed.

Lemma digits2_pos_size p : digits2_pos p = Pos.size p.
Proof. induction p; cbn; congruence. Qed.

Lemma size_shift p k : Pos.size (p * 2 ^ k) = (Pos.size p + k)%positive.
Proof.
  induction k as [|k IH] using Pos.peano_ind.
  - replace (p * 2 ^ 1)%positive with (p~0)%positive by lia. cbn. lia.
  - rewrite Pos.pow_succ_r.
    replace (p * (2 * 2 ^ k))%positive with ((p * 2 ^ k)~0)%positive by lia.
    cbn [Pos.size]. rewrite IH. lia.
Qed.

Lemma lift53_value n :
  Zpos (Pos.size n) <= 53 -> Zpos (lift53 n) = Zpos n * 2 ^ (53 - Zpos (Pos.size n)).
Proof.
  intros H. unfold lift53. rewrite Z2Pos.id; [reflexivity|].
  apply Z.mul_pos_pos; [lia|]. apply Z.pow_pos_nonneg; lia.
Qed.

Lemma Zpos_shift n k : Zpos n * 2 ^ Zpos k = Zpos (n * 2 ^ k).
Proof. now rewrite Pos2Z.inj_mul, Pos2Z.inj_pow. Qed.

Lemma lift53_size n : Zpos (Pos.size n) <= 53 -> Zpos (Pos.size (lift53 n)) = 53.
Proof.
  intros H. unfold lift53.
  destruct (53 - Zpos (Pos.size n)) as [|k|k] eqn:Hk; try lia.
  - rewrite Z.pow_0_r, Z.mul_1_r. cbn [Z.to_pos]. lia.
  - rewrite Zpos_shift. cbn [Z.to_pos]. rewrite size_shift. lia.
Qed.

Lemma fexp_small d : 1 <= d -> fexp prec emax d = d - 53.
Proof. intros H. unfold fexp, emin, prec, emax. lia. Qed.

(** Rounding an integer below [2^53], held with enough trailing zeros, gives
    that integer. *)
Lemma binary_round_aux_integer s n t :
  Zpos (Pos.size n) <= 53 -> 53 - Zpos (Pos.size n) <= t ->
  binary_round_aux prec emax s (Zpos n * 2 ^ t) (- t) loc_Exact = canon s n.
Proof.
  intros Hn Ht.
  assert (Hsize : 1 <= Zpos (Pos.size n)) by lia.
  assert (Hdigits : Zdigits2 (Zpos n * 2 ^ t) = Zpos (Pos.size n) + t).
  { destruct t as [|k|k]; try lia.
    - rewrite Z.pow_0_r, Z.mul_1_r. cbn [Zdigits2]. rewrite digits2_pos_size. lia.
    - rewrite Zpos_shift. cbn [Zdigits2]. rewrite digits2_pos_size, size_shift. lia. }
  unfold binary_round_aux, shr_fexp.
  rewrite Hdigits.
  replace (Zpos (Pos.size n) + t + - t) with (Zpos (Pos.size n)) by lia.
  rewrite fexp_small by exact Hsize.
  destruct (Zpos (Pos.size n) - 53 - - t) as [|k|k] eqn:Hshift; try lia.
  - (* already 53 bits wide *)
    cbn [shr shr_record_of_loc shr_m loc_of_shr_record round_nearest_even].
    rewrite Hdigits.
    replace (Zpos (Pos.size n) + t + - t) with (Zpos (Pos.size n)) by lia.
    rewrite fexp_small by exact Hsize. rewrite Hshift.
    cbn [shr shr_record_of_loc shr_m].
    replace t with (53 - Zpos (Pos.size n)) by lia.
    rewrite <- lift53_value by exact Hn.
    replace (- (53 - Zpos (Pos.size n)) <=? emax - prec) with true
      by (symmetry; apply Z.leb_le; unfold emax, prec; lia).
    unfold canon. f_equal. lia.
  - (* [k] zeros to shift out *)
    cbn [shr shr_record_of_loc].
    replace (Zpos n * 2 ^ t) with (Zpos (lift53 n) * 2 ^ Zpos k).
    + fold (exact_record (Zpos (lift53 n) * 2 ^ Zpos k)). rewrite shr_zeros.
      cbn [exact_record shr_m loc_of_shr_record round_nearest_even Zdigits2].
      rewrite digits2_pos_size, lift53_size by exact Hn.
      replace (53 + (- t + Zpos k)) with (Zpos (Pos.size n)) by lia.
      rewrite fexp_small by exact Hsize.
      replace (Zpos (Pos.size n) - 53 - (- t + Zpos k)) with 0 by lia.
      cbn [shr shr_record_of_loc shr_m].
      replace (- t + Zpos k <=? emax - prec) with true
        by (symmetry; apply Z.leb_le; unfold emax, prec; lia).
      unfold canon. f_equal. lia.
    + rewrite lift53_value by exact Hn. rewrite <- Z.mul_assoc, <- Z.pow_add_r by lia.
      f_equal. f_equal. lia.
Qed.

Lemma size_le_53_bound n : Zpos n < 2 ^ 53 <-> Zpos (Pos.size n) <= 53.
Proof.
  pose proof (Pos.size_gt n) as Hgt. pose proof (Pos.size_le n) as Hle.
  apply Pos2Z.pos_lt_pos in Hgt. apply Pos2Z.pos_le_pos in Hle.
  rewrite Pos2Z.inj_pow in Hgt, Hle. change (Z.pos n~0) with (2 * Z.pos n) in Hle.
  split; intros H.
  - destruct (Z_le_gt_dec (Zpos (Pos.size n)) 53) as [|Hbig]; [assumption|].
    assert (H54 : 2 ^ 54 <= 2 ^ Zpos (Pos.size n)) by (apply Z.pow_le_mono_r; lia).
    change (2 ^ 54) with (2 * 2 ^ 53) in H54. lia.
  - assert (2 ^ Zpos (Pos.size n) <= 2 ^ 53) by (apply Z.pow_le_mono_r; lia).
    lia.
Qed.

Lemma div_eucl_by_one x : Z.div_eucl x 1 = (x, 0).
Proof.
  pose proof (Z.div_1_r x) as Hq. pose proof (Z.mod_1_r x) as Hr.
  unfold Z.div, Z.modulo in Hq, Hr.
  destruct (Z.div_eucl x 1) as [q r]. now subst.
Qed.

Lemma of_Z_pos p : Zpos p < 2 ^ 53 -> of_Z (Zpos p) = canon false p.
Proof.
  intros Hp. apply size_le_53_bound in Hp.
  unfold of_Z, parseFloat. cbn [dec_mant dec_scale].
  change (pow10 0) with 1%positive.
  unfold round_ratio, SFdiv_core_binary.
  cbn [Zdigits2 digits2_pos]. rewrite digits2_pos_size.
  replace (Zpos (Pos.size p) + 0 - (1 + 0)) with (Zpos (Pos.size p) - 1) by lia.
  assert (Hfexp : fexp prec emax (Zpos (Pos.size p) - 1) = Zpos (Pos.size p) - 54)
    by (unfold fexp, emin, prec, emax; lia).
  rewrite Hfexp. change (0 - 0) with 0.
  rewrite Z.min_l by lia.
  replace (0 - (Zpos (Pos.size p) - 54)) with (54 - Zpos (Pos.size p)) by lia.
  destruct (54 - Zpos (Pos.size p)) as [|k|k] eqn:Hk; try lia.
  rewrite Z.shiftl_mul_pow2 by lia.
  rewrite div_eucl_by_one. change (new_location 1 0) with loc_Exact.
  replace (Zpos (Pos.size p) - 54) with (- Zpos k) by lia.
  apply binary_round_aux_integer; lia.
Qed.

Lemma size_product a b :
  Zpos (Pos.size a) + Zpos (Pos.size b) - 1 <= Zpos (Pos.size (a * b)).
Proof.
  pose proof (Pos.size_le a) as Ha. pose proof (Pos.size_le b) as Hb.
  pose proof (Pos.size_gt (a * b)) as Hab.
  apply Pos2Z.pos_le_pos in Ha. apply Pos2Z.pos_le_pos in Hb.
  apply Pos2Z.pos_lt_pos in Hab.
  rewrite Pos2Z.inj_pow in Ha, Hb, Hab. rewrite Pos2Z.inj_mul in Hab.
  change (Z.pos a~0) with (2 * Z.pos a) in Ha.
  change (Z.pos b~0) with (2 * Z.pos b) in Hb.
  destruct (Z_le_gt_dec (Zpos (Pos.size a) + Zpos (Pos.size b) - 1) (Zpos (Pos.size (a * b))))
    as [|Hsmall]; [assumption|exfalso].
  assert (Hmono : 2 ^ Zpos (Pos.size (a * b)) <= 2 ^ (Zpos (Pos.size a) + Zpos (Pos.size b) - 2))
    by (apply Z.pow_le_mono_r; lia).
  replace (Zpos (Pos.size a) + Zpos (Pos.size b) - 2)
    with ((Zpos (Pos.size a) - 1) + (Zpos (Pos.size b) - 1)) in Hmono by lia.
  rewrite Z.pow_add_r in Hmono by lia.
  assert (Ha' : 2 ^ (Zpos (Pos.size a) - 1) <= Zpos a).
  { replace (Zpos (Pos.size a)) with (Z.succ (Zpos (Pos.size a) - 1)) in Ha by lia.
    rewrite Z.pow_succ_r in Ha by lia. lia. }
  assert (Hb' : 2 ^ (Zpos (Pos.size b) - 1) <= Zpos b).
  { replace (Zpos (Pos.size b)) with (Z.succ (Zpos (Pos.size b) - 1)) in Hb by lia.
    rewrite Z.pow_succ_r in Hb by lia. lia. }
  assert (0 < 2 ^ (Zpos (Pos.size a) - 1)) by (apply Z.pow_pos_nonneg; lia).
  assert (0 < 2 ^ (Zpos (Pos.size b) - 1)) by (apply Z.pow_pos_nonneg; lia).
  nia.
Qed.

Lemma size_factor_l a b : Zpos (Pos.size a) <= Zpos (Pos.size (a * b)).
Proof. pose proof (size_product a b). lia. Qed.

Lemma size_factor_r a b : Zpos (Pos.size b) <= Zpos (Pos.size (a * b)).
Proof. pose proof (size_product a b). lia. Qed.

Lemma mul_canon s1 s2 a b :
  Zpos (a * b) < 2 ^ 53 ->
  mul (canon s1 a) (canon s2 b) = canon (xorb s1 s2) (a * b).
Proof.
  intros Hab. apply size_le_53_bound in Hab.
  pose proof (size_product a b) as Hsize.
  pose proof (size_factor_l a b) as Hl. pose proof (size_factor_r a b) as Hr.
  unfold mul, canon, SFmul.
  rewrite Pos2Z.inj_mul, !lift53_value by lia.
  replace (Zpos a * 2 ^ (53 - Zpos (Pos.size a)) * (Zpos b * 2 ^ (53 - Zpos (Pos.size b))))
    with (Zpos (a * b) * 2 ^ (106 - Zpos (Pos.size a) - Zpos (Pos.size b))).
  2:{ replace (106 - Zpos (Pos.size a) - Zpos (Pos.size b))
        with ((53 - Zpos (Pos.size a)) + (53 - Zpos (Pos.size b))) by lia.
      rewrite Z.pow_add_r by lia. rewrite Pos2Z.inj_mul. ring. }
  replace (Zpos (Pos.size a) - 53 + (Zpos (Pos.size b) - 53))
    with (- (106 - Zpos (Pos.size a) - Zpos (Pos.size b))) by lia.
  apply binary_round_aux_integer; lia.
Qed.

Lemma iter_xO_shift m d : Zpos (Pos.iter xO m d) = Zpos m * 2 ^ Zpos d.
Proof.
  induction d as [|d IH] using Pos.peano_ind.
  - cbn [Pos.iter]. change (2 ^ 1) with 2. lia.
  - rewrite Pos.iter_succ, Pos2Z.inj_succ, Z.pow_succ_r by lia.
    change (Zpos (Pos.iter xO m d)~0) with (2 * Zpos (Pos.iter xO m d)). rewrite IH. ring.
Qed.

Lemma shl_align_value m e e' :
  e' <= e -> Zpos (fst (shl_align m e e')) = Zpos m * 2 ^ (e - e').
Proof.
  intros He. unfold shl_align.
  destruct (e' - e) as [|d|d] eqn:Hd; cbn [fst]; try lia.
  - replace (e - e') with 0 by lia. change (2 ^ 0) with 1. lia.
  - rewrite iter_xO_shift. f_equal. f_equal. lia.
Qed.

Lemma shl_align_keep m e e' : e <= e' -> shl_align m e e' = (m, e).
Proof.
  intros He. unfold shl_align. destruct (e' - e) eqn:Hd; try reflexivity. lia.
Qed.

Lemma size_monotone a b : (a <= b)%positive -> Zpos (Pos.size a) <= Zpos (Pos.size b).
Proof.
  intros Hab.
  pose proof (Pos.size_le a) as Ha. pose proof (Pos.size_gt b) as Hb.
  apply Pos2Z.pos_le_pos in Ha. apply Pos2Z.pos_lt_pos in Hb.
  rewrite Pos2Z.inj_pow in Ha, Hb. change (Z.pos a~0) with (2 * Z.pos a) in Ha.
  destruct (Z_le_gt_dec (Zpos (Pos.size a)) (Zpos (Pos.size b))) as [|Hgt]; [assumption|exfalso].
  assert (Hmono : 2 * 2 ^ Zpos (Pos.size b) <= 2 ^ Zpos (Pos.size a)).
  { rewrite <- Z.pow_succ_r by lia. apply Z.pow_le_mono_r; lia. }
  lia.
Qed.

Lemma add_canon a b :
  Zpos (a + b) < 2 ^ 53 ->
  add (canon false a) (canon false b) = canon false (a + b).
Proof.
  intros Hab. apply size_le_53_bound in Hab.
  assert (Ha : Zpos (Pos.size a) <= Zpos (Pos.size (a + b))) by (apply size_monotone; lia).
  assert (Hb : Zpos (Pos.size b) <= Zpos (Pos.size (a + b))) by (apply size_monotone; lia).
  unfold add, canon, SFadd. cbn [cond_Zopp].
  set (ez := Z.min (Zpos (Pos.size a) - 53) (Zpos (Pos.size b) - 53)).
  assert (Hez : ez <= Zpos (Pos.size a) - 53 /\ ez <= Zpos (Pos.size b) - 53) by (unfold ez; lia).
  rewrite !shl_align_value, !lift53_value by lia.
  rewrite <- !Z.mul_assoc, <- !Z.pow_add_r by lia.
  replace (53 - Zpos (Pos.size a) + (Zpos (Pos.size a) - 53 - ez)) with (- ez) by lia.
  replace (53 - Zpos (Pos.size b) + (Zpos (Pos.size b) - 53 - ez)) with (- ez) by lia.
  rewrite <- Z.mul_add_distr_r, <- Pos2Z.inj_add.
  destruct (- ez) as [|k|k] eqn:Hk; try lia.
  - change (2 ^ 0) with 1. rewrite Z.mul_1_r.
    unfold binary_normalize, binary_round.
    rewrite shl_align_keep.
    2:{ rewrite digits2_pos_size, fexp_small by lia. lia. }
    replace (Zpos (a + b)) with (Zpos (a + b) * 2 ^ 0) by (change (2 ^ 0) with 1; lia).
    replace ez with (- 0) by lia.
    apply binary_round_aux_integer; lia.
  - rewrite Zpos_shift.
    unfold binary_normalize, binary_round.
    rewrite shl_align_keep.
    2:{ rewrite digits2_pos_size, size_shift, Pos2Z.inj_add, fexp_small by lia. lia. }
    rewrite <- Zpos_shift. replace ez with (- Zpos k) by lia.
    apply binary_round_aux_integer; lia.
Qed.

Lemma of_Z_whole n : 0 <= n < 2 ^ 53 -> of_Z n = whole n.
Proof.
  intros Hn. destruct n as [|p|p]; try lia.
  - reflexivity.
  - apply of_Z_pos. lia.
Qed.

Lemma mul_whole a b :
  0 <= a -> 0 <= b -> a * b < 2 ^ 53 -> mul (whole a) (whole b) = whole (a * b).
Proof.
  intros Ha Hb Hab. destruct a as [|a|a], b as [|b|b]; try lia; try reflexivity.
  cbn [whole Z.mul]. apply mul_canon. exact Hab.
Qed.

Lemma add_whole a b :
  0 <= a -> 0 <= b -> a + b < 2 ^ 53 -> add (whole a) (whole b) = whole (a + b).
Proof.
  intros Ha Hb Hab. destruct a as [|a|a], b as [|b|b]; try lia; try reflexivity.
  cbn [whole Z.add]. apply add_canon. exact Hab.
Qed.

Lemma exact_whole n : 0 <= n < 2 ^ 53 -> (exact (whole n) == inject_Z n)%Q.
Proof.
  intros Hn. destruct n as [|p|p]; try lia; [reflexivity|].
  assert (Hp : Zpos (Pos.size p) <= 53) by (apply size_le_53_bound; lia).
  cbn [whole]. unfold canon. cbn [exact].
  unfold magnitude.
  destruct (Zpos (Pos.size p) - 53) as [|k|k] eqn:Hk; try lia.
  - rewrite lift53_value by lia. replace (53 - Zpos (Pos.size p)) with 0 by lia.
    change (2 ^ 0) with 1. now rewrite !Z.mul_1_r.
  - unfold Qeq, inject_Z. cbn [Qnum Qden].
    rewrite lift53_value by lia. replace (53 - Zpos (Pos.size p)) with (Zpos k) by lia.
    rewrite Pos2Z.inj_pow. ring.
Qed.

Lemma whole_line_spec price item :
  whole_line price item = true ->
  parseFloat (price item) = of_Z (dec_mant (price item)) /\
  (decimal_value (price item) == inject_Z (dec_mant (price item)))%Q /\
  0 <= dec_mant (price item) < 2 ^ 53 /\ 0 <= it_quantity item < 2 ^ 53.
Proof.
  unfold whole_line. rewrite !andb_true_iff.
  intros [[[[Hs Hm0] Hm] Hq0] Hq].
  apply N.eqb_eq in Hs. apply Z.leb_le in Hm0, Hq0. apply Z.ltb_lt in Hm, Hq.
  destruct (price item) as [m sc]. cbn [dec_mant dec_scale] in *. subst sc.
  split; [reflexivity|]. split; [reflexivity|lia].
Qed.

Lemma whole_total_nonneg price its :
  forallb (whole_line price) its = true -> 0 <= whole_total price its.
Proof.
  induction its as [|item its IH]; cbn [forallb whole_total fold_right]; [lia|].
  rewrite andb_true_iff. intros [Hitem Hits].
  apply whole_line_spec in Hitem. specialize (IH Hits).
  fold (whole_total price its). nia.
Qed.

(** The loop of the totals is exact on whole lines as long as the sum stays
    below [2^53]. *)
Lemma total_loop_whole price its acc :
  forallb (whole_line price) its = true ->
  0 <= acc -> acc + whole_total price its < 2 ^ 53 ->
  fold_left (fun acc item => add acc (mul (parseFloat (price item)) (of_Z (it_quantity item))))
            its (whole acc)
  = whole (acc + whole_total price its).
Proof.
  revert acc. induction its as [|item its IH]; intros acc;
    cbn [forallb whole_total fold_right fold_left].
  - intros _ _ _. now rewrite Z.add_0_r.
  - rewrite andb_true_iff. intros [Hitem Hits] Hacc Hsum.
    fold (whole_total price its) in Hsum |- *.
    pose proof (whole_total_nonneg price its Hits) as Hrest.
    apply whole_line_spec in Hitem. destruct Hitem as (Hprice & _ & Hm & Hq).
    assert (Hline : 0 <= dec_mant (price item) * it_quantity item) by nia.
    rewrite Hprice, !of_Z_whole, mul_whole, add_whole by lia.
    rewrite IH by (auto; lia). f_equal. lia.
Qed.

Lemma exact_total_whole price its :
  forallb (whole_line price) its = true ->
  (fold_right (fun item acc => decimal_value (price item) * inject_Z (it_quantity item) + acc) 0 its
   == inject_Z (whole_total price its))%Q.
Proof.
  induction its as [|item its IH]; cbn [forallb whole_total fold_right]; [reflexivity|].
  rewrite andb_true_iff. intros [Hitem Hits].
  fold (whole_total price its). rewrite (IH Hits).
  apply whole_line_spec in Hitem. destruct Hitem as (_ & Hvalue & _ & _).
  rewrite Hvalue, inject_Z_plus, inject_Z_mult. reflexivity.
Qed.

Lemma total_inr_whole its :
  forallb (whole_line it_price_inr) its = true ->
  whole_total it_price_inr its < 2 ^ 53 ->
  total_inr its = whole (whole_total it_price_inr its) /\
  (exact (total_inr its) == exact_total_inr its)%Q.
Proof.
  intros Hits Hsum.
  assert (Htotal : total_inr its = whole (whole_total it_price_inr its)).
  { unfold total_inr. change zero with (whole 0).
    rewrite total_loop_whole by (auto; lia). reflexivity. }
  split; [exact Htotal|].
  rewrite Htotal, exact_whole by (pose proof (whole_total_nonneg _ _ Hits); lia).
  symmetry. now apply exact_total_whole.
Qed.

Lemma total_usd_whole its :
  forallb (whole_line it_price_usd) its = true ->
  whole_total it_price_usd its < 2 ^ 53 ->
  total_usd its = whole (whole_total it_price_usd its) /\
  (exact (total_usd its) == exact_total_usd its)%Q.
Proof.
  intros Hits Hsum.
  assert (Htotal : total_usd its = whole (whole_total it_price_usd its)).
  { unfold total_usd. change zero with (whole 0).
    rewrite total_loop_whole by (auto; lia). reflexivity. }
  split; [exact Htotal|].
  rewrite Htotal, exact_whole by (pose proof (whole_total_nonneg _ _ Hits); lia).
  symmetry. now apply exact_total_whole.
Qed.

Lemma round_hundredths_whole (x : Q) (n : Z) :
  (x == inject_Z n)%Q -> round_hundredths x = 100 * n.
Proof.
  intros Hx. apply round_hundredths_near.
  assert (Hzero : (x - (100 * n # 100) == 0)%Q).
  { rewrite Hx. unfold Qeq, inject_Z, Qminus, Qplus, Qopp. cbn [Qnum Qden]. lia. }
  rewrite Hzero. reflexivity.
Qed.

(** [parseFloat] on a few literals: the Numbers nearest to 1.005 (which lies
    below it, [0x1.0147ae147ae14p+0]), to 3.99 and to 299. *)
Example parseFloat_examples :
  parseFloat (thousandths 1005) = S754_finite false 4526117625507348 (-52) /\
  (exact (parseFloat (thousandths 1005)) < decimal_value (thousandths 1005))%Q /\
  parseFloat (cents 399) = S754_finite false 8984681256604140 (-51) /\
  of_Z 299 = S754_finite false 5260063627280384 (-44) /\
  (exact (of_Z 299) == 299)%Q.
Proof. repeat split; vm_compute; reflexivity. Qed.

(** [toFixed(2)] on a few Numbers, as a JavaScript engine prints them:
    ["1.00"], ["8.35"], ["0.13"], ["0.30"], ["7.98"]. *)
Example toFixed2_examples :
  toFixed2 (parseFloat (thousandths 1005)) = FxDecimal false 100 /\
  toFixed2 (parseFloat (thousandths 8345)) = FxDecimal false 835 /\
  toFixed2 (parseFloat (thousandths 125)) = FxDecimal false 13 /\
  toFixed2 (add (parseFloat (cents 10)) (parseFloat (cents 20))) = FxDecimal false 30 /\
  toFixed2 (mul (parseFloat (cents 399)) (of_Z 2)) = FxDecimal false 798.
Proof. repeat split; vm_compute; reflexivity. Qed.

(** ** Statements of the store *)

Lemma add_items_nil s : add_items s [] = s.
Proof. destruct s; unfold add_items; simpl. now rewrite app_nil_r. Qed.

Lemma add_items_app s r1 r2 : add_items (add_items s r1) r2 = add_items s (r1 ++ r2).
Proof. unfold add_items; simpl. now rewrite app_assoc. Qed.

Lemma has_order_add_order s o : Sql.has_order (add_order s o) (o_id o) = true.
Proof.
  unfold Sql.has_order, add_order; simpl. rewrite existsb_app. simpl.
  rewrite Z.eqb_refl. now rewrite orb_true_r.
Qed.

Lemma insert_order_item_spec order_id item s c :
  Sql.insert_order_item order_id (it_id item) (it_name item) (it_quantity item)
    (it_price_inr item) (it_price_usd item) s c =
  if Sql.has_order s order_id && Sql.has_menu_item s (it_id item)
  then Some (tt, add_items s [item_row order_id (next_order_item_id c) item],
             {| next_order_id := next_order_id c;
                next_order_item_id := next_order_item_id c + 1;
                next_cancellation_id := next_cancellation_id c |})
  else None.
Proof. reflexivity. Qed.

Lemma insert_order_spec table_id number cust t_inr t_usd cur pm os ps s c :
  Sql.insert_order table_id number cust t_inr t_usd cur pm os ps s c =
  match Sql.decimal_10_2 t_inr, Sql.decimal_10_2 t_usd with
  | Some amount_inr, Some amount_usd =>
      if Sql.has_table s table_id then
        Some (next_order_id c,
              add_order s {| o_id := next_order_id c; o_table_id := table_id;
                             o_table_number := number; o_customer_id := cust;
                             o_total_amount_inr := amount_inr; o_total_amount_usd := amount_usd;
                             o_currency := cur; o_payment_method := pm;
                             o_order_status := os; o_payment_status := ps |},
              {| next_order_id := next_order_id c + 1;
                 next_order_item_id := next_order_item_id c;
                 next_cancellation_id := next_cancellation_id c |})
      else None
  | _, _ => None
  end.
Proof. reflexivity. Qed.

Lemma insert_cancellation_spec order_id item_id reason cancelled_by s c :
  Sql.insert_cancellation order_id item_id reason cancelled_by s c =
  if Sql.has_order s order_id && Sql.text reason && Sql.varchar 50 cancelled_by
  then Some (tt, with_cancellation (cancellation_for c order_id item_id reason cancelled_by) s,
             bump_cancellation c)
  else None.
Proof. reflexivity. Qed.

Lemma select_table_ids_has_table s n id rest :
  Sql.select_table_ids n s = id :: rest -> Sql.has_table s id = true.
Proof.
  unfold Sql.select_table_ids, Sql.has_table. intros H.
  assert (Hin : In id (map rt_id (filter (fun r => rt_table_number r =? n) (restaurant_tables s)))).
  { rewrite H. now left. }
  apply in_map_iff in Hin. destruct Hin as (r & Hid & Hr).
  apply filter_In in Hr. apply existsb_exists. exists r. split; [tauto|]. now apply Z.eqb_eq.
Qed.

Lemma select_table_ids_nil number s :
  (forall row, In row (restaurant_tables s) -> rt_table_number row <> number) ->
  Sql.select_table_ids number s = [].
Proof.
  intros H. unfold Sql.select_table_ids. rewrite filter_nothing; [reflexivity|].
  apply forallb_forall. intros row Hin. apply negb_true_iff, Z.eqb_neq. now apply H.
Qed.

Lemma select_table_ids_cons number s row :
  In row (restaurant_tables s) -> rt_table_number row = number ->
  Sql.select_table_ids number s <> [].
Proof.
  intros Hin Hn Hnil. unfold Sql.select_table_ids in Hnil.
  apply map_eq_nil in Hnil.
  assert (Hrow : In row (filter (fun r => rt_table_number r =? number) (restaurant_tables s))).
  { apply filter_In. split; [exact Hin|]. now apply Z.eqb_eq. }
  now rewrite Hnil in Hrow.
Qed.

Lemma item_rows_order_id id first its :
  forallb (fun r => oi_order_id r =? id) (item_rows id first its) = true.
Proof.
  revert first. induction its as [|item rest IH]; intros first; cbn; auto.
  now rewrite Z.eqb_refl, IH.
Qed.

Lemma select_order_added d o first its :
  well_formed d = true ->
  o_id o = next_order_id (db_counters d) ->
  Sql.select_order (o_id o) (added (db_tables d) o (item_rows (o_id o) first its)) = [o].
Proof.
  unfold well_formed. intros Hwf Hid. apply andb_true_iff in Hwf. destruct Hwf as [Ho _].
  unfold Sql.select_order, added, add_items, add_order. cbn [orders].
  rewrite filter_app. cbn. rewrite Z.eqb_refl.
  rewrite filter_nothing; [reflexivity|].
  revert Ho. apply forallb_weaken. intros x Hx. apply Z.ltb_lt in Hx.
  apply negb_true_iff. apply Z.eqb_neq. lia.
Qed.

Lemma select_order_items_added d o first its :
  well_formed d = true ->
  o_id o = next_order_id (db_counters d) ->
  Sql.select_order_items (o_id o) (added (db_tables d) o (item_rows (o_id o) first its))
  = item_rows (o_id o) first its.
Proof.
  unfold well_formed. intros Hwf Hid. apply andb_true_iff in Hwf. destruct Hwf as [_ Hi].
  unfold Sql.select_order_items, added, add_items, add_order. cbn [order_items].
  rewrite filter_app. rewrite (filter_everything _ (item_rows _ _ _)) by apply item_rows_order_id.
  rewrite filter_nothing; [reflexivity|].
  revert Hi. apply forallb_weaken. intros x Hx. apply Z.ltb_lt in Hx.
  apply negb_true_iff. apply Z.eqb_neq. lia.
Qed.

Lemma with_order_status_untouched st id s :
  Sql.has_order s id = false -> with_order_status st id s = s.
Proof.
  intros H. unfold with_order_status. rewrite map_untouched by exact H. now destruct s.
Qed.

Lemma select_order_with_order_status st id s :
  Sql.select_order id (with_order_status st id s) = map (Sql.set_order_status st) (Sql.select_order id s).
Proof.
  unfold Sql.select_order, with_order_status. cbn [orders].
  apply (filter_map_touched (fun r => o_id r =? id)). reflexivity.
Qed.

Lemma has_order_with_order_status st id s id' :
  Sql.has_order (with_order_status st id s) id' = Sql.has_order s id'.
Proof.
  unfold Sql.has_order, with_order_status. cbn [orders].
  induction (orders s) as [|x l IH]; cbn; auto.
  rewrite IH. destruct (o_id x =? id); reflexivity.
Qed.

Lemma with_order_status_idem st id s :
  with_order_status st id (with_order_status st id s) = with_order_status st id s.
Proof.
  unfold with_order_status. cbn. f_equal. rewrite map_map. apply map_ext.
  intros r. destruct (o_id r =? id) eqn:Hr; cbn; rewrite Hr; reflexivity.
Qed.

(** ** Steps of a handler *)

Lemma next_fault_spec w :
  next_fault w = (nth 0 (faults w) false, set_faults (tl (faults w)) w).
Proof.
  unfold next_fault. destruct w as [c p a fl ev]; simpl. destruct fl; reflexivity.
Qed.

Lemma world_eta w : w = mk_world (committed w) (pending w) (auto_inc w) (faults w) (emitted w).
Proof. now destruct w. Qed.

Lemma bind_run {A B} (m : M A) (k : A -> M B) w :
  bind m k w = match m w with
               | (Returned a, w') => k a w'
               | (Thrown, w') => (Thrown, w')
               end.
Proof. reflexivity. Qed.

Lemma execute_run {A} (stmt : store -> counters -> option (A * store * counters)) c p a fl ev :
  execute stmt (mk_world c p a fl ev) =
  if nth 0 fl false then (Thrown, mk_world c p a (tl fl) ev)
  else match stmt (match p with Some s => s | None => c end) a with
       | Some (x, s', a') =>
           (Returned x,
            match p with
            | Some _ => mk_world c (Some s') a' (tl fl) ev
            | None => mk_world s' None a' (tl fl) ev
            end)
       | None => (Thrown, mk_world c p a (tl fl) ev)
       end.
Proof.
  unfold execute. rewrite next_fault_spec. cbn.
  destruct (nth 0 fl false); [reflexivity|].
  destruct p; cbn; destruct (stmt _ a) as [[[x s'] a']|]; reflexivity.
Qed.

Lemma beginTransaction_run c p a fl ev :
  beginTransaction (mk_world c p a fl ev) =
  if nth 0 fl false then (Thrown, mk_world c p a (tl fl) ev)
  else (Returned tt, mk_world c (Some (match p with Some s => s | None => c end)) a (tl fl) ev).
Proof.
  unfold beginTransaction. rewrite next_fault_spec. cbn.
  destruct (nth 0 fl false); reflexivity.
Qed.

Lemma commit_run c p a fl ev :
  commit (mk_world c p a fl ev) =
  if nth 0 fl false then (Thrown, mk_world c p a (tl fl) ev)
  else (Returned tt, mk_world (match p with Some s => s | None => c end) None a (tl fl) ev).
Proof.
  unfold commit. rewrite next_fault_spec. cbn.
  destruct (nth 0 fl false); reflexivity.
Qed.

Lemma bound_some {A B} (a : A) (k : A -> M B) w : bind (bound (Some a)) k w = k a w.
Proof. reflexivity. Qed.

Lemma bound_none {A B} (k : A -> M B) w : bind (bound None) k w = (Thrown, w).
Proof. reflexivity. Qed.

Lemma serve_simple (body : M response) (on_error : response) d fl :
  serve (try_catch body (fun w => (on_error, w))) d fl =
  let (r, w) := body (mk_world (db_tables d) None (db_counters d) fl []) in
  (match r with Returned a => a | Thrown => on_error end,
   {| db_tables := committed w; db_counters := auto_inc w |}, emitted w).
Proof.
  unfold serve, try_catch, mk_world. destruct (body _) as [[a|] w]; reflexivity.
Qed.

(** ** [create_order] *)

(** The item loop inside a transaction: it never touches the committed tables
    or the socket, and when it runs to its end the pending tables hold one more
    row per item, in order, and one fault flag per item has been consumed. *)
Lemma insert_items_run its : forall order_id w s,
  pending w = Some s ->
  Sql.has_order s order_id = true ->
  let '(r, w') := insert_items order_id its w in
  committed w' = committed w /\ emitted w' = emitted w /\
  next_order_id (auto_inc w') = next_order_id (auto_inc w) /\
  match r with
  | Returned _ =>
      pending w' = Some (add_items s (item_rows order_id (next_order_item_id (auto_inc w)) its))
      /\ faults w' = skipn (List.length its) (faults w)
      /\ (forall k, (k < List.length its)%nat -> nth k (faults w) false = false)
  | Thrown => pending w' <> None
  end.
Proof.
  induction its as [|item rest IH]; intros order_id w s Hp Ho.
  - simpl. rewrite add_items_nil. repeat split; auto. intros k Hk. inversion Hk.
  - unfold insert_items. simpl for_of. unfold bind at 1. unfold execute at 1.
    rewrite next_fault_spec.
    destruct (nth 0 (faults w) false) eqn:Hf.
    + simpl. rewrite Hp. repeat split; congruence.
    + rewrite insert_order_item_spec. unfold view. simpl pending. rewrite Hp, Ho. simpl andb.
      destruct (Sql.has_menu_item s (it_id item)).
      * unfold write_back. simpl pending. rewrite Hp.
        fold (insert_items order_id rest).
        match goal with |- context [insert_items order_id rest ?w1] =>
          specialize (IH order_id w1 _ eq_refl Ho) end.
        destruct (insert_items order_id rest _) as [r w'].
        simpl in IH. destruct IH as (Hc & He & Hid & Hr).
        split; [exact Hc|]. split; [exact He|]. split; [exact Hid|].
        destruct r; auto. destruct Hr as (Hp' & Hfl & Hquiet).
        split; [|split].
        -- rewrite Hp', add_items_app. reflexivity.
        -- rewrite Hfl. apply skipn_S_tl.
        -- intros [|k] Hk; [exact Hf|].
           specialize (Hquiet k). cbn [faults set_faults] in Hquiet.
           rewrite nth_tl_S in Hquiet. apply Hquiet. cbn [List.length] in Hk. lia.
      * simpl. rewrite Hp. repeat split; congruence.
Qed.

Lemma usable_spec body :
  usable body = true <->
  exists number its, table_number body = Some number /\ number <> 0 /\
                     items body = Some its /\ its <> [].
Proof.
  unfold usable. split.
  - destruct (table_number body) as [number|]; [|discriminate].
    destruct (items body) as [[|item rest]|]; try discriminate.
    intros H. apply negb_true_iff, Z.eqb_neq in H.
    exists number, (item :: rest). repeat split; auto. discriminate.
  - intros (number & its & -> & Hn & -> & Hne).
    destruct its; [congruence|]. now apply negb_true_iff, Z.eqb_neq.
Qed.

(** One more statement sent: its fault flag is read and the schedule moves on. *)
Ltac next_statement := rewrite bind_run, execute_run, nth_0_skipn, tl_skipn.

(** The one lemma about [create_order] the theorems below rest on: whatever the
    request, the database and the faults, the route ends in one of the five
    ways of [create_outcome]. *)
Lemma create_order_run body d fl :
  let '(r, d', evs) := serve (create_order body) d fl in
  create_outcome body d fl r d' evs.
Proof.
  unfold serve, create_order, finally_, release, try_catch.
  match goal with |- context [ bind beginTransaction ?K ?W ] =>
    set (T := bind beginTransaction K); set (W0 := W) end.
  assert (H : settled body d fl (T W0)).
  2:{ unfold settled in H. destruct (T W0) as [[a|] w']; cbn; exact H. }
  subst T W0. fold (mk_world (db_tables d) None (db_counters d) fl []).
  rewrite bind_run, beginTransaction_run.
  destruct (nth 0 fl false) eqn:F0.
  { cbn. apply Rolled_back; [now left|lia]. }
  assert (Hinvalid : usable body = false -> settled body d fl
            (invalid_input (mk_world (db_tables d) (Some (db_tables d)) (db_counters d) (tl fl) []))).
  { intros Hu. cbn. destruct d. now apply Invalid_request. }
  assert (Hres : forall n, table_number body = Some n ->
                 resolved body d = Sql.select_table_ids n (db_tables d)).
  { intros n Hn. unfold resolved. now rewrite Hn. }
  destruct (table_number body) as [[|number|number]|] eqn:Htn;
  destruct (items body) as [[|item rest]|] eqn:Hits;
    try (apply Hinvalid; unfold usable; rewrite Htn; try rewrite Hits; reflexivity).
  1: assert (Hn : Z.pos number <> 0) by easy; set (n := Z.pos number) in *.
  2: assert (Hn : Z.neg number <> 0) by easy; set (n := Z.neg number) in *.
  all: assert (Hu : usable body = true)
         by (unfold usable; rewrite Htn, Hits; now apply negb_true_iff, Z.eqb_neq).
  all: specialize (Hres n eq_refl).
  all: clearbody n; clear Hinvalid;
       assert (Hne : item :: rest <> []) by easy;
       set (its := item :: rest) in *; clearbody its.
  all: rewrite bind_run, execute_run; change (tl fl) with (skipn 1 fl); rewrite nth_0_skipn, tl_skipn.
  all: destruct (nth 1 fl false) eqn:F1; [cbn; apply Rolled_back; [right; split; auto|lia]|].
  all: unfold Sql.query at 1.
  all: destruct (Sql.select_table_ids n (db_tables d)) as [|table_id others] eqn:Hsel;
       [cbn; destruct d; now apply Table_not_found|].
  all: assert (Hfound : resolved body d <> []) by (rewrite Hres; discriminate).
  all: assert (Hback : forall c, next_order_id (db_counters d) <= next_order_id c ->
                          create_outcome body d fl (Failure 500 "Failed to create order")
                            {| db_tables := db_tables d; db_counters := c |} [])
         by (intros c0 Hc0; apply Rolled_back; [right; split; auto|exact Hc0]).
  all: next_statement.
  all: destruct (nth 2 fl false) eqn:F2; [cbn; apply Hback; cbn; lia|].
  all: rewrite insert_order_spec, (select_table_ids_has_table _ _ _ _ Hsel).
  all: destruct (Sql.decimal_10_2 (toFixed2 (total_inr its))) as [amount_inr|] eqn:Hinr;
       [|cbn; apply Hback; cbn; lia].
  all: destruct (Sql.decimal_10_2 (toFixed2 (total_usd its))) as [amount_usd|] eqn:Husd;
       [|cbn; apply Hback; cbn; lia].
  all: rewrite bind_run.
  all: fold (payment_status_for (payment_method body)).
  all: fold (order_row_for body (next_order_id (db_counters d)) table_id n amount_inr amount_usd).
  all: set (o := order_row_for body _ table_id n amount_inr amount_usd).
  all: fold (insert_items (next_order_id (db_counters d)) its).
  all: match goal with |- context [insert_items ?i ?l ?w] =>
         pose proof (insert_items_run l i w _ eq_refl (has_order_add_order _ o)) as Hrun;
         destruct (insert_items i l w) as [[[]|] w'] end.
  all: cbn [mk_world committed emitted pending auto_inc faults] in Hrun.
  all: destruct Hrun as (Hc & He & Hid & Hr); cbn [next_order_id] in Hid.
  all: try (unfold settled; rewrite Hc, He; apply Hback; lia).
  all: destruct Hr as (Hp & Hfl & Hquiet).
  all: rewrite (world_eta w'), Hc, He, Hp, Hfl, skipn_skipn.
  all: next_statement.
  all: destruct (nth (List.length its + 3) fl false) eqn:F3; [cbn; apply Hback; cbn; lia|].
  all: unfold Sql.query at 1.
  all: rewrite bind_run, commit_run, nth_0_skipn, tl_skipn.
  all: destruct (nth (S (List.length its + 3)) fl false) eqn:F4; [cbn; apply Hback; cbn; lia|].
  all: next_statement.
  all: fold (added (db_tables d) o (item_rows (next_order_id (db_counters d))
                                      (next_order_item_id (db_counters d)) its)).
  all: destruct (nth (S (S (List.length its + 3))) fl false) eqn:F5.
  all: try (cbn; apply Orphaned with (its := its); auto; try exact Hid;
            unfold read_back, submitted; rewrite Hits;
            [ intros k Hk;
              destruct k as [|[|[|k]]]; auto;
              destruct (Nat.lt_ge_cases k (List.length its)) as [Hlt|Hge];
              [ specialize (Hquiet k Hlt); now rewrite nth_after_skipn in Hquiet |];
              destruct (Nat.eq_dec k (List.length its)) as [->|Hneq];
              [ now replace (S (S (S (List.length its)))) with (List.length its + 3)%nat by lia |];
              now replace (S (S (S k))) with (S (List.length its + 3)) by lia
            | replace (5 + List.length its)%nat with (S (S (List.length its + 3))) by lia;
              exact F5 ]).
  all: unfold Sql.query at 1; cbn.
  all: eapply (Created body d fl _ n its table_id others amount_inr amount_usd); eassumption.
Qed.

(** The item loop runs to its end only if every item names a dish. *)
Lemma insert_items_dishes its : forall order_id w s,
  pending w = Some s ->
  Sql.has_order s order_id = true ->
  fst (insert_items order_id its w) = Returned tt ->
  forallb (fun item => Sql.has_menu_item s (it_id item)) its = true.
Proof.
  induction its as [|item rest IH]; intros order_id w s Hp Ho; [reflexivity|].
  unfold insert_items. simpl for_of. unfold bind at 1. unfold execute at 1.
  rewrite next_fault_spec.
  destruct (nth 0 (faults w) false) eqn:Hf; [discriminate|].
  rewrite insert_order_item_spec. unfold view. simpl pending. rewrite Hp, Ho. simpl andb.
  cbn [forallb].
  destruct (Sql.has_menu_item s (it_id item)); [|discriminate].
  unfold write_back. simpl pending. rewrite Hp.
  fold (insert_items order_id rest). intros Hret.
  match type of Hret with context [insert_items order_id rest ?w1] =>
    apply (IH order_id w1 _ eq_refl Ho) in Hret end.
  exact Hret.
Qed.

Lemma quiet_until_intro n : forall fl,
  (forall k, (k < n)%nat -> nth k fl false = false) -> quiet_until n fl = true.
Proof.
  unfold quiet_until. induction n as [|n IH]; intros [|b fl] H; try reflexivity.
  cbn [firstn existsb].
  assert (Hb : b = false) by (apply (H 0%nat); lia). rewrite Hb. cbn [orb].
  apply IH. intros k Hk. apply (H (S k)). lia.
Qed.

(** The second lemma about [create_order]: it leaves no transaction open, and
    when something stops it before the commit it answers a failure and the
    committed tables are the ones it found. *)
Lemma create_order_wound_up body d fl :
  left_open (create_order body) d fl = None /\
  (commits body d fl = false ->
   db_tables (database_of (serve (create_order body) d fl)) = db_tables d /\
   succeeded (response_of (serve (create_order body) d fl)) = false).
Proof.
  unfold left_open, database_of, response_of, serve, create_order, finally_, release, try_catch,
    mk_world.
  match goal with |- context [ bind beginTransaction ?K ?W ] =>
    set (T := bind beginTransaction K); set (W0 := W) end.
  assert (H : wound_up body d fl (T W0)).
  2:{ unfold wound_up in H. destruct (T W0) as [[a|] w']; cbn; destruct H as [Hp Hc];
      (split; [assumption || reflexivity|]); intros Hno; destruct (Hc Hno); auto. }
  subst T W0. fold (mk_world (db_tables d) None (db_counters d) fl []).
  assert (Hthrow : forall w, committed w = db_tables d -> wound_up body d fl (Thrown, w)).
  { intros w Hw. split; [exact I|]. intros _. split; [exact Hw|exact I]. }
  rewrite bind_run, beginTransaction_run.
  destruct (nth 0 fl false) eqn:F0.
  { apply Hthrow. reflexivity. }
  assert (Hinvalid : usable body = false -> wound_up body d fl
            (invalid_input (mk_world (db_tables d) (Some (db_tables d)) (db_counters d) (tl fl) []))).
  { intros _. cbn. split; [reflexivity|]. intros _. split; reflexivity. }
  assert (Hres : forall n, table_number body = Some n ->
                 resolved body d = Sql.select_table_ids n (db_tables d)).
  { intros n Hn. unfold resolved. now rewrite Hn. }
  destruct (table_number body) as [[|number|number]|] eqn:Htn;
  destruct (items body) as [[|item rest]|] eqn:Hits;
    try (apply Hinvalid; unfold usable; rewrite Htn; try rewrite Hits; reflexivity).
  1: assert (Hn : Z.pos number <> 0) by easy; set (n := Z.pos number) in *.
  2: assert (Hn : Z.neg number <> 0) by easy; set (n := Z.neg number) in *.
  all: assert (Hu : usable body = true)
         by (unfold usable; rewrite Htn, Hits; now apply negb_true_iff, Z.eqb_neq).
  all: specialize (Hres n eq_refl).
  all: clearbody n; clear Hinvalid;
       set (its := item :: rest) in *; clearbody its.
  all: rewrite bind_run, execute_run; change (tl fl) with (skipn 1 fl); rewrite nth_0_skipn, tl_skipn.
  all: destruct (nth 1 fl false) eqn:F1; [apply Hthrow; reflexivity|].
  all: unfold Sql.query at 1.
  all: destruct (Sql.select_table_ids n (db_tables d)) as [|table_id others] eqn:Hsel;
       [cbn; split; [reflexivity|]; intros _; split; reflexivity|].
  all: next_statement.
  all: destruct (nth 2 fl false) eqn:F2; [apply Hthrow; reflexivity|].
  all: rewrite insert_order_spec, (select_table_ids_has_table _ _ _ _ Hsel).
  all: destruct (Sql.decimal_10_2 (toFixed2 (total_inr its))) as [amount_inr|] eqn:Hinr;
       [|apply Hthrow; reflexivity].
  all: destruct (Sql.decimal_10_2 (toFixed2 (total_usd its))) as [amount_usd|] eqn:Husd;
       [|apply Hthrow; reflexivity].
  all: rewrite bind_run.
  all: fold (payment_status_for (payment_method body)).
  all: fold (order_row_for body (next_order_id (db_counters d)) table_id n amount_inr amount_usd).
  all: set (o := order_row_for body _ table_id n amount_inr amount_usd).
  all: fold (insert_items (next_order_id (db_counters d)) its).
  all: match goal with |- context [insert_items ?i ?l ?w] =>
         pose proof (insert_items_run l i w _ eq_refl (has_order_add_order _ o)) as Hrun;
         pose proof (insert_items_dishes l i w _ eq_refl (has_order_add_order _ o)) as Hdishes;
         destruct (insert_items i l w) as [[[]|] w'] end.
  all: cbn [mk_world committed emitted pending auto_inc faults] in Hrun.
  all: destruct Hrun as (Hc & He & Hid & Hr); cbn [next_order_id] in Hid.
  all: try (apply Hthrow; exact Hc).
  all: destruct Hr as (Hp & Hfl & Hquiet).
  all: rewrite (world_eta w'), Hc, He, Hp, Hfl, skipn_skipn.
  all: next_statement.
  all: destruct (nth (List.length its + 3) fl false) eqn:F3; [apply Hthrow; reflexivity|].
  all: unfold Sql.query at 1.
  all: rewrite bind_run, commit_run, nth_0_skipn, tl_skipn.
  all: destruct (nth (S (List.length its + 3)) fl false) eqn:F4; [apply Hthrow; reflexivity|].
  all: assert (Hcommits : commits body d fl = true)
         by (unfold commits, accepted, read_back, submitted;
             rewrite Hu, Hres, Hits, Hinr, Husd; cbn [andb];
             apply andb_true_iff; split; [exact (Hdishes eq_refl)|];
             apply quiet_until_intro; intros k Hk;
             destruct k as [|[|[|k]]]; auto;
             destruct (Nat.lt_ge_cases k (List.length its)) as [Hlt|Hge];
             [ specialize (Hquiet k Hlt); now rewrite nth_after_skipn in Hquiet |];
             destruct (Nat.eq_dec k (List.length its)) as [->|Hneq];
             [ now replace (S (S (S (List.length its)))) with (List.length its + 3)%nat by lia |];
             now replace (S (S (S k))) with (S (List.length its + 3)) by lia).
  all: next_statement.
  all: destruct (nth (S (S (List.length its + 3))) fl false); unfold Sql.query; cbn;
       (split; [reflexivity|]); intros Hno; congruence.
Qed.

Lemma create_order_outcome body d fl r d' evs :
  serve (create_order body) d fl = (r, d', evs) -> create_outcome body d fl r d' evs.
Proof.
  intros H. pose proof (create_order_run body d fl) as Hrun. now rewrite H in Hrun.
Qed.

(** The first scenario of the specification: two pizzas at table 3 in cash. *)
Example pizza_scenario :
  exists o row,
    serve (create_order pizza_request) demo []
    = (Success (OrderWithItems (Some o) [row]),
       after_pizza,
       [new_order (OrderWithItems (Some o) [row])]) /\
    o_total_amount_inr o = 59800 /\ o_total_amount_usd o = 798 /\
    o_order_status o = "pending" /\ o_payment_status o = "pending" /\
    oi_quantity row = 2 /\ oi_item_status row = "active".
Proof. do 2 eexists. split; [vm_compute; reflexivity|]. repeat split; reflexivity. Qed.

(** *** What every [create_order] guarantees

    The theorems of this section are about one served request: its response
    [r], the database [d'] it leaves and the events [evs] it emitted. *)

Section CreateOrder.

Variables (body : order_request) (d : database) (fl : list bool).
Variables (r : response) (d' : database) (evs : list event).
Hypothesis served : serve (create_order body) d fl = (r, d', evs).

(** Case analysis on the way the request ended. *)
Ltac by_outcome :=
  generalize (create_order_outcome _ _ _ _ _ _ served);
  generalize r, d', evs;
  let r0 := fresh "r" in
  let d0 := fresh "d" in
  let evs0 := fresh "evs" in
  let Hout := fresh "Hout" in
  intros r0 d0 evs0 Hout;
  destruct Hout as [Hbegin Hunusable
                   |Hbegin Hlookup Husable Hnone
                   |c Hwhy Hcount
                   |c o placed Husable Hsome Hplaced Hnew Hcount Hquiet Hback
                   |c table placed table_id others amount_inr amount_usd
                      Htable Htable0 Hplaced Hplaced0 Hsel Hinr Husd Hcount id o s data];
  cbn [succeeded kind_of db_tables db_counters].

(** C1, as amended.  [create_order] is all-or-nothing and rolls back what it
    does not commit.  The tables it leaves are either the tables it found or
    those with the new order row and one row per submitted item added; when it
    succeeds they are all there.  Whatever happens, it leaves no transaction
    open on its connection.  When something stops it before its commit has
    gone through (the guard refuses the request, the table is not found, the
    store refuses a row, the storage layer fails a statement up to and
    including the commit), it answers a failure and the committed tables are
    the ones it found.  A failure leaves rows behind only when the storage
    layer failed the read of the order row that follows the commit, every
    earlier flag being clear. *)
Theorem create_order_all_or_nothing :
  (succeeded r = true ->
     exists its o, items body = Some its /\ its <> [] /\
       db_tables d' = added (db_tables d) o
                        (item_rows (o_id o) (next_order_item_id (db_counters d)) its))
  /\ (succeeded r = false ->
        db_tables d' = db_tables d \/
        (r = Failure 500 "Failed to create order" /\
         (forall k, (k < read_back body)%nat -> nth k fl false = false) /\
         nth (read_back body) fl false = true))
  /\ (db_tables d' = db_tables d \/
      exists its o, items body = Some its /\
        db_tables d' = added (db_tables d) o
                         (item_rows (o_id o) (next_order_item_id (db_counters d)) its))
  /\ left_open (create_order body) d fl = None
  /\ (commits body d fl = false -> succeeded r = false /\ db_tables d' = db_tables d).
Proof.
  assert (Hold :
    (succeeded r = true ->
       exists its o, items body = Some its /\ its <> [] /\
         db_tables d' = added (db_tables d) o
                          (item_rows (o_id o) (next_order_item_id (db_counters d)) its))
    /\ (succeeded r = false ->
          db_tables d' = db_tables d \/
          (r = Failure 500 "Failed to create order" /\
           (forall k, (k < read_back body)%nat -> nth k fl false = false) /\
           nth (read_back body) fl false = true))
    /\ (db_tables d' = db_tables d \/
        exists its o, items body = Some its /\
          db_tables d' = added (db_tables d) o
                           (item_rows (o_id o) (next_order_item_id (db_counters d)) its))).
  { by_outcome; repeat split; auto; try discriminate.
    - right. now exists placed, o.
    - intros _. now exists placed, o.
    - right. now exists placed, o. }
  destruct Hold as (Hsuccess & Hfailure & Heither).
  destruct (create_order_wound_up body d fl) as [Hopen Hstopped].
  rewrite served in Hstopped. cbn [database_of response_of fst snd] in Hstopped.
  split; [exact Hsuccess|]. split; [exact Hfailure|]. split; [exact Heither|].
  split; [exact Hopen|]. intros Hno. destruct (Hstopped Hno). auto.
Qed.

(** C2, as amended.  For a [create_order] that succeeds on a well-formed
    database, the order returned is the order persisted, and each of its totals
    is the binary64 sum [total_inr] (resp. [total_usd]) of the loop, which is
    finite, rounded to hundredths with a half going away from zero.  So the
    total is the sum of price times quantity whenever that sum is a whole number
    of hundredths and binary64 has drifted from it by less than half a
    hundredth; and it has not drifted at all when prices and quantities are
    non-negative whole numbers whose sum of products stays below [2^53]. *)
Theorem create_order_totals :
  well_formed d = true ->
  succeeded r = true ->
  exists its o rows,
    items body = Some its /\
    r = Success (OrderWithItems (Some o) rows) /\
    orders (db_tables d') = orders (db_tables d) ++ [o] /\
    is_finite (total_inr its) = true /\
    o_total_amount_inr o = round_hundredths (exact (total_inr its)) /\
    is_finite (total_usd its) = true /\
    o_total_amount_usd o = round_hundredths (exact (total_usd its)) /\
    (forall n, (exact_total_inr its == n # 100)%Q ->
               (Qabs (exact (total_inr its) - exact_total_inr its) < 1 # 200)%Q ->
               o_total_amount_inr o = n) /\
    (forall n, (exact_total_usd its == n # 100)%Q ->
               (Qabs (exact (total_usd its) - exact_total_usd its) < 1 # 200)%Q ->
               o_total_amount_usd o = n) /\
    (forallb (whole_line it_price_inr) its = true -> whole_total it_price_inr its < 2 ^ 53 ->
     o_total_amount_inr o = 100 * whole_total it_price_inr its) /\
    (forallb (whole_line it_price_usd) its = true -> whole_total it_price_usd its < 2 ^ 53 ->
     o_total_amount_usd o = 100 * whole_total it_price_usd its).
Proof.
  intros Hwf. by_outcome; try discriminate. intros _.
  exists placed, o, (item_rows id (next_order_item_id (db_counters d)) placed).
  subst data s.
  change id with (o_id o).
  rewrite select_order_added, select_order_items_added by (auto; reflexivity).
  apply decimal_10_2_stored in Hinr, Husd.
  destruct Hinr as (neg1 & n1 & Ht1 & ->). destruct Husd as (neg2 & n2 & Ht2 & ->).
  apply toFixed2_decimal in Ht1, Ht2.
  destruct Ht1 as [Hf1 Hv1]. destruct Ht2 as [Hf2 Hv2].
  cbn [o_total_amount_inr o_total_amount_usd o order_row_for].
  split; [assumption|]. split; [reflexivity|]. split; [reflexivity|].
  split; [assumption|]. split; [assumption|]. split; [assumption|]. split; [assumption|].
  split; [intros n Hsum Hdrift|]. 2: split; [intros n Hsum Hdrift|]. 3: split; intros Hwhole Hsum.
  - rewrite Hv1. now apply round_hundredths_drift with (sum := exact_total_inr placed).
  - rewrite Hv2. now apply round_hundredths_drift with (sum := exact_total_usd placed).
  - rewrite Hv1. apply round_hundredths_whole.
    destruct (total_inr_whole placed Hwhole Hsum) as [-> _].
    apply exact_whole. pose proof (whole_total_nonneg _ _ Hwhole). lia.
  - rewrite Hv2. apply round_hundredths_whole.
    destruct (total_usd_whole placed Hwhole Hsum) as [-> _].
    apply exact_whole. pose proof (whole_total_nonneg _ _ Hwhole). lia.
Qed.

(** C3, as amended.  For a request with a non-zero table number and a
    non-empty item list, when the storage layer fails neither of the first two
    statements: if no row of [restaurant_tables] has that number the route
    answers 404 (NotFound), leaves the database as it found it and emits
    nothing; and any row with that number, whatever its [is_active] flag, keeps
    it from answering NotFound. *)
Theorem create_order_unknown_table number its :
  table_number body = Some number -> number <> 0 ->
  items body = Some its -> its <> [] ->
  nth 0 fl false = false -> nth 1 fl false = false ->
  ((forall row, In row (restaurant_tables (db_tables d)) -> rt_table_number row <> number) ->
     r = Failure 404 "Table not found" /\ kind_of r = Some NotFound /\ d' = d /\ evs = [])
  /\ (forall row, In row (restaurant_tables (db_tables d)) -> rt_table_number row = number ->
        kind_of r <> Some NotFound).
Proof.
  intros Htn Hn Hits Hne F0 F1.
  assert (Hu : usable body = true) by (apply usable_spec; now exists number, its).
  assert (Hres : resolved body d = Sql.select_table_ids number (db_tables d))
    by (unfold resolved; now rewrite Htn).
  split.
  - intros Hmiss. apply select_table_ids_nil in Hmiss.
    by_outcome; try congruence.
    + now repeat split.
    + destruct Hwhy as [?|[_ [?|?]]]; congruence.
  - intros row Hin Hrow. pose proof (select_table_ids_cons _ _ _ Hin Hrow) as Hhit.
    by_outcome; congruence.
Qed.

(** C4, as amended.  A request whose [items] is absent or empty, once the
    transaction is open, is answered 400 (InvalidInput); the database is left as
    it was found and nothing is emitted. *)
Theorem create_order_empty_items :
  items body = None \/ items body = Some [] ->
  nth 0 fl false = false ->
  r = Failure 400 "Table number and items are required" /\
  kind_of r = Some InvalidInput /\ d' = d /\ evs = [].
Proof.
  intros Hits F0.
  assert (Hu : usable body = false).
  { unfold usable. destruct Hits as [E|E]; rewrite E; destruct (table_number body); reflexivity. }
  by_outcome; try congruence.
  - now repeat split.
  - destruct Hwhy as [?|[? _]]; congruence.
  - destruct Hits; congruence.
Qed.

(** C8.  The order a successful [create_order] persists has [order_status]
    pending; its [payment_status] is pending exactly when the payment method is
    cash, and paid for every other method. *)
Theorem create_order_initial_statuses :
  succeeded r = true ->
  exists o,
    orders (db_tables d') = orders (db_tables d) ++ [o] /\
    o_order_status o = "pending" /\
    (o_payment_status o = "pending" <-> payment_method body = "cash") /\
    (payment_method body <> "cash" -> o_payment_status o = "paid").
Proof.
  by_outcome; try discriminate. intros _.
  exists o. subst s o. cbn.
  unfold payment_status_for.
  destruct (String.eqb_spec (payment_method body) "cash") as [Heq|Hneq].
  - repeat split; auto; congruence.
  - repeat split; auto; try congruence; discriminate.
Qed.

(** C9, as amended.  On a well-formed database, a [create_order] that
    succeeds emits exactly one [new_order] event, whose payload is the response
    payload: the persisted order row and its item rows, as a read of the final
    tables returns them.  A [create_order] that answers with a failure emits
    nothing, also when its transaction had committed. *)
Theorem create_order_publishes :
  well_formed d = true ->
  (succeeded r = true ->
     exists its o rows,
       items body = Some its /\
       rows = item_rows (o_id o) (next_order_item_id (db_counters d)) its /\
       db_tables d' = added (db_tables d) o rows /\
       Sql.select_order (o_id o) (db_tables d') = [o] /\
       Sql.select_order_items (o_id o) (db_tables d') = rows /\
       r = Success (OrderWithItems (Some o) rows) /\
       evs = [new_order (OrderWithItems (Some o) rows)])
  /\ (succeeded r = false -> evs = []).
Proof.
  intros Hwf. by_outcome; split; auto; try discriminate.
  intros _. exists placed, o, (item_rows id (next_order_item_id (db_counters d)) placed).
  subst data s. change id with (o_id o).
  rewrite select_order_added, select_order_items_added by (auto; reflexivity).
  repeat split; auto.
Qed.

End CreateOrder.

(** *** The same at concrete requests, and where the claims as stated fail *)

(** C1 at the pizza order: it succeeds and its rows are there.  And at a pizza
    with a dish the menu does not have, ordered after it: the row of the pizza
    is written, the store refuses the other, the answer is a failure, the
    tables are the ones found and no transaction is left open. *)
Lemma create_order_all_or_nothing_witness :
  (commits pizza_request demo [] = true /\
   exists its o, items pizza_request = Some its /\ its <> [] /\
     db_tables (database_of (serve (create_order pizza_request) demo []))
     = added (db_tables demo) o (item_rows (o_id o) (next_order_item_id (db_counters demo)) its))
  /\ commits soup_request after_pizza [] = false
  /\ orders (db_tables after_pizza) <> []
  /\ left_open (create_order soup_request) after_pizza [] = None
  /\ succeeded (response_of (serve (create_order soup_request) after_pizza [])) = false
  /\ db_tables (database_of (serve (create_order soup_request) after_pizza []))
     = db_tables after_pizza.
Proof.
  split.
  - split; [reflexivity|].
    refine (proj1 (create_order_all_or_nothing pizza_request demo [] _ _ _ (served_eta _)) _).
    vm_compute. reflexivity.
  - destruct (create_order_all_or_nothing soup_request after_pizza [] _ _ _ (served_eta _))
      as (_ & _ & _ & Hopen & Hstopped).
    destruct (Hstopped eq_refl) as [Hfailed Hsame].
    split; [reflexivity|]. split; [discriminate|]. split; [exact Hopen|].
    split; [exact Hfailed|exact Hsame].
Defined.

(** Counterexample to C1 as stated: the storage layer fails the read of the
    order row that follows the commit.  The caller gets a 500, and the order
    row and the item row are in the tables. *)
Lemma create_order_read_back_failure_keeps_rows :
  exists d',
    nth (read_back pizza_request) (fault_at 6) false = true /\
    serve (create_order pizza_request) demo (fault_at 6)
    = (Failure 500 "Failed to create order", d', []) /\
    orders (db_tables demo) = [] /\ order_items (db_tables demo) = [] /\
    List.length (orders (db_tables d')) = 1%nat /\
    List.length (order_items (db_tables d')) = 1%nat.
Proof.
  eexists. split; [reflexivity|]. split; [vm_compute; reflexivity|].
  repeat split; reflexivity.
Qed.

(** C2 at the pizza order. *)
Lemma create_order_totals_witness :
  exists its o rows,
    items pizza_request = Some its /\
    response_of (serve (create_order pizza_request) demo [])
    = Success (OrderWithItems (Some o) rows) /\
    orders (db_tables (database_of (serve (create_order pizza_request) demo [])))
    = orders (db_tables demo) ++ [o] /\
    is_finite (total_inr its) = true /\
    o_total_amount_inr o = round_hundredths (exact (total_inr its)) /\
    is_finite (total_usd its) = true /\
    o_total_amount_usd o = round_hundredths (exact (total_usd its)) /\
    (forall n, (exact_total_inr its == n # 100)%Q ->
               (Qabs (exact (total_inr its) - exact_total_inr its) < 1 # 200)%Q ->
               o_total_amount_inr o = n) /\
    (forall n, (exact_total_usd its == n # 100)%Q ->
               (Qabs (exact (total_usd its) - exact_total_usd its) < 1 # 200)%Q ->
               o_total_amount_usd o = n) /\
    (forallb (whole_line it_price_inr) its = true -> whole_total it_price_inr its < 2 ^ 53 ->
     o_total_amount_inr o = 100 * whole_total it_price_inr its) /\
    (forallb (whole_line it_price_usd) its = true -> whole_total it_price_usd its < 2 ^ 53 ->
     o_total_amount_usd o = 100 * whole_total it_price_usd its).
Proof.
  refine (create_order_totals pizza_request demo [] _ _ _ (served_eta _) _ _).
  - reflexivity.
  - vm_compute. reflexivity.
Defined.

(** For the two pizzas both sums are whole hundredths, 598.00 and 7.98, and
    binary64 stays within half a hundredth of them (it is exact on the first,
    priced in whole rupees, and not on the second). *)
Example pizza_totals_drift :
  forallb (whole_line it_price_inr) [pizza 2] = true /\
  whole_total it_price_inr [pizza 2] = 598 /\
  (exact_total_inr [pizza 2] == 59800 # 100)%Q /\
  (exact (total_inr [pizza 2]) == exact_total_inr [pizza 2])%Q /\
  forallb (whole_line it_price_usd) [pizza 2] = false /\
  (exact_total_usd [pizza 2] == 798 # 100)%Q /\
  ~ (exact (total_usd [pizza 2]) == exact_total_usd [pizza 2])%Q /\
  (Qabs (exact (total_usd [pizza 2]) - exact_total_usd [pizza 2]) < 1 # 200)%Q.
Proof.
  split; [reflexivity|]. split; [reflexivity|]. split; [reflexivity|].
  split; [reflexivity|]. split; [reflexivity|]. split; [reflexivity|].
  split; [|reflexivity]. vm_compute. discriminate.
Qed.

(** Counterexample to C2 as stated: one coffee at 1.005 rupees.  The sum of
    price times quantity is 1.005, which rounds half-up to 1.01; the order
    persisted and returned has [total_amount_inr = 1.00], because the Number
    nearest to 1.005 lies below it. *)
Lemma create_order_total_not_half_up :
  exists o rows d' evs,
    serve (create_order (request 3 [coffee (thousandths 1005)])) demo []
    = (Success (OrderWithItems (Some o) rows), d', evs) /\
    o_total_amount_inr o = 100 /\
    (exact_total_inr [coffee (thousandths 1005)] == 1005 # 1000)%Q /\
    half_up_hundredths (exact_total_inr [coffee (thousandths 1005)]) = 101.
Proof.
  do 4 eexists. split; [vm_compute; reflexivity|].
  split; [reflexivity|]. split; reflexivity.
Qed.

(** C3 at table 999, which [demo] does not have. *)
Lemma create_order_unknown_table_witness :
  response_of (serve (create_order (request 999 [pizza 1])) demo [])
  = Failure 404 "Table not found" /\
  kind_of (response_of (serve (create_order (request 999 [pizza 1])) demo [])) = Some NotFound /\
  database_of (serve (create_order (request 999 [pizza 1])) demo []) = demo /\
  events_of (serve (create_order (request 999 [pizza 1])) demo []) = [].
Proof.
  refine (proj1 (create_order_unknown_table (request 999 [pizza 1]) demo [] _ _ _
                   (served_eta _) 999 [pizza 1] eq_refl _ eq_refl _ eq_refl eq_refl) _).
  - discriminate.
  - discriminate.
  - intros row [<-|[<-|[]]]; discriminate.
Defined.

(** Counterexample to C3 as stated: table 7 of [demo] exists and is inactive,
    and an order for it is created. *)
Lemma create_order_inactive_table_accepted :
  exists o rows d' evs,
    existsb (fun row => (rt_table_number row =? 7) && rt_is_active row)
            (restaurant_tables (db_tables demo)) = false /\
    serve (create_order (request 7 [pizza 1])) demo []
    = (Success (OrderWithItems (Some o) rows), d', evs) /\
    o_table_number o = 7 /\
    orders (db_tables d') = [o] /\ order_items (db_tables d') = rows /\ rows <> [].
Proof.
  do 4 eexists. split; [reflexivity|]. split; [vm_compute; reflexivity|].
  repeat split; try reflexivity. discriminate.
Qed.

(** C4 at an empty item list for table 3. *)
Lemma create_order_empty_items_witness :
  response_of (serve (create_order (request 3 [])) demo [])
  = Failure 400 "Table number and items are required" /\
  kind_of (response_of (serve (create_order (request 3 [])) demo [])) = Some InvalidInput /\
  database_of (serve (create_order (request 3 [])) demo []) = demo /\
  events_of (serve (create_order (request 3 [])) demo []) = [].
Proof.
  refine (create_order_empty_items (request 3 []) demo [] _ _ _ (served_eta _) _ eq_refl).
  now right.
Defined.

(** Counterexample to C4 as stated: an entry whose quantity is 0 is accepted,
    and the order and the item row are persisted. *)
Lemma create_order_zero_quantity_accepted :
  exists o row d' evs,
    serve (create_order (request 3 [pizza 0])) demo []
    = (Success (OrderWithItems (Some o) [row]), d', evs) /\
    oi_quantity row = 0 /\
    orders (db_tables d') = [o] /\ order_items (db_tables d') = [row].
Proof.
  do 4 eexists. split; [vm_compute; reflexivity|].
  repeat split; reflexivity.
Qed.

(** C8 at the pizza order, paid in cash. *)
Lemma create_order_initial_statuses_witness :
  exists o,
    orders (db_tables (database_of (serve (create_order pizza_request) demo [])))
    = orders (db_tables demo) ++ [o] /\
    o_order_status o = "pending" /\
    (o_payment_status o = "pending" <-> payment_method pizza_request = "cash") /\
    (payment_method pizza_request <> "cash" -> o_payment_status o = "paid").
Proof.
  refine (create_order_initial_statuses pizza_request demo [] _ _ _ (served_eta _) _).
  vm_compute. reflexivity.
Defined.

(** C9 at the pizza order. *)
Lemma create_order_publishes_witness :
  exists its o rows,
    items pizza_request = Some its /\
    rows = item_rows (o_id o) (next_order_item_id (db_counters demo)) its /\
    db_tables (database_of (serve (create_order pizza_request) demo []))
    = added (db_tables demo) o rows /\
    Sql.select_order (o_id o)
      (db_tables (database_of (serve (create_order pizza_request) demo []))) = [o] /\
    Sql.select_order_items (o_id o)
      (db_tables (database_of (serve (create_order pizza_request) demo []))) = rows /\
    response_of (serve (create_order pizza_request) demo [])
    = Success (OrderWithItems (Some o) rows) /\
    events_of (serve (create_order pizza_request) demo [])
    = [new_order (OrderWithItems (Some o) rows)].
Proof.
  refine (proj1 (create_order_publishes pizza_request demo [] _ _ _ (served_eta _) eq_refl) _).
  vm_compute. reflexivity.
Defined.

(** Counterexample to C9 as stated: the commit goes through (the fifth
    statement is not failed, and the rows are in the tables) and the read of
    the order row after it fails.  No event is emitted. *)
Lemma create_order_commit_without_event :
  exists o rows d',
    nth 5 (fault_at 6) false = false /\
    serve (create_order pizza_request) demo (fault_at 6)
    = (Failure 500 "Failed to create order", d', []) /\
    db_tables d' = added (db_tables demo) o rows /\
    o_id o = 1 /\ List.length rows = 1%nat.
Proof.
  do 3 eexists. split; [reflexivity|]. split; [vm_compute; reflexivity|].
  split; [|split]; [unfold added, add_items, add_order; cbn; reflexivity| |];
    reflexivity.
Qed.

(** ** [update_order_status] *)

Lemma update_order_status_run id st d fl :
  nth 0 fl false = false -> nth 1 fl false = false ->
  serve (update_order_status id st) d fl =
  if Sql.has_order (db_tables d) id
  then let o := hd_error (Sql.select_order id (with_order_status st id (db_tables d))) in
       (Success (Order o),
        {| db_tables := with_order_status st id (db_tables d); db_counters := db_counters d |},
        [order_status_updated o])
  else (Failure 404 "Order not found", d, []).
Proof.
  intros F0 F1. unfold update_order_status. rewrite serve_simple.
  rewrite bind_run, execute_run, F0.
  unfold Sql.update_order_status_where_id. fold (with_order_status st id (db_tables d)).
  rewrite length_filter_zero. fold (Sql.has_order (db_tables d) id).
  destruct (Sql.has_order (db_tables d) id) eqn:Ho; cbn [negb].
  - rewrite bind_run, execute_run. change (nth 0 (tl fl) false) with (nth 0 (skipn 1 fl) false).
    rewrite nth_0_skipn, F1. reflexivity.
  - rewrite with_order_status_untouched by exact Ho. cbn. now destruct d.
Qed.

(** The third scenario: the pizza order moved to preparing. *)
Example preparing_scenario :
  exists o,
    serve (update_order_status 1 "preparing") after_pizza []
    = (Success (Order (Some o)),
       {| db_tables := with_order_status "preparing" 1 (db_tables after_pizza);
          db_counters := db_counters after_pizza |},
       [order_status_updated (Some o)]) /\
    o_order_status o = "preparing" /\ o_total_amount_inr o = 59800.
Proof. eexists. split; [vm_compute; reflexivity|]. split; reflexivity. Qed.

(** C5.  With no storage fault, [update_order_status] answers 404 (NotFound)
    and changes nothing when no order has the id; when one has, it succeeds,
    returns and publishes that order with [order_status] set to the new status
    and every other column as it was, whatever the status was before. *)
Theorem update_order_status_found_or_not id st d fl r d' evs :
  serve (update_order_status id st) d fl = (r, d', evs) ->
  no_fault fl = true ->
  (Sql.has_order (db_tables d) id = false ->
     r = Failure 404 "Order not found" /\ kind_of r = Some NotFound /\ d' = d /\ evs = [])
  /\ (Sql.has_order (db_tables d) id = true ->
        exists before o,
          In before (orders (db_tables d)) /\ o_id before = id /\
          o = Sql.set_order_status st before /\
          o_id o = id /\ o_order_status o = st /\
          r = Success (Order (Some o)) /\
          hd_error (Sql.select_order id (db_tables d')) = Some o /\
          evs = [order_status_updated (Some o)]).
Proof.
  intros H Hnf.
  rewrite update_order_status_run in H by (now apply no_fault_nth).
  split; intros Ho; rewrite Ho in H.
  - injection H as <- <- <-. now repeat split.
  - cbv zeta in H. injection H as <- <- <-. cbn [db_tables].
    rewrite select_order_with_order_status.
    destruct (existsb_hd_filter _ _ Ho) as (before & Hhd & Hin & Hid).
    apply Z.eqb_eq in Hid.
    exists before, (Sql.set_order_status st before).
    unfold Sql.select_order. 
    destruct (filter (fun r => o_id r =? id) (orders (db_tables d))) as [|x l]; [discriminate|].
    cbn in Hhd. injection Hhd as ->. cbn. now repeat split.
Qed.

(** C5 at the pizza order, set to the status it already has. *)
Lemma update_order_status_found_or_not_witness :
  exists before o,
    In before (orders (db_tables after_pizza)) /\ o_id before = 1 /\
    o_order_status before = "pending" /\
    o = Sql.set_order_status "pending" before /\
    o_id o = 1 /\ o_order_status o = "pending" /\
    response_of (serve (update_order_status 1 "pending") after_pizza [])
    = Success (Order (Some o)) /\
    hd_error (Sql.select_order 1
                (db_tables (database_of (serve (update_order_status 1 "pending") after_pizza []))))
    = Some o /\
    events_of (serve (update_order_status 1 "pending") after_pizza [])
    = [order_status_updated (Some o)].
Proof.
  destruct (proj2 (update_order_status_found_or_not 1 "pending" after_pizza [] _ _ _
                     (served_eta _) eq_refl) eq_refl)
    as (before & o & Hin & Hid & Ho & Hrest).
  exists before, o. repeat split; try tauto.
  destruct Hin as [<-|[]]. reflexivity.
Defined.

(** ** [cancel_order] and [cancel_order_item] *)

Lemma cancel_order_run id reason cancelled_by d fl :
  nth 0 fl false = false -> nth 1 fl false = false ->
  Sql.has_order (db_tables d) id = true ->
  Sql.text reason = true -> Sql.varchar 50 cancelled_by = true ->
  serve (cancel_order id reason (Some cancelled_by)) d fl =
  (SuccessMessage "Order cancelled successfully", cancelled id reason cancelled_by d, []).
Proof.
  intros F0 F1 Ho Hreason Hby. unfold cancel_order. rewrite serve_simple.
  rewrite bind_run, execute_run, F0.
  unfold Sql.update_order_status_where_id. fold (with_order_status "cancelled" id (db_tables d)).
  rewrite bound_some.
  rewrite bind_run, execute_run. change (nth 0 (tl fl) false) with (nth 0 (skipn 1 fl) false).
  rewrite nth_0_skipn, F1.
  rewrite insert_cancellation_spec, has_order_with_order_status, Ho, Hreason, Hby. reflexivity.
Qed.

(** What one [cancel_order] does when the record is not written: the driver
    refuses an absent [cancelled_by], the store a text its column does not
    take.  The status has been written by then. *)
Lemma cancel_order_refused id reason cancelled_by d fl :
  nth 0 fl false = false ->
  match cancelled_by with
  | Some text => Sql.text reason && Sql.varchar 50 text = false
  | None => True
  end ->
  serve (cancel_order id reason cancelled_by) d fl =
  (Failure 500 "Failed to cancel order",
   {| db_tables := with_order_status "cancelled" id (db_tables d);
      db_counters := db_counters d |}, []).
Proof.
  intros F0 Hwhy. unfold cancel_order. rewrite serve_simple.
  rewrite bind_run, execute_run, F0.
  unfold Sql.update_order_status_where_id. fold (with_order_status "cancelled" id (db_tables d)).
  destruct cancelled_by as [text|]; [rewrite bound_some|reflexivity].
  rewrite bind_run, execute_run, insert_cancellation_spec, <- andb_assoc, Hwhy, andb_false_r.
  now destruct (nth 0 (tl fl) false).
Qed.

Lemma has_order_cancelled id reason cancelled_by d id' :
  Sql.has_order (db_tables (cancelled id reason cancelled_by d)) id' = Sql.has_order (db_tables d) id'.
Proof.
  unfold cancelled. cbn [db_tables]. 
  change (Sql.has_order (with_cancellation ?r ?s) id') with (Sql.has_order s id').
  apply has_order_with_order_status.
Qed.

(** C10, as amended.  With no storage fault, [cancel_order] called twice on an
    order that exists, each time with a [cancelled_by] that is given and has at
    most 50 characters and a reason its column takes, answers success both
    times; the second call leaves the orders as the first left them, with the
    order cancelled, and each call appends its own cancellation record. *)
Theorem cancel_order_twice id reason1 by1 reason2 by2 d fl1 fl2 r1 d1 evs1 r2 d2 evs2 :
  serve (cancel_order id reason1 (Some by1)) d fl1 = (r1, d1, evs1) ->
  serve (cancel_order id reason2 (Some by2)) d1 fl2 = (r2, d2, evs2) ->
  Sql.has_order (db_tables d) id = true ->
  Sql.text reason1 = true -> Sql.varchar 50 by1 = true ->
  Sql.text reason2 = true -> Sql.varchar 50 by2 = true ->
  no_fault fl1 = true -> no_fault fl2 = true ->
  r1 = SuccessMessage "Order cancelled successfully" /\
  r2 = SuccessMessage "Order cancelled successfully" /\
  succeeded r1 = true /\ succeeded r2 = true /\
  orders (db_tables d2) = orders (db_tables d1) /\
  (forall o, In o (orders (db_tables d2)) -> o_id o = id -> o_order_status o = "cancelled") /\
  order_cancellations (db_tables d2) =
    order_cancellations (db_tables d)
    ++ [cancellation_for (db_counters d) id None reason1 by1;
        cancellation_for (db_counters d1) id None reason2 by2].
Proof.
  intros H1 H2 Ho Hreason1 Hby1 Hreason2 Hby2 Hf1 Hf2.
  rewrite cancel_order_run in H1 by (auto using no_fault_nth).
  injection H1 as <- <- <-.
  rewrite cancel_order_run in H2
    by (auto using no_fault_nth; now rewrite has_order_cancelled).
  injection H2 as <- <- <-.
  repeat split.
  - unfold cancelled. cbn [db_tables orders with_cancellation].
    change (orders (with_order_status "cancelled" id
                      (with_cancellation ?r ?s)))
      with (orders (with_order_status "cancelled" id s)).
    now rewrite with_order_status_idem.
  - intros o Hin Hid. unfold cancelled in Hin. cbn [db_tables orders with_cancellation] in Hin.
    unfold with_order_status at 1 in Hin. cbn [orders] in Hin.
    apply in_map_iff in Hin. destruct Hin as (o0 & Ho0 & _).
    destruct (o_id o0 =? id) eqn:E; subst o; [reflexivity|].
    apply Z.eqb_neq in E. contradiction.
  - unfold cancelled. cbn. now rewrite <- app_assoc.
Qed.

(** C10 at the pizza order. *)
Lemma cancel_order_twice_witness :
  response_of (serve (cancel_order 1 "too slow" (Some "customer")) after_pizza [])
  = SuccessMessage "Order cancelled successfully" /\
  response_of (serve (cancel_order 1 "still too slow" (Some "staff"))
                 (database_of (serve (cancel_order 1 "too slow" (Some "customer"))
                                 after_pizza [])) [])
  = SuccessMessage "Order cancelled successfully".
Proof.
  destruct (cancel_order_twice 1 "too slow" "customer" "still too slow" "staff"
              after_pizza [] [] _ _ _ _ _ _ (served_eta _) (served_eta _)
              eq_refl eq_refl eq_refl eq_refl eq_refl eq_refl eq_refl) as (H1 & H2 & _).
  split; [exact H1|exact H2].
Defined.

(** Counterexample to C10 as stated, at the pizza order with no storage fault.
    A [cancelled_by] of 62 characters is more than the column takes: both
    calls answer 500, the first has set the order to cancelled, and no
    cancellation record is written.  The same happens when both calls leave
    [cancelled_by] out. *)
Lemma cancel_order_twice_refused :
  Sql.has_order (db_tables after_pizza) 1 = true /\
  Sql.varchar 50 long_name = false /\
  response_of (serve (cancel_order 1 "too slow" (Some long_name)) after_pizza [])
  = Failure 500 "Failed to cancel order" /\
  response_of (serve (cancel_order 1 "too slow" (Some long_name))
                 (database_of (serve (cancel_order 1 "too slow" (Some long_name))
                                 after_pizza [])) [])
  = Failure 500 "Failed to cancel order" /\
  succeeded (Failure 500 "Failed to cancel order") = false /\
  map o_order_status
    (orders (db_tables (database_of (serve (cancel_order 1 "too slow" (Some long_name))
                                       after_pizza []))))
  = ["cancelled"] /\
  order_cancellations
    (db_tables (database_of
       (serve (cancel_order 1 "too slow" (Some long_name))
          (database_of (serve (cancel_order 1 "too slow" (Some long_name)) after_pizza []))
          [])))
  = [] /\
  response_of (serve (cancel_order 1 "too slow" None) after_pizza [])
  = Failure 500 "Failed to cancel order" /\
  response_of (serve (cancel_order 1 "too slow" None)
                 (database_of (serve (cancel_order 1 "too slow" None) after_pizza [])) [])
  = Failure 500 "Failed to cancel order".
Proof. repeat split; vm_compute; reflexivity. Qed.

Lemma set_item_status_in st item_id order_id s row :
  In row (order_items s) -> oi_id row = item_id -> oi_order_id row = order_id ->
  In (Sql.set_item_status st row) (order_items (with_item_status st item_id order_id s)).
Proof.
  intros Hin Hi Ho. unfold with_item_status. cbn [order_items].
  apply in_map_iff. exists row. split; [|exact Hin].
  now rewrite Hi, Ho, !Z.eqb_refl.
Qed.

Lemma cancel_order_item_run id itemId reason cancelled_by d fl :
  nth 0 fl false = false ->
  exists r c evs,
    serve (cancel_order_item id itemId reason cancelled_by) d fl = (r, c, evs) /\
    orders (db_tables c) = orders (db_tables d) /\
    order_items (db_tables c) =
      order_items (with_item_status "cancelled" itemId id (db_tables d)).
Proof.
  intros F0. unfold cancel_order_item. rewrite serve_simple.
  rewrite bind_run, execute_run, F0.
  unfold Sql.update_item_status_where.
  fold (with_item_status "cancelled" itemId id (db_tables d)).
  destruct cancelled_by as [text|];
    [rewrite bound_some
    |rewrite bound_none; cbn; do 3 eexists; split; [reflexivity|]; split; reflexivity].
  rewrite bind_run, execute_run, insert_cancellation_spec.
  destruct (nth 0 (tl fl) false);
    [cbn; do 3 eexists; split; [reflexivity|]; split; reflexivity|].
  match goal with |- context [Sql.has_order ?s id && ?a && ?b] =>
    destruct (Sql.has_order s id && a && b) end;
    cbn; do 3 eexists; (split; [reflexivity|]); split; reflexivity.
Qed.

(** A pair that matches no item row, on an order that exists: no row is
    updated, a cancellation record is appended all the same and the answer is a
    success. *)
Lemma cancel_order_item_unmatched id itemId reason cancelled_by d fl :
  nth 0 fl false = false -> nth 1 fl false = false ->
  Sql.has_order (db_tables d) id = true ->
  Sql.text reason = true -> Sql.varchar 50 cancelled_by = true ->
  existsb (fun r => (oi_id r =? itemId) && (oi_order_id r =? id)) (order_items (db_tables d))
  = false ->
  serve (cancel_order_item id itemId reason (Some cancelled_by)) d fl =
  (SuccessMessage "Item cancelled successfully",
   {| db_tables := with_cancellation
                     (cancellation_for (db_counters d) id (Some itemId) reason cancelled_by)
                     (db_tables d);
      db_counters := bump_cancellation (db_counters d) |},
   []).
Proof.
  intros F0 F1 Ho Hreason Hby Hnone. unfold cancel_order_item. rewrite serve_simple.
  rewrite bind_run, execute_run, F0.
  unfold Sql.update_item_status_where.
  rewrite (map_untouched _ _ _ Hnone).
  rewrite bound_some.
  rewrite bind_run, execute_run, insert_cancellation_spec, Hreason, Hby, !andb_true_r.
  change (nth 0 (tl fl) false) with (nth 0 (skipn 1 fl) false). rewrite nth_0_skipn, F1.
  cbn [mk_world]. destruct (db_tables d) as [rt mi os ois cs] eqn:Hd.
  cbn [restaurant_tables menu_items orders order_items order_cancellations] in *.
  change (Sql.has_order {| restaurant_tables := rt; menu_items := mi; orders := os;
                           order_items := ois; order_cancellations := cs |} id)
    with (existsb (fun r => o_id r =? id) os).
  unfold Sql.has_order in Ho. cbn [orders] in Ho. rewrite Ho. reflexivity.
Qed.

(** C6, evaluated where the code departs from it.  In [two_orders] item 1
    belongs to order 1.  Cancelling item 1 of order 2 updates no row, and the
    route still appends a cancellation record and answers success, where the
    claim has it answer NotFound. *)
Theorem cancel_order_item_mismatch_accepted :
  exists d',
    Sql.has_order (db_tables two_orders) 2 = true /\
    filter (fun r => (oi_id r =? 1) && (oi_order_id r =? 2)) (order_items (db_tables two_orders))
    = [] /\
    serve (cancel_order_item 2 1 "changed my mind" (Some "customer")) two_orders []
    = (SuccessMessage "Item cancelled successfully", d', []) /\
    kind_of (SuccessMessage "Item cancelled successfully") = None /\
    order_items (db_tables d') = order_items (db_tables two_orders) /\
    order_cancellations (db_tables d')
    = [ {| oc_id := 1; oc_order_id := 2; oc_item_id := Some 1;
           oc_reason := "changed my mind"; oc_cancelled_by := "customer" |} ].
Proof.
  eexists. split; [reflexivity|]. split; [reflexivity|].
  split; [vm_compute; reflexivity|]. repeat split; reflexivity.
Qed.

(** C7.  When the item row belongs to the order and the storage layer does not
    fail the update, [cancel_order_item] leaves that row with [item_status]
    cancelled, and leaves the [orders] table, hence both totals of the order as
    a later read returns them, exactly as it found them. *)
Theorem cancel_order_item_keeps_totals id itemId reason cancelled_by d fl r d' evs row :
  serve (cancel_order_item id itemId reason cancelled_by) d fl = (r, d', evs) ->
  In row (order_items (db_tables d)) ->
  oi_id row = itemId -> oi_order_id row = id ->
  nth 0 fl false = false ->
  In (Sql.set_item_status "cancelled" row) (order_items (db_tables d')) /\
  oi_item_status (Sql.set_item_status "cancelled" row) = "cancelled" /\
  orders (db_tables d') = orders (db_tables d) /\
  Sql.select_order id (db_tables d') = Sql.select_order id (db_tables d).
Proof.
  intros H Hin Hi Ho F0.
  destruct (cancel_order_item_run id itemId reason cancelled_by d fl F0)
    as (r0 & c0 & evs0 & Hrun & Hord & Hitems).
  rewrite Hrun in H. injection H as <- <- <-.
  split; [|split; [|split]].
  - rewrite Hitems. now apply set_item_status_in.
  - reflexivity.
  - exact Hord.
  - unfold Sql.select_order. now rewrite Hord.
Qed.

(** The fifth property of the specification on the pizza order: its item
    cancelled, the order read afterwards is the order as it was created. *)
Example cancel_item_scenario :
  exists o row d',
    serve (cancel_order_item 1 1 "too slow" (Some "customer")) after_pizza []
    = (SuccessMessage "Item cancelled successfully", d', []) /\
    response_of (serve (create_order pizza_request) demo [])
    = Success (OrderWithItems (Some o) [row]) /\
    Sql.select_order 1 (db_tables d') = [o] /\
    o_total_amount_inr o = 59800 /\ o_total_amount_usd o = 798 /\
    Sql.select_order_items 1 (db_tables d') = [Sql.set_item_status "cancelled" row].
Proof.
  do 3 eexists. split; [vm_compute; reflexivity|].
  split; [vm_compute; reflexivity|]. repeat split; reflexivity.
Qed.

(** C7 at the pizza order and its one item. *)
Lemma cancel_order_item_keeps_totals_witness :
  In (Sql.set_item_status "cancelled" (item_row 1 1 (pizza 2)))
     (order_items (db_tables (database_of
        (serve (cancel_order_item 1 1 "too slow" (Some "customer")) after_pizza [])))) /\
  oi_item_status (Sql.set_item_status "cancelled" (item_row 1 1 (pizza 2))) = "cancelled" /\
  orders (db_tables (database_of
     (serve (cancel_order_item 1 1 "too slow" (Some "customer")) after_pizza [])))
  = orders (db_tables after_pizza) /\
  Sql.select_order 1 (db_tables (database_of
     (serve (cancel_order_item 1 1 "too slow" (Some "customer")) after_pizza [])))
  = Sql.select_order 1 (db_tables after_pizza).
Proof.
  refine (cancel_order_item_keeps_totals 1 1 "too slow" (Some "customer") after_pizza [] _ _ _
            (item_row 1 1 (pizza 2)) (served_eta _) _ eq_refl eq_refl eq_refl).
  now left.
Defined.

(** ** Well-formed databases

    The theorems on what [create_order] returns assume a well-formed database.
    The assumption holds of every database the routes can make of a well-formed
    one, storage faults or not. *)

Lemma forallb_through_map {A B} (g : A -> B) (f : B -> bool) l :
  forallb f (map g l) = forallb (fun x => f (g x)) l.
Proof. induction l as [|x l IH]; cbn; auto. now rewrite IH. Qed.

Lemma well_formed_by_shape d :
  well_formed d =
  forallb (fun i => i <? next_order_id (db_counters d)) (fst (id_shape (db_tables d)))
  && forallb (fun i => i <? next_order_id (db_counters d)) (snd (id_shape (db_tables d))).
Proof. unfold well_formed, id_shape. cbn [fst snd]. now rewrite !forallb_through_map. Qed.

Lemma well_formed_same_shape d d' :
  id_shape (db_tables d') = id_shape (db_tables d) ->
  next_order_id (db_counters d') = next_order_id (db_counters d) ->
  well_formed d' = well_formed d.
Proof. intros Hs Hn. rewrite !well_formed_by_shape. now rewrite Hs, Hn. Qed.

Lemma well_formed_counter d c :
  next_order_id (db_counters d) <= next_order_id c ->
  well_formed d = true ->
  well_formed {| db_tables := db_tables d; db_counters := c |} = true.
Proof.
  unfold well_formed. cbn [db_tables db_counters]. intros Hc H.
  apply andb_true_iff in H. destruct H as [Ho Hi]. apply andb_true_iff. split.
  - revert Ho. apply forallb_weaken. intros x Hx. apply Z.ltb_lt in Hx. apply Z.ltb_lt. lia.
  - revert Hi. apply forallb_weaken. intros x Hx. apply Z.ltb_lt in Hx. apply Z.ltb_lt. lia.
Qed.

Lemma well_formed_added d c o first its :
  o_id o = next_order_id (db_counters d) ->
  next_order_id c = next_order_id (db_counters d) + 1 ->
  well_formed d = true ->
  well_formed {| db_tables := added (db_tables d) o (item_rows (o_id o) first its);
                 db_counters := c |} = true.
Proof.
  unfold well_formed. cbn [db_tables db_counters added add_items add_order orders order_items].
  intros Hid Hc H. apply andb_true_iff in H. destruct H as [Ho Hi].
  rewrite !forallb_app. cbn [forallb]. rewrite Hc, Hid.
  repeat (apply andb_true_iff; split); try reflexivity.
  - revert Ho. apply forallb_weaken. intros x Hx. apply Z.ltb_lt in Hx. apply Z.ltb_lt. lia.
  - apply Z.ltb_lt. lia.
  - revert Hi. apply forallb_weaken. intros x Hx. apply Z.ltb_lt in Hx. apply Z.ltb_lt. lia.
  - rewrite <- Hid. generalize (item_rows_order_id (o_id o) first its).
    apply forallb_weaken. intros x Hx. apply Z.eqb_eq in Hx. apply Z.ltb_lt. lia.
Qed.

Lemma id_shape_with_order_status st id s : id_shape (with_order_status st id s) = id_shape s.
Proof.
  unfold id_shape, with_order_status. cbn [orders order_items]. f_equal.
  rewrite map_map. apply map_ext. intros r. now destruct (o_id r =? id).
Qed.

Lemma id_shape_with_item_status st item_id order_id s :
  id_shape (with_item_status st item_id order_id s) = id_shape s.
Proof.
  unfold id_shape, with_item_status. cbn [orders order_items]. f_equal.
  rewrite map_map. apply map_ext. intros r.
  now destruct ((oi_id r =? item_id) && (oi_order_id r =? order_id)).
Qed.

Lemma id_shape_with_cancellation row s : id_shape (with_cancellation row s) = id_shape s.
Proof. reflexivity. Qed.

Lemma create_order_well_formed body d fl r d' evs :
  serve (create_order body) d fl = (r, d', evs) ->
  well_formed d = true -> well_formed d' = true.
Proof.
  intros H Hwf. apply create_order_outcome in H.
  destruct H as [| |c Hwhy Hcount|c o its Hu Hres Hits Hnew Hcount Hquiet Hback
                |c number its table_id others inr usd Htn Hn Hits Hne Hsel Hinr Husd Hcount id o s data];
    auto.
  - now apply well_formed_counter.
  - now apply well_formed_added.
  - subst s. change id with (o_id o). now apply well_formed_added.
Qed.

(** What the three other routes can do to the ids and to the order counter:
    nothing. *)
Lemma simple_routes_keep_shape h d fl :
  (exists id st, h = update_order_status id st) \/
  (exists id reason cancelled_by, h = cancel_order id reason cancelled_by) \/
  (exists id itemId reason cancelled_by, h = cancel_order_item id itemId reason cancelled_by) ->
  id_shape (db_tables (database_of (serve h d fl))) = id_shape (db_tables d) /\
  next_order_id (db_counters (database_of (serve h d fl))) = next_order_id (db_counters d).
Proof.
  intros [(id & st & ->)|[(id & reason & cancelled_by & ->)|(id & itemId & reason & cancelled_by & ->)]].
  - unfold update_order_status. rewrite serve_simple, bind_run, execute_run.
    destruct (nth 0 fl false); [split; reflexivity|].
    unfold Sql.update_order_status_where_id. fold (with_order_status st id (db_tables d)).
    destruct (_ =? 0); [cbn; split; [apply id_shape_with_order_status|reflexivity]|].
    rewrite bind_run, execute_run.
    destruct (nth 0 (tl fl) false); cbn; split;
      try apply id_shape_with_order_status; reflexivity.
  - unfold cancel_order. rewrite serve_simple, bind_run, execute_run.
    destruct (nth 0 fl false); [split; reflexivity|].
    unfold Sql.update_order_status_where_id.
    fold (with_order_status "cancelled" id (db_tables d)).
    destruct cancelled_by as [text|];
      [rewrite bound_some
      |rewrite bound_none; cbn; split; [apply id_shape_with_order_status|reflexivity]].
    rewrite bind_run, execute_run, insert_cancellation_spec.
    destruct (nth 0 (tl fl) false);
      [cbn; split; [apply id_shape_with_order_status|reflexivity]|].
    cbn [mk_world].
    match goal with |- context [Sql.has_order ?s id && ?a && ?b] =>
      destruct (Sql.has_order s id && a && b) end;
      cbn; split; try reflexivity;
      try (rewrite id_shape_with_cancellation); apply id_shape_with_order_status.
  - unfold cancel_order_item. rewrite serve_simple, bind_run, execute_run.
    destruct (nth 0 fl false); [split; reflexivity|].
    unfold Sql.update_item_status_where.
    fold (with_item_status "cancelled" itemId id (db_tables d)).
    destruct cancelled_by as [text|];
      [rewrite bound_some
      |rewrite bound_none; cbn; split; [apply id_shape_with_item_status|reflexivity]].
    rewrite bind_run, execute_run, insert_cancellation_spec.
    destruct (nth 0 (tl fl) false);
      [cbn; split; [apply id_shape_with_item_status|reflexivity]|].
    cbn [mk_world].
    match goal with |- context [Sql.has_order ?s id && ?a && ?b] =>
      destruct (Sql.has_order s id && a && b) end;
      cbn; split; try reflexivity;
      try (rewrite id_shape_with_cancellation); apply id_shape_with_item_status.
Qed.

(** [well_formed] is an invariant of the four routes, whatever the faults. *)
Lemma well_formed_invariant h d fl :
  route h -> well_formed d = true -> well_formed (database_of (serve h d fl)) = true.
Proof.
  intros [body|id st|id reason cancelled_by|id itemId reason cancelled_by] Hwf.
  - apply (create_order_well_formed body d fl _ _ _ (served_eta _) Hwf).
  - destruct (simple_routes_keep_shape (update_order_status id st) d fl) as [Hs Hn];
      [left; eauto|].
    now rewrite (well_formed_same_shape d _ Hs Hn).
  - destruct (simple_routes_keep_shape (cancel_order id reason cancelled_by) d fl) as [Hs Hn];
      [right; left; eauto|].
    now rewrite (well_formed_same_shape d _ Hs Hn).
  - destruct (simple_routes_keep_shape (cancel_order_item id itemId reason cancelled_by) d fl)
      as [Hs Hn]; [right; right; eauto 6|].
    now rewrite (well_formed_same_shape d _ Hs Hn).
Qed.

Lemma reachable_well_formed d0 d :
  well_formed d0 = true -> reachable d0 d -> well_formed d = true.
Proof.
  intros Hwf Hr. induction Hr as [|h fl d Hr IH Hh]; [exact Hwf|].
  now apply (well_formed_invariant h d fl Hh).
Qed.

(** * Further routes: proofs *)

(** ** Fault schedules *)

Lemma faulted_within_S n fl :
  faulted_within (S n) fl = nth 0 fl false || faulted_within n (tl fl).
Proof. destruct fl as [|b fl]; [now destruct n|reflexivity]. Qed.

Lemma faulted_within_quiet n fl :
  faulted_within n fl = false <-> forall k, (k < n)%nat -> nth k fl false = false.
Proof.
  revert fl. induction n as [|n IH]; intros fl.
  - split; [intros _ k Hk; lia|reflexivity].
  - rewrite faulted_within_S, orb_false_iff, IH. split.
    + intros [H0 Hrest] [|k] Hk; [exact H0|].
      rewrite <- nth_tl_S. apply Hrest. lia.
    + intros H. split; [apply H; lia|].
      intros k Hk. rewrite nth_tl_S. apply H. lia.
Qed.

Lemma faulted_within_hit n fl :
  faulted_within n fl = true <-> exists k, (k < n)%nat /\ nth k fl false = true.
Proof.
  split.
  - intros H. destruct (faulted_within n fl) eqn:E; [|discriminate]. clear H.
    revert fl E. induction n as [|n IH]; intros fl E; [discriminate|].
    rewrite faulted_within_S in E. destruct (nth 0 fl false) eqn:H0.
    + exists 0%nat. split; [lia|exact H0].
    + destruct (IH _ E) as (k & Hk & Hnth). exists (S k). split; [lia|].
      now rewrite <- nth_tl_S.
  - intros (k & Hk & Hnth). destruct (faulted_within n fl) eqn:E; [reflexivity|].
    rewrite faulted_within_quiet in E. rewrite (E k Hk) in Hnth. discriminate.
Qed.

Lemma no_fault_within n fl : no_fault fl = true -> faulted_within n fl = false.
Proof. intros H. apply faulted_within_quiet. intros k _. now apply no_fault_nth. Qed.

Lemma run_simple {A} (body : M A) (on_error : A) d fl :
  run (try_catch body (fun w => (on_error, w))) d fl =
  let (r, w) := body (mk_world (db_tables d) None (db_counters d) fl []) in
  (match r with Returned a => a | Thrown => on_error end,
   {| db_tables := committed w; db_counters := auto_inc w |}, emitted w).
Proof.
  unfold run, try_catch, mk_world. destruct (body _) as [[a|] w]; reflexivity.
Qed.

Lemma database_eta d : {| db_tables := db_tables d; db_counters := db_counters d |} = d.
Proof. now destruct d. Qed.

(** Reads sent together: they change nothing, and they give their results
    unless one of them is failed. *)
Lemma promise_all_reads {A B C} (f : A -> store -> B) (g : A -> B -> C) xs : forall c a fl ev,
  let '(r, w) := promise_all xs (fun x => y <- execute (Sql.query (f x)) ;; ret (g x y))
                   (mk_world c None a fl ev) in
  committed w = c /\ pending w = None /\ auto_inc w = a /\ emitted w = ev /\
  r = if faulted_within (List.length xs) fl then Thrown
      else Returned (map (fun x => g x (f x c)) xs).
Proof.
  induction xs as [|x xs IH]; intros c a fl ev.
  - cbn. auto.
  - cbn [promise_all List.length]. rewrite faulted_within_S.
    rewrite !bind_run, execute_run.
    destruct (nth 0 fl false); [cbn; auto|].
    unfold Sql.query at 1. cbn [ret orb].
    specialize (IH c a (tl fl) ev).
    rewrite bind_run.
    destruct (promise_all xs _ (mk_world c None a (tl fl) ev)) as [r w].
    destruct IH as (Hc & Hp & Ha & He & ->).
    destruct (faulted_within (List.length xs) (tl fl)); cbn; auto.
Qed.

Lemma update_order_status_success id st d fl p d' evs :
  serve (update_order_status id st) d fl = (Success p, d', evs) ->
  nth 0 fl false = false /\ nth 1 fl false = false.
Proof.
  unfold update_order_status. rewrite serve_simple, bind_run, execute_run.
  destruct (nth 0 fl false) eqn:F0; [discriminate|].
  unfold Sql.update_order_status_where_id.
  destruct (Z.of_nat _ =? 0); [discriminate|].
  rewrite bind_run, execute_run. change (nth 0 (tl fl) false) with (nth 0 (skipn 1 fl) false).
  rewrite nth_0_skipn.
  destruct (nth 1 fl false); [discriminate|]. auto.
Qed.

(** ** [GET /api/orders] *)

Section ListingFacts.

Context {collation : Collation}.
Variable created_at : Z -> Z.

Lemma newest_first_insert_perm r l :
  Permutation (newest_first_insert created_at r l) (r :: l).
Proof.
  induction l as [|x l IH]; cbn; [reflexivity|].
  destruct (created_at (o_id x) <? created_at (o_id r)); [reflexivity|].
  rewrite IH. apply perm_swap.
Qed.

Lemma newest_first_perm l : Permutation (newest_first created_at l) l.
Proof.
  induction l as [|x l IH]; cbn; [reflexivity|].
  rewrite newest_first_insert_perm. now constructor.
Qed.

Lemma newest_first_insert_sorted r l :
  StronglySorted (newer_or_same created_at) l ->
  StronglySorted (newer_or_same created_at) (newest_first_insert created_at r l).
Proof.
  induction l as [|x l IH]; intros Hs; cbn.
  - constructor; constructor.
  - inversion Hs as [|? ? Hl Hx]; subst.
    destruct (created_at (o_id x) <? created_at (o_id r)) eqn:E.
    + apply Z.ltb_lt in E. constructor; [exact Hs|].
      constructor; [unfold newer_or_same; lia|].
      rewrite Forall_forall in Hx |- *. intros y Hy. specialize (Hx y Hy).
      unfold newer_or_same in *. lia.
    + apply Z.ltb_ge in E. constructor; [now apply IH|].
      rewrite Forall_forall in Hx |- *. intros y Hy.
      apply (Permutation_in _ (newest_first_insert_perm r l)) in Hy.
      destruct Hy as [<-|Hy]; [exact E|now apply Hx].
Qed.

Lemma newest_first_sorted l : StronglySorted (newer_or_same created_at) (newest_first created_at l).
Proof.
  induction l as [|x l IH]; cbn; [constructor|]. now apply newest_first_insert_sorted.
Qed.

Lemma given_spec v status : given v = Some status <-> v = Some status /\ status <> "".
Proof.
  destruct v as [[|a s]|]; cbn.
  - split; [discriminate|]. intros [[= <-] H]. now contradiction H.
  - split.
    + intros [= <-]. split; [reflexivity|discriminate].
    + now intros [H _].
  - split; [discriminate|]. now intros [H _].
Qed.

Lemma condition_spec {A} (v : option A) holds :
  condition v holds = true <-> forall a, v = Some a -> holds a = true.
Proof.
  destruct v as [a|]; cbn; split; auto.
  - now intros H a' [= <-].
  - discriminate.
Qed.

(** What the [WHERE] clause asks of a row, condition by condition. *)
Lemma matches_spec q o :
  matches created_at q o = true <->
  (forall status, q_status q = Some status -> status <> "" ->
                  same (o_order_status o) status = true) /\
  (forall number, q_table_number q = Some number -> o_table_number o = number) /\
  (forall customer, q_customer_id q = Some customer -> o_customer_id o = Some customer) /\
  (forall t, q_start_date q = Some t -> t <= created_at (o_id o)) /\
  (forall t, q_end_date q = Some t -> created_at (o_id o) <= t).
Proof.
  unfold matches. rewrite !andb_true_iff, !condition_spec.
  split.
  - intros [[[[Hs Hn] Hc] Hf] Ht]. repeat split.
    + intros status Hq Hne. apply Hs. now apply given_spec.
    + intros number Hq. now apply Z.eqb_eq, Hn.
    + intros customer Hq. specialize (Hc customer Hq).
      destruct (o_customer_id o) as [c|]; [|discriminate]. now apply Z.eqb_eq in Hc as ->.
    + intros t Hq. now apply Z.leb_le, Hf.
    + intros t Hq. now apply Z.leb_le, Ht.
  - intros (Hs & Hn & Hc & Hf & Ht). repeat split.
    + intros status Hq. apply given_spec in Hq. now apply Hs.
    + intros number Hq. now apply Z.eqb_eq, Hn.
    + intros customer Hq. rewrite (Hc customer Hq). apply Z.eqb_refl.
    + intros t Hq. now apply Z.leb_le, Hf.
    + intros t Hq. now apply Z.leb_le, Ht.
Qed.

(** What one [get_orders] does, whatever the request, the database and the
    faults. *)
Lemma get_orders_run q d fl :
  run (get_orders created_at q) d fl =
  (if faulted_within (S (List.length (select_orders created_at q (db_tables d)))) fl
   then NotListed 500 "Failed to fetch orders"
   else Listed (map (listed (db_tables d)) (select_orders created_at q (db_tables d))),
   d, []).
Proof.
  unfold get_orders. rewrite run_simple, faulted_within_S.
  rewrite bind_run, execute_run.
  destruct (nth 0 fl false); [cbn; now rewrite database_eta|].
  unfold Sql.query at 1. cbn [orb]. rewrite bind_run.
  pose proof (promise_all_reads (fun order => Sql.select_order_items (o_id order))
                (fun order items => OrderWithItems (Some order) items)
                (select_orders created_at q (db_tables d))
                (db_tables d) (db_counters d) (tl fl) []) as H.
  destruct (promise_all _ _ _) as [r w].
  destruct H as (Hc & _ & Ha & He & ->).
  destruct (faulted_within _ (tl fl)); cbn; rewrite Hc, Ha, He, database_eta; reflexivity.
Qed.

(** X1.  With no storage fault, [get_orders] answers with the orders that
    meet every condition the request gives (an absent parameter, or an empty
    status, asks nothing), each once, newest first, each with the item rows of
    its id; it leaves the database as it was and emits nothing. *)
Theorem get_orders_lists_matching q d fl :
  no_fault fl = true ->
  exists rows,
    run (get_orders created_at q) d fl = (Listed (map (listed (db_tables d)) rows), d, []) /\
    Permutation rows (filter (matches created_at q) (orders (db_tables d))) /\
    StronglySorted (newer_or_same created_at) rows /\
    (forall o, In o rows <->
       In o (orders (db_tables d)) /\
       (forall status, q_status q = Some status -> status <> "" ->
                       same (o_order_status o) status = true) /\
       (forall number, q_table_number q = Some number -> o_table_number o = number) /\
       (forall customer, q_customer_id q = Some customer -> o_customer_id o = Some customer) /\
       (forall t, q_start_date q = Some t -> t <= created_at (o_id o)) /\
       (forall t, q_end_date q = Some t -> created_at (o_id o) <= t)).
Proof.
  intros Hnf. exists (select_orders created_at q (db_tables d)).
  rewrite get_orders_run, no_fault_within by exact Hnf.
  split; [reflexivity|]. split; [apply newest_first_perm|].
  split; [apply newest_first_sorted|].
  intros o. rewrite <- matches_spec, <- filter_In.
  split; apply Permutation_in; [|symmetry]; apply newest_first_perm.
Qed.

(** X2.  Whatever the faults, [get_orders] changes nothing and emits nothing.
    It sends one statement for the orders and one per order found; it answers
    500 exactly when the storage layer fails one of them, and otherwise lists
    as many entries as orders were found. *)
Theorem get_orders_reads_only q d fl :
  let '(r, d', evs) := run (get_orders created_at q) d fl in
  let found := List.length (filter (matches created_at q) (orders (db_tables d))) in
  d' = d /\ evs = [] /\
  ((exists k, (k <= found)%nat /\ nth k fl false = true) /\
   r = NotListed 500 "Failed to fetch orders"
   \/
   (forall k, (k <= found)%nat -> nth k fl false = false) /\
   exists data, r = Listed data /\ List.length data = found).
Proof.
  rewrite get_orders_run. cbv zeta.
  assert (Hlen : List.length (select_orders created_at q (db_tables d))
                 = List.length (filter (matches created_at q) (orders (db_tables d))))
    by apply Permutation_length, newest_first_perm.
  rewrite <- Hlen.
  split; [reflexivity|]. split; [reflexivity|].
  destruct (faulted_within _ fl) eqn:E.
  - left. split; [|reflexivity].
    apply faulted_within_hit in E. destruct E as (k & Hk & Hnth).
    exists k. split; [lia|exact Hnth].
  - right. split.
    + intros k Hk. rewrite faulted_within_quiet in E. apply E. lia.
    + eexists. split; [reflexivity|]. now rewrite length_map.
Qed.

(** The order a successful [create_order] returns, as the database then has
    it. *)
Lemma created_order_stored body d fl o rows d' evs :
  well_formed d = true ->
  serve (create_order body) d fl = (Success (OrderWithItems (Some o) rows), d', evs) ->
  orders (db_tables d') = orders (db_tables d) ++ [o] /\
  Sql.select_order_items (o_id o) (db_tables d') = rows /\
  table_number body = Some (o_table_number o) /\
  Sql.has_table (db_tables d') (o_table_id o) = true.
Proof.
  intros Hwf H. apply create_order_outcome in H.
  inversion H as [| | | |c number its table_id others amount_inr amount_usd
                        Htn Hn Hits Hne Hsel Hinr Husd Hcount id o0 s data Hr Hd He];
    subst; clear H.
  assert (Hid : o_id o0 = next_order_id (db_counters d)) by reflexivity.
  subst s id. cbn [db_tables].
  rewrite <- Hid in Hr |- *.
  rewrite select_order_added in Hr by (auto; reflexivity).
  cbn in Hr. injection Hr as <-.
  rewrite select_order_items_added by (auto; reflexivity).
  repeat split; auto.
  apply select_table_ids_has_table in Hsel. exact Hsel.
Qed.

(** X3.  Insert, then look up: the order a successful [create_order] returned
    on a well-formed database is listed by a [get_orders] that follows, with
    the same row and the same item rows, under every request whose conditions
    it meets; a request for its table number is one. *)
Theorem created_order_is_listed body d fl o rows d' evs q fl' :
  well_formed d = true ->
  serve (create_order body) d fl = (Success (OrderWithItems (Some o) rows), d', evs) ->
  no_fault fl' = true ->
  matches created_at (at_table (o_table_number o)) o = true /\
  (matches created_at q o = true ->
   exists data,
     run (get_orders created_at q) d' fl' = (Listed data, d', []) /\
     In (OrderWithItems (Some o) rows) data).
Proof.
  intros Hwf H Hnf.
  destruct (created_order_stored _ _ _ _ _ _ _ Hwf H) as (Horders & Hrows & _ & _).
  split.
  - unfold matches, at_table. cbn. now rewrite Z.eqb_refl.
  - intros Hq. eexists. rewrite get_orders_run, no_fault_within by exact Hnf.
    split; [reflexivity|].
    apply in_map_iff. exists o. split; [unfold listed; now rewrite Hrows|].
    apply (Permutation_in _ (Permutation_sym (newest_first_perm _))).
    apply filter_In. split; [|exact Hq]. rewrite Horders. apply in_or_app. right. now left.
Qed.

(** X4.  Update, then look up: the order a successful [update_order_status]
    returned carries the id and the status asked for and is listed, as
    returned, by a [get_orders] for that status. *)
Theorem updated_order_is_listed id st d fl o d' evs fl' :
  serve (update_order_status id st) d fl = (Success (Order (Some o)), d', evs) ->
  no_fault fl' = true ->
  o_id o = id /\ o_order_status o = st /\
  exists data,
    run (get_orders created_at (with_status st)) d' fl' = (Listed data, d', []) /\
    In (listed (db_tables d') o) data.
Proof.
  intros H Hnf.
  destruct (update_order_status_success _ _ _ _ _ _ _ H) as [F0 F1].
  rewrite update_order_status_run in H by assumption.
  destruct (Sql.has_order (db_tables d) id) eqn:Ho; [|discriminate].
  cbv zeta in H. injection H as Hhd <- <-. cbn [db_tables].
  rewrite select_order_with_order_status in Hhd.
  destruct (existsb_hd_filter _ _ Ho) as (before & Hbefore & Hin & Hid).
  apply Z.eqb_eq in Hid.
  unfold Sql.select_order in Hhd.
  destruct (filter (fun r => o_id r =? id) (orders (db_tables d))) as [|x l]; [discriminate|].
  cbn in Hbefore, Hhd. injection Hbefore as ->. injection Hhd as <-.
  split; [exact Hid|]. split; [reflexivity|].
  eexists. rewrite get_orders_run, no_fault_within by exact Hnf.
  split; [reflexivity|].
  apply in_map_iff. exists (Sql.set_order_status st before). split; [reflexivity|].
  apply (Permutation_in _ (Permutation_sym (newest_first_perm _))).
  apply filter_In. split.
  - unfold with_order_status. cbn [orders]. apply in_map_iff. exists before.
    split; [|exact Hin]. now rewrite Hid, Z.eqb_refl.
  - apply matches_spec. cbn. repeat split; try discriminate.
    intros status [= <-] _. apply same_refl.
Qed.

End ListingFacts.

(** X1 at the two orders of table 3, under the binary collation, the orders
    taken one second apart. *)
Lemma get_orders_lists_matching_witness :
  exists rows,
    run (@get_orders binary_collation (fun id => id) (at_table 3)) two_orders []
    = (Listed (map (listed (db_tables two_orders)) rows), two_orders, []) /\
    List.length rows = 2%nat.
Proof.
  destruct (@get_orders_lists_matching binary_collation (fun id => id) (at_table 3)
              two_orders [] eq_refl) as (rows & Hrun & Hperm & _).
  exists rows. split; [exact Hrun|].
  rewrite (Permutation_length Hperm). reflexivity.
Defined.

(** X3 at the pizza order. *)
Lemma created_order_is_listed_witness :
  exists o row data,
    serve (create_order pizza_request) demo []
    = (Success (OrderWithItems (Some o) [row]), after_pizza,
       [new_order (OrderWithItems (Some o) [row])]) /\
    run (@get_orders binary_collation (fun id => id) (at_table 3)) after_pizza []
    = (Listed data, after_pizza, []) /\
    In (OrderWithItems (Some o) [row]) data.
Proof.
  eassert (Hs : serve (create_order pizza_request) demo []
                = (Success (OrderWithItems (Some _) [_]), _, _)).
  { vm_compute. reflexivity. }
  destruct (@created_order_is_listed binary_collation (fun id => id)
              pizza_request demo [] _ _ _ _ (at_table 3) [] eq_refl Hs eq_refl)
    as [Hq Hlisted].
  destruct (Hlisted Hq) as (data & Hrun & Hin).
  do 2 eexists. exists data. split; [exact Hs|]. split; [exact Hrun|exact Hin].
Defined.

(** X4 at the pizza order, moved to preparing. *)
Lemma updated_order_is_listed_witness :
  exists o data,
    o_id o = 1 /\ o_order_status o = "preparing" /\
    run (@get_orders binary_collation (fun id => id) (with_status "preparing"))
        (database_of (serve (update_order_status 1 "preparing") after_pizza [])) []
    = (Listed data, database_of (serve (update_order_status 1 "preparing") after_pizza []), []) /\
    In (listed (db_tables (database_of (serve (update_order_status 1 "preparing") after_pizza [])))
          o) data.
Proof.
  eassert (Hs : serve (update_order_status 1 "preparing") after_pizza []
                = (Success (Order (Some _)), _, _)).
  { vm_compute. reflexivity. }
  destruct (@updated_order_is_listed binary_collation (fun id => id)
              1 "preparing" after_pizza [] _ _ _ [] Hs eq_refl)
    as (Hid & Hst & data & Hrun & Hin).
  eexists. exists data. split; [exact Hid|]. split; [exact Hst|].
  split; [exact Hrun|exact Hin].
Defined.

(** ** [DELETE /api/tables/:id] *)

Lemma without_table_absent id s : Sql.has_table s id = false -> without_table id s = s.
Proof.
  unfold Sql.has_table, without_table. intros H.
  rewrite filter_everything; [now destruct s|].
  induction (restaurant_tables s) as [|x l IH]; cbn in *; [reflexivity|].
  apply orb_false_iff in H. destruct H as [-> H]. cbn. now apply IH.
Qed.

Lemma has_table_without id s id' :
  Sql.has_table (without_table id s) id' = negb (id' =? id) && Sql.has_table s id'.
Proof.
  unfold Sql.has_table, without_table. cbn [restaurant_tables].
  induction (restaurant_tables s) as [|x l IH]; cbn; [now rewrite andb_false_r|].
  destruct (rt_id x =? id) eqn:E; cbn; rewrite IH.
  - apply Z.eqb_eq in E. destruct (rt_id x =? id') eqn:E'; cbn; [|reflexivity].
    apply Z.eqb_eq in E'. replace (id' =? id) with true by (symmetry; apply Z.eqb_eq; lia).
    reflexivity.
  - destruct (rt_id x =? id') eqn:E'; cbn; [|reflexivity].
    apply Z.eqb_eq in E'. apply Z.eqb_neq in E.
    replace (id' =? id) with false by (symmetry; apply Z.eqb_neq; lia). reflexivity.
Qed.

(** What one [delete_table] does. *)
Lemma delete_table_run id d fl :
  serve (delete_table id) d fl =
  if nth 0 fl false then (Failure 500 "Failed to delete table", d, [])
  else if Sql.has_table (db_tables d) id then
    if existsb (fun o => o_table_id o =? id) (orders (db_tables d))
    then (Failure 500 "Failed to delete table", d, [])
    else (SuccessMessage "Table deleted successfully",
          {| db_tables := without_table id (db_tables d); db_counters := db_counters d |}, [])
  else (Failure 404 "Table not found", d, []).
Proof.
  unfold delete_table. rewrite serve_simple, bind_run, execute_run.
  destruct (nth 0 fl false); [cbn; now rewrite database_eta|].
  unfold delete_table_where_id. fold (without_table id (db_tables d)).
  fold (Sql.has_table (db_tables d) id).
  destruct (Sql.has_table (db_tables d) id) eqn:Ht; cbn [andb].
  - destruct (existsb _ (orders (db_tables d))); [cbn; now rewrite database_eta|].
    cbv beta iota. rewrite length_filter_zero. fold (Sql.has_table (db_tables d) id).
    rewrite Ht. reflexivity.
  - cbv beta iota. rewrite length_filter_zero. fold (Sql.has_table (db_tables d) id).
    rewrite Ht. cbn. rewrite without_table_absent by exact Ht. now rewrite database_eta.
Qed.

Lemma order_at_table s id :
  existsb (fun o => o_table_id o =? id) (orders s) = true <->
  exists o, In o (orders s) /\ o_table_id o = id.
Proof.
  rewrite existsb_exists. split; intros (o & Hin & Ho); exists o; split; auto;
    now apply Z.eqb_eq.
Qed.

(** X5.  When the storage layer does not fail its statement, [delete_table]
    answers 404 for an id no table has, 500 for a table some order sits at
    (the foreign key of [orders] refuses the deletion; nothing changes), and
    otherwise removes the rows of that id and nothing else. *)
Theorem delete_table_outcomes id d fl r d' evs :
  serve (delete_table id) d fl = (r, d', evs) ->
  nth 0 fl false = false ->
  evs = [] /\
  (Sql.has_table (db_tables d) id = false ->
     r = Failure 404 "Table not found" /\ kind_of r = Some NotFound /\ d' = d) /\
  (Sql.has_table (db_tables d) id = true ->
   (exists o, In o (orders (db_tables d)) /\ o_table_id o = id) ->
     r = Failure 500 "Failed to delete table" /\ kind_of r = Some StorageFailure /\ d' = d) /\
  (Sql.has_table (db_tables d) id = true ->
   (forall o, In o (orders (db_tables d)) -> o_table_id o <> id) ->
     r = SuccessMessage "Table deleted successfully" /\
     Sql.has_table (db_tables d') id = false /\
     (forall row, In row (restaurant_tables (db_tables d')) <->
                  In row (restaurant_tables (db_tables d)) /\ rt_id row <> id) /\
     menu_items (db_tables d') = menu_items (db_tables d) /\
     orders (db_tables d') = orders (db_tables d) /\
     order_items (db_tables d') = order_items (db_tables d) /\
     order_cancellations (db_tables d') = order_cancellations (db_tables d) /\
     db_counters d' = db_counters d).
Proof.
  intros H F0. rewrite delete_table_run, F0 in H.
  pose proof (order_at_table (db_tables d) id) as Hsat.
  destruct (Sql.has_table (db_tables d) id) eqn:Ht.
  - destruct (existsb _ (orders (db_tables d))) eqn:Ho; injection H as <- <- <-.
    + split; [reflexivity|]. split; [discriminate|]. split; [now auto|].
      intros _ Hnone. destruct (proj1 Hsat eq_refl) as (o & Hin & Hid).
      now destruct (Hnone o Hin).
    + split; [reflexivity|]. split; [discriminate|]. split.
      * intros _ Hsome. apply Hsat in Hsome. discriminate.
      * intros _ _. split; [reflexivity|]. cbn [db_tables db_counters].
        split; [rewrite has_table_without, Z.eqb_refl; reflexivity|].
        split; [|now repeat split].
        intros row. unfold without_table. cbn [restaurant_tables].
        rewrite filter_In, negb_true_iff, Z.eqb_neq. reflexivity.
  - injection H as <- <- <-. split; [reflexivity|]. split; [now auto|].
    split; discriminate.
Qed.

(** X5 at table 7 of [demo], at which nobody has ordered. *)
Lemma delete_table_outcomes_witness :
  response_of (serve (delete_table 7) demo []) = SuccessMessage "Table deleted successfully" /\
  Sql.has_table (db_tables (database_of (serve (delete_table 7) demo []))) 7 = false /\
  Sql.has_table (db_tables (database_of (serve (delete_table 7) demo []))) 3 = true.
Proof.
  destruct (delete_table_outcomes 7 demo [] _ _ _ (served_eta _) eq_refl)
    as (_ & _ & _ & Hgone).
  destruct (Hgone eq_refl) as (Hr & Hno & _).
  - intros o [].
  - split; [exact Hr|]. split; [exact Hno|]. reflexivity.
Defined.

(** X6.  Order, then delete: once [create_order] has succeeded on a
    well-formed database, [delete_table] on the table of the order answers 500
    and leaves the database as it is, whatever the faults. *)
Theorem ordered_table_cannot_be_deleted body d fl o rows d' evs fl' :
  well_formed d = true ->
  serve (create_order body) d fl = (Success (OrderWithItems (Some o) rows), d', evs) ->
  serve (delete_table (o_table_id o)) d' fl' =
  (Failure 500 "Failed to delete table", d', []).
Proof.
  intros Hwf H.
  destruct (created_order_stored _ _ _ _ _ _ _ Hwf H) as (Horders & _ & _ & Ht).
  rewrite delete_table_run, Ht, Horders, existsb_app. cbn [existsb].
  rewrite Z.eqb_refl, orb_true_l, orb_true_r. now destruct (nth 0 fl' false).
Qed.

(** X6 at the pizza order of table 3. *)
Lemma ordered_table_cannot_be_deleted_witness :
  exists o, In o (orders (db_tables after_pizza)) /\ o_table_id o = 3 /\
    serve (delete_table 3) after_pizza [] =
    (Failure 500 "Failed to delete table", after_pizza, []).
Proof.
  eassert (Hs : serve (create_order pizza_request) demo []
                = (Success (OrderWithItems (Some _) _), _, _)).
  { vm_compute. reflexivity. }
  pose proof (ordered_table_cannot_be_deleted pizza_request demo [] _ _ _ _ [] eq_refl Hs) as H.
  eexists. split; [left; reflexivity|]. split; [reflexivity|]. exact H.
Defined.

(** ** Properties of the tables that every step keeps *)

Section Keeping.

Variable P : store -> Prop.

Lemma kept_set_faults fl w : kept P (set_faults fl w) <-> kept P w.
Proof. reflexivity. Qed.

Lemma kept_next_fault w : kept P w -> kept P (snd (next_fault w)).
Proof. unfold next_fault. now destruct (faults w). Qed.

Lemma keeps_ret {A} (a : A) : keeps P (ret a).
Proof. intros w H. exact H. Qed.

Lemma keeps_bind {A B} (m : M A) (k : A -> M B) :
  keeps P m -> (forall a, keeps P (k a)) -> keeps P (bind m k).
Proof.
  intros Hm Hk w H. unfold bind. specialize (Hm w H).
  destruct (m w) as [[a|] w']; [now apply Hk|exact Hm].
Qed.

Lemma keeps_execute {A} (stmt : store -> counters -> option (A * store * counters)) :
  statement_keeps P stmt -> keeps P (execute stmt).
Proof.
  intros Hs w H. unfold execute.
  pose proof (kept_next_fault w H) as H1.
  destruct (next_fault w) as [failed w1]. cbn [snd] in H1.
  destruct failed; [exact H1|].
  destruct (stmt (view w1) (auto_inc w1)) as [[[a s] c]|] eqn:E; [|exact H1].
  cbn [snd]. destruct H1 as [Hc Hp]. unfold write_back, view in *.
  destruct (pending w1) as [s0|]; split; cbn; auto; eapply Hs; eauto.
Qed.

Lemma keeps_query {A} (q : store -> A) : keeps P (execute (Sql.query q)).
Proof. apply keeps_execute. intros s c a s' c' [= _ <- _]. auto. Qed.

Lemma keeps_beginTransaction : keeps P beginTransaction.
Proof.
  intros w H. unfold beginTransaction.
  pose proof (kept_next_fault w H) as H1.
  destruct (next_fault w) as [failed w1]. cbn [snd] in H1.
  destruct failed; [exact H1|]. destruct H1 as [Hc Hp]. unfold view.
  split; cbn; [exact Hc|]. now destruct (pending w1).
Qed.

Lemma keeps_commit : keeps P commit.
Proof.
  intros w H. unfold commit.
  pose proof (kept_next_fault w H) as H1.
  destruct (next_fault w) as [failed w1]. cbn [snd] in H1.
  destruct failed; [exact H1|]. destruct H1 as [Hc Hp]. unfold view.
  split; cbn; [|exact I]. now destruct (pending w1).
Qed.

Lemma keeps_rollback : keeps P rollback.
Proof. intros w [Hc _]. split; [exact Hc|exact I]. Qed.

Lemma keeps_release : keeps P release.
Proof. intros w H. exact H. Qed.

Lemma keeps_lift {A} (t : total A) : keeps P t -> keeps P (lift t).
Proof. intros Ht w H. unfold lift. specialize (Ht w H). now destruct (t w). Qed.

Lemma keeps_bound {A} (v : option A) : keeps P (bound v).
Proof. intros w H. unfold bound. now destruct v. Qed.

Lemma keeps_emit e : keeps P (emit e).
Proof. intros w H. exact H. Qed.

Lemma keeps_for_of {A} (xs : list A) (body : A -> M unit) :
  (forall x, keeps P (body x)) -> keeps P (for_of xs body).
Proof.
  intros Hb. induction xs as [|x xs IH]; cbn [for_of]; [apply keeps_ret|].
  apply keeps_bind; auto.
Qed.

Lemma keeps_try_catch {A} (body : M A) (handler : total A) :
  keeps P body -> keeps P handler -> keeps P (try_catch body handler).
Proof.
  intros Hb Hh w H. unfold try_catch. specialize (Hb w H).
  destruct (body w) as [[a|] w']; [exact Hb|now apply Hh].
Qed.

Lemma keeps_finally {A} (body : total A) (cleanup : total unit) :
  keeps P body -> keeps P cleanup -> keeps P (finally_ body cleanup).
Proof.
  intros Hb Hc w H. unfold finally_. specialize (Hb w H).
  destruct (body w) as [a w']. now apply Hc.
Qed.

Lemma keeps_answer {A} (a : A) : keeps P (fun w : world => (a, w)).
Proof. intros w H. exact H. Qed.

(** What a kept property means for a request served. *)
Lemma keeps_serve (h : total response) d fl :
  keeps P h -> P (db_tables d) -> P (db_tables (database_of (serve h d fl))).
Proof.
  intros Hh Hd. unfold serve, database_of.
  match goal with |- context [h ?w] => specialize (Hh w); destruct (h w) as [r w'] end.
  cbn in *. apply Hh. split; [exact Hd|exact I].
Qed.

End Keeping.

(** ** The foreign keys *)

Lemma references_hold_spec s :
  references_hold s = true <->
  (forall o, In o (orders s) -> Sql.has_table s (o_table_id o) = true) /\
  (forall r, In r (order_items s) ->
     Sql.has_order s (oi_order_id r) = true /\ Sql.has_menu_item s (oi_menu_item_id r) = true) /\
  (forall r, In r (order_cancellations s) -> Sql.has_order s (oc_order_id r) = true).
Proof.
  unfold references_hold. rewrite !andb_true_iff, !forallb_forall.
  split.
  - intros [[Ho Hi] Hc]. split; [exact Ho|]. split; [|exact Hc].
    intros r Hr. apply andb_true_iff. now apply Hi.
  - intros (Ho & Hi & Hc). split; [split; [exact Ho|]|exact Hc].
    intros r Hr. apply andb_true_iff. now apply Hi.
Qed.

Lemma has_order_more s o id :
  Sql.has_order s id = true -> Sql.has_order (add_order s o) id = true.
Proof.
  unfold Sql.has_order, add_order. cbn [orders]. rewrite existsb_app. now intros ->.
Qed.

Lemma insert_order_keeps_references table_id number cust t_inr t_usd cur pm os ps :
  statement_keeps references
    (Sql.insert_order table_id number cust t_inr t_usd cur pm os ps).
Proof.
  intros s c a s' c'. unfold references. rewrite insert_order_spec.
  destruct (Sql.decimal_10_2 t_inr); [|discriminate].
  destruct (Sql.decimal_10_2 t_usd); [|discriminate].
  destruct (Sql.has_table s table_id) eqn:Ht; [|discriminate].
  intros [= _ <- _]. rewrite !references_hold_spec.
  intros (Ho & Hi & Hc). split; [|split].
  - intros o. unfold add_order at 1. cbn [orders]. rewrite in_app_iff.
    intros [Hin|[<-|[]]]; [now apply Ho|exact Ht].
  - intros r Hr. destruct (Hi r Hr). split; [now apply has_order_more|assumption].
  - intros r Hr. apply has_order_more. now apply Hc.
Qed.

Lemma insert_order_item_keeps_references order_id menu_item_id name quantity p_inr p_usd :
  statement_keeps references
    (Sql.insert_order_item order_id menu_item_id name quantity p_inr p_usd).
Proof.
  intros s c a s' c'. unfold references, Sql.insert_order_item.
  destruct (Sql.has_order s order_id && Sql.has_menu_item s menu_item_id) eqn:E; [|discriminate].
  apply andb_true_iff in E. destruct E as [Eo Em].
  intros [= _ <- _]. rewrite !references_hold_spec.
  intros (Ho & Hi & Hc). split; [exact Ho|]. split; [|exact Hc].
  intros r. cbn [order_items]. rewrite in_app_iff.
  intros [Hin|[<-|[]]]; [now apply Hi|]. now split.
Qed.

Lemma update_order_status_keeps_references st id :
  statement_keeps references (Sql.update_order_status_where_id st id).
Proof.
  intros s c a s' c'. unfold references, Sql.update_order_status_where_id.
  intros [= _ <- _]. fold (with_order_status st id s). rewrite !references_hold_spec.
  intros (Ho & Hi & Hc). split; [|split].
  - intros o. unfold with_order_status at 1. cbn [orders]. rewrite in_map_iff.
    intros (o0 & <- & Hin). change (Sql.has_table (with_order_status st id s) ?t)
      with (Sql.has_table s t).
    destruct (o_id o0 =? id); cbn [o_table_id Sql.set_order_status]; now apply Ho.
  - intros r Hr. rewrite has_order_with_order_status. now apply Hi.
  - intros r Hr. rewrite has_order_with_order_status. now apply Hc.
Qed.

Lemma update_item_status_keeps_references st item_id order_id :
  statement_keeps references (Sql.update_item_status_where st item_id order_id).
Proof.
  intros s c a s' c'. unfold references, Sql.update_item_status_where.
  intros [= _ <- _]. rewrite !references_hold_spec.
  intros (Ho & Hi & Hc). split; [exact Ho|]. split; [|exact Hc].
  intros r. cbn [order_items]. rewrite in_map_iff.
  intros (r0 & <- & Hin).
  destruct ((oi_id r0 =? item_id) && (oi_order_id r0 =? order_id));
    cbn [oi_order_id oi_menu_item_id Sql.set_item_status]; now apply Hi.
Qed.

Lemma insert_cancellation_keeps_references order_id item_id reason cancelled_by :
  statement_keeps references (Sql.insert_cancellation order_id item_id reason cancelled_by).
Proof.
  intros s c a s' c'. unfold references. rewrite insert_cancellation_spec.
  destruct (Sql.has_order s order_id) eqn:E; cbn [andb]; [|discriminate].
  destruct (Sql.text reason); cbn [andb]; [|discriminate].
  destruct (Sql.varchar 50 cancelled_by); [|discriminate].
  intros [= _ <- _]. rewrite !references_hold_spec.
  intros (Ho & Hi & Hc). split; [exact Ho|]. split; [exact Hi|].
  intros r. cbn [order_cancellations with_cancellation]. rewrite in_app_iff.
  intros [Hin|[<-|[]]]; [now apply Hc|exact E].
Qed.

Lemma delete_table_keeps_references id :
  statement_keeps references (delete_table_where_id id).
Proof.
  intros s c a s' c'. unfold references, delete_table_where_id.
  fold (Sql.has_table s id). fold (without_table id s).
  destruct (Sql.has_table s id && existsb _ (orders s)) eqn:E; [discriminate|].
  intros [= _ <- _]. rewrite !references_hold_spec.
  intros (Ho & Hi & Hc). split; [|split; [exact Hi|exact Hc]].
  intros o Hin. change (orders (without_table id s)) with (orders s) in Hin.
  rewrite has_table_without, (Ho o Hin), andb_true_r.
  apply negb_true_iff, Z.eqb_neq. intros Heq.
  apply andb_false_iff in E. destruct E as [E|E].
  - rewrite <- Heq, (Ho o Hin) in E. discriminate.
  - assert (Hex : existsb (fun o => o_table_id o =? id) (orders s) = true)
      by (apply order_at_table; now exists o).
    congruence.
Qed.

(** Every route keeps them, whatever the faults. *)
Lemma writing_route_keeps_references h : writing_route h -> keeps references h.
Proof.
  intros [h0 [body|id st|id reason cancelled_by|id itemId reason cancelled_by]|id].
  - unfold create_order. apply keeps_finally; [|apply keeps_release].
    apply keeps_try_catch.
    + apply keeps_bind; [apply keeps_beginTransaction|]. intros _.
      assert (Hinvalid : keeps references invalid_input).
      { apply keeps_bind; [apply keeps_lift, keeps_rollback|]. intros _. apply keeps_ret. }
      destruct (table_number body) as [[|number|number]|];
        destruct (items body) as [[|item rest]|]; try exact Hinvalid.
      all: apply keeps_bind; [apply keeps_query|]; intros [|table_id others].
      all: try (apply keeps_bind; [apply keeps_lift, keeps_rollback|]; intros _; apply keeps_ret).
      all: apply keeps_bind; [apply keeps_execute, insert_order_keeps_references|]; intros order_id.
      all: apply keeps_bind;
           [apply keeps_for_of; intros x; apply keeps_execute, insert_order_item_keeps_references|];
           intros _.
      all: apply keeps_bind; [apply keeps_query|]; intros itemsRows.
      all: apply keeps_bind; [apply keeps_commit|]; intros _.
      all: apply keeps_bind; [apply keeps_query|]; intros orderRows.
      all: apply keeps_bind; [apply keeps_emit|]; intros _; apply keeps_ret.
    + intros w H. pose proof (keeps_rollback _ w H) as H'.
      now destruct (rollback w).
  - unfold update_order_status. apply keeps_try_catch; [|apply keeps_answer].
    apply keeps_bind; [apply keeps_execute, update_order_status_keeps_references|].
    intros affectedRows. destruct (affectedRows =? 0); [apply keeps_ret|].
    apply keeps_bind; [apply keeps_query|]. intros updatedOrder.
    apply keeps_bind; [apply keeps_emit|]. intros _. apply keeps_ret.
  - unfold cancel_order. apply keeps_try_catch; [|apply keeps_answer].
    apply keeps_bind; [apply keeps_execute, update_order_status_keeps_references|]. intros _.
    apply keeps_bind; [apply keeps_bound|]. intros text.
    apply keeps_bind; [apply keeps_execute, insert_cancellation_keeps_references|]. intros _.
    apply keeps_ret.
  - unfold cancel_order_item. apply keeps_try_catch; [|apply keeps_answer].
    apply keeps_bind; [apply keeps_execute, update_item_status_keeps_references|]. intros _.
    apply keeps_bind; [apply keeps_bound|]. intros text.
    apply keeps_bind; [apply keeps_execute, insert_cancellation_keeps_references|]. intros _.
    apply keeps_ret.
  - unfold delete_table. apply keeps_try_catch; [|apply keeps_answer].
    apply keeps_bind; [apply keeps_execute, delete_table_keeps_references|].
    intros affectedRows. destruct (affectedRows =? 0); apply keeps_ret.
Qed.

(** X7.  No route leaves a dangling reference: from a database in which every
    order sits at an existing table, every item row belongs to an existing
    order and names an existing dish, and every cancellation is of an existing
    order, the order routes and [delete_table], served in any number and any
    order and under any faults, only make databases of which the same holds. *)
Theorem routes_keep_references d0 d :
  reached d0 d -> references_hold (db_tables d0) = true ->
  references_hold (db_tables d) = true.
Proof.
  intros Hreach H0. induction Hreach as [|h fl d Hreach IH Hroute]; [exact H0|].
  apply (keeps_serve references); [now apply writing_route_keeps_references|exact IH].
Qed.

(** X7 at [two_orders], which holds two orders with an item row each: after
    the first order is cancelled, its item cancelled and the status of the
    second order changed, the references still hold. *)
Lemma routes_keep_references_witness :
  references_hold (db_tables two_orders) = true /\
  orders (db_tables two_orders) <> [] /\ order_items (db_tables two_orders) <> [] /\
  references_hold
    (db_tables
       (database_of
          (serve (update_order_status 2 "preparing")
             (database_of
                (serve (cancel_order_item 1 1 "too slow" (Some "customer"))
                   (database_of (serve (cancel_order 1 "too slow" (Some "customer"))
                                   two_orders []))
                   []))
             []))) = true /\
  order_cancellations
    (db_tables
       (database_of
          (serve (cancel_order_item 1 1 "too slow" (Some "customer"))
             (database_of (serve (cancel_order 1 "too slow" (Some "customer")) two_orders []))
             []))) <> [].
Proof.
  split; [reflexivity|]. split; [discriminate|]. split; [discriminate|]. split.
  - apply (routes_keep_references two_orders); [|reflexivity].
    apply reached_serve; [|apply writes_order, route_update_order_status].
    apply reached_serve; [|apply writes_order, route_cancel_order_item].
    apply reached_serve; [|apply writes_order, route_cancel_order].
    apply reached_start.
  - vm_compute. discriminate.
Defined.

(** ** Texts *)

Lemma split_nonempty sep s : split sep s <> [].
Proof.
  destruct s as [|c s]; cbn; [discriminate|].
  destruct (Ascii.eqb c sep); [discriminate|]. now destruct (split sep s).
Qed.

Lemma split_free sep p : free_of sep p = true -> split sep p = [p].
Proof.
  induction p as [|c p IH]; cbn; [reflexivity|].
  destruct (Ascii.eqb c sep); [discriminate|]. cbn. intros H. now rewrite IH.
Qed.

Lemma split_app sep p s :
  free_of sep p = true -> split sep (p ++ String sep s)%string = p :: split sep s.
Proof.
  induction p as [|c p IH]; cbn.
  - now rewrite Ascii.eqb_refl.
  - destruct (Ascii.eqb c sep); [discriminate|]. cbn. intros H. now rewrite IH.
Qed.

(** The first piece of a text and what follows it. *)
Lemma split_cons sep s p ps :
  split sep s = p :: ps ->
  free_of sep p = true /\
  (ps = [] /\ s = p \/ exists s', s = (p ++ String sep s')%string /\ split sep s' = ps).
Proof.
  revert p ps. induction s as [|c s IH]; cbn; intros p ps.
  - intros [= <- <-]. split; [reflexivity|]. now left.
  - destruct (Ascii.eqb c sep) eqn:E.
    + apply Ascii.eqb_eq in E. subst c. intros [= <- <-]. split; [reflexivity|].
      right. now exists s.
    + destruct (split sep s) as [|q qs] eqn:Hs; [now destruct (split_nonempty sep s)|].
      intros [= <- <-]. destruct (IH q qs eq_refl) as [Hq Hrest].
      split; [cbn; now rewrite E|].
      destruct Hrest as [[-> ->]|(s' & -> & Hs')]; [now left|].
      right. now exists s'.
Qed.

Lemma split_join sep pieces :
  pieces <> [] -> forallb (free_of sep) pieces = true ->
  split sep (join sep pieces) = pieces.
Proof.
  induction pieces as [|p rest IH]; [congruence|]. intros _ H.
  cbn in H. apply andb_true_iff in H. destruct H as [Hp Hrest].
  destruct rest as [|q rest]; [now apply split_free|].
  change (join sep (p :: q :: rest)) with (p ++ String sep (join sep (q :: rest)))%string.
  rewrite split_app by exact Hp. f_equal. apply IH; [discriminate|exact Hrest].
Qed.

Lemma join_split sep s : join sep (split sep s) = s.
Proof.
  induction s as [|c s IH]; cbn [split]; [reflexivity|].
  destruct (split sep s) as [|q qs] eqn:Hs; [now destruct (split_nonempty sep s)|].
  destruct (Ascii.eqb c sep) eqn:E.
  - apply Ascii.eqb_eq in E. subst c.
    change (join sep (EmptyString :: q :: qs)) with (String sep (join sep (q :: qs))).
    now rewrite IH.
  - destruct qs as [|r rs].
    + cbn in *. now rewrite IH.
    + change (join sep (String c q :: r :: rs)) with (String c (join sep (q :: r :: rs))).
      now rewrite IH.
Qed.

Lemma free_of_app c a b : free_of c (a ++ b)%string = free_of c a && free_of c b.
Proof. induction a as [|x a IH]; cbn; [reflexivity|]. now rewrite IH, andb_assoc. Qed.

Lemma prefix_app a b : String.prefix a (a ++ b)%string = true.
Proof.
  induction a as [|c a IH]; cbn; [now destruct b|].
  destruct (ascii_dec c c); [exact IH|congruence].
Qed.

Lemma append_nil_r s : (s ++ "")%string = s.
Proof. induction s as [|c s IH]; cbn; [reflexivity|]. now rewrite IH. Qed.

Lemma includes_unfold s sub :
  includes s sub = String.prefix sub s ||
                   match s with
                   | EmptyString => false
                   | String _ s' => includes s' sub
                   end.
Proof. now destruct s. Qed.

Lemma includes_app a b c : includes (a ++ b ++ c)%string b = true.
Proof.
  induction a as [|x a IH].
  - cbn [append]. now rewrite includes_unfold, prefix_app.
  - cbn [append]. rewrite includes_unfold, IH. apply orb_true_r.
Qed.

Lemma includes_suffix a b : includes (a ++ b)%string b = true.
Proof.
  pose proof (includes_app a b "") as H. now rewrite append_nil_r in H.
Qed.

Lemma append_assoc (a b c : string) : ((a ++ b) ++ c)%string = (a ++ (b ++ c))%string.
Proof. induction a as [|x a IH]; cbn; [reflexivity|]. now rewrite IH. Qed.

Lemma append_inj_l (a b c : string) : (a ++ b)%string = (a ++ c)%string -> b = c.
Proof. induction a as [|x a IH]; cbn; [auto|]. intros [= H]. auto. Qed.

(** ** [authenticateToken] *)

(** X8.  [authenticateToken] hands a request on exactly when the second of the
    space-separated fields of its [Authorization] header is [dummy-token]: the
    header is some text without a space (the scheme, which is not looked at
    and may be empty), a space, [dummy-token], and then nothing or a space and
    anything. *)
Theorem authenticateToken_passes authorization :
  authenticateToken authorization = Next <->
  exists scheme rest,
    authorization = Some (scheme ++ " dummy-token" ++ rest)%string /\
    free_of " " scheme = true /\
    (rest = "" \/ exists more, rest = String " " more).
Proof.
  split.
  - unfold authenticateToken.
    destruct authorization as [[|c h]|]; try discriminate.
    set (s := String c h).
    destruct (split " " s) as [|scheme pieces] eqn:Hs; [discriminate|].
    destruct (split_cons _ _ _ _ Hs) as [Hscheme [[-> _]|(s' & Hs' & Hpieces)]];
      [discriminate|].
    destruct pieces as [|token pieces]; [discriminate|]. cbn [nth_error].
    destruct token as [|t token]; [discriminate|].
    destruct (String.eqb (String t token) "dummy-token") eqn:E; [|discriminate].
    apply String.eqb_eq in E. rewrite E in *. clear E. intros _.
    destruct (split_cons _ _ _ _ Hpieces) as [_ [[_ ->]|(more & -> & _)]].
    + exists scheme, "". split; [now rewrite Hs'|]. split; [exact Hscheme|now left].
    + exists scheme, (String " " more).
      split; [now rewrite Hs'|]. split; [exact Hscheme|]. right. now exists more.
  - intros (scheme & rest & -> & Hscheme & Hrest).
    unfold authenticateToken.
    change (scheme ++ " dummy-token" ++ rest)%string
      with (scheme ++ String " " ("dummy-token" ++ rest))%string.
    assert (Hsplit : nth_error (split " " (scheme ++ String " " ("dummy-token" ++ rest))%string) 1
                     = Some "dummy-token").
    { rewrite split_app by exact Hscheme. cbn [nth_error].
      destruct Hrest as [->|(more & ->)].
      - reflexivity.
      - change ("dummy-token" ++ String " " more)%string
          with ("dummy-token" ++ String " " more)%string.
        rewrite (split_app " " "dummy-token" more) by reflexivity. reflexivity. }
    destruct (scheme ++ String " " ("dummy-token" ++ rest))%string eqn:E.
    + destruct scheme; discriminate.
    + rewrite Hsplit. reflexivity.
Qed.

(** ** [extractSubdomain] and [getSubdomainUrl] *)

Lemma extractSubdomain_run hostname :
  hostname <> EmptyString ->
  extractSubdomain (Some hostname) =
  let host := hd EmptyString (split ":" hostname) in
  let parts := split "." host in
  if (List.length parts <=? 2)%nat
     || existsb (fun root => includes host root && (List.length parts =? 3)%nat) rootDomains
  then None
  else if existsb (String.eqb (hd EmptyString parts)) ignoredSubdomains then None
       else Some (hd EmptyString parts).
Proof. destruct hostname; [congruence|reflexivity]. Qed.

Lemma free_of_join c sep pieces :
  Ascii.eqb sep c = false -> forallb (free_of c) pieces = true ->
  free_of c (join sep pieces) = true.
Proof.
  intros Hsep. induction pieces as [|p rest IH]; [reflexivity|].
  cbn [forallb]. rewrite andb_true_iff. intros [Hp Hrest].
  destruct rest as [|q rest]; [exact Hp|].
  change (join sep (p :: q :: rest)) with (p ++ String sep (join sep (q :: rest)))%string.
  rewrite free_of_app, Hp. cbn [free_of andb]. rewrite Hsep. cbn. now apply IH.
Qed.

Lemma labels_free rest :
  forallb label rest = true ->
  forallb (free_of ".") rest = true /\ forallb (free_of ":") rest = true.
Proof.
  induction rest as [|p rest IH]; cbn; [auto|].
  unfold label at 1. rewrite !andb_true_iff. intros [[H1 H2] H]. destruct (IH H). auto.
Qed.

Lemma join_cons_nonempty sep p q rest : join sep (p :: q :: rest) <> EmptyString.
Proof.
  change (join sep (p :: q :: rest)) with (p ++ String sep (join sep (q :: rest)))%string.
  now destruct p.
Qed.

Lemma existsb_always {A} (f : A -> bool) l : existsb (fun x => f x && true) l = existsb f l.
Proof. induction l as [|x l IH]; cbn; [reflexivity|]. now rewrite andb_true_r, IH. Qed.

Lemma existsb_never {A} (f : A -> bool) l : existsb (fun x => f x && false) l = false.
Proof. induction l as [|x l IH]; cbn; [reflexivity|]. now rewrite andb_false_r. Qed.

(** The host and its parts, for a host given by its labels. *)
Lemma host_of_labels first second rest :
  forallb label (first :: second :: rest) = true ->
  let host := join "." (first :: second :: rest) in
  host <> EmptyString /\
  hd EmptyString (split ":" host) = host /\
  split "." host = first :: second :: rest.
Proof.
  intros H host. destruct (labels_free _ H) as [Hdot Hcolon].
  split; [apply join_cons_nonempty|]. split.
  - rewrite split_free; [reflexivity|]. now apply free_of_join.
  - apply split_join; [discriminate|exact Hdot].
Qed.

(** X9.  The port does not matter: a host without a colon gives the same
    subdomain with and without a port after it. *)
Theorem extractSubdomain_ignores_port host port :
  free_of ":" host = true ->
  extractSubdomain (Some (host ++ ":" ++ port)%string) = extractSubdomain (Some host).
Proof.
  intros H. destruct host as [|c host].
  - reflexivity.
  - rewrite !extractSubdomain_run by discriminate.
    change (String c host ++ ":" ++ port)%string with (String c host ++ String ":" port)%string.
    now rewrite (split_app ":" (String c host) port H), (split_free ":" (String c host) H).
Qed.

(** X9 at [acme.example.com:8080]. *)
Lemma extractSubdomain_ignores_port_witness :
  extractSubdomain (Some "acme.example.com:8080") = Some "acme" /\
  extractSubdomain (Some "acme.example.com") = Some "acme".
Proof.
  split; [|reflexivity].
  exact (eq_trans (extractSubdomain_ignores_port "acme.example.com" "8080" eq_refl) eq_refl).
Defined.

(** X10.  By the number of labels.  A host of one or two labels has no
    subdomain.  A host of four labels or more has its first label for
    subdomain unless that is [www], [api] or [admin], whatever the other
    labels are: of an IPv4 address the first number is returned.  A host of
    three labels has its first label for subdomain unless that is [www], [api]
    or [admin], or one of [localhost], [vercel.app], [onrender.com] and
    [127.0.0.1] occurs anywhere in the host. *)
Theorem extractSubdomain_by_labels first rest :
  label first = true -> forallb label rest = true ->
  let host := join "." (first :: rest) in
  let listed := if existsb (String.eqb first) ignoredSubdomains then None else Some first in
  ((List.length rest <= 1)%nat -> extractSubdomain (Some host) = None) /\
  (List.length rest = 2%nat ->
   extractSubdomain (Some host) =
   if existsb (includes host) rootDomains then None else listed) /\
  ((3 <= List.length rest)%nat -> extractSubdomain (Some host) = listed).
Proof.
  intros Hfirst Hrest host listed.
  destruct rest as [|second rest].
  - split; [|split; cbn; intros; lia].
    intros _. subst host. cbn [join].
    destruct first as [|c first]; [reflexivity|].
    rewrite extractSubdomain_run by discriminate.
    unfold label in Hfirst. apply andb_true_iff in Hfirst. destruct Hfirst as [Hdot Hcolon].
    rewrite split_free by exact Hcolon. cbn [hd].
    rewrite split_free by exact Hdot. reflexivity.
  - assert (H : forallb label (first :: second :: rest) = true)
      by (cbn [forallb]; now rewrite Hfirst).
    destruct (host_of_labels _ _ _ H) as (Hne & Hhost & Hparts).
    fold host in Hne, Hhost, Hparts.
    rewrite extractSubdomain_run by exact Hne. cbv zeta. rewrite Hhost, Hparts.
    cbn [hd List.length].
    destruct rest as [|third rest]; [|destruct rest as [|fourth rest]].
    + split; [reflexivity|]. split; cbn; intros; lia.
    + split; [cbn; intros; lia|]. split; [|cbn; intros; lia].
      intros _. cbn [Nat.leb Nat.eqb orb].
      now rewrite (existsb_always (includes host)).
    + split; [cbn; intros; lia|]. split; [cbn; intros; lia|].
      intros _. cbn [Nat.leb Nat.eqb orb].
      now rewrite (existsb_never (includes host)).
Qed.

(** X10 at the loopback address and at the address of a deployment. *)
Lemma extractSubdomain_by_labels_witness :
  extractSubdomain (Some "127.0.0.1") = Some "127" /\
  extractSubdomain (Some "dineflowbackend.onrender.com") = None.
Proof.
  split.
  - exact (proj2 (proj2 (extractSubdomain_by_labels "127" ["0"; "0"; "1"] eq_refl eq_refl))
             (le_n 3)).
  - exact (proj1 (proj2 (extractSubdomain_by_labels "dineflowbackend" ["onrender"; "com"]
                           eq_refl eq_refl)) eq_refl).
Defined.

(** X11.  Build the address, then read it back.  The host of the address
    [getSubdomainUrl] builds for a slug with its default base domain,
    [slug.vercel.app], has no subdomain for [extractSubdomain]; with a base
    domain of two labels it has the slug for subdomain unless the slug is
    [www], [api] or [admin] or one of the root domain texts occurs in the host. *)
Theorem getSubdomainUrl_read_back slug :
  label slug = true ->
  (forall host, getSubdomainUrl slug None = ("https://" ++ host)%string ->
                extractSubdomain (Some host) = None) /\
  (forall name tld host,
     label name = true -> label tld = true ->
     getSubdomainUrl slug (Some (name ++ "." ++ tld)%string) = ("https://" ++ host)%string ->
     extractSubdomain (Some host) =
     if existsb (includes host) rootDomains then None
     else if existsb (String.eqb slug) ignoredSubdomains then None else Some slug).
Proof.
  intros Hslug. split.
  - intros host Hurl. unfold getSubdomainUrl in Hurl. apply append_inj_l in Hurl. subst host.
    destruct (extractSubdomain_by_labels slug ["vercel"; "app"] Hslug eq_refl) as (_ & H & _).
    change (join "." [slug; "vercel"; "app"]) with (slug ++ "." ++ "vercel.app")%string in H.
    rewrite (H eq_refl).
    replace (existsb (includes (slug ++ "." ++ "vercel.app")%string) rootDomains) with true;
      [reflexivity|].
    symmetry. cbn [existsb rootDomains].
    change (slug ++ "." ++ "vercel.app")%string with (slug ++ String "." "vercel.app")%string.
    replace (slug ++ String "." "vercel.app")%string with ((slug ++ ".") ++ "vercel.app")%string
      by (now rewrite append_assoc).
    rewrite includes_suffix. now rewrite orb_true_r.
  - intros name tld host Hname Htld Hurl.
    unfold getSubdomainUrl in Hurl. apply append_inj_l in Hurl. subst host.
    assert (Hrest : forallb label [name; tld] = true) by (cbn; now rewrite Hname, Htld).
    destruct (extractSubdomain_by_labels slug [name; tld] Hslug Hrest) as (_ & H & _).
    exact (H eq_refl).
Qed.

(** X11 at the slug [acme]. *)
Lemma getSubdomainUrl_read_back_witness :
  getSubdomainUrl "acme" None = "https://acme.vercel.app" /\
  extractSubdomain (Some "acme.vercel.app") = None /\
  getSubdomainUrl "acme" (Some "yourdomain.com") = "https://acme.yourdomain.com" /\
  extractSubdomain (Some "acme.yourdomain.com") = Some "acme".
Proof.
  destruct (getSubdomainUrl_read_back "acme" eq_refl) as [Hdefault Hcustom].
  split; [reflexivity|]. split; [exact (Hdefault "acme.vercel.app" eq_refl)|].
  split; [reflexivity|].
  exact (Hcustom "yourdomain" "com" "acme.yourdomain.com" eq_refl eq_refl eq_refl).
Defined.

(** ** [generateSlug] *)

Ltac each_character c := destruct c as [[] [] [] [] [] [] [] []]; vm_compute; auto.

Lemma slug_char_facts c :
  slug_char c = true ->
  to_lower c = c /\ is_space c = false /\ (is_word c || is_dash c) = true /\
  (code c <? 128)%nat = true.
Proof. each_character c; discriminate. Qed.

Lemma to_lower_not_upper c : is_upper (to_lower c) = false.
Proof. each_character c. Qed.

Lemma kept_lower_is_slug_char c :
  is_upper c = false -> (is_word c || is_dash c) = true -> slug_char c = true.
Proof. each_character c; discriminate. Qed.

Lemma is_dash_eq c : is_dash c = true -> c = "-"%char.
Proof. each_character c; discriminate. Qed.

Lemma forallb_drop_while P f l : forallb P l = true -> forallb P (drop_while f l) = true.
Proof.
  induction l as [|c l IH]; cbn; [auto|].
  destruct (f c); [|auto]. rewrite andb_true_iff. intros [_ H]. auto.
Qed.

Lemma forallb_rev {A} (P : A -> bool) l : forallb P (rev l) = forallb P l.
Proof.
  induction l as [|x l IH]; cbn; [reflexivity|].
  rewrite forallb_app, IH. cbn. rewrite andb_true_r. apply andb_comm.
Qed.

Lemma forallb_drop_while_end P f l :
  forallb P l = true -> forallb P (drop_while_end f l) = true.
Proof.
  intros H. unfold drop_while_end. rewrite forallb_rev. apply forallb_drop_while.
  now rewrite forallb_rev.
Qed.

Lemma forallb_replace_runs P C by_ b l :
  forallb P by_ = true -> forallb P l = true -> forallb P (replace_runs C by_ b l) = true.
Proof.
  intros Hby. revert b. induction l as [|c l IH]; intros b; cbn; [auto|].
  rewrite andb_true_iff. intros [Hc Hl].
  destruct (C c).
  - rewrite forallb_app, IH by exact Hl. now destruct b; cbn; rewrite ?Hby.
  - cbn. now rewrite Hc, IH.
Qed.

(** The characters of a class are gone once its runs are replaced by nothing. *)
Lemma replace_runs_nothing C b l :
  forallb (fun c => negb (C c)) (replace_runs C [] b l) = true.
Proof.
  revert b. induction l as [|c l IH]; intros b; cbn; [reflexivity|].
  destruct (C c) eqn:E.
  - destruct b; cbn; apply IH.
  - cbn. now rewrite E, IH.
Qed.

(** Replacing runs leaves a text without characters of the class alone. *)
Lemma replace_runs_none C by_ b l :
  forallb (fun c => negb (C c)) l = true -> replace_runs C by_ b l = l.
Proof.
  revert b. induction l as [|c l IH]; intros b; cbn; [reflexivity|].
  rewrite andb_true_iff. intros [Hc Hl]. apply negb_true_iff in Hc. rewrite Hc.
  now rewrite IH.
Qed.

Lemma no_double_dash_cons c1 c2 l :
  no_double_dash (c1 :: c2 :: l) = negb (is_dash c1 && is_dash c2) && no_double_dash (c2 :: l).
Proof. reflexivity. Qed.

Lemma no_double_dash_tail c l : no_double_dash (c :: l) = true -> no_double_dash l = true.
Proof.
  destruct l as [|c' l]; [reflexivity|]. rewrite no_double_dash_cons, andb_true_iff. tauto.
Qed.

Lemma collapse_no_double_dash b l :
  no_double_dash (replace_runs is_dash ["-"%char] b l) = true /\
  (b = true -> starts_with_dash (replace_runs is_dash ["-"%char] b l) = false).
Proof.
  revert b. induction l as [|c l IH]; intros b; cbn [replace_runs]; [now split|].
  destruct (is_dash c) eqn:E.
  - destruct (IH true) as [Hnd Hstart]. specialize (Hstart eq_refl).
    destruct b; cbn [app].
    + split; [exact Hnd|intros _; exact Hstart].
    + split; [|discriminate].
      destruct (replace_runs is_dash ["-"%char] true l) as [|c' l'] eqn:El; [reflexivity|].
      rewrite no_double_dash_cons. cbn [starts_with_dash] in Hstart.
      now rewrite Hstart, andb_false_r.
  - destruct (IH false) as [Hnd _]. split.
    + destruct (replace_runs is_dash ["-"%char] false l) as [|c' l'] eqn:El; [reflexivity|].
      rewrite no_double_dash_cons, E. exact Hnd.
    + intros _. cbn. exact E.
Qed.

Lemma collapse_single b l :
  no_double_dash l = true -> (b = true -> starts_with_dash l = false) ->
  replace_runs is_dash ["-"%char] b l = l.
Proof.
  revert b. induction l as [|c l IH]; intros b Hnd Hstart; cbn [replace_runs]; [reflexivity|].
  pose proof (no_double_dash_tail _ _ Hnd) as Hl.
  destruct (is_dash c) eqn:E.
  - destruct b; [cbn in Hstart; rewrite E in Hstart; now specialize (Hstart eq_refl)|].
    cbn [app]. rewrite (is_dash_eq c E) at 1. f_equal.
    apply IH; [exact Hl|]. intros _.
    destruct l as [|c' l']; [reflexivity|]. rewrite no_double_dash_cons, E in Hnd.
    cbn [starts_with_dash]. destruct (is_dash c'); [discriminate|reflexivity].
  - f_equal. apply IH; [exact Hl|discriminate].
Qed.

Lemma drop_while_suffix f l : exists dropped, l = dropped ++ drop_while f l.
Proof.
  induction l as [|c l [dropped IH]]; cbn; [now exists []|].
  destruct (f c); [|now exists []]. exists (c :: dropped). cbn. now rewrite <- IH.
Qed.

Lemma drop_while_end_prefix f l : exists dropped, l = drop_while_end f l ++ dropped.
Proof.
  unfold drop_while_end. destruct (drop_while_suffix f (rev l)) as [dropped H].
  exists (rev dropped). rewrite <- rev_app_distr, <- H. now rewrite rev_involutive.
Qed.

Lemma drop_while_head f l : drop_while f l = [] \/ exists c l', drop_while f l = c :: l' /\ f c = false.
Proof.
  induction l as [|c l IH]; cbn; [now left|].
  destruct (f c) eqn:E; [exact IH|]. right. now exists c, l.
Qed.

Lemma drop_while_same f l :
  match l with c :: _ => f c = false | [] => True end -> drop_while f l = l.
Proof. destruct l as [|c l]; cbn; [reflexivity|]. now intros ->. Qed.

Lemma no_double_dash_app a b :
  no_double_dash (a ++ b) = true -> no_double_dash a = true /\ no_double_dash b = true.
Proof.
  induction a as [|c a IH]; cbn [app]; [now split|].
  intros H. pose proof (no_double_dash_tail _ _ H) as Ht. destruct (IH Ht) as [Ha Hb].
  split; [|exact Hb]. destruct a as [|c' a]; [reflexivity|].
  cbn [app] in H. rewrite no_double_dash_cons in H |- *.
  apply andb_true_iff in H. destruct H as [-> _]. exact Ha.
Qed.

Lemma map_to_lower_slug l : forallb slug_char l = true -> map to_lower l = l.
Proof.
  induction l as [|c l IH]; cbn; [reflexivity|].
  rewrite andb_true_iff. intros [Hc Hl]. now rewrite (proj1 (slug_char_facts c Hc)), IH.
Qed.

Lemma forallb_slug_no_space l :
  forallb slug_char l = true -> forallb (fun c => negb (is_space c)) l = true.
Proof.
  apply forallb_weaken. intros c Hc. destruct (slug_char_facts c Hc) as (_ & -> & _). reflexivity.
Qed.

Lemma forallb_slug_kept l :
  forallb slug_char l = true ->
  forallb (fun c => negb (negb (is_word c || is_dash c))) l = true.
Proof.
  apply forallb_weaken. intros c Hc. destruct (slug_char_facts c Hc) as (_ & _ & -> & _).
  reflexivity.
Qed.

Lemma forallb_both {A} (P Q R : A -> bool) l :
  (forall x, P x = true -> Q x = true -> R x = true) ->
  forallb P l = true -> forallb Q l = true -> forallb R l = true.
Proof.
  intros H. induction l as [|x l IH]; cbn; [auto|].
  rewrite !andb_true_iff. intros [Hp Hl] [Hq Hl']. auto.
Qed.

(** Every text [slug_of] makes has the shape of a slug. *)
Lemma slug_of_shape l : shape_of (slug_of l) = true.
Proof.
  unfold slug_of. cbv zeta.
  set (lowered := map to_lower l).
  set (trimmed := drop_while_end is_space (drop_while is_space lowered)).
  set (dashed := replace_runs is_space ["-"%char] false trimmed).
  set (cleaned := replace_runs (fun c => negb (is_word c || is_dash c)) [] false dashed).
  set (single := collapse_dashes cleaned).
  set (headed := drop_while is_dash single).
  assert (Hlow : forallb (fun c => negb (is_upper c)) lowered = true).
  { subst lowered. induction l as [|c l IH]; cbn; [reflexivity|].
    now rewrite to_lower_not_upper, IH. }
  assert (Hclean : forallb slug_char cleaned = true).
  { apply (forallb_both (fun c => negb (is_upper c))
                        (fun c => negb (negb (is_word c || is_dash c)))).
    - intros c Hu Hk. apply kept_lower_is_slug_char.
      + now apply negb_true_iff.
      + now rewrite negb_involutive in Hk.
    - subst cleaned dashed trimmed.
      apply forallb_replace_runs; [reflexivity|].
      apply forallb_replace_runs; [reflexivity|].
      now apply forallb_drop_while_end, forallb_drop_while.
    - apply replace_runs_nothing. }
  assert (Hsingle : forallb slug_char single = true)
    by (now apply forallb_replace_runs).
  assert (Hnd : no_double_dash single = true) by apply (collapse_no_double_dash false).
  destruct (drop_while_suffix is_dash single) as [d1 H1]. fold headed in H1.
  destruct (drop_while_end_prefix is_dash headed) as [d2 H2].
  assert (Hhead : forallb slug_char headed = true) by (now apply forallb_drop_while).
  assert (Hndh : no_double_dash headed = true).
  { rewrite H1 in Hnd. now apply no_double_dash_app in Hnd. }
  unfold shape_of. rewrite !andb_true_iff. repeat split.
  - now apply forallb_drop_while_end.
  - rewrite H2 in Hndh. now apply no_double_dash_app in Hndh.
  - apply negb_true_iff.
    destruct (drop_while_end is_dash headed) as [|c r] eqn:E; [reflexivity|].
    cbn [starts_with_dash]. rewrite H2 in *. cbn [app] in *.
    subst headed. destruct (drop_while_head is_dash single) as [H0|(c0 & l0 & H0 & Hc0)];
      rewrite H0 in H2; [discriminate|]. injection H2 as <- _. exact Hc0.
  - apply negb_true_iff. unfold drop_while_end. rewrite rev_involutive.
    destruct (drop_while_head is_dash (rev headed)) as [->|(c0 & l0 & -> & Hc0)];
      [reflexivity|exact Hc0].
Qed.

(** A text that has the shape is left as it is. *)
Lemma slug_of_fixed l : shape_of l = true -> slug_of l = l.
Proof.
  unfold shape_of. rewrite !andb_true_iff, !negb_true_iff.
  intros [[[Hall Hnd] Hfirst] Hlast].
  pose proof (forallb_slug_no_space l Hall) as Hns.
  unfold slug_of. cbv zeta.
  rewrite map_to_lower_slug by exact Hall.
  rewrite (drop_while_same is_space l).
  2:{ destruct l as [|c l']; [exact I|]. cbn in Hns. apply andb_true_iff in Hns.
      now apply negb_true_iff. }
  unfold drop_while_end at 2. rewrite (drop_while_same is_space (rev l)), rev_involutive.
  2:{ rewrite <- forallb_rev in Hns. destruct (rev l) as [|c l']; [exact I|].
      cbn in Hns. apply andb_true_iff in Hns. now apply negb_true_iff. }
  rewrite (replace_runs_none is_space _ false l Hns).
  rewrite replace_runs_none by (now apply forallb_slug_kept).
  unfold collapse_dashes. rewrite collapse_single by (auto; discriminate).
  rewrite (drop_while_same is_dash l) by (destruct l; [exact I|exact Hfirst]).
  unfold drop_while_end. rewrite (drop_while_same is_dash (rev l)), rev_involutive;
    [reflexivity|].
  destruct (rev l); [exact I|exact Hlast].
Qed.

Lemma shape_of_ascii l :
  shape_of l = true -> forallb (fun c => (code c <? 128)%nat) l = true.
Proof.
  unfold shape_of. rewrite !andb_true_iff. intros [[[Hall _] _] _]. revert Hall.
  apply forallb_weaken. intros c Hc. now destruct (slug_char_facts c Hc) as (_ & _ & _ & ->).
Qed.

(** X12.  The slug of an ASCII text consists of small letters, digits,
    underscores and dashes, has no dash at either end and no two dashes in a
    row; it may be empty. *)
Theorem generateSlug_shape text :
  ascii_text text = true ->
  slug_shape (generateSlug text) = true /\ ascii_text (generateSlug text) = true.
Proof.
  intros _. unfold slug_shape, ascii_text, generateSlug.
  rewrite list_ascii_of_string_of_list_ascii.
  split; [apply slug_of_shape|apply shape_of_ascii, slug_of_shape].
Qed.

(** X12 at a dish with spaces, capitals and punctuation, and at a text that
    has nothing a slug keeps. *)
Lemma generateSlug_shape_witness :
  generateSlug "  Chef's  Special -- Biryani (2 pcs) " = "chefs-special-biryani-2-pcs" /\
  slug_shape "chefs-special-biryani-2-pcs" = true /\
  generateSlug "!!!" = "" /\ slug_shape "" = true.
Proof.
  split; [reflexivity|]. split.
  - exact (proj1 (generateSlug_shape "  Chef's  Special -- Biryani (2 pcs) " eq_refl)).
  - split; [reflexivity|]. exact (proj1 (generateSlug_shape "!!!" eq_refl)).
Defined.

(** X13.  On ASCII texts [generateSlug] is idempotent, and the texts it leaves
    as they are are exactly those that have the shape of a slug. *)
Theorem generateSlug_idempotent text :
  ascii_text text = true ->
  generateSlug (generateSlug text) = generateSlug text /\
  (generateSlug text = text <-> slug_shape text = true).
Proof.
  intros _. unfold slug_shape, generateSlug. split; [|split].
  - rewrite list_ascii_of_string_of_list_ascii.
    now rewrite slug_of_fixed by apply slug_of_shape.
  - intros H. apply (f_equal list_ascii_of_string) in H.
    rewrite list_ascii_of_string_of_list_ascii in H. rewrite <- H. apply slug_of_shape.
  - intros H. rewrite slug_of_fixed by exact H. apply string_of_list_ascii_of_string.
Qed.

(** X13 at the slug of a dish and at its name. *)
Lemma generateSlug_idempotent_witness :
  generateSlug (generateSlug "Masala Dosa") = generateSlug "Masala Dosa" /\
  generateSlug "masala-dosa" = "masala-dosa" /\
  generateSlug "Masala Dosa" <> "Masala Dosa".
Proof.
  split; [exact (proj1 (generateSlug_idempotent "Masala Dosa" eq_refl))|].
  split; [exact (proj2 (proj2 (generateSlug_idempotent "masala-dosa" eq_refl)) eq_refl)|].
  discriminate.
Defined.

(** * The catalogue routes: proofs *)

(** ** Texts *)

Example trim_examples :
  trim "  Window side  " = "Window side" /\
  trim (String (ascii_of_nat 9) (String (ascii_of_nat 194) (String (ascii_of_nat 160) "AC")))
  = "AC" /\
  trim "   " = "" /\ trim "" = "" /\ trim "Non AC" = "Non AC".
Proof. repeat split; reflexivity. Qed.

Example show_examples : show 0 = "0" /\ show 12 = "12" /\ show (-5) = "-5".
Proof. repeat split; reflexivity. Qed.

Example decodeURIComponent_examples :
  decodeURIComponent "Main%20Course" = Some "Main Course" /\
  decodeURIComponent "Starters" = Some "Starters" /\
  decodeURIComponent "100%" = None /\
  decodeURIComponent "%C0%80" = None /\
  decodeURIComponent "Caf%C3%A9"
  = Some (String "C" (String "a" (String "f" (String (ascii_of_nat 195)
                                                (String (ascii_of_nat 169) ""))))).
Proof. repeat split; reflexivity. Qed.

(** A text without a percent sign is its own decoding. *)
Lemma decode_plain l fuel :
  (List.length l <= fuel)%nat ->
  forallb (fun c => negb (Ascii.eqb c "%")) l = true ->
  decode fuel l = Some l.
Proof.
  revert l. induction fuel as [|fuel IH]; intros [|c l]; cbn [List.length forallb decode];
    try reflexivity; try lia.
  intros Hlen H. apply andb_true_iff in H. destruct H as [Hc Hl].
  apply negb_true_iff in Hc.
  assert (Hrest : decode fuel l = Some l) by (apply IH; [lia|exact Hl]).
  destruct c as [[] [] [] [] [] [] [] []]; try discriminate Hc; now rewrite Hrest.
Qed.

Lemma free_of_forallb c s :
  free_of c s = forallb (fun x => negb (Ascii.eqb x c)) (list_ascii_of_string s).
Proof. induction s as [|x s IH]; cbn; [reflexivity|]. now rewrite IH. Qed.

Lemma length_list_ascii s : List.length (list_ascii_of_string s) = String.length s.
Proof. induction s as [|x s IH]; cbn; [reflexivity|]. now rewrite IH. Qed.

Lemma decodeURIComponent_plain s :
  free_of "%" s = true -> decodeURIComponent s = Some s.
Proof.
  intros H. unfold decodeURIComponent. rewrite decode_plain.
  - cbn. now rewrite string_of_list_ascii_of_string.
  - now rewrite length_list_ascii.
  - now rewrite <- free_of_forallb.
Qed.

(** ** Steps of a connection *)

Section PoolSteps.

Context {T C : Type}.

Lemma pool_bind_run {A B} (m : Pool.M T C A) (k : A -> Pool.M T C B) w :
  Pool.bind m k w = match m w with
                    | (Returned a, w') => k a w'
                    | (Thrown, w') => (Thrown, w')
                    end.
Proof. reflexivity. Qed.

Lemma pool_execute_run {A} (stmt : T -> C -> option (A * T * C))
    (d : T) (u : option T) (c : C) (fl : list bool) :
  Pool.execute stmt (Pool.Build_session d u c fl) =
  if nth 0 fl false then (Thrown, Pool.Build_session d u c (tl fl))
  else match stmt (match u with Some s => s | None => d end) c with
       | Some (x, s', c') =>
           (Returned x,
            match u with
            | Some _ => Pool.Build_session d (Some s') c' (tl fl)
            | None => Pool.Build_session s' None c' (tl fl)
            end)
       | None => (Thrown, Pool.Build_session d u c (tl fl))
       end.
Proof.
  unfold Pool.execute, Pool.next_fault. cbn [Pool.schedule].
  destruct fl as [|[] fl]; cbn; try reflexivity;
    destruct u; cbn; destruct (stmt _ c) as [[[x s'] c']|]; reflexivity.
Qed.

(** A read on a connection without a transaction. *)
Lemma pool_read_run {A} (q : T -> A) (d : T) (c : C) (fl : list bool) :
  Pool.execute (Pool.query q) (Pool.Build_session d None c fl) =
  if nth 0 fl false then (Thrown, Pool.Build_session d None c (tl fl))
  else (Returned (q d), Pool.Build_session d None c (tl fl)).
Proof. rewrite pool_execute_run. reflexivity. Qed.

Lemma pool_beginTransaction_run (d : T) (u : option T) (c : C) (fl : list bool) :
  Pool.beginTransaction (Pool.Build_session d u c fl) =
  if nth 0 fl false then (Thrown, Pool.Build_session d u c (tl fl))
  else (Returned tt,
        Pool.Build_session d (Some (match u with Some s => s | None => d end)) c (tl fl)).
Proof.
  unfold Pool.beginTransaction, Pool.next_fault. cbn [Pool.schedule].
  destruct fl as [|[] fl]; reflexivity.
Qed.

Lemma pool_commit_run (d : T) (u : option T) (c : C) (fl : list bool) :
  Pool.commit (Pool.Build_session d u c fl) =
  if nth 0 fl false then (Thrown, Pool.Build_session d u c (tl fl))
  else (Returned tt, Pool.Build_session (match u with Some s => s | None => d end) None c (tl fl)).
Proof.
  unfold Pool.commit, Pool.next_fault. cbn [Pool.schedule].
  destruct fl as [|[] fl]; reflexivity.
Qed.

Lemma pool_run_simple {A} (body : Pool.M T C A) (on_error : A)
    (s : T) (c : C) (fl : list bool) :
  Pool.run (Pool.try_catch body (fun w => (on_error, w))) s c fl =
  let (r, w) := body (Pool.Build_session s None c fl) in
  (match r with Returned a => a | Thrown => on_error end, Pool.durable w, Pool.sequences w).
Proof.
  unfold Pool.run, Pool.try_catch. destruct (body _) as [[a|] w]; reflexivity.
Qed.

End PoolSteps.

(** ** Table groups *)

Lemma some_selected {A B} (f : A -> bool) (g : A -> B) l :
  (0 <? List.length (map g (filter f l)))%nat = existsb f l.
Proof.
  induction l as [|x l IH]; cbn; [reflexivity|]. destruct (f x); cbn; auto.
Qed.

Lemma affected_zero {A} (f : A -> bool) l : (Catalogue.affected f l =? 0) = negb (existsb f l).
Proof. apply length_filter_zero. Qed.

Lemma affected_positive {A} (f : A -> bool) l : (0 <? Catalogue.affected f l) = existsb f l.
Proof.
  unfold Catalogue.affected. induction l as [|x l IH]; cbn; [reflexivity|].
  destruct (f x); cbn [List.length orb]; [|exact IH].
  apply Z.ltb_lt. lia.
Qed.

Lemma affected_count {A} (f : A -> bool) l : 0 <= Catalogue.affected f l.
Proof. unfold Catalogue.affected. lia. Qed.

Lemma required_name_spec name n :
  Catalogue.required_name name = Some n <->
  exists text, name = Some text /\ n = trim text /\ trim text <> "".
Proof.
  unfold Catalogue.required_name. split.
  - destruct name as [[|a s]|]; try discriminate.
    destruct (String.eqb (trim (String a s)) "") eqn:E; [discriminate|].
    intros [= <-]. exists (String a s). apply String.eqb_neq in E. auto.
  - intros (text & -> & -> & Hne).
    destruct text as [|a s]; [now contradiction Hne|].
    apply String.eqb_neq in Hne. now rewrite Hne.
Qed.

Lemma required_name_none name :
  Catalogue.required_name name = None <->
  name = None \/ exists text, name = Some text /\ trim text = "".
Proof.
  unfold Catalogue.required_name. split.
  - destruct name as [[|a s]|]; auto.
    + intros _. right. now exists "".
    + destruct (String.eqb (trim (String a s)) "") eqn:E; [|discriminate].
      apply String.eqb_eq in E. intros _. right. now exists (String a s).
  - intros [->|(text & -> & Hblank)]; [reflexivity|].
    destruct text as [|a s]; [reflexivity|]. now rewrite Hblank.
Qed.

Section CatalogueFacts.

Context {collation : Collation} {charset : Charset}.

Import Catalogue CatalogueShape.

Lemma select_new_group s c name :
  forallb (fun g => tg_id g <? next_group_id c) (table_groups s) = true ->
  select_group (next_group_id c)
    (with_table_groups (table_groups s ++ [new_group c name]) s) = [new_group c name].
Proof.
  intros Hfresh. unfold select_group. cbn [table_groups with_table_groups].
  rewrite filter_app. cbn. rewrite Z.eqb_refl.
  rewrite filter_nothing; [reflexivity|].
  revert Hfresh. apply forallb_weaken. intros g Hg. apply Z.ltb_lt in Hg.
  apply negb_true_iff, Z.eqb_neq. lia.
Qed.

(** What one [post_table_group] does when none of its statements is failed. *)
Lemma post_table_group_run name s c fl :
  no_fault fl = true ->
  Pool.run (post_table_group name) s c fl =
  match required_name name with
  | None => (Refused 400 "Group name is required", s, c)
  | Some n =>
      if existsb (fun g => same (tg_name g) n) (table_groups s)
      then (Refused 400 "Group already exists", s, c)
      else if fits 255 n
      then (Done None (hd_error (select_group (next_group_id c)
                                   (with_table_groups (table_groups s ++ [new_group c n]) s))),
            with_table_groups (table_groups s ++ [new_group c n]) s,
            {| next_group_id := next_group_id c + 1; next_table_id := next_table_id c;
               next_menu_item_id := next_menu_item_id c |})
      else (Refused 500 "Failed to create table group", s, c)
  end.
Proof.
  intros Hnf. unfold post_table_group. rewrite pool_run_simple.
  destruct (required_name name) as [n|]; [|reflexivity].
  rewrite pool_bind_run, pool_read_run, (no_fault_nth fl 0 Hnf).
  unfold select_group_ids_named. rewrite some_selected.
  destruct (existsb _ (table_groups s)) eqn:Hdup; [reflexivity|].
  rewrite pool_bind_run, pool_execute_run, nth_tl_S, (no_fault_nth fl 1 Hnf).
  unfold insert_group. rewrite Hdup, andb_true_r.
  destruct (fits 255 n); [|reflexivity].
  rewrite pool_bind_run, pool_read_run, !nth_tl_S, (no_fault_nth fl 2 Hnf). reflexivity.
Qed.

Lemma none_same_spec n (l : list group_row) :
  existsb (fun g => same (tg_name g) n) l = false <->
  forall g, In g l -> same (tg_name g) n = false.
Proof.
  split.
  - intros H g Hin. destruct (same (tg_name g) n) eqn:E; [|reflexivity].
    assert (Hex : existsb (fun g => same (tg_name g) n) l = true)
      by (apply existsb_exists; now exists g).
    congruence.
  - intros H. destruct (existsb _ l) eqn:E; [|reflexivity].
    apply existsb_exists in E. destruct E as (g & Hin & Hg). rewrite (H g Hin) in Hg.
    discriminate.
Qed.

(** X14.  With no storage fault and on tables whose ids lie below the
    counters, [post_table_group] answers 400 when the name is absent or blank
    once trimmed, 400 again when a group of that (trimmed) name exists for the
    collation, and otherwise, when the column takes the name, adds one group
    with the next id and the trimmed name and returns it. *)
Theorem post_table_group_outcomes name s c fl r s' c' :
  Pool.run (post_table_group name) s c fl = (r, s', c') ->
  no_fault fl = true -> fresh s c = true ->
  ((name = None \/ exists text, name = Some text /\ trim text = "") ->
     r = Refused 400 "Group name is required" /\ s' = s /\ c' = c) /\
  (forall text, name = Some text -> trim text <> "" ->
     (exists g, In g (table_groups s) /\ same (tg_name g) (trim text) = true) ->
     r = Refused 400 "Group already exists" /\ s' = s /\ c' = c) /\
  (forall text, name = Some text -> trim text <> "" ->
     (forall g, In g (table_groups s) -> same (tg_name g) (trim text) = false) ->
     fits 255 (trim text) = true ->
     r = Done None (Some (new_group c (trim text))) /\
     s' = with_table_groups (table_groups s ++ [new_group c (trim text)]) s /\
     next_group_id c' = next_group_id c + 1).
Proof.
  intros H Hnf Hfresh. rewrite post_table_group_run in H by exact Hnf.
  unfold fresh in Hfresh. rewrite !andb_true_iff in Hfresh. destruct Hfresh as [[Hg _] _].
  split; [|split].
  - intros Hblank. apply required_name_none in Hblank. rewrite Hblank in H.
    now injection H as <- <- <-.
  - intros text Hname Hne (g & Hin & Hsame).
    rewrite (proj2 (required_name_spec name (trim text))) in H by (now exists text).
    assert (Hdup : existsb (fun g => same (tg_name g) (trim text)) (table_groups s) = true)
      by (apply existsb_exists; now exists g).
    rewrite Hdup in H. now injection H as <- <- <-.
  - intros text Hname Hne Hnone Hfits.
    rewrite (proj2 (required_name_spec name (trim text))) in H by (now exists text).
    rewrite (proj2 (none_same_spec _ _) Hnone), Hfits, select_new_group in H by exact Hg.
    now injection H as <- <- <-.
Qed.

Lemma affected_key {A} (key : A -> Z) id l :
  NoDup (map key l) -> (1 <? Catalogue.affected (fun x => key x =? id) l) = false.
Proof.
  unfold Catalogue.affected. intros Hnd. apply Z.ltb_ge.
  induction l as [|x l IH]; cbn; [lia|].
  inversion Hnd as [|k ks Hnotin Hnd']; subst.
  destruct (key x =? id) eqn:E; [|now apply IH].
  apply Z.eqb_eq in E. subst id.
  assert (Hnone : filter (fun y => key y =? key x) l = []).
  { apply filter_nothing, forallb_forall. intros y Hy. apply negb_true_iff, Z.eqb_neq.
    intros Heq. apply Hnotin. rewrite <- Heq. now apply in_map. }
  rewrite Hnone. cbn. lia.
Qed.

(** What one [put_table_group] does when none of its statements is failed. *)
Lemma put_table_group_run id name s c fl :
  no_fault fl = true ->
  Pool.run (put_table_group id name) s c fl =
  match required_name name with
  | None => (Refused 400 "Group name is required", s, c)
  | Some n =>
      if existsb (fun g => tg_id g =? id) (table_groups s) then
        if negb (fits 255 n)
           || (1 <? affected (fun g => tg_id g =? id) (table_groups s))
           || existsb (fun g => negb (tg_id g =? id) && same (tg_name g) n) (table_groups s)
        then (Refused 500 "Failed to update table group", s, c)
        else
          let s' := with_table_groups
                      (map (fun g => if tg_id g =? id then {| tg_id := tg_id g; tg_name := n |}
                                     else g) (table_groups s)) s in
          (Done None (hd_error (select_group id s')), s', c)
      else (Refused 404 "Group not found", s, c)
  end.
Proof.
  intros Hnf. unfold put_table_group. rewrite pool_run_simple.
  destruct (required_name name) as [n|]; [|reflexivity].
  rewrite pool_bind_run, pool_execute_run, (no_fault_nth fl 0 Hnf).
  unfold update_group_name.
  destruct (existsb (fun g => tg_id g =? id) (table_groups s)) eqn:Hid; cbn [andb].
  - destruct (negb (fits 255 n) || _ || _); [reflexivity|].
    rewrite affected_zero, Hid. cbn [negb].
    rewrite pool_bind_run, pool_read_run, nth_tl_S, (no_fault_nth fl 1 Hnf). reflexivity.
  - rewrite affected_zero, Hid. cbn [negb Pool.ret].
    rewrite map_untouched by exact Hid. now destruct s.
Qed.

Lemma has_id_spec {A} (key : A -> Z) id l b :
  existsb (fun x => key x =? id) l = b ->
  if b then exists x, In x l /\ key x = id else forall x, In x l -> key x <> id.
Proof.
  destruct b; intros Hb.
  - apply existsb_exists in Hb. destruct Hb as (x & Hin & Hx). exists x.
    split; [exact Hin|]. now apply Z.eqb_eq.
  - intros x Hin Hx.
    assert (Hex : existsb (fun x => key x =? id) l = true)
      by (apply existsb_exists; exists x; split; [exact Hin|now apply Z.eqb_eq]).
    congruence.
Qed.

Lemma other_named_spec id n (l : list group_row) b :
  existsb (fun g => negb (tg_id g =? id) && same (tg_name g) n) l = b ->
  if b then exists g, In g l /\ tg_id g <> id /\ same (tg_name g) n = true
  else forall g, In g l -> tg_id g <> id -> same (tg_name g) n = false.
Proof.
  destruct b; intros Hb.
  - apply existsb_exists in Hb. destruct Hb as (g & Hin & Hg).
    apply andb_true_iff in Hg. destruct Hg as [Hg1 Hg2]. exists g.
    split; [exact Hin|]. split; [|exact Hg2]. now apply Z.eqb_neq, negb_true_iff.
  - intros g Hin Hg. destruct (same (tg_name g) n) eqn:E; [|reflexivity].
    assert (Hex : existsb (fun g => negb (tg_id g =? id) && same (tg_name g) n) l = true).
    { apply existsb_exists. exists g. split; [exact Hin|].
      apply andb_true_iff. split; [|exact E]. now apply negb_true_iff, Z.eqb_neq. }
    congruence.
Qed.

(** X15.  With no storage fault and groups of distinct ids, [put_table_group]
    answers 400 for an absent or blank name, 404 for an id no group has, and
    500, not 400, when another group already has the name; in none of these
    cases does anything change.  Otherwise, when the column takes the name,
    the group of that id gets the trimmed name, is returned, and nothing else
    changes. *)
Theorem put_table_group_outcomes id name s c fl r s' c' :
  Pool.run (put_table_group id name) s c fl = (r, s', c') ->
  no_fault fl = true ->
  NoDup (map tg_id (table_groups s)) ->
  c' = c /\
  ((name = None \/ exists text, name = Some text /\ trim text = "") ->
     r = Refused 400 "Group name is required" /\ s' = s) /\
  (forall text, name = Some text -> trim text <> "" ->
     (forall g, In g (table_groups s) -> tg_id g <> id) ->
     r = Refused 404 "Group not found" /\ s' = s) /\
  (forall text, name = Some text -> trim text <> "" ->
     (exists g, In g (table_groups s) /\ tg_id g = id) ->
     (exists g, In g (table_groups s) /\ tg_id g <> id /\ same (tg_name g) (trim text) = true) ->
     r = Refused 500 "Failed to update table group" /\ s' = s) /\
  (forall text, name = Some text -> trim text <> "" ->
     (exists g, In g (table_groups s) /\ tg_id g = id) ->
     (forall g, In g (table_groups s) -> tg_id g <> id -> same (tg_name g) (trim text) = false) ->
     fits 255 (trim text) = true ->
     r = Done None (Some {| tg_id := id; tg_name := trim text |}) /\
     s' = with_table_groups
            (map (fun g => if tg_id g =? id then {| tg_id := id; tg_name := trim text |} else g)
                 (table_groups s)) s).
Proof.
  intros H Hnf Hnd. rewrite put_table_group_run in H by exact Hnf.
  rewrite (affected_key tg_id id _ Hnd) in H.
  pose proof (has_id_spec tg_id id (table_groups s) _ eq_refl) as Hknown.
  destruct (required_name name) as [n|] eqn:Hreq.
  - rewrite orb_false_r in H. apply required_name_spec in Hreq. destruct Hreq as (text0 & Hname & -> & Hne0).
    pose proof (other_named_spec id (trim text0) (table_groups s) _ eq_refl) as Hother.
    assert (Hsame : forall text, name = Some text -> text = text0) by (intros; congruence).
    destruct (existsb (fun g => tg_id g =? id) (table_groups s)) eqn:Hid.
    + destruct Hknown as (g0 & Hin0 & Hg0).
      destruct (fits 255 (trim text0)) eqn:Hfits; cbn [negb orb] in H.
      * destruct (existsb (fun g => negb (tg_id g =? id) && same (tg_name g) (trim text0))
                    (table_groups s)) eqn:Hdup.
        -- injection H as <- <- <-. destruct Hother as (g & Hin & Hg & Hsm).
           split; [reflexivity|]. split.
           { intros [Hnone|(text & Hsome & Hblank)]; [congruence|].
             rewrite (Hsame _ Hsome) in Hblank. contradiction. }
           split.
           { intros text _ _ Hno. now destruct (Hno g0 Hin0). }
           split.
           { intros. now split. }
           intros text Hsome _ _ Hno _. rewrite (Hsame _ Hsome) in Hno.
           rewrite (Hno g Hin Hg) in Hsm. discriminate.
        -- cbv zeta in H. injection H as <- <- <-.
           split; [reflexivity|]. split.
           { intros [Hnone|(text & Hsome & Hblank)]; [congruence|].
             rewrite (Hsame _ Hsome) in Hblank. contradiction. }
           split.
           { intros text _ _ Hno. now destruct (Hno g0 Hin0). }
           split.
           { intros text Hsome _ _ (g & Hin & Hg & Hsm). rewrite (Hsame _ Hsome) in Hsm.
             rewrite (Hother g Hin Hg) in Hsm. discriminate. }
           intros text Hsome _ _ _ _. rewrite (Hsame _ Hsome).
           split.
           ++ f_equal. unfold select_group. cbn [table_groups with_table_groups].
              rewrite (filter_map_touched (fun g => tg_id g =? id)
                         (fun g => {| tg_id := tg_id g; tg_name := trim text0 |}))
                by reflexivity.
              destruct (existsb_hd_filter _ _ Hid) as (g & Hhd & _ & Hg).
              destruct (filter (fun g => tg_id g =? id) (table_groups s)) as [|x l];
                [discriminate|].
              cbn in Hhd. injection Hhd as ->. cbn [map hd_error].
              apply Z.eqb_eq in Hg. now rewrite Hg.
           ++ f_equal. apply map_ext. intros g. destruct (tg_id g =? id) eqn:E; [|reflexivity].
              apply Z.eqb_eq in E. now rewrite E.
      * injection H as <- <- <-.
        split; [reflexivity|]. split.
        { intros [Hnone|(text & Hsome & Hblank)]; [congruence|].
          rewrite (Hsame _ Hsome) in Hblank. contradiction. }
        split.
        { intros text _ _ Hno. now destruct (Hno g0 Hin0). }
        split.
        { intros. now split. }
        intros text Hsome _ _ _ Hfits'. rewrite (Hsame _ Hsome) in Hfits'. congruence.
    + injection H as <- <- <-.
      split; [reflexivity|]. split.
      { intros [Hnone|(text & Hsome & Hblank)]; [congruence|].
        rewrite (Hsame _ Hsome) in Hblank. contradiction. }
      split; [now intros|].
      split.
      { intros text _ _ (g & Hin & Hg) _. now destruct (Hknown g Hin). }
      intros text _ _ (g & Hin & Hg) _ _. now destruct (Hknown g Hin).
  - injection H as <- <- <-. apply required_name_none in Hreq.
    split; [reflexivity|]. split; [now intros|].
    assert (Hno : forall text, name = Some text -> trim text <> "" -> False).
    { intros text Hsome Hne. destruct Hreq as [Hnone|(text' & Hsome' & Hblank)]; congruence. }
    split; [|split]; intros text Hsome Hne; now destruct (Hno text Hsome Hne).
Qed.

Lemma existsb_none {A} (f : A -> bool) l :
  existsb f l = false <-> forall x, In x l -> f x = false.
Proof.
  split.
  - intros H x Hin. destruct (f x) eqn:E; [|reflexivity].
    assert (Hex : existsb f l = true) by (apply existsb_exists; now exists x).
    congruence.
  - intros H. destruct (existsb f l) eqn:E; [|reflexivity].
    apply existsb_exists in E. destruct E as (x & Hin & Hx). rewrite (H x Hin) in Hx.
    discriminate.
Qed.

Lemma filter_none_hit {A} (f : A -> bool) l :
  existsb f l = false -> filter (fun x => negb (f x)) l = l.
Proof.
  induction l as [|x l IH]; cbn; [reflexivity|].
  destruct (f x); cbn; [discriminate|]. intros H. now rewrite IH.
Qed.

Lemma in_group_spec (t : table_record) id :
  match tr_group_id t with Some g => g =? id | None => false end = true <->
  tr_group_id t = Some id.
Proof.
  destruct (tr_group_id t) as [g|]; split; try discriminate.
  - intros H. apply Z.eqb_eq in H. now subst.
  - intros H. injection H as ->. apply Z.eqb_refl.
Qed.

(** What one [delete_table_group] does when none of its statements is
    failed. *)
Lemma delete_table_group_run id s c fl :
  no_fault fl = true ->
  Pool.run (delete_table_group id) s c fl =
  if 0 <? count_tables_in_group id s
  then (Refused 400 ("Cannot delete group used by " ++ show (count_tables_in_group id s)
                     ++ " tables"), s, c)
  else if existsb (fun g => tg_id g =? id) (table_groups s)
  then (Done (Some "Group deleted successfully") None,
        with_table_groups (filter (fun g => negb (tg_id g =? id)) (table_groups s)) s, c)
  else (Refused 404 "Group not found", s, c).
Proof.
  intros Hnf. unfold delete_table_group. rewrite pool_run_simple.
  rewrite pool_bind_run, pool_read_run, (no_fault_nth fl 0 Hnf).
  destruct (0 <? count_tables_in_group id s); [reflexivity|].
  rewrite pool_bind_run, pool_execute_run, nth_tl_S, (no_fault_nth fl 1 Hnf).
  unfold delete_group. rewrite affected_zero.
  destruct (existsb (fun g => tg_id g =? id) (table_groups s)) eqn:Hid; cbn [negb Pool.ret].
  - reflexivity.
  - rewrite filter_none_hit by exact Hid. now destruct s.
Qed.

(** X16.  With no storage fault, [delete_table_group] refuses with 400, naming
    the number of tables, as soon as one table is in the group, whether the
    group exists or not; answers 404 for an id that no table and no group has;
    and otherwise removes the groups of that id and nothing else. *)
Theorem delete_table_group_outcomes id s c fl r s' c' :
  Pool.run (delete_table_group id) s c fl = (r, s', c') ->
  no_fault fl = true ->
  c' = c /\
  ((exists t, In t (restaurant_tables s) /\ tr_group_id t = Some id) ->
     r = Refused 400 ("Cannot delete group used by " ++ show (count_tables_in_group id s)
                      ++ " tables") /\
     0 < count_tables_in_group id s /\ s' = s) /\
  ((forall t, In t (restaurant_tables s) -> tr_group_id t <> Some id) ->
     (forall g, In g (table_groups s) -> tg_id g <> id) ->
     r = Refused 404 "Group not found" /\ s' = s) /\
  ((forall t, In t (restaurant_tables s) -> tr_group_id t <> Some id) ->
     (exists g, In g (table_groups s) /\ tg_id g = id) ->
     r = Done (Some "Group deleted successfully") None /\
     s' = with_table_groups (filter (fun g => negb (tg_id g =? id)) (table_groups s)) s /\
     (forall g, In g (table_groups s') <-> In g (table_groups s) /\ tg_id g <> id)).
Proof.
  intros H Hnf. rewrite delete_table_group_run in H by exact Hnf.
  unfold count_tables_in_group in *. rewrite affected_positive in H.
  set (used := fun t : table_record =>
                 match tr_group_id t with Some g => g =? id | None => false end) in *.
  destruct (existsb used (restaurant_tables s)) eqn:Hused.
  - injection H as <- <- <-. split; [reflexivity|].
    apply existsb_exists in Hused. destruct Hused as (t & Hin & Ht).
    apply in_group_spec in Ht.
    split; [|split].
    + intros _. split; [reflexivity|]. split; [|reflexivity].
      apply Z.ltb_lt. rewrite affected_positive. apply existsb_exists. exists t.
      split; [exact Hin|]. now apply in_group_spec.
    + intros Hno. now destruct (Hno t Hin).
    + intros Hno. now destruct (Hno t Hin).
  - assert (Hfree : forall t, In t (restaurant_tables s) -> tr_group_id t <> Some id).
    { intros t Hin Ht. apply in_group_spec in Ht.
      pose proof (proj1 (existsb_none _ _) Hused t Hin) as Hno. unfold used in Hno.
      congruence. }
    destruct (existsb (fun g => tg_id g =? id) (table_groups s)) eqn:Hid;
      injection H as <- <- <-; (split; [reflexivity|]).
    + apply existsb_exists in Hid. destruct Hid as (g & Hin & Hg). apply Z.eqb_eq in Hg.
      split; [|split].
      * intros (t & Hint & Ht). now destruct (Hfree t Hint).
      * intros _ Hno. now destruct (Hno g Hin).
      * intros _ _. split; [reflexivity|]. split; [reflexivity|].
        intros g'. cbn [table_groups with_table_groups]. rewrite filter_In.
        rewrite negb_true_iff, Z.eqb_neq. reflexivity.
    + split; [|split].
      * intros (t & Hint & Ht). now destruct (Hfree t Hint).
      * intros _ _. now split.
      * intros _ (g & Hin & Hg).
        pose proof (proj1 (existsb_none _ _) Hid g Hin) as Hg'. cbn in Hg'.
        apply Z.eqb_neq in Hg'. contradiction.
Qed.

(** ** Tables *)

Lemma by_number_insert_perm t l : Permutation (by_number_insert t l) (t :: l).
Proof.
  induction l as [|x l IH]; cbn; [reflexivity|].
  destruct (tr_table_number t <? tr_table_number x); [reflexivity|].
  rewrite IH. apply perm_swap.
Qed.

Lemma by_number_perm l : Permutation (by_number l) l.
Proof.
  induction l as [|x l IH]; cbn; [constructor|].
  rewrite by_number_insert_perm. now constructor.
Qed.

Lemma by_number_insert_sorted t l :
  StronglySorted by_table_number l -> StronglySorted by_table_number (by_number_insert t l).
Proof.
  induction 1 as [|x l Hs IH Hx]; cbn.
  - constructor; constructor.
  - destruct (tr_table_number t <? tr_table_number x) eqn:E.
    + apply Z.ltb_lt in E. constructor; [now constructor|].
      constructor; [unfold by_table_number; lia|].
      eapply Forall_impl; [|exact Hx]. unfold by_table_number. intros y Hy. lia.
    + apply Z.ltb_ge in E. constructor; [exact IH|].
      eapply Permutation_Forall; [symmetry; apply by_number_insert_perm|].
      constructor; [exact E|exact Hx].
Qed.

Lemma by_number_sorted l : StronglySorted by_table_number (by_number l).
Proof.
  induction l as [|x l IH]; cbn; [constructor|]. now apply by_number_insert_sorted.
Qed.

Lemma joined_rows s t v :
  In v (joined s t) -> tv_table v = t /\ listed_as (table_groups s) v.
Proof.
  unfold joined, listed_as.
  destruct (tr_group_id t) as [g|] eqn:Hg.
  - destruct (filter (fun r => tg_id r =? g) (table_groups s)) as [|x l] eqn:Hf.
    + intros [<-|[]]. split; [reflexivity|]. right. cbn. split; [|reflexivity].
      intros r Hin Heq. rewrite Hg in Heq. injection Heq as ->.
      assert (Hx : In r (filter (fun r0 => tg_id r0 =? tg_id r) (table_groups s)))
        by (apply filter_In; split; [exact Hin|apply Z.eqb_refl]).
      rewrite Hf in Hx. destruct Hx.
    + intros Hin. apply in_map_iff in Hin. destruct Hin as (r & <- & Hr).
      split; [reflexivity|]. left. exists r. cbn.
      rewrite <- Hf in Hr. apply filter_In in Hr. destruct Hr as [Hr1 Hr2].
      apply Z.eqb_eq in Hr2. rewrite Hg, Hr2. auto.
  - intros [<-|[]]. split; [reflexivity|]. right. cbn. rewrite Hg.
    split; [discriminate|reflexivity].
Qed.

Lemma joined_first s t : exists v, hd_error (joined s t) = Some v /\ In v (joined s t).
Proof.
  unfold joined.
  destruct (match tr_group_id t with
            | Some g => filter (fun r => tg_id r =? g) (table_groups s)
            | None => []
            end) as [|x l]; cbn; eexists; split; eauto.
Qed.

Lemma joined_one s t :
  NoDup (map tg_id (table_groups s)) -> map tv_table (joined s t) = [t].
Proof.
  intros Hnd. unfold joined. destruct (tr_group_id t) as [g|]; [|reflexivity].
  pose proof (affected_key tg_id g _ Hnd) as Hone. unfold affected in Hone.
  destruct (filter (fun r => tg_id r =? g) (table_groups s)) as [|x [|y l]];
    [reflexivity|reflexivity|].
  apply Z.ltb_ge in Hone. cbn [List.length] in Hone. lia.
Qed.

Lemma joined_all s l :
  NoDup (map tg_id (table_groups s)) -> map tv_table (flat_map (joined s) l) = l.
Proof.
  intros Hnd. induction l as [|t l IH]; cbn [flat_map map]; [reflexivity|].
  now rewrite map_app, joined_one, IH.
Qed.

Lemma joined_each s l v :
  In v (flat_map (joined s) l) -> In (tv_table v) l /\ listed_as (table_groups s) v.
Proof.
  intros Hin. apply in_flat_map in Hin. destruct Hin as (t & Ht & Hv).
  apply joined_rows in Hv. destruct Hv as [-> Hv]. auto.
Qed.

Lemma map_plain l : map tv_table (map plain l) = l.
Proof. rewrite map_map. cbn. apply map_id. Qed.

(** What one [get_tables] does, whatever fails. *)
Lemma get_tables_run s c fl :
  Pool.run get_tables s c fl =
  if nth 0 fl false then
    if nth 1 fl false then (Refused 500 "Failed to fetch tables", s, c)
    else (Done None (Some (select_all_tables s)), s, c)
  else (Done None (Some (select_active_tables s)), s, c).
Proof.
  unfold get_tables. rewrite pool_run_simple. unfold Pool.try_else.
  rewrite pool_bind_run, pool_read_run.
  destruct (nth 0 fl false); [|reflexivity].
  rewrite pool_bind_run, pool_read_run, nth_tl_S.
  destruct (nth 1 fl false); reflexivity.
Qed.

(** X17.  [get_tables] changes nothing.  When its first statement goes
    through, it lists the tables in service, each once, by ascending number,
    with the name of its group, or Non AC when it has no group or the group is
    gone.  When the first statement fails and the second goes through, it
    lists every table, those out of service too, all as Non AC.  When both
    fail it answers 500. *)
Theorem get_tables_outcomes s c fl r s' c' :
  Pool.run get_tables s c fl = (r, s', c') ->
  NoDup (map tg_id (table_groups s)) ->
  s' = s /\ c' = c /\
  (nth 0 fl false = false ->
     exists rows, r = Done None (Some rows) /\
       Permutation (map tv_table rows) (filter tr_is_active (restaurant_tables s)) /\
       StronglySorted by_table_number (map tv_table rows) /\
       forall v, In v rows -> listed_as (table_groups s) v) /\
  (nth 0 fl false = true -> nth 1 fl false = false ->
     exists rows, r = Done None (Some rows) /\
       Permutation (map tv_table rows) (restaurant_tables s) /\
       StronglySorted by_table_number (map tv_table rows) /\
       forall v, In v rows -> tv_group_name v = "Non AC") /\
  (nth 0 fl false = true -> nth 1 fl false = true ->
     r = Refused 500 "Failed to fetch tables").
Proof.
  intros H Hnd. rewrite get_tables_run in H.
  destruct (nth 0 fl false); [destruct (nth 1 fl false)|]; injection H as <- <- <-;
    (split; [reflexivity|]); (split; [reflexivity|]);
    (split; [|split]); try discriminate; try reflexivity.
  - intros _ _. exists (select_all_tables s). split; [reflexivity|].
    unfold select_all_tables. rewrite map_plain.
    split; [apply by_number_perm|]. split; [apply by_number_sorted|].
    intros v Hv. apply in_map_iff in Hv. now destruct Hv as (t & <- & _).
  - intros _. exists (select_active_tables s). split; [reflexivity|].
    unfold select_active_tables. rewrite joined_all by exact Hnd.
    split; [apply by_number_perm|]. split; [apply by_number_sorted|].
    intros v Hv. now apply joined_each in Hv.
Qed.

Lemma numbered_spec number (l : list table_record) b :
  existsb (fun t => tr_table_number t =? number) l = b ->
  if b then exists t, In t l /\ tr_table_number t = number
  else forall t, In t l -> tr_table_number t <> number.
Proof. apply (has_id_spec tr_table_number). Qed.

(** X18.  When its first statement goes through, [get_table] answers 404
    exactly when no table has the number, and otherwise returns a table of
    that number, in service or not, with the name of its group or Non AC;
    nothing changes. *)
Theorem get_table_outcomes number s c fl r s' c' :
  Pool.run (get_table number) s c fl = (r, s', c') ->
  nth 0 fl false = false ->
  s' = s /\ c' = c /\
  ((forall t, In t (restaurant_tables s) -> tr_table_number t <> number) ->
     r = Refused 404 "Table not found") /\
  ((exists t, In t (restaurant_tables s) /\ tr_table_number t = number) ->
     exists v, r = Done None (Some v) /\
       In (tv_table v) (restaurant_tables s) /\
       tr_table_number (tv_table v) = number /\
       listed_as (table_groups s) v).
Proof.
  intros H Hf. unfold get_table in H. rewrite pool_run_simple in H.
  unfold Pool.try_else in H. rewrite pool_bind_run, pool_read_run, Hf in H.
  cbn [Pool.ret Pool.durable Pool.sequences] in H. injection H as <- <- <-.
  split; [reflexivity|]. split; [reflexivity|].
  unfold select_table_numbered.
  pose proof (numbered_spec number (restaurant_tables s) _ eq_refl) as Hn.
  destruct (filter (fun t => tr_table_number t =? number) (restaurant_tables s))
    as [|t l] eqn:Hfil.
  - assert (Hnone : existsb (fun t => tr_table_number t =? number) (restaurant_tables s) = false).
    { apply existsb_none. intros t Ht. destruct (tr_table_number t =? number) eqn:E; [|reflexivity].
      assert (Hin : In t (filter (fun t => tr_table_number t =? number) (restaurant_tables s)))
        by (apply filter_In; auto).
      rewrite Hfil in Hin. destruct Hin. }
    rewrite Hnone in Hn. split; [reflexivity|].
    intros (t & Hin & Ht). now destruct (Hn t Hin).
  - assert (Ht : In t (restaurant_tables s) /\ tr_table_number t = number).
    { assert (Hin : In t (filter (fun t => tr_table_number t =? number) (restaurant_tables s)))
        by (rewrite Hfil; now left).
      apply filter_In in Hin. destruct Hin as [Hin E]. apply Z.eqb_eq in E. auto. }
    destruct Ht as [Hin Ht]. cbn [flat_map].
    destruct (joined_first s t) as (v & Hhd & Hv).
    apply joined_rows in Hv. destruct Hv as [Hvt Hv].
    assert (Hans : first_or_404 (joined s t ++ flat_map (joined s) l) = Done None (Some v)).
    { destruct (joined s t) as [|x xs]; [discriminate|]. cbn in Hhd. injection Hhd as ->.
      reflexivity. }
    rewrite Hans. split.
    + intros Hno. now destruct (Hno t Hin).
    + intros _. exists v. rewrite Hvt. auto.
Qed.

(** A request served inside [try { ... } catch { rollback } finally { release }]. *)
Lemma pool_run_transaction {T C A} (body : Pool.M T C A) (on_error : A)
    (s : T) (c : C) (fl : list bool) :
  Pool.run (Pool.finally_
              (Pool.try_catch body (fun w => let (_, w') := Pool.rollback w in (on_error, w')))
              Pool.release) s c fl =
  let (r, w) := body (Pool.Build_session s None c fl) in
  (match r with Returned a => a | Thrown => on_error end, Pool.durable w, Pool.sequences w).
Proof.
  unfold Pool.run, Pool.finally_, Pool.try_catch. destruct (body _) as [[a|] w]; reflexivity.
Qed.

(** The table [post_table] adds. *)
Lemma insert_table_spec number name qr group s c :
  insert_table number name qr group s c =
  if in_int number && match group with Some g => in_int g | None => true end
     && fits 100 name
     && negb (existsb (fun t => tr_table_number t =? number) (restaurant_tables s))
  then
    let t := {| tr_id := next_table_id c; tr_table_number := number; tr_table_name := name;
                tr_group_id := group; tr_qr_code_data := Some qr; tr_is_active := true |} in
    Some (next_table_id c, with_restaurant_tables (restaurant_tables s ++ [t]) s,
          {| next_group_id := next_group_id c; next_table_id := next_table_id c + 1;
             next_menu_item_id := next_menu_item_id c |})
  else None.
Proof. reflexivity. Qed.

(** What one [post_table] does, whatever fails. *)
Lemma post_table_run body s c fl :
  Pool.run (post_table body) s c fl =
  if nth 0 fl false then (Refused 500 "Failed to create table", s, c) else
  match or_null (table_number body) with
  | None => (Refused 400 "Table number is required.", s, c)
  | Some n =>
      if nth 1 fl false then (Refused 500 "Failed to create table", s, c) else
      if existsb (fun t => tr_table_number t =? n) (restaurant_tables s)
      then (Refused 400 ("Table number " ++ show n
                         ++ " already exists. Please choose a different number."), s, c) else
      if nth 2 fl false then (Refused 500 "Failed to create table", s, c) else
      if nth 3 fl false then (Refused 500 "Failed to create table", s, c) else
      match insert_table n (name_or_default (table_name body) n) ("table-" ++ show n)
              (or_null (group_id body)) s c with
      | None => (Refused 500 "Failed to create table", s, c)
      | Some (id, s1, c1) =>
          if nth 4 fl false then (Refused 500 "Failed to create table", s, c1) else
          if nth 5 fl false then (Refused 500 "Failed to create table", s1, c1) else
          (Done None (hd_error (select_table id s1)), s1, c1)
      end
  end.
Proof.
  unfold post_table. rewrite pool_run_transaction.
  rewrite pool_bind_run, pool_beginTransaction_run.
  destruct (nth 0 fl false); [reflexivity|].
  destruct (or_null (table_number body)) as [n|]; [|reflexivity].
  rewrite pool_bind_run, pool_execute_run, nth_tl_S.
  destruct (nth 1 fl false); [reflexivity|].
  unfold Pool.query at 1. unfold select_table_ids_numbered. rewrite some_selected.
  destruct (existsb (fun t => tr_table_number t =? n) (restaurant_tables s)); [reflexivity|].
  rewrite pool_bind_run, pool_execute_run, !nth_tl_S.
  destruct (nth 2 fl false); [reflexivity|].
  unfold Pool.query at 1. unfold select_group_id_column.
  change (0 <? List.length ["group_id"%string])%nat with true. cbv iota.
  rewrite pool_bind_run, pool_execute_run, !nth_tl_S.
  destruct (nth 3 fl false); [reflexivity|].
  destruct (insert_table n _ _ _ s c) as [[[id s1] c1]|]; [|reflexivity].
  rewrite pool_bind_run, pool_commit_run, !nth_tl_S.
  destruct (nth 4 fl false); [reflexivity|].
  rewrite pool_bind_run, pool_read_run, !nth_tl_S.
  destruct (nth 5 fl false); reflexivity.
Qed.

Lemma or_null_spec v n : or_null v = Some n <-> v = Some n /\ n <> 0.
Proof.
  unfold or_null. split.
  - destruct v as [[|p|p]|]; intros [= <-]; split; auto; discriminate.
  - intros [-> Hn]. destruct n; [contradiction|reflexivity..].
Qed.

Lemma or_null_none v : or_null v = None <-> v = None \/ v = Some 0.
Proof.
  unfold or_null. split.
  - destruct v as [[|p|p]|]; auto; discriminate.
  - intros [->| ->]; reflexivity.
Qed.

Lemma select_new_table t s c :
  forallb (fun t => tr_id t <? next_table_id c) (restaurant_tables s) = true ->
  tr_id t = next_table_id c ->
  select_table (next_table_id c) (with_restaurant_tables (restaurant_tables s ++ [t]) s)
  = joined s t.
Proof.
  intros Hfresh Hid. unfold select_table. cbn [restaurant_tables with_restaurant_tables].
  rewrite filter_app, filter_nothing.
  - cbn [filter app]. rewrite Hid, Z.eqb_refl. cbn [flat_map]. rewrite app_nil_r. reflexivity.
  - eapply forallb_weaken; [|exact Hfresh]. intros x Hx. apply Z.ltb_lt in Hx.
    apply negb_true_iff, Z.eqb_neq. lia.
Qed.

Lemma in_int_group_spec group :
  match group with Some g => in_int g | None => true end = true <->
  forall g, group = Some g -> in_int g = true.
Proof.
  destruct group as [g|]; split; auto.
  - now intros H g' [= <-].
  - discriminate.
Qed.

Lemma in_int_or_null group :
  (forall g, group = Some g -> in_int g = true) ->
  match or_null group with Some g => in_int g | None => true end = true.
Proof.
  intros H. apply in_int_group_spec. intros g Hg. apply or_null_spec in Hg. now apply H.
Qed.

(** X19.  With no storage fault and ids below the counters, [post_table]
    answers 400 when the number is absent or 0 and when a table of that number
    exists, changing nothing; otherwise, when the columns take the values, it
    adds one table with the next id, the number, the name given or
    [Table <number>], the group given or none, the code [table-<number>], in
    service, and returns it with the name of its group, or Non AC. *)
Theorem post_table_outcomes body s c fl r s' c' :
  Pool.run (post_table body) s c fl = (r, s', c') ->
  no_fault fl = true -> fresh s c = true ->
  ((table_number body = None \/ table_number body = Some 0) ->
     r = Refused 400 "Table number is required." /\ s' = s /\ c' = c) /\
  (forall n, table_number body = Some n -> n <> 0 ->
     (exists t, In t (restaurant_tables s) /\ tr_table_number t = n) ->
     r = Refused 400 ("Table number " ++ show n
                      ++ " already exists. Please choose a different number.") /\
     s' = s /\ c' = c) /\
  (forall n, table_number body = Some n -> n <> 0 ->
     (forall t, In t (restaurant_tables s) -> tr_table_number t <> n) ->
     in_int n = true -> (forall g, group_id body = Some g -> in_int g = true) ->
     fits 100 (name_or_default (table_name body) n) = true ->
     let t := {| tr_id := next_table_id c; tr_table_number := n;
                 tr_table_name := name_or_default (table_name body) n;
                 tr_group_id := or_null (group_id body);
                 tr_qr_code_data := Some ("table-" ++ show n)%string;
                 tr_is_active := true |} in
     (exists v, r = Done None (Some v) /\ tv_table v = t /\ listed_as (table_groups s) v) /\
     s' = with_restaurant_tables (restaurant_tables s ++ [t]) s /\
     next_table_id c' = next_table_id c + 1).
Proof.
  intros H Hnf Hfresh. rewrite post_table_run in H.
  rewrite !(no_fault_nth fl _ Hnf) in H.
  unfold fresh in Hfresh. rewrite !andb_true_iff in Hfresh. destruct Hfresh as [[_ Hfresh] _].
  split; [|split].
  - intros Hnone. apply or_null_none in Hnone. rewrite Hnone in H. now injection H as <- <- <-.
  - intros n Hnum Hn (t & Hin & Ht).
    rewrite (proj2 (or_null_spec _ _) (conj Hnum Hn)) in H.
    assert (Hdup : existsb (fun t => tr_table_number t =? n) (restaurant_tables s) = true)
      by (apply existsb_exists; exists t; split; [exact Hin|now apply Z.eqb_eq]).
    rewrite Hdup in H. now injection H as <- <- <-.
  - intros n Hnum Hn Hnone Hint Hgroup Hfits t.
    rewrite (proj2 (or_null_spec _ _) (conj Hnum Hn)) in H.
    assert (Hno : existsb (fun t => tr_table_number t =? n) (restaurant_tables s) = false).
    { apply existsb_none. intros x Hx. apply Z.eqb_neq. now apply Hnone. }
    rewrite Hno, insert_table_spec, Hno, Hint, Hfits, (in_int_or_null _ Hgroup) in H.
    cbn [andb negb] in H. cbv zeta in H. fold t in H.
    rewrite (select_new_table t s c Hfresh eq_refl) in H.
    destruct (joined_first s t) as (v & Hhd & Hv). rewrite Hhd in H.
    injection H as <- <- <-. apply joined_rows in Hv. destruct Hv as [Hvt Hv].
    split; [exists v; auto|]. split; reflexivity.
Qed.

(** X20.  For a request [post_table] would serve, a failure of any of its
    statements up to and including the commit leaves the tables as they were,
    but a failure of the statement that reads the new table back, which comes
    after the commit, leaves the table added although the answer is 500. *)
Theorem post_table_faults body n s c fl r s' c' :
  Pool.run (post_table body) s c fl = (r, s', c') ->
  table_number body = Some n -> n <> 0 ->
  (forall t, In t (restaurant_tables s) -> tr_table_number t <> n) ->
  in_int n = true -> (forall g, group_id body = Some g -> in_int g = true) ->
  fits 100 (name_or_default (table_name body) n) = true ->
  ((exists k, (k < 5)%nat /\ nth k fl false = true) ->
     r = Refused 500 "Failed to create table" /\ s' = s) /\
  ((forall k, (k < 5)%nat -> nth k fl false = false) -> nth 5 fl false = true ->
     r = Refused 500 "Failed to create table" /\
     s' = with_restaurant_tables
            (restaurant_tables s ++
             [{| tr_id := next_table_id c; tr_table_number := n;
                 tr_table_name := name_or_default (table_name body) n;
                 tr_group_id := or_null (group_id body);
                 tr_qr_code_data := Some ("table-" ++ show n)%string;
                 tr_is_active := true |}]) s).
Proof.
  intros H Hnum Hn Hnone Hint Hgroup Hfits. rewrite post_table_run in H.
  rewrite (proj2 (or_null_spec _ _) (conj Hnum Hn)) in H.
  assert (Hno : existsb (fun t => tr_table_number t =? n) (restaurant_tables s) = false).
  { apply existsb_none. intros x Hx. apply Z.eqb_neq. now apply Hnone. }
  rewrite Hno, insert_table_spec, Hno, Hint, Hfits, (in_int_or_null _ Hgroup) in H.
  cbn [andb negb] in H. cbv zeta in H.
  split.
  - intros (k & Hk & Hfault).
    assert (Hsome : nth 0 fl false || nth 1 fl false || nth 2 fl false || nth 3 fl false
                    || nth 4 fl false = true).
    { destruct k as [|[|[|[|[|k]]]]]; try lia; rewrite Hfault;
        rewrite ?orb_true_r; reflexivity. }
    destruct (nth 0 fl false); [now injection H as <- <- <-|].
    destruct (nth 1 fl false); [now injection H as <- <- <-|].
    destruct (nth 2 fl false); [now injection H as <- <- <-|].
    destruct (nth 3 fl false); [now injection H as <- <- <-|].
    destruct (nth 4 fl false); [now injection H as <- <- <-|].
    discriminate.
  - intros Hfine Hlast.
    rewrite (Hfine 0%nat), (Hfine 1%nat), (Hfine 2%nat), (Hfine 3%nat), (Hfine 4%nat), Hlast in H
      by lia.
    now injection H as <- <- <-.
Qed.

(** X21.  A table [post_table] has just added is what [get_table] then
    returns for its number: with no storage fault, the answer of the second
    request is the answer of the first. *)
Theorem posted_table_is_found body n s c fl r s1 c1 fl' :
  Pool.run (post_table body) s c fl = (r, s1, c1) ->
  no_fault fl = true -> fresh s c = true ->
  table_number body = Some n ->
  (exists v, r = Done None (Some v)) ->
  nth 0 fl' false = false ->
  Pool.run (get_table n) s1 c1 fl' = (r, s1, c1).
Proof.
  intros H Hnf Hfresh Hnum (v & Hr) Hf'. rewrite post_table_run in H.
  rewrite !(no_fault_nth fl _ Hnf) in H.
  unfold fresh in Hfresh. rewrite !andb_true_iff in Hfresh. destruct Hfresh as [[_ Hfresh] _].
  destruct (or_null (table_number body)) as [m|] eqn:Hm;
    [|injection H as <- _ _; discriminate].
  apply or_null_spec in Hm. destruct Hm as [Hm _]. rewrite Hnum in Hm. injection Hm as <-.
  destruct (existsb (fun t => tr_table_number t =? n) (restaurant_tables s)) eqn:Hno;
    [injection H as <- _ _; discriminate|].
  rewrite insert_table_spec, Hno in H.
  destruct (in_int n && _ && _ && negb false); [|injection H as <- _ _; discriminate].
  cbv beta iota zeta in H.
  match type of H with
  | context [restaurant_tables s ++ [?row]] => set (t := row) in *
  end.
  rewrite (select_new_table t s c Hfresh eq_refl) in H. injection H as <- <- <-.
  unfold get_table. rewrite pool_run_simple. unfold Pool.try_else.
  rewrite pool_bind_run, pool_read_run, Hf'.
  cbn [Pool.ret Pool.durable Pool.sequences]. f_equal. f_equal.
  unfold select_table_numbered. cbn [restaurant_tables with_restaurant_tables].
  rewrite filter_app, filter_nothing.
  - cbn [filter app]. replace (tr_table_number t =? n) with true
      by (symmetry; apply Z.eqb_refl).
    cbn [flat_map]. rewrite app_nil_r.
    change (joined (with_restaurant_tables (restaurant_tables s ++ [t]) s) t)
      with (joined s t).
    destruct (joined s t) as [|x xs]; [discriminate|reflexivity].
  - apply forallb_forall. intros x Hx.
    now rewrite (proj1 (existsb_none _ _) Hno x Hx).
Qed.

(** ** Dishes *)

Lemma hit_and {A} (key : A -> Z) (g : Z -> bool) id l :
  existsb (fun x => (key x =? id) && g (key x)) l
  = existsb (fun x => key x =? id) l && g id.
Proof.
  induction l as [|x l IH]; cbn; [reflexivity|]. rewrite IH.
  destruct (key x =? id) eqn:E; cbn; [|reflexivity].
  apply Z.eqb_eq in E. rewrite E. destruct (g id); cbn; [reflexivity|apply andb_false_r].
Qed.

(** What one [delete_menu_item] does when none of its statements is failed. *)
Lemma delete_menu_item_run id s c fl :
  no_fault fl = true ->
  Pool.run (delete_menu_item id) s c fl =
  if existsb (fun r => oi_menu_item_id r =? id) (order_items s)
  then (Refused 400 "Cannot delete menu item that has been used in orders", s, c)
  else if existsb (fun d => dish_id d =? id) (menu_items s) then
    if existsb (fun r => rec_menu_item_id r =? id) (recipe_items s)
    then (Refused 500 "Failed to delete menu item", s, c)
    else (Done (Some "Menu item deleted successfully") None,
          with_menu_items (filter (fun d => negb (dish_id d =? id)) (menu_items s)) s, c)
  else (Refused 404 "Menu item not found", s, c).
Proof.
  intros Hnf. unfold delete_menu_item. rewrite pool_run_simple.
  rewrite pool_bind_run, pool_read_run, (no_fault_nth fl 0 Hnf).
  unfold count_order_items_of. rewrite affected_positive.
  destruct (existsb (fun r => oi_menu_item_id r =? id) (order_items s)) eqn:Hordered;
    [reflexivity|].
  rewrite pool_bind_run, pool_execute_run, nth_tl_S, (no_fault_nth fl 1 Hnf).
  unfold delete_dishes. rewrite (hit_and dish_id (dish_referenced s)).
  unfold dish_referenced. rewrite Hordered. cbn [orb].
  destruct (existsb (fun d => dish_id d =? id) (menu_items s)) eqn:Hid; cbn [andb].
  - destruct (existsb (fun r => rec_menu_item_id r =? id) (recipe_items s)); [reflexivity|].
    rewrite affected_zero, Hid. reflexivity.
  - rewrite affected_zero, Hid. cbn [negb Pool.ret].
    rewrite filter_none_hit by exact Hid. now destruct s.
Qed.

(** X22.  With no storage fault, [delete_menu_item] refuses with 400 a dish an
    order item names, answers 404 for an id that no order item and no dish
    has, answers 500 for a dish that only a recipe names, and otherwise
    removes the dish; in the first three cases nothing changes. *)
Theorem delete_menu_item_outcomes id s c fl r s' c' :
  Pool.run (delete_menu_item id) s c fl = (r, s', c') ->
  no_fault fl = true ->
  c' = c /\
  ((exists i, In i (order_items s) /\ oi_menu_item_id i = id) ->
     r = Refused 400 "Cannot delete menu item that has been used in orders" /\ s' = s) /\
  ((forall i, In i (order_items s) -> oi_menu_item_id i <> id) ->
     (forall d, In d (menu_items s) -> dish_id d <> id) ->
     r = Refused 404 "Menu item not found" /\ s' = s) /\
  ((forall i, In i (order_items s) -> oi_menu_item_id i <> id) ->
     (exists d, In d (menu_items s) /\ dish_id d = id) ->
     (exists x, In x (recipe_items s) /\ rec_menu_item_id x = id) ->
     r = Refused 500 "Failed to delete menu item" /\ s' = s) /\
  ((forall i, In i (order_items s) -> oi_menu_item_id i <> id) ->
     (exists d, In d (menu_items s) /\ dish_id d = id) ->
     (forall x, In x (recipe_items s) -> rec_menu_item_id x <> id) ->
     r = Done (Some "Menu item deleted successfully") None /\
     s' = with_menu_items (filter (fun d => negb (dish_id d =? id)) (menu_items s)) s).
Proof.
  intros H Hnf. rewrite delete_menu_item_run in H by exact Hnf.
  pose proof (has_id_spec oi_menu_item_id id (order_items s) _ eq_refl) as Ho.
  pose proof (has_id_spec dish_id id (menu_items s) _ eq_refl) as Hd.
  pose proof (has_id_spec rec_menu_item_id id (recipe_items s) _ eq_refl) as Hr.
  destruct (existsb (fun r => oi_menu_item_id r =? id) (order_items s)).
  - destruct Ho as (i & Hin & Hi). injection H as <- <- <-.
    split; [reflexivity|]. split; [now intros|].
    split; [|split]; intros Hno; now destruct (Hno i Hin).
  - destruct (existsb (fun d => dish_id d =? id) (menu_items s)).
    + destruct Hd as (d & Hin & Hdid).
      destruct (existsb (fun r => rec_menu_item_id r =? id) (recipe_items s));
        injection H as <- <- <-; (split; [reflexivity|]).
      * destruct Hr as (x & Hx & Hxid).
        split; [intros (i & Hi & Hiid); now destruct (Ho i Hi)|].
        split; [intros _ Hno; now destruct (Hno d Hin)|].
        split; [now intros|].
        intros _ _ Hno. now destruct (Hno x Hx).
      * split; [intros (i & Hi & Hiid); now destruct (Ho i Hi)|].
        split; [intros _ Hno; now destruct (Hno d Hin)|].
        split; [|now intros].
        intros _ _ (x & Hx & Hxid). now destruct (Hr x Hx).
    + injection H as <- <- <-. split; [reflexivity|].
      split; [intros (i & Hi & Hiid); now destruct (Ho i Hi)|].
      split; [now intros|].
      split; intros _ (d & Hin & Hdid); now destruct (Hd d Hin).
Qed.

(** ** Categories *)

Lemma one_selected {A B} (f : A -> bool) (g : A -> B) l :
  (0 <? List.length (firstn 1 (map g (filter f l))))%nat = existsb f l.
Proof.
  rewrite <- (some_selected f g). now destruct (map g (filter f l)).
Qed.

(** What one [post_category] does when none of its statements is failed. *)
Lemma post_category_run name s c fl :
  no_fault fl = true ->
  Pool.run (post_category name) s c fl =
  match required_name name with
  | None => (Refused 400 "Category name is required", s, c)
  | Some n =>
      if existsb (in_category n) (menu_items s)
      then (Refused 400 "Category already exists", s, c)
      else if fits 100 n
      then (Done (Some "Category created successfully") (Some n),
            with_menu_items (menu_items s ++ [placeholder_row (next_menu_item_id c) n]) s,
            {| next_group_id := next_group_id c; next_table_id := next_table_id c;
               next_menu_item_id := next_menu_item_id c + 1 |})
      else (Refused 500 "Failed to create category", s, c)
  end.
Proof.
  intros Hnf. unfold post_category. rewrite pool_run_simple.
  destruct (required_name name) as [n|]; [|reflexivity].
  rewrite pool_bind_run, pool_read_run, (no_fault_nth fl 0 Hnf).
  unfold select_category. rewrite one_selected.
  destruct (existsb (in_category n) (menu_items s)); [reflexivity|].
  rewrite pool_bind_run, pool_execute_run, nth_tl_S, (no_fault_nth fl 1 Hnf).
  unfold insert_placeholder. destruct (fits 100 n); reflexivity.
Qed.

(** X23.  With no storage fault, [post_category] answers 400 for an absent or
    blank name and for a category that some dish, a placeholder included,
    already has for the collation; otherwise, when the column takes the name,
    it adds one dish, the placeholder of the trimmed category, not available
    and at price 0, and returns the trimmed name. *)
Theorem post_category_outcomes name s c fl r s' c' :
  Pool.run (post_category name) s c fl = (r, s', c') ->
  no_fault fl = true ->
  ((name = None \/ exists text, name = Some text /\ trim text = "") ->
     r = Refused 400 "Category name is required" /\ s' = s /\ c' = c) /\
  (forall text, name = Some text -> trim text <> "" ->
     (exists d cat, In d (menu_items s) /\ dish_category d = Some cat
                    /\ same cat (trim text) = true) ->
     r = Refused 400 "Category already exists" /\ s' = s /\ c' = c) /\
  (forall text, name = Some text -> trim text <> "" ->
     (forall d cat, In d (menu_items s) -> dish_category d = Some cat ->
                    same cat (trim text) = false) ->
     fits 100 (trim text) = true ->
     r = Done (Some "Category created successfully") (Some (trim text)) /\
     s' = with_menu_items
            (menu_items s ++ [placeholder_row (next_menu_item_id c) (trim text)]) s /\
     next_menu_item_id c' = next_menu_item_id c + 1).
Proof.
  intros H Hnf. rewrite post_category_run in H by exact Hnf.
  split; [|split].
  - intros Hblank. apply required_name_none in Hblank. rewrite Hblank in H.
    now injection H as <- <- <-.
  - intros text Hname Hne (d & cat & Hin & Hcat & Hsame).
    rewrite (proj2 (required_name_spec name (trim text))) in H by (now exists text).
    assert (Hdup : existsb (in_category (trim text)) (menu_items s) = true).
    { apply existsb_exists. exists d. split; [exact Hin|]. unfold in_category. now rewrite Hcat. }
    rewrite Hdup in H. now injection H as <- <- <-.
  - intros text Hname Hne Hnone Hfits.
    rewrite (proj2 (required_name_spec name (trim text))) in H by (now exists text).
    assert (Hno : existsb (in_category (trim text)) (menu_items s) = false).
    { apply existsb_none. intros d Hin. unfold in_category.
      destruct (dish_category d) as [cat|] eqn:Hcat; [|reflexivity]. now apply (Hnone d). }
    rewrite Hno, Hfits in H. now injection H as <- <- <-.
Qed.

(** What one [delete_category] does when none of its statements is failed. *)
Lemma delete_category_run name s c fl :
  no_fault fl = true ->
  Pool.run (delete_category name) s c fl =
  match decodeURIComponent name with
  | None => (Refused 500 "Failed to delete category", s, c)
  | Some cat =>
      if 0 <? count_dishes_in_category cat s
      then (Refused 400 ("Cannot delete category. " ++ show (count_dishes_in_category cat s)
                         ++ " item(s) are using this category."), s, c)
      else
        let doomed d := in_category cat d && same (dish_name d) placeholder in
        if existsb (fun d => doomed d && dish_referenced s (dish_id d)) (menu_items s)
        then (Refused 500 "Failed to delete category", s, c)
        else (Done (Some "Category deleted successfully") None,
              with_menu_items (filter (fun d => negb (doomed d)) (menu_items s)) s, c)
  end.
Proof.
  intros Hnf. unfold delete_category. rewrite pool_run_simple.
  rewrite pool_bind_run. unfold decoded at 1.
  destruct (decodeURIComponent name) as [cat|]; [|reflexivity].
  rewrite pool_bind_run, pool_read_run, (no_fault_nth fl 0 Hnf).
  destruct (0 <? count_dishes_in_category cat s); [reflexivity|].
  rewrite pool_bind_run, pool_execute_run, nth_tl_S, (no_fault_nth fl 1 Hnf).
  unfold delete_dishes. cbv zeta.
  destruct (existsb _ (menu_items s)); reflexivity.
Qed.

Lemma fresh_dish_unreferenced s c :
  fresh s c = true -> references_hold s = true ->
  dish_referenced s (next_menu_item_id c) = false.
Proof.
  unfold fresh, references_hold, dish_referenced. rewrite !andb_true_iff.
  intros [_ Hfresh] [[Hitems Hrecipes] _].
  rewrite forallb_forall in Hfresh, Hitems, Hrecipes.
  assert (Hnew : has_dish s (next_menu_item_id c) = false).
  { apply existsb_none. intros d Hd. specialize (Hfresh d Hd). apply Z.ltb_lt in Hfresh.
    apply Z.eqb_neq. lia. }
  apply orb_false_iff. split; apply existsb_none; intros r Hr.
  - specialize (Hitems r Hr). apply Z.eqb_neq. intros Heq. rewrite Heq in Hitems. congruence.
  - specialize (Hrecipes r Hr). apply andb_true_iff in Hrecipes. destruct Hrecipes as [Hdish _].
    apply Z.eqb_neq. intros Heq. rewrite Heq in Hdish. congruence.
Qed.

Lemma with_menu_items_back rows s :
  with_menu_items (menu_items s) (with_menu_items rows s) = s.
Proof. now destruct s. Qed.

(** X24.  A category that [post_category] has just created, and whose name
    has no percent sign, is deleted again by [delete_category], and the tables
    are then what they were before the two requests: on tables whose foreign
    keys hold and whose ids lie below the counters, with no storage fault. *)
Theorem category_round_trip text s c fl r1 s1 c1 fl' :
  Pool.run (post_category (Some text)) s c fl = (r1, s1, c1) ->
  (exists m, r1 = Done m (Some (trim text))) ->
  no_fault fl = true -> no_fault fl' = true ->
  fresh s c = true -> references_hold s = true ->
  free_of "%" (trim text) = true ->
  Pool.run (delete_category (trim text)) s1 c1 fl'
  = (Done (Some "Category deleted successfully") None, s, c1).
Proof.
  intros H (m & Hr1) Hnf Hnf' Hfresh Hrefs Hplain.
  rewrite post_category_run in H by exact Hnf.
  destruct (required_name (Some text)) as [n|] eqn:Hreq;
    [|injection H as <- _ _; discriminate].
  apply required_name_spec in Hreq. destruct Hreq as (text0 & [= <-] & -> & Hne).
  destruct (existsb (in_category (trim text)) (menu_items s)) eqn:Hnew;
    [injection H as <- _ _; discriminate|].
  destruct (fits 100 (trim text)); [|injection H as <- _ _; discriminate].
  injection H as _ <- <-.
  rewrite delete_category_run by exact Hnf'.
  rewrite (decodeURIComponent_plain _ Hplain).
  set (ph := placeholder_row (next_menu_item_id c) (trim text)).
  assert (Hph : in_category (trim text) ph && same (dish_name ph) placeholder = true).
  { unfold in_category. cbn. now rewrite !same_refl. }
  unfold count_dishes_in_category. rewrite affected_positive.
  cbn [menu_items with_menu_items].
  assert (Hreal : existsb (fun d => in_category (trim text) d
                                    && negb (same (dish_name d) placeholder))
                    (menu_items s ++ [ph]) = false).
  { rewrite existsb_app. apply orb_false_iff. split.
    - apply existsb_none. intros d Hd.
      now rewrite (proj1 (existsb_none _ _) Hnew d Hd).
    - cbn [existsb]. apply andb_true_iff in Hph. destruct Hph as [_ Hname].
      rewrite Hname. cbn. now rewrite andb_false_r. }
  rewrite Hreal. cbv zeta.
  assert (Hfree : existsb (fun d => in_category (trim text) d && same (dish_name d) placeholder
                                    && dish_referenced (with_menu_items (menu_items s ++ [ph]) s)
                                         (dish_id d))
                    (menu_items s ++ [ph]) = false).
  { rewrite existsb_app. apply orb_false_iff. split.
    - apply existsb_none. intros d Hd.
      now rewrite (proj1 (existsb_none _ _) Hnew d Hd).
    - cbn [existsb]. rewrite orb_false_r. apply andb_false_iff. right.
      exact (fresh_dish_unreferenced s c Hfresh Hrefs). }
  rewrite Hfree. f_equal. f_equal.
  rewrite filter_app. cbn [filter]. rewrite Hph. cbn [negb]. rewrite app_nil_r.
  rewrite filter_everything.
  - apply with_menu_items_back.
  - apply forallb_forall. intros d Hd.
    now rewrite (proj1 (existsb_none _ _) Hnew d Hd).
Qed.

(** A percent sign that no two hexadecimal digits follow makes the decoding
    fail. *)
Lemma decode_stray l rest fuel :
  forallb (fun c => negb (Ascii.eqb c "%")) l = true ->
  escape ("%"%char :: rest) = None ->
  decode fuel (l ++ "%"%char :: rest) = None.
Proof.
  intros Hl Hrest. revert l Hl.
  induction fuel as [|fuel IH]; intros [|c l] Hl; cbn [app decode]; try reflexivity.
  - now rewrite Hrest.
  - cbn [forallb] in Hl. apply andb_true_iff in Hl. destruct Hl as [Hc Hl].
    apply negb_true_iff in Hc. rewrite (IH l Hl).
    destruct c as [[] [] [] [] [] [] [] []]; try discriminate Hc; reflexivity.
Qed.

Lemma list_ascii_app a b :
  list_ascii_of_string (a ++ b) = list_ascii_of_string a ++ list_ascii_of_string b.
Proof. induction a as [|x a IH]; cbn; [reflexivity|]. now rewrite IH. Qed.

(** A percent sign written as its escape decodes to the sign. *)
Lemma decode_escaped_percent fuel : forall l rest,
  (List.length l + 1 + List.length rest <= fuel)%nat ->
  forallb (fun c => negb (Ascii.eqb c "%")) l = true ->
  forallb (fun c => negb (Ascii.eqb c "%")) rest = true ->
  decode fuel (l ++ "%"%char :: "2"%char :: "5"%char :: rest) = Some (l ++ "%"%char :: rest).
Proof.
  induction fuel as [|fuel IH]; intros l rest Hlen Hl Hrest; [lia|].
  destruct l as [|c l].
  - cbn [app List.length] in *. cbn [decode].
    change (escape ("%"%char :: "2"%char :: "5"%char :: rest)) with (Some (37%nat, rest)).
    change (37 <? 128)%nat with true. cbv iota beta.
    rewrite decode_plain by (exact Hrest || lia). reflexivity.
  - cbn [forallb] in Hl. apply andb_true_iff in Hl. destruct Hl as [Hc Hl].
    apply negb_true_iff in Hc. cbn [app List.length] in *. cbn [decode].
    rewrite (IH l rest) by (assumption || lia).
    destruct c as [[] [] [] [] [] [] [] []]; try discriminate Hc; reflexivity.
Qed.

(** X25.  When the name [delete_category] is handed has a percent sign that
    two hexadecimal digits do not follow, as in [50% off], the decoding of the
    name throws on the first such sign and the route answers 500 without
    sending a statement, whatever the tables are: a category of that name is
    not deleted by the request that names it as it is.  The name with the sign
    written [%25] decodes to it. *)
Theorem delete_category_stray_percent before after s c fl :
  free_of "%" before = true ->
  escape (list_ascii_of_string ("%" ++ after)) = None ->
  Pool.run (delete_category (before ++ "%" ++ after)) s c fl
  = (Refused 500 "Failed to delete category", s, c) /\
  (free_of "%" after = true ->
   decodeURIComponent (before ++ "%25" ++ after) = Some (before ++ "%" ++ after)%string).
Proof.
  intros Hbefore Hafter. split.
  - assert (Hdec : decodeURIComponent (before ++ "%" ++ after) = None).
    { unfold decodeURIComponent. rewrite list_ascii_app.
      cbn [list_ascii_of_string append] in *.
      rewrite decode_stray; [reflexivity| |exact Hafter].
      now rewrite <- free_of_forallb. }
    unfold delete_category. rewrite pool_run_simple, pool_bind_run. unfold decoded at 1.
    now rewrite Hdec.
  - intros Hplain. unfold decodeURIComponent. rewrite !list_ascii_app.
    cbn [list_ascii_of_string append app].
    rewrite decode_escaped_percent.
    + cbn [option_map]. f_equal.
      transitivity (string_of_list_ascii (list_ascii_of_string (before ++ "%" ++ after)));
        [|apply string_of_list_ascii_of_string].
      f_equal. rewrite list_ascii_app. reflexivity.
    + rewrite <- !length_list_ascii, list_ascii_app, length_app. cbn [list_ascii_of_string List.length].
      lia.
    + now rewrite <- free_of_forallb.
    + now rewrite <- free_of_forallb.
Qed.

(** ** Ingredients *)

Lemma none_left {A} (f : A -> bool) l : existsb f (filter (fun x => negb (f x)) l) = false.
Proof.
  apply existsb_none. intros x Hx. apply filter_In in Hx. destruct Hx as [_ Hx].
  now apply negb_true_iff.
Qed.

(** The tables without an ingredient and the rows that name it. *)
Lemma delete_ingredient_run id s c fl :
  Pool.run (delete_ingredient id) s c fl =
  if nth 0 fl false || nth 1 fl false || nth 2 fl false || nth 3 fl false || nth 4 fl false
  then (Refused 500 "Failed to delete ingredient", s, c)
  else (Done (Some "Ingredient deleted successfully") None,
        with_ingredients (filter (fun i => negb (ing_id i =? id)) (ingredients s))
          (with_waste_log (filter (fun r => negb (waste_ingredient_id r =? id)) (waste_log s))
             (with_recipe_items
                (filter (fun r => negb (rec_ingredient_id r =? id)) (recipe_items s)) s)),
        c).
Proof.
  unfold delete_ingredient. rewrite pool_run_transaction.
  rewrite pool_bind_run, pool_beginTransaction_run.
  destruct (nth 0 fl false); [reflexivity|]. cbn [orb].
  rewrite pool_bind_run, pool_execute_run, !nth_tl_S.
  destruct (nth 1 fl false); [reflexivity|]. cbn [orb].
  unfold delete_recipe_items_of at 1.
  rewrite pool_bind_run, pool_execute_run, !nth_tl_S.
  destruct (nth 2 fl false); [reflexivity|]. cbn [orb].
  unfold delete_waste_of at 1.
  rewrite pool_bind_run, pool_execute_run, !nth_tl_S.
  destruct (nth 3 fl false); [reflexivity|]. cbn [orb].
  unfold delete_ingredient_row at 1.
  cbn [recipe_items waste_log ingredients with_waste_log with_recipe_items].
  rewrite !none_left, andb_false_r.
  rewrite pool_bind_run, pool_commit_run, !nth_tl_S.
  destruct (nth 4 fl false); reflexivity.
Qed.

(** X26.  [delete_ingredient] is all or nothing.  When one of its five
    statements fails, the beginning of the transaction and the commit
    included, it answers 500 and the tables are what they were.  When none
    fails it answers with success, whether an ingredient of that id exists or
    not, and the ingredient, the recipe rows and the waste rows that name it
    are gone, everything else being as before. *)
Theorem delete_ingredient_all_or_nothing id s c fl r s' c' :
  Pool.run (delete_ingredient id) s c fl = (r, s', c') ->
  c' = c /\
  ((exists k, (k < 5)%nat /\ nth k fl false = true) ->
     r = Refused 500 "Failed to delete ingredient" /\ s' = s) /\
  ((forall k, (k < 5)%nat -> nth k fl false = false) ->
     r = Done (Some "Ingredient deleted successfully") None /\
     (forall i, In i (ingredients s') <-> In i (ingredients s) /\ ing_id i <> id) /\
     (forall x, In x (recipe_items s') <-> In x (recipe_items s) /\ rec_ingredient_id x <> id) /\
     (forall x, In x (waste_log s') <-> In x (waste_log s) /\ waste_ingredient_id x <> id) /\
     table_groups s' = table_groups s /\ restaurant_tables s' = restaurant_tables s /\
     menu_items s' = menu_items s /\ orders s' = orders s /\ order_items s' = order_items s).
Proof.
  intros H. rewrite delete_ingredient_run in H.
  destruct (nth 0 fl false || nth 1 fl false || nth 2 fl false || nth 3 fl false
            || nth 4 fl false) eqn:Hany; injection H as <- <- <-; (split; [reflexivity|]).
  - split; [now intros|]. intros Hfine.
    rewrite (Hfine 0%nat), (Hfine 1%nat), (Hfine 2%nat), (Hfine 3%nat), (Hfine 4%nat) in Hany
      by lia.
    discriminate.
  - split.
    + intros (k & Hk & Hfault).
      destruct k as [|[|[|[|[|k]]]]]; try lia; rewrite Hfault in Hany;
        rewrite ?orb_true_r in Hany; discriminate.
    + intros _. split; [reflexivity|].
      cbn [ingredients recipe_items waste_log table_groups restaurant_tables menu_items
           orders order_items with_ingredients with_waste_log with_recipe_items].
      split; [|split; [|split]].
      * intros i. rewrite filter_In, negb_true_iff, Z.eqb_neq. reflexivity.
      * intros x. rewrite filter_In, negb_true_iff, Z.eqb_neq. reflexivity.
      * intros x. rewrite filter_In, negb_true_iff, Z.eqb_neq. reflexivity.
      * repeat split.
Qed.

Lemma filter_other {A} (key : A -> Z) id id' l :
  id' <> id ->
  filter (fun x => key x =? id') (filter (fun x => negb (key x =? id)) l)
  = filter (fun x => key x =? id') l.
Proof.
  intros Hne. induction l as [|x l IH]; cbn; [reflexivity|].
  destruct (key x =? id) eqn:E; cbn.
  - apply Z.eqb_eq in E. rewrite E. now rewrite (proj2 (Z.eqb_neq id id')) by auto.
  - now rewrite IH.
Qed.

Lemma filter_same {A} (key : A -> Z) id l :
  filter (fun x => key x =? id) (filter (fun x => negb (key x =? id)) l) = [].
Proof.
  apply filter_nothing, forallb_forall. intros x Hx. apply filter_In in Hx. tauto.
Qed.

Lemma get_menu_item_run id s c fl :
  nth 0 fl false = false ->
  Pool.run (get_menu_item id) s c fl =
  (match select_dish id s with
   | [] => Refused 404 "Menu item not found"
   | row :: _ => Done None (Some row)
   end, s, c).
Proof.
  intros Hf. unfold get_menu_item. rewrite pool_run_simple, pool_bind_run, pool_read_run, Hf.
  now destruct (select_dish id s).
Qed.

(** X28.  A dish [delete_menu_item] has deleted is gone: with no storage
    fault, once the route has answered with success, [get_menu_item] answers
    404 for that id, and answers for every other id what it answered before
    the deletion. *)
Theorem deleted_dish_is_gone id s c fl m data s' c' fl' :
  Pool.run (delete_menu_item id) s c fl = (Done m data, s', c') ->
  no_fault fl = true -> nth 0 fl' false = false ->
  Pool.run (get_menu_item id) s' c' fl' = (Refused 404 "Menu item not found", s', c') /\
  forall other, other <> id ->
    fst (fst (Pool.run (get_menu_item other) s' c' fl'))
    = fst (fst (Pool.run (get_menu_item other) s c fl')).
Proof.
  intros H Hnf Hf. rewrite delete_menu_item_run in H by exact Hnf.
  destruct (existsb (fun r => oi_menu_item_id r =? id) (order_items s)); [discriminate|].
  destruct (existsb (fun d => dish_id d =? id) (menu_items s)); [|discriminate].
  destruct (existsb (fun r => rec_menu_item_id r =? id) (recipe_items s)); [discriminate|].
  injection H as _ _ <- <-. split.
  - rewrite get_menu_item_run by exact Hf. unfold select_dish.
    cbn [menu_items with_menu_items]. now rewrite filter_same.
  - intros other Hother. rewrite !get_menu_item_run by exact Hf. unfold select_dish.
    cbn [menu_items with_menu_items fst]. now rewrite filter_other.
Qed.

End CatalogueFacts.


(** ** What the catalogue routes keep *)

Section PoolKeeping.

Context {T C : Type}.
Variable P : T -> Prop.

Lemma pool_kept_next_fault (w : Pool.session T C) :
  pool_kept P w -> pool_kept P (snd (Pool.next_fault w)).
Proof. unfold Pool.next_fault. now destruct (Pool.schedule w). Qed.

Lemma pool_keeps_ret {A} (a : A) : pool_keeps P (@Pool.ret T C A a).
Proof. intros w H. exact H. Qed.

Lemma pool_keeps_bind {A B} (m : Pool.M T C A) (k : A -> Pool.M T C B) :
  pool_keeps P m -> (forall a, pool_keeps P (k a)) -> pool_keeps P (Pool.bind m k).
Proof.
  intros Hm Hk w H. unfold Pool.bind. specialize (Hm w H).
  destruct (m w) as [[a|] w']; [now apply Hk|exact Hm].
Qed.

Lemma pool_keeps_execute {A} (stmt : T -> C -> option (A * T * C)) :
  pool_statement_keeps P stmt -> pool_keeps P (Pool.execute stmt).
Proof.
  intros Hs w H. unfold Pool.execute.
  pose proof (pool_kept_next_fault w H) as H1.
  destruct (Pool.next_fault w) as [failed w1]. cbn [snd] in H1.
  destruct failed; [exact H1|].
  destruct (stmt (Pool.view w1) (Pool.sequences w1)) as [[[a s] c]|] eqn:E; [|exact H1].
  cbn [snd]. destruct H1 as [Hc Hp]. unfold Pool.write_back, Pool.view in *.
  destruct (Pool.uncommitted w1) as [s0|]; split; cbn; auto; eapply Hs; eauto.
Qed.

Lemma pool_keeps_query {A} (q : T -> A) : pool_keeps P (Pool.execute (@Pool.query T C A q)).
Proof. apply pool_keeps_execute. intros s c a s' c' [= _ <- _]. auto. Qed.

Lemma pool_keeps_beginTransaction : pool_keeps P (@Pool.beginTransaction T C).
Proof.
  intros w H. unfold Pool.beginTransaction.
  pose proof (pool_kept_next_fault w H) as H1.
  destruct (Pool.next_fault w) as [failed w1]. cbn [snd] in H1.
  destruct failed; [exact H1|]. destruct H1 as [Hc Hp]. unfold Pool.view.
  split; cbn; [exact Hc|]. now destruct (Pool.uncommitted w1).
Qed.

Lemma pool_keeps_commit : pool_keeps P (@Pool.commit T C).
Proof.
  intros w H. unfold Pool.commit.
  pose proof (pool_kept_next_fault w H) as H1.
  destruct (Pool.next_fault w) as [failed w1]. cbn [snd] in H1.
  destruct failed; [exact H1|]. destruct H1 as [Hc Hp]. unfold Pool.view.
  split; cbn; [|exact I]. now destruct (Pool.uncommitted w1).
Qed.

Lemma pool_keeps_rollback : pool_keeps P (@Pool.rollback T C).
Proof. intros w [Hc _]. split; [exact Hc|exact I]. Qed.

Lemma pool_keeps_release : pool_keeps P (@Pool.release T C).
Proof. intros w H. exact H. Qed.

Lemma pool_keeps_lift {A} (t : Pool.total T C A) : pool_keeps P t -> pool_keeps P (Pool.lift t).
Proof. intros Ht w H. unfold Pool.lift. specialize (Ht w H). now destruct (t w). Qed.

Lemma pool_keeps_try_catch {A} (body : Pool.M T C A) (handler : Pool.total T C A) :
  pool_keeps P body -> pool_keeps P handler -> pool_keeps P (Pool.try_catch body handler).
Proof.
  intros Hb Hh w H. unfold Pool.try_catch. specialize (Hb w H).
  destruct (body w) as [[a|] w']; [exact Hb|now apply Hh].
Qed.

Lemma pool_keeps_try_else {A} (body handler : Pool.M T C A) :
  pool_keeps P body -> pool_keeps P handler -> pool_keeps P (Pool.try_else body handler).
Proof.
  intros Hb Hh w H. unfold Pool.try_else. specialize (Hb w H).
  destruct (body w) as [[a|] w']; [exact Hb|now apply Hh].
Qed.

Lemma pool_keeps_finally {A} (body : Pool.total T C A) (cleanup : Pool.total T C unit) :
  pool_keeps P body -> pool_keeps P cleanup -> pool_keeps P (Pool.finally_ body cleanup).
Proof.
  intros Hb Hc w H. unfold Pool.finally_. specialize (Hb w H).
  destruct (body w) as [a w']. now apply Hc.
Qed.

Lemma pool_keeps_answer {A} (a : A) : pool_keeps P (fun w : Pool.session T C => (a, w)).
Proof. intros w H. exact H. Qed.

Lemma pool_keeps_rolled_back {A} (a : A) :
  pool_keeps P (fun w : Pool.session T C => let (_, w') := Pool.rollback w in (a, w')).
Proof. intros w [Hc _]. split; [exact Hc|exact I]. Qed.

(** What a kept property means for a request served. *)
Lemma pool_keeps_run {A} (h : Pool.total T C A) s c fl :
  pool_keeps P h -> P s -> P (snd (fst (Pool.run h s c fl))).
Proof.
  intros Hh Hs. unfold Pool.run.
  match goal with |- context [h ?w] => specialize (Hh w); destruct (h w) as [r w'] end.
  cbn in *. apply Hh. split; [exact Hs|exact I].
Qed.

End PoolKeeping.

Section CatalogueKeeping.

Context {collation : Collation} {charset : Charset}.

Import Catalogue CatalogueShape.

Lemma distinct_names_more g l :
  distinct_names l = true ->
  existsb (fun h => same (tg_name h) (tg_name g)) l = false ->
  distinct_names (l ++ [g]) = true.
Proof.
  induction l as [|x l IH]; cbn [distinct_names app existsb]; [reflexivity|].
  rewrite andb_true_iff, negb_true_iff, orb_false_iff.
  intros [Hx Hl] [Hgx Hg]. rewrite existsb_app, Hx, (IH Hl Hg). cbn.
  now rewrite same_sym, Hgx.
Qed.

Lemma existsb_filter_none {A} (f keep : A -> bool) l :
  existsb f l = false -> existsb f (filter keep l) = false.
Proof.
  rewrite !existsb_none. intros H x Hx. apply filter_In in Hx. now apply H.
Qed.

Lemma distinct_names_fewer keep l :
  distinct_names l = true -> distinct_names (filter keep l) = true.
Proof.
  induction l as [|x l IH]; cbn [distinct_names filter]; [reflexivity|].
  rewrite andb_true_iff, negb_true_iff. intros [Hx Hl].
  destruct (keep x); [|now apply IH].
  cbn [distinct_names]. now rewrite existsb_filter_none, IH.
Qed.

Lemma distinct_names_renamed id n l :
  distinct_names l = true ->
  (1 <? affected (fun g => tg_id g =? id) l) = false ->
  existsb (fun g => negb (tg_id g =? id) && same (tg_name g) n) l = false ->
  distinct_names (map (fun g => if tg_id g =? id
                                then {| tg_id := tg_id g; tg_name := n |} else g) l) = true.
Proof.
  unfold affected. induction l as [|x l IH]; cbn [distinct_names map filter existsb];
    [reflexivity|].
  rewrite andb_true_iff, negb_true_iff, orb_false_iff. intros [Hx Hl] Hone [Hxn Hn].
  destruct (tg_id x =? id) eqn:E.
  - assert (Hnone : existsb (fun g => tg_id g =? id) l = false).
    { destruct (existsb (fun g => tg_id g =? id) l) eqn:Hex; [|reflexivity].
      rewrite <- (affected_positive (fun g => tg_id g =? id) l) in Hex. unfold affected in Hex.
      apply Z.ltb_lt in Hex. apply Z.ltb_ge in Hone. cbn [List.length] in Hone. lia. }
    rewrite map_untouched by exact Hnone. cbn [distinct_names tg_name].
    rewrite Hl, andb_true_r. apply negb_true_iff, existsb_none. intros h Hh.
    pose proof (proj1 (existsb_none _ _) Hn h Hh) as Hhn. cbn in Hhn.
    now rewrite (proj1 (existsb_none _ _) Hnone h Hh) in Hhn.
  - cbn [negb andb] in Hxn. cbn [distinct_names].
    rewrite IH by assumption. rewrite andb_true_r. apply negb_true_iff, existsb_none.
    intros h Hh. apply in_map_iff in Hh. destruct Hh as (h0 & <- & Hh0).
    destruct (tg_id h0 =? id); cbn [tg_name].
    + now rewrite same_sym.
    + exact (proj1 (existsb_none _ _) Hx h0 Hh0).
Qed.

Lemma distinct_numbers_more t l :
  distinct_numbers l = true ->
  existsb (fun u => tr_table_number u =? tr_table_number t) l = false ->
  distinct_numbers (l ++ [t]) = true.
Proof.
  induction l as [|x l IH]; cbn [distinct_numbers app existsb]; [reflexivity|].
  rewrite andb_true_iff, negb_true_iff, orb_false_iff.
  intros [Hx Hl] [Htx Ht]. rewrite existsb_app, Hx, (IH Hl Ht). cbn.
  now rewrite Z.eqb_sym, Htx.
Qed.

Lemma catalogue_references_spec s :
  references_hold s = true <->
  (forall r, In r (order_items s) -> has_dish s (oi_menu_item_id r) = true) /\
  (forall r, In r (recipe_items s) ->
     has_dish s (rec_menu_item_id r) = true /\ has_ingredient s (rec_ingredient_id r) = true) /\
  (forall r, In r (waste_log s) -> has_ingredient s (waste_ingredient_id r) = true).
Proof.
  unfold references_hold. rewrite !andb_true_iff, !forallb_forall.
  split.
  - intros [[Ho Hr] Hw]. split; [exact Ho|]. split; [|exact Hw].
    intros r Hin. apply andb_true_iff. now apply Hr.
  - intros (Ho & Hr & Hw). split; [split; [exact Ho|]|exact Hw].
    intros r Hin. apply andb_true_iff. now apply Hr.
Qed.

Lemma insert_group_keeps name : pool_statement_keeps sound (insert_group name).
Proof.
  intros s c a s' c'. unfold insert_group.
  destruct (fits 255 name); cbn [andb]; [|discriminate].
  destruct (existsb (fun g => same (tg_name g) name) (table_groups s)) eqn:E; [discriminate|].
  intros [= _ <- _] (Hn & Hnum & Hrefs). split; [|split; assumption].
  cbn [table_groups with_table_groups]. now apply distinct_names_more.
Qed.

Lemma update_group_name_keeps name id : pool_statement_keeps sound (update_group_name name id).
Proof.
  intros s c a s' c'. unfold update_group_name.
  destruct (existsb (fun g => tg_id g =? id) (table_groups s)) eqn:Hid; cbn [andb].
  - destruct (fits 255 name); cbn [negb orb]; [|discriminate].
    destruct (1 <? affected _ _) eqn:Hone; cbn [orb]; [discriminate|].
    destruct (existsb (fun g => negb (tg_id g =? id) && same (tg_name g) name)
                (table_groups s)) eqn:Hother; [discriminate|].
    intros [= _ <- _] (Hn & Hnum & Hrefs). split; [|split; assumption].
    cbn [table_groups with_table_groups]. now apply distinct_names_renamed.
  - intros [= _ <- _]. rewrite map_untouched by exact Hid. now destruct s.
Qed.

Lemma delete_group_keeps id : pool_statement_keeps sound (delete_group id).
Proof.
  intros s c a s' c' [= _ <- _] (Hn & Hnum & Hrefs). split; [|split; assumption].
  cbn [table_groups with_table_groups]. now apply distinct_names_fewer.
Qed.

Lemma insert_table_keeps number name qr group :
  pool_statement_keeps sound (insert_table number name qr group).
Proof.
  intros s c a s' c'. rewrite insert_table_spec.
  destruct (existsb (fun t => tr_table_number t =? number) (restaurant_tables s)) eqn:E.
  - rewrite andb_false_r. discriminate.
  - destruct (in_int number && _ && _ && negb false); [|discriminate].
    intros [= _ <- _] (Hn & Hnum & Hrefs). split; [exact Hn|]. split; [|exact Hrefs].
    cbn [restaurant_tables with_restaurant_tables]. now apply distinct_numbers_more.
Qed.

Lemma has_dish_spec s id :
  has_dish s id = true <-> exists d, In d (menu_items s) /\ dish_id d = id.
Proof.
  unfold has_dish. rewrite existsb_exists. split; intros (d & Hin & Hd); exists d;
    (split; [exact Hin|]); now apply Z.eqb_eq.
Qed.

Lemma has_ingredient_spec s id :
  has_ingredient s id = true <-> exists i, In i (ingredients s) /\ ing_id i = id.
Proof.
  unfold has_ingredient. rewrite existsb_exists. split; intros (i & Hin & Hi); exists i;
    (split; [exact Hin|]); now apply Z.eqb_eq.
Qed.

Lemma delete_dishes_keeps doomed : pool_statement_keeps sound (delete_dishes doomed).
Proof.
  intros s c a s' c'. unfold delete_dishes.
  destruct (existsb _ (menu_items s)) eqn:Hfree; [discriminate|].
  intros [= _ <- _] (Hn & Hnum & Hrefs). split; [exact Hn|]. split; [exact Hnum|].
  assert (Hstays : forall id, dish_referenced s id = true -> has_dish s id = true ->
            has_dish (with_menu_items (filter (fun d => negb (doomed d)) (menu_items s)) s) id
            = true).
  { intros id Href Hhas. apply has_dish_spec in Hhas. destruct Hhas as (d & Hin & Hd).
    apply has_dish_spec. exists d. split; [|exact Hd].
    cbn [menu_items with_menu_items]. apply filter_In. split; [exact Hin|].
    pose proof (proj1 (existsb_none _ _) Hfree d Hin) as Hd'. cbn in Hd'.
    rewrite Hd, Href, andb_true_r in Hd'. now rewrite Hd'. }
  apply catalogue_references_spec in Hrefs. destruct Hrefs as (Ho & Hr & Hw).
  apply catalogue_references_spec. split; [|split].
  - intros r Hin. apply Hstays; [|now apply Ho].
    unfold dish_referenced. apply orb_true_iff. left. apply existsb_exists. exists r.
    split; [exact Hin|apply Z.eqb_refl].
  - intros r Hin. destruct (Hr r Hin) as [Hd Hi]. split; [|exact Hi].
    apply Hstays; [|exact Hd].
    unfold dish_referenced. apply orb_true_iff. right. apply existsb_exists. exists r.
    split; [exact Hin|apply Z.eqb_refl].
  - exact Hw.
Qed.

Lemma insert_placeholder_keeps category : pool_statement_keeps sound (insert_placeholder category).
Proof.
  intros s c a s' c'. unfold insert_placeholder.
  destruct (fits 100 category); [|discriminate].
  intros [= _ <- _] (Hn & Hnum & Hrefs). split; [exact Hn|]. split; [exact Hnum|].
  assert (Hmore : forall id, has_dish s id = true ->
            has_dish (with_menu_items
                        (menu_items s ++ [placeholder_row (next_menu_item_id c) category]) s) id
            = true).
  { intros id. unfold has_dish. cbn [menu_items with_menu_items]. rewrite existsb_app.
    now intros ->. }
  apply catalogue_references_spec in Hrefs. destruct Hrefs as (Ho & Hr & Hw).
  apply catalogue_references_spec. split; [|split].
  - intros r Hin. now apply Hmore, Ho.
  - intros r Hin. destruct (Hr r Hin) as [Hd Hi]. split; [now apply Hmore|exact Hi].
  - exact Hw.
Qed.

Lemma delete_recipe_items_of_keeps id : pool_statement_keeps sound (delete_recipe_items_of id).
Proof.
  intros s c a s' c' [= _ <- _] (Hn & Hnum & Hrefs). split; [exact Hn|]. split; [exact Hnum|].
  apply catalogue_references_spec in Hrefs. destruct Hrefs as (Ho & Hr & Hw).
  apply catalogue_references_spec. split; [exact Ho|]. split; [|exact Hw].
  intros r Hin. cbn [recipe_items with_recipe_items] in Hin. apply filter_In in Hin.
  now apply Hr.
Qed.

Lemma delete_waste_of_keeps id : pool_statement_keeps sound (delete_waste_of id).
Proof.
  intros s c a s' c' [= _ <- _] (Hn & Hnum & Hrefs). split; [exact Hn|]. split; [exact Hnum|].
  apply catalogue_references_spec in Hrefs. destruct Hrefs as (Ho & Hr & Hw).
  apply catalogue_references_spec. split; [exact Ho|]. split; [exact Hr|].
  intros r Hin. cbn [waste_log with_waste_log] in Hin. apply filter_In in Hin.
  now apply Hw.
Qed.

Lemma delete_ingredient_row_keeps id : pool_statement_keeps sound (delete_ingredient_row id).
Proof.
  intros s c a s' c'. unfold delete_ingredient_row.
  destruct (existsb (fun i => ing_id i =? id) (ingredients s)
            && (existsb (fun r => rec_ingredient_id r =? id) (recipe_items s)
                || existsb (fun r => waste_ingredient_id r =? id) (waste_log s))) eqn:Hfree;
    [discriminate|].
  intros [= _ <- _] (Hn & Hnum & Hrefs). split; [exact Hn|]. split; [exact Hnum|].
  assert (Hstays : forall k,
            existsb (fun r => rec_ingredient_id r =? k) (recipe_items s)
            || existsb (fun r => waste_ingredient_id r =? k) (waste_log s) = true ->
            has_ingredient s k = true ->
            has_ingredient
              (with_ingredients (filter (fun i => negb (ing_id i =? id)) (ingredients s)) s) k
            = true).
  { intros k Href Hhas. pose proof Hhas as Hhas'.
    apply has_ingredient_spec in Hhas. destruct Hhas as (i & Hin & Hi).
    apply has_ingredient_spec. exists i. split; [|exact Hi].
    cbn [ingredients with_ingredients]. apply filter_In. split; [exact Hin|].
    apply negb_true_iff, Z.eqb_neq. intros Heq.
    assert (Hk : k = id) by congruence. rewrite Hk in Hhas', Href.
    unfold has_ingredient in Hhas'. rewrite Hhas', Href in Hfree. discriminate. }
  apply catalogue_references_spec in Hrefs. destruct Hrefs as (Ho & Hr & Hw).
  apply catalogue_references_spec. split; [exact Ho|]. split.
  - intros r Hin. destruct (Hr r Hin) as [Hd Hi]. split; [exact Hd|].
    apply Hstays; [|exact Hi]. apply orb_true_iff. left. apply existsb_exists. exists r.
    split; [exact Hin|apply Z.eqb_refl].
  - intros r Hin. apply Hstays; [|now apply Hw]. apply orb_true_iff. right.
    apply existsb_exists. exists r. split; [exact Hin|apply Z.eqb_refl].
Qed.

Lemma writing_keeps_sound A (h : route A) : writing h -> pool_keeps sound h.
Proof.
  intros Hw. destruct Hw as [name|id name|id|body|id|name|name|id].
  - unfold post_table_group. apply pool_keeps_try_catch; [|apply pool_keeps_answer].
    destruct (required_name name) as [n|]; [|apply pool_keeps_ret].
    apply pool_keeps_bind; [apply pool_keeps_query|]. intros existing.
    destruct (0 <? List.length existing)%nat; [apply pool_keeps_ret|].
    apply pool_keeps_bind; [apply pool_keeps_execute, insert_group_keeps|]. intros insertId.
    apply pool_keeps_bind; [apply pool_keeps_query|]. intros newGroup. apply pool_keeps_ret.
  - unfold put_table_group. apply pool_keeps_try_catch; [|apply pool_keeps_answer].
    destruct (required_name name) as [n|]; [|apply pool_keeps_ret].
    apply pool_keeps_bind; [apply pool_keeps_execute, update_group_name_keeps|].
    intros affectedRows. destruct (affectedRows =? 0); [apply pool_keeps_ret|].
    apply pool_keeps_bind; [apply pool_keeps_query|]. intros g. apply pool_keeps_ret.
  - unfold delete_table_group. apply pool_keeps_try_catch; [|apply pool_keeps_answer].
    apply pool_keeps_bind; [apply pool_keeps_query|]. intros count.
    destruct (0 <? count); [apply pool_keeps_ret|].
    apply pool_keeps_bind; [apply pool_keeps_execute, delete_group_keeps|].
    intros affectedRows. destruct (affectedRows =? 0); apply pool_keeps_ret.
  - unfold post_table. apply pool_keeps_finally; [|apply pool_keeps_release].
    apply pool_keeps_try_catch; [|apply pool_keeps_rolled_back].
    apply pool_keeps_bind; [apply pool_keeps_beginTransaction|]. intros _.
    destruct (or_null (table_number body)) as [number|].
    + apply pool_keeps_bind; [apply pool_keeps_query|]. intros existingTable.
      destruct (0 <? List.length existingTable)%nat.
      * apply pool_keeps_bind; [apply pool_keeps_lift, pool_keeps_rollback|]. intros _.
        apply pool_keeps_ret.
      * apply pool_keeps_bind; [apply pool_keeps_query|]. intros columnCheck.
        apply pool_keeps_bind; [apply pool_keeps_execute, insert_table_keeps|]. intros insertId.
        apply pool_keeps_bind; [apply pool_keeps_commit|]. intros _.
        apply pool_keeps_bind; [apply pool_keeps_query|]. intros newTable.
        apply pool_keeps_ret.
    + apply pool_keeps_bind; [apply pool_keeps_lift, pool_keeps_rollback|]. intros _.
      apply pool_keeps_ret.
  - unfold delete_menu_item. apply pool_keeps_try_catch; [|apply pool_keeps_answer].
    apply pool_keeps_bind; [apply pool_keeps_query|]. intros count.
    destruct (0 <? count); [apply pool_keeps_ret|].
    apply pool_keeps_bind; [apply pool_keeps_execute, delete_dishes_keeps|].
    intros affectedRows. destruct (affectedRows =? 0); apply pool_keeps_ret.
  - unfold post_category. apply pool_keeps_try_catch; [|apply pool_keeps_answer].
    destruct (required_name name) as [n|]; [|apply pool_keeps_ret].
    apply pool_keeps_bind; [apply pool_keeps_query|]. intros existingCategory.
    destruct (0 <? List.length existingCategory)%nat; [apply pool_keeps_ret|].
    apply pool_keeps_bind; [apply pool_keeps_execute, insert_placeholder_keeps|]. intros _.
    apply pool_keeps_ret.
  - unfold delete_category. apply pool_keeps_try_catch; [|apply pool_keeps_answer].
    apply pool_keeps_bind.
    { intros w H. unfold decoded. now destruct (decodeURIComponent name). }
    intros categoryName.
    apply pool_keeps_bind; [apply pool_keeps_query|]. intros count.
    destruct (0 <? count); [apply pool_keeps_ret|].
    apply pool_keeps_bind; [apply pool_keeps_execute, delete_dishes_keeps|]. intros _.
    apply pool_keeps_ret.
  - unfold delete_ingredient. apply pool_keeps_finally; [|apply pool_keeps_release].
    apply pool_keeps_try_catch; [|apply pool_keeps_rolled_back].
    apply pool_keeps_bind; [apply pool_keeps_beginTransaction|]. intros _.
    apply pool_keeps_bind; [apply pool_keeps_execute, delete_recipe_items_of_keeps|]. intros _.
    apply pool_keeps_bind; [apply pool_keeps_execute, delete_waste_of_keeps|]. intros _.
    apply pool_keeps_bind; [apply pool_keeps_execute, delete_ingredient_row_keeps|]. intros _.
    apply pool_keeps_bind; [apply pool_keeps_commit|]. intros _.
    apply pool_keeps_ret.
Qed.

(** X27.  The constraints of the schema are an invariant of the catalogue
    routes that write: from tables in which group names are distinct for the
    collation, table numbers are distinct, every order item and recipe row
    names an existing dish, and every recipe row and waste row an existing
    ingredient, these routes, served in any number and any order and under
    any failures of their statements, only make tables of which the same
    holds. *)
Theorem catalogue_routes_keep_constraints s0 s :
  reached s0 s -> sound s0 -> sound s.
Proof.
  intros Hreach H0. induction Hreach as [|A h s c fl Hreach IH Hroute]; [exact H0|].
  apply (pool_keeps_run sound); [now apply writing_keeps_sound|exact IH].
Qed.

End CatalogueKeeping.


(** ** The catalogue routes at the small catalogue

    The theorems above at [bistro], under the binary collation and one byte
    per character. *)

Section AtBistro.

#[local] Existing Instance binary_collation.
#[local] Existing Instance single_byte.

Lemma bistro_sound : CatalogueShape.sound bistro.
Proof. repeat split; reflexivity. Qed.

Lemma bistro_group_ids : NoDup (map Catalogue.tg_id (Catalogue.table_groups bistro)).
Proof.
  cbn. apply NoDup_cons; [intros [H|[]]; discriminate|].
  apply NoDup_cons; [intros []|]. apply NoDup_nil.
Qed.

Lemma triple_eta {A B C} (x : A * B * C) : x = (fst (fst x), snd (fst x), snd x).
Proof. now destruct x as [[a b] c]. Qed.

(** X14 at a new group, Garden. *)
Lemma post_table_group_outcomes_witness :
  fst (fst (Pool.run (Catalogue.post_table_group
                        (Some "  Garden  "))
              bistro bistro_counters []))
  = Done None (Some {| Catalogue.tg_id := 3; Catalogue.tg_name := "Garden" |}).
Proof.
  destruct (post_table_group_outcomes (Some "  Garden  ")
              bistro bistro_counters [] _ _ _ (triple_eta _) eq_refl eq_refl)
    as (_ & _ & Hnew).
  destruct (Hnew "  Garden  " eq_refl) as (Hr & _).
  - intros Hblank. vm_compute in Hblank. discriminate.
  - intros g [<-|[<-|[]]]; reflexivity.
  - reflexivity.
  - exact Hr.
Defined.

(** X15 at the terrace, renamed Patio. *)
Lemma put_table_group_outcomes_witness :
  fst (fst (Pool.run (Catalogue.put_table_group 2 (Some "Patio"))
              bistro bistro_counters []))
  = Done None (Some {| Catalogue.tg_id := 2; Catalogue.tg_name := "Patio" |}).
Proof.
  destruct (put_table_group_outcomes 2 (Some "Patio")
              bistro bistro_counters [] _ _ _ (triple_eta _) eq_refl bistro_group_ids)
    as (_ & _ & _ & _ & Hnew).
  destruct (Hnew "Patio" eq_refl) as (Hr & _).
  - intros Hblank. vm_compute in Hblank. discriminate.
  - eexists. split; [right; left; reflexivity|reflexivity].
  - intros g [<-|[<-|[]]] Hg; [reflexivity|now contradiction Hg].
  - reflexivity.
  - exact Hr.
Defined.

(** X16 at the terrace, where table 3 is. *)
Lemma delete_table_group_outcomes_witness :
  fst (fst (Pool.run (Catalogue.delete_table_group 2)
              bistro bistro_counters []))
  = Refused 400 "Cannot delete group used by 1 tables" /\
  snd (fst (Pool.run (Catalogue.delete_table_group 2)
              bistro bistro_counters [])) = bistro.
Proof.
  destruct (delete_table_group_outcomes 2
              bistro bistro_counters [] _ _ _ (triple_eta _) eq_refl)
    as (_ & Hused & _).
  destruct Hused as (Hr & _ & Hs).
  - eexists. split; [left; reflexivity|reflexivity].
  - split; [exact Hr|exact Hs].
Defined.

(** X17 at [bistro], when nothing fails. *)
Lemma get_tables_outcomes_witness :
  exists rows,
    fst (fst (Pool.run (Catalogue.get_tables)
                bistro bistro_counters []))
    = Done None (Some rows) /\
    Permutation (map Catalogue.tv_table rows)
      (filter Catalogue.tr_is_active (Catalogue.restaurant_tables bistro)) /\
    StronglySorted CatalogueShape.by_table_number (map Catalogue.tv_table rows) /\
    forall v, In v rows -> CatalogueShape.listed_as (Catalogue.table_groups bistro) v.
Proof.
  destruct (get_tables_outcomes
              bistro bistro_counters [] _ _ _ (triple_eta _) bistro_group_ids)
    as (_ & _ & Hfirst & _).
  exact (Hfirst eq_refl).
Defined.

(** X18 at table 7, which is out of service. *)
Lemma get_table_outcomes_witness :
  exists v,
    fst (fst (Pool.run (Catalogue.get_table 7)
                bistro bistro_counters []))
    = Done None (Some v) /\
    In (Catalogue.tv_table v) (Catalogue.restaurant_tables bistro) /\
    Catalogue.tr_table_number (Catalogue.tv_table v) = 7 /\
    CatalogueShape.listed_as (Catalogue.table_groups bistro) v.
Proof.
  destruct (get_table_outcomes 7
              bistro bistro_counters [] _ _ _ (triple_eta _) eq_refl)
    as (_ & _ & _ & Hfound).
  apply Hfound. eexists. split; [right; left; reflexivity|reflexivity].
Defined.

(** X19 at a table 12 on the terrace, without a name. *)
Lemma post_table_outcomes_witness :
  exists v,
    fst (fst (Pool.run (Catalogue.post_table
                          {| Catalogue.table_number := Some 12; Catalogue.table_name := None;
                             Catalogue.group_id := Some 2 |})
                bistro bistro_counters []))
    = Done None (Some v) /\
    Catalogue.tv_table v
    = {| Catalogue.tr_id := 10; Catalogue.tr_table_number := 12;
         Catalogue.tr_table_name := "Table 12"; Catalogue.tr_group_id := Some 2;
         Catalogue.tr_qr_code_data := Some "table-12"; Catalogue.tr_is_active := true |} /\
    CatalogueShape.listed_as (Catalogue.table_groups bistro) v.
Proof.
  destruct (post_table_outcomes
              {| Catalogue.table_number := Some 12; Catalogue.table_name := None;
                 Catalogue.group_id := Some 2 |}
              bistro bistro_counters [] _ _ _ (triple_eta _) eq_refl eq_refl)
    as (_ & _ & Hnew).
  destruct (Hnew 12 eq_refl) as (Hr & _).
  - discriminate.
  - intros t [<-|[<-|[<-|[]]]]; discriminate.
  - reflexivity.
  - intros g [= <-]. reflexivity.
  - reflexivity.
  - exact Hr.
Defined.

(** X20 at the same request, when only the last statement fails. *)
Lemma post_table_faults_witness :
  fst (fst (Pool.run (Catalogue.post_table
                        {| Catalogue.table_number := Some 12; Catalogue.table_name := None;
                           Catalogue.group_id := Some 2 |})
              bistro bistro_counters (fault_at 5)))
  = Refused 500 "Failed to create table" /\
  List.length (Catalogue.restaurant_tables
                 (snd (fst (Pool.run (Catalogue.post_table
                                        {| Catalogue.table_number := Some 12;
                                           Catalogue.table_name := None;
                                           Catalogue.group_id := Some 2 |})
                              bistro bistro_counters (fault_at 5))))) = 4%nat.
Proof.
  destruct (post_table_faults
              {| Catalogue.table_number := Some 12; Catalogue.table_name := None;
                 Catalogue.group_id := Some 2 |}
              12 bistro bistro_counters (fault_at 5) _ _ _ (triple_eta _) eq_refl)
    as (_ & Hlast).
  - discriminate.
  - intros t [<-|[<-|[<-|[]]]]; discriminate.
  - reflexivity.
  - intros g [= <-]. reflexivity.
  - reflexivity.
  - destruct Hlast as (Hr & Hs).
    + intros k Hk. destruct k as [|[|[|[|[|k]]]]]; try reflexivity. lia.
    + reflexivity.
    + split; [exact Hr|]. rewrite Hs. reflexivity.
Defined.

(** X21 at the same request. *)
Lemma posted_table_is_found_witness :
  Pool.run (Catalogue.get_table 12)
    (snd (fst (Pool.run (Catalogue.post_table
                           {| Catalogue.table_number := Some 12; Catalogue.table_name := None;
                              Catalogue.group_id := Some 2 |})
                 bistro bistro_counters [])))
    (snd (Pool.run (Catalogue.post_table
                      {| Catalogue.table_number := Some 12; Catalogue.table_name := None;
                         Catalogue.group_id := Some 2 |})
            bistro bistro_counters []))
    []
  = Pool.run (Catalogue.post_table
                {| Catalogue.table_number := Some 12; Catalogue.table_name := None;
                   Catalogue.group_id := Some 2 |})
      bistro bistro_counters [].
Proof.
  rewrite (triple_eta (Pool.run (Catalogue.post_table _)
                         bistro bistro_counters [])) at 3.
  apply (posted_table_is_found
           {| Catalogue.table_number := Some 12; Catalogue.table_name := None;
              Catalogue.group_id := Some 2 |}
           12 bistro bistro_counters [] _ _ _ [] (triple_eta _) eq_refl eq_refl eq_refl).
  - eexists. vm_compute. reflexivity.
  - reflexivity.
Defined.

(** X22 at the lemonade, which only a recipe names. *)
Lemma delete_menu_item_outcomes_witness :
  fst (fst (Pool.run (Catalogue.delete_menu_item 9)
              bistro bistro_counters []))
  = Refused 500 "Failed to delete menu item" /\
  snd (fst (Pool.run (Catalogue.delete_menu_item 9)
              bistro bistro_counters [])) = bistro.
Proof.
  destruct (delete_menu_item_outcomes 9
              bistro bistro_counters [] _ _ _ (triple_eta _) eq_refl)
    as (_ & _ & _ & Hrecipe & _).
  apply Hrecipe.
  - intros i [<-|[<-|[]]]; discriminate.
  - eexists. split; [do 3 right; left; reflexivity|reflexivity].
  - eexists. split; [right; left; reflexivity|reflexivity].
Defined.

(** X28 at the lassi, which nothing names. *)
Lemma deleted_dish_is_gone_witness :
  Pool.run (Catalogue.get_menu_item 7)
    (snd (fst (Pool.run (Catalogue.delete_menu_item 7) bistro bistro_counters [])))
    bistro_counters []
  = (Refused 404 "Menu item not found",
     snd (fst (Pool.run (Catalogue.delete_menu_item 7) bistro bistro_counters [])),
     bistro_counters) /\
  fst (fst (Pool.run (Catalogue.get_menu_item 8)
              (snd (fst (Pool.run (Catalogue.delete_menu_item 7) bistro bistro_counters [])))
              bistro_counters []))
  = Done None (Some (dish 8 "Coffee" 7900 109 "Beverage")).
Proof.
  assert (Hs : Pool.run (Catalogue.delete_menu_item 7) bistro bistro_counters []
               = (Done (Some "Menu item deleted successfully") None,
                  snd (fst (Pool.run (Catalogue.delete_menu_item 7) bistro bistro_counters [])),
                  bistro_counters)) by (vm_compute; reflexivity).
  destruct (deleted_dish_is_gone 7 bistro bistro_counters [] _ _ _ _ [] Hs eq_refl eq_refl)
    as [Hgone Hrest].
  split; [exact Hgone|].
  rewrite (Hrest 8) by discriminate. reflexivity.
Defined.

(** X23 at a new category, Desserts. *)
Lemma post_category_outcomes_witness :
  fst (fst (Pool.run (Catalogue.post_category (Some " Desserts"))
              bistro bistro_counters []))
  = Done (Some "Category created successfully") (Some "Desserts") /\
  Catalogue.menu_items
    (snd (fst (Pool.run (Catalogue.post_category
                           (Some " Desserts"))
                 bistro bistro_counters [])))
  = Catalogue.menu_items bistro ++ [Catalogue.placeholder_row 11 "Desserts"].
Proof.
  destruct (post_category_outcomes (Some " Desserts")
              bistro bistro_counters [] _ _ _ (triple_eta _) eq_refl)
    as (_ & _ & Hnew).
  destruct (Hnew " Desserts" eq_refl) as (Hr & Hs & _).
  - intros Hblank. vm_compute in Hblank. discriminate.
  - intros d cat [<-|[<-|[<-|[<-|[<-|[]]]]]] [= <-]; reflexivity.
  - reflexivity.
  - split; [exact Hr|]. rewrite Hs. reflexivity.
Defined.

(** X24 at the same category. *)
Lemma category_round_trip_witness :
  Pool.run (Catalogue.delete_category "Desserts")
    (snd (fst (Pool.run (Catalogue.post_category
                           (Some " Desserts"))
                 bistro bistro_counters [])))
    (snd (Pool.run (Catalogue.post_category (Some " Desserts"))
            bistro bistro_counters []))
    []
  = (Done (Some "Category deleted successfully") None, bistro,
     snd (Pool.run (Catalogue.post_category (Some " Desserts"))
            bistro bistro_counters [])).
Proof.
  apply (category_round_trip " Desserts"
           bistro bistro_counters [] _ _ _ [] (triple_eta _)).
  - eexists. vm_compute. reflexivity.
  - reflexivity.
  - reflexivity.
  - reflexivity.
  - reflexivity.
  - reflexivity.
Defined.

(** X25 at [bistro] with a category named 50% off, just created: the request
    that names it as it is fails and the category stays; the request that
    writes the sign as an escape deletes it. *)
Lemma delete_category_stray_percent_witness :
  fst (fst (Pool.run (Catalogue.post_category (Some "50% off")) bistro bistro_counters []))
  = Done (Some "Category created successfully") (Some "50% off") /\
  Pool.run (Catalogue.delete_category "50% off")
    (snd (fst (Pool.run (Catalogue.post_category (Some "50% off")) bistro bistro_counters [])))
    (snd (Pool.run (Catalogue.post_category (Some "50% off")) bistro bistro_counters []))
    []
  = (Refused 500 "Failed to delete category",
     snd (fst (Pool.run (Catalogue.post_category (Some "50% off")) bistro bistro_counters [])),
     snd (Pool.run (Catalogue.post_category (Some "50% off")) bistro bistro_counters [])) /\
  existsb (Catalogue.in_category "50% off")
    (Catalogue.menu_items
       (snd (fst (Pool.run (Catalogue.post_category (Some "50% off"))
                    bistro bistro_counters [])))) = true /\
  decodeURIComponent "50%25 off" = Some "50% off" /\
  snd (fst (Pool.run (Catalogue.delete_category "50%25 off")
              (snd (fst (Pool.run (Catalogue.post_category (Some "50% off"))
                           bistro bistro_counters [])))
              (snd (Pool.run (Catalogue.post_category (Some "50% off"))
                      bistro bistro_counters []))
              []))
  = bistro.
Proof.
  destruct (delete_category_stray_percent "50" " off"
              (snd (fst (Pool.run (Catalogue.post_category (Some "50% off"))
                           bistro bistro_counters [])))
              (snd (Pool.run (Catalogue.post_category (Some "50% off"))
                      bistro bistro_counters []))
              [] eq_refl eq_refl) as [Hfails Hescaped].
  split; [vm_compute; reflexivity|]. split; [exact Hfails|].
  split; [vm_compute; reflexivity|]. split; [exact (Hescaped eq_refl)|].
  vm_compute. reflexivity.
Defined.

(** X26 at the cheese, when the commit fails. *)
Lemma delete_ingredient_all_or_nothing_witness :
  fst (fst (Pool.run (Catalogue.delete_ingredient 6)
              bistro bistro_counters (fault_at 4)))
  = Refused 500 "Failed to delete ingredient" /\
  snd (fst (Pool.run (Catalogue.delete_ingredient 6)
              bistro bistro_counters (fault_at 4))) = bistro.
Proof.
  destruct (delete_ingredient_all_or_nothing 6
              bistro bistro_counters (fault_at 4) _ _ _ (triple_eta _))
    as (_ & Hfault & _).
  apply Hfault. exists 4%nat. split; [lia|reflexivity].
Defined.

(** X27 at [bistro] after a new group. *)
Lemma catalogue_routes_keep_constraints_witness :
  CatalogueShape.sound
    (snd (fst (Pool.run (Catalogue.post_table_group
                           (Some "Garden"))
                 bistro bistro_counters []))).
Proof.
  apply (catalogue_routes_keep_constraints bistro).
  - apply (CatalogueShape.reached_run bistro _ _ bistro
             bistro_counters [] (CatalogueShape.reached_start bistro)).
    apply CatalogueShape.writes_post_table_group.
  - exact bistro_sound.
Defined.

End AtBistro.
